(** * Grammar-Correction-App: the multi-backend correction pipeline

    A shallow embedding of the backend services of the repository
    (backend/server.js, backend/src/controllers/huggingFaceGrammarService.js,
    backend/src/middleware/errorHandler.js) and the properties of the
    specification settled against it.

    Conventions of the embedding.
    - A JavaScript string is the list of its UTF-16 code units.
    - A JavaScript number that holds a length, an offset or a count is a [Z];
      a score before [Math.round] is a rational ([Q]).  In [Advanced],
      [Universal] and [Pipeline] the arithmetic on scores is exact;
      [Binary64] is the arithmetic of the runtime (IEEE 754 binary64), and
      [AdvancedDoubles] and [UniversalDoubles] are the similarity and the
      quality score of the two services computed in it.
    - The case mappings are embedded for ASCII and Latin-1 letters; a
      statement that depends on the case of letters is about texts of such
      characters ([latin1]).
    - [await] is sequencing; a rejected promise or a [throw] is the [Threw]
      constructor of [completion].
    - The remote services are oracles: every call receives its request and
      answers with an [http_outcome].  [console.log] calls and the
      [timestamp] fields (wall-clock time) are left out.
    - Time is counted where the code waits: the back-off of a service is
      added to the world, and the client's timeout is applied to it in
      [Server.exchange].
    - The simple regular expressions are written out as functions on
      strings; those of the pattern tables of UniversalGrammarService are
      matched by the engine of the runtime, which is a parameter
      ([Universal.RegExpEngine]). *)

From Stdlib Require Import ZArith QArith Qround Qminmax List String Ascii Bool Lia.
From Stdlib Require Import Sorted Permutation DecimalString.
From Stdlib Require Import Qpower Lqa.
Import ListNotations.
Open Scope Z_scope.

(** ** JavaScript strings and the string operations the services use *)

Module Js.

Definition char := N.
Definition jsstring := list char.

(** An ASCII literal as a JavaScript string. *)
Definition js (s : string) : jsstring :=
  map N_of_ascii (list_ascii_of_string s).

(** [s.length] *)
Definition len (s : jsstring) : Z := Z.of_nat (List.length s).

Definition char_eqb : char -> char -> bool := N.eqb.

(** [a === b] on strings *)
Fixpoint eqb (a b : jsstring) : bool :=
  match a, b with
  | [], [] => true
  | x :: a', y :: b' => char_eqb x y && eqb a' b'
  | _, _ => false
  end.

(** The class [\s] of a regular expression, which is also what [trim]
    removes: WhiteSpace and LineTerminator code units. *)
Definition isSpace (c : char) : bool :=
  ((9 <=? c) && (c <=? 13) || (c =? 32) || (c =? 160) || (c =? 5760)
   || (8192 <=? c) && (c <=? 8202) || (c =? 8232) || (c =? 8233)
   || (c =? 8239) || (c =? 8287) || (c =? 12288) || (c =? 65279))%N.

(** The class [\w] : [A-Za-z0-9_]. *)
Definition isWord (c : char) : bool :=
  ((65 <=? c) && (c <=? 90) || (97 <=? c) && (c <=? 122)
   || (48 <=? c) && (c <=? 57) || (c =? 95))%N.

(** The class [[a-z]]. *)
Definition isLowerAZ (c : char) : bool := ((97 <=? c) && (c <=? 122))%N.

(** [toLowerCase] and [toUpperCase] on one code unit.  The mapping is the
    Unicode one for ASCII and Latin-1 letters; the case tables above U+00FF
    are not embedded and those code units are left as they are. *)
Definition lowerChar (c : char) : char :=
  (if (65 <=? c) && (c <=? 90) then c + 32
   else if (192 <=? c) && (c <=? 222) && negb (c =? 215) then c + 32
   else c)%N.

Definition upperChar (c : char) : char :=
  (if (97 <=? c) && (c <=? 122) then c - 32
   else if (224 <=? c) && (c <=? 254) && negb (c =? 247) then c - 32
   else c)%N.

Definition toLowerCase (s : jsstring) : jsstring := map lowerChar s.

(** [c.toUpperCase()] for a string [c] of one code unit: the sharp s becomes
    two letters, the micro sign and the y with diaeresis leave Latin-1. *)
Definition toUpperCaseUnit (c : char) : jsstring :=
  (if c =? 223 then [83; 83]
   else if c =? 181 then [924]
   else if c =? 255 then [376]
   else [upperChar c])%N.

(** [s.trim()] *)
Fixpoint trimStart (s : jsstring) : jsstring :=
  match s with
  | c :: rest => if isSpace c then trimStart rest else s
  | [] => []
  end.

Definition trimEnd (s : jsstring) : jsstring := rev (trimStart (rev s)).

Definition trim (s : jsstring) : jsstring := trimEnd (trimStart s).

(** [s.startsWith(p)], [s.endsWith(p)], [s.includes(p)] *)
Fixpoint startsWith (s p : jsstring) : bool :=
  match p, s with
  | [], _ => true
  | x :: p', y :: s' => char_eqb x y && startsWith s' p'
  | _ :: _, [] => false
  end.

Definition endsWith (s p : jsstring) : bool := startsWith (rev s) (rev p).

Fixpoint includes (s p : jsstring) : bool :=
  startsWith s p ||
  match s with
  | [] => false
  | _ :: s' => includes s' p
  end.

(** [s.replace(p, '')] with a string pattern: the first occurrence of [p]
    is removed. *)
Fixpoint removeFirst (s p : jsstring) : jsstring :=
  if startsWith s p then skipn (List.length p) s
  else match s with
       | [] => []
       | c :: s' => c :: removeFirst s' p
       end.

(** [s.replace(p, r)] with a string pattern and a replacement without [$]:
    the first occurrence of [p] becomes [r]. *)
Fixpoint replaceFirst (s p r : jsstring) : jsstring :=
  if startsWith s p then r ++ skipn (List.length p) s
  else match s with
       | [] => []
       | c :: s' => c :: replaceFirst s' p r
       end.

(** [s.substring(a, b)]: both indices are clamped to [0, s.length] and
    swapped when [a > b]. *)
Definition clamp (lo hi x : Z) : Z := Z.max lo (Z.min hi x).

Definition substring (s : jsstring) (a b : Z) : jsstring :=
  let a' := clamp 0 (len s) a in
  let b' := clamp 0 (len s) b in
  let from := Z.min a' b' in
  let to := Z.max a' b' in
  firstn (Z.to_nat (to - from)) (skipn (Z.to_nat from) s).

(** [s.substring(a)] *)
Definition substringFrom (s : jsstring) (a : Z) : jsstring :=
  substring s a (len s).

(** [s.slice(a, b)]: a negative index counts from the end; nothing is
    swapped. *)
Definition sliceIndex (s : jsstring) (i : Z) : Z :=
  if i <? 0 then Z.max 0 (len s + i) else Z.min i (len s).

Definition slice (s : jsstring) (a b : Z) : jsstring :=
  let from := sliceIndex s a in
  let to := sliceIndex s b in
  firstn (Z.to_nat (to - from)) (skipn (Z.to_nat from) s).

(** [s.split(/(\s+)/)]: the words and, because of the capture group, the
    whitespace runs between them, alternating and starting with a word.  A
    word is empty where the string starts or ends with whitespace. *)
Fixpoint splitKeepSpaces (s : jsstring) : list jsstring :=
  match s with
  | [] => [[]]
  | c :: rest =>
      match splitKeepSpaces rest with
      | [] => [[c]]
      | w :: more =>
          if isSpace c then
            match w, more with
            | [], run :: more' => [] :: (c :: run) :: more'
            | _, _ => [] :: [c] :: w :: more
            end
          else (c :: w) :: more
      end
  end.

(** [s.split(/\s+/)]: the words alone. *)
Fixpoint everyOther {A} (l : list A) : list A :=
  match l with
  | [] => []
  | x :: [] => [x]
  | x :: _ :: rest => x :: everyOther rest
  end.

Definition splitSpaces (s : jsstring) : list jsstring :=
  everyOther (splitKeepSpaces s).

(** [s.split(sep)] with a one-character string separator. *)
Fixpoint splitOn (sep : char) (s : jsstring) : list jsstring :=
  match s with
  | [] => [[]]
  | c :: rest =>
      match splitOn sep rest with
      | [] => [[c]]
      | w :: more =>
          if char_eqb c sep then [] :: w :: more else (c :: w) :: more
      end
  end.

(** [s.replace(/\s+/g, ' ')] and [s.replace(/\n+/g, ' ')]: every maximal
    run of the class becomes one space. *)
Fixpoint collapseRuns (cls : char -> bool) (inRun : bool) (s : jsstring)
  : jsstring :=
  match s with
  | [] => []
  | c :: rest =>
      if cls c then
        if inRun then collapseRuns cls true rest
        else 32%N :: collapseRuns cls true rest
      else c :: collapseRuns cls false rest
  end.

(** [l.includes(x)] on an array of strings *)
Definition arrayIncludes (l : list jsstring) (x : jsstring) : bool :=
  existsb (eqb x) l.

(** [new Set(l).size] and [[...new Set(l)]] : first occurrences, in
    order. *)
Fixpoint dedupe (seen l : list jsstring) : list jsstring :=
  match l with
  | [] => []
  | x :: rest =>
      if arrayIncludes seen x then dedupe seen rest
      else x :: dedupe (x :: seen) rest
  end.

Definition setOf (l : list jsstring) : list jsstring := dedupe [] l.

(** [s.replace(/\.\s+[a-z]/g, ...)]: the letter that follows a full
    stop and at least one whitespace character is put in upper case.
    [state] is 0, 1 after the full stop, 2 after the whitespace. *)
Fixpoint capitalizeAfterPeriods (state : nat) (s : jsstring) : jsstring :=
  match s with
  | [] => []
  | c :: rest =>
      if (Nat.eqb state 2) && isLowerAZ c
      then upperChar c :: capitalizeAfterPeriods 0 rest
      else if char_eqb c 46%N then c :: capitalizeAfterPeriods 1 rest
      else if isSpace c && negb (Nat.eqb state 0)
      then c :: capitalizeAfterPeriods 2 rest
      else c :: capitalizeAfterPeriods 0 rest
  end.

(** [Math.round]: the nearest integer, a tie going up. *)
Definition round (x : Q) : Z := Qfloor (x + (1 # 2)).

End Js.

(** ** Numbers: IEEE 754 binary64 arithmetic

    The scores are computed on JavaScript Numbers.  A finite Number is the
    rational it stands for; every operation gives the exact result rounded
    to the nearest Number, to the one with the even significand when two
    are equally near.  The exponent range is left open: the embedding is
    that of binary64 wherever no result is beyond 2^1023 or, when not zero,
    below 2^-1022 in magnitude, which holds of every score of a text of a
    length that a string can have. *)

Module Binary64.

(** [2^k] *)
Definition pow2 (k : Z) : Q := Qpower 2 k.

(** The exponent [e] of a positive [x]: [2^e <= x < 2^(e+1)]. *)
Definition exponent (x : Q) : Z :=
  let k := Z.log2 (Qnum x) - Z.log2 (Zpos (Qden x)) in
  if Qle_bool (pow2 k) x then k else k - 1.

(** The integer nearest to [s >= 0], the even one of two equally near. *)
Definition nearestEven (s : Q) : Z :=
  let a := Qnum s in
  let b := Zpos (Qden s) in
  let q := a / b in
  match 2 * (a mod b) ?= b with
  | Lt => q
  | Gt => q + 1
  | Eq => if Z.even q then q else q + 1
  end.

(** A positive [x] rounded to 53 significant bits. *)
Definition roundPositive (x : Q) : Q :=
  let e := exponent x in
  (inject_Z (nearestEven (x * pow2 (52 - e))) * pow2 (e - 52))%Q.

(** The unit roundoff, [2^-53]: half the distance from 1 to the next
    Number, relative to 1. *)
Definition roundoff : Q := 1 # 9007199254740992.

(** The Number nearest to [x]. *)
Definition nearest (x : Q) : Q :=
  match Qnum x with
  | Z0 => 0%Q
  | Zpos _ => roundPositive x
  | Zneg _ => (- roundPositive (- x))%Q
  end.

(** The Number of an integer, and of a decimal literal. *)
Definition ofZ (n : Z) : Q := nearest (inject_Z n).
Definition literal (q : Q) : Q := nearest q.

Definition add (x y : Q) : Q := nearest (x + y).
Definition sub (x y : Q) : Q := nearest (x - y).
Definition mul (x y : Q) : Q := nearest (x * y).
Definition div (x y : Q) : Q := nearest (x / y).

End Binary64.

Import Js.

(** ** Completions, errors and the hosted-model inference API *)

(** What a [throw] carries: the message and, for an error raised by the HTTP
    client, the status of the response it received ([error.response?.status],
    absent for a network failure or for [new Error(...)]). *)
Record Error := mkError {
  errorMessage : jsstring;
  responseStatus : option Z
}.

Definition newError (msg : jsstring) : Error := mkError msg None.

Inductive completion (A : Type) : Type :=
| Returned (a : A)
| Threw (e : Error).
Arguments Returned {A} a.
Arguments Threw {A} e.

(** The outcome of one request of the HTTP client: the promise resolves with
    [response.data], or it is rejected. *)
Inductive http_outcome (D : Type) : Type :=
| Resolved (data : D)
| Rejected (e : Error).
Arguments Resolved {D} data.
Arguments Rejected {D} e.

Module Hf.

(** One element of the array the inference API answers with. *)
Record generation := mkGeneration {
  generated_text : option jsstring;
  summary_text : option jsstring;
  text : option jsstring
}.

(** The upstream: how it answers the n-th request of the process, given
    the model name and the prompt of the request. *)
Definition upstream :=
  nat -> jsstring -> jsstring -> http_outcome (list generation).

(** What a request has changed in the world so far: the number of requests
    sent and the time spent in [setTimeout] back-off. *)
Record world := mkWorld {
  calls : nat;
  sleptMs : Z
}.

Definition start : world := mkWorld 0 0.

Definition sent (w : world) : world := mkWorld (S (calls w)) (sleptMs w).
Definition slept (ms : Z) (w : world) : world :=
  mkWorld (calls w) (sleptMs w + ms).

Definition statusIs (e : Error) (code : Z) : bool :=
  match responseStatus e with
  | Some s => s =? code
  | None => false
  end.

(** [a || b] on optional strings: the empty string is falsy too. *)
Definition truthy (o : option jsstring) : option jsstring :=
  match o with
  | Some (c :: s) => Some (c :: s)
  | _ => None
  end.

Definition orElse (a b : option jsstring) : option jsstring :=
  match truthy a with
  | Some s => Some s
  | None => b
  end.

End Hf.

(** ** AdvancedHuggingFaceGrammarService
    (backend/src/controllers/huggingFaceGrammarService.js)

    Of this service the guards of [correctText], [queryModel],
    [calculateSimilarity], [findTextChanges], [calculateQualityScore],
    [calculateConfidence] and [fallbackCorrection] are embedded. *)

Module Advanced.
Import Hf.

(** The guards at the head of [correctText]; [None] when the text goes on
    to the correction steps. *)
Definition inputGuard (text : jsstring) : option Error :=
  if len text =? 0 then Some (newError (js "Invalid text input"))
  else if len (trim text) =? 0 then Some (newError (js "Text cannot be empty"))
  else if 15000 <? len text then
    Some (newError
      (js "Text too long. Maximum 15,000 characters for comprehensive analysis."))
  else None.

(** [queryModel]: on a 503 it waits ten seconds and calls itself again.
    The recursion is not bounded in the source, hence the fuel: [None] is
    a run that has not come back after [fuel] requests. *)
Fixpoint queryModel (fuel : nat) (up : upstream) (modelName prompt : jsstring)
         (w : world) : option (completion (list generation) * world) :=
  match fuel with
  | O => None
  | S fuel' =>
      match up (calls w) modelName prompt with
      | Resolved data => Some (Returned data, sent w)
      | Rejected e =>
          if statusIs e 503 then
            queryModel fuel' up modelName prompt (slept 10000 (sent w))
          else
            Some (Threw (newError (js "Model query failed: " ++ errorMessage e)),
                  sent w)
      end
  end.

(** [calculateSimilarity], the quotient taken exactly
    ([AdvancedDoubles.calculateSimilarity] is the quotient as a Number). *)
Definition calculateSimilarity (text1 text2 : jsstring) : Q :=
  let words1 := splitSpaces (toLowerCase text1) in
  let words2 := splitSpaces (toLowerCase text2) in
  let intersection := filter (arrayIncludes words2) words1 in
  let union := setOf (words1 ++ words2) in
  (inject_Z (Z.of_nat (List.length intersection))
   / inject_Z (Z.of_nat (List.length union)))%Q.

(** [findTextChanges] *)
Record Change := mkChange {
  original : jsstring;
  corrected : jsstring;
  position : Z;
  confidence : Q
}.

Fixpoint walk (originalWords correctedWords : list jsstring) (position : Z)
  : list Change :=
  match originalWords, correctedWords with
  | o :: originalWords', c :: correctedWords' =>
      (if eqb o c then [] else [mkChange o c position (8 # 10)])
      ++ walk originalWords' correctedWords' (position + len o)
  | _, _ => []
  end.

Definition findTextChanges (original corrected : jsstring) : list Change :=
  walk (splitKeepSpaces original) (splitKeepSpaces corrected) 0.

(** [calculateQualityScore].  [None] is NaN: with an empty original the
    length term is 1 - 0/0 when the corrected text is empty too, and
    1 - Infinity otherwise, which the final clamp turns into 0.  The
    arithmetic is exact here, and that of the runtime in
    [AdvancedDoubles.calculateQualityScore]. *)
Definition qualityFactors (original corrected : jsstring) : Q * Q * Q :=
  let lengthConsistency :=
    (1 - inject_Z (Z.abs (len corrected - len original))
         / inject_Z (len original))%Q in
  let originalCount := Z.of_nat (List.length (splitOn 32%N original)) in
  let correctedCount := Z.of_nat (List.length (splitOn 32%N corrected)) in
  let wordConsistency :=
    (1 - inject_Z (Z.abs (correctedCount - originalCount))
         / inject_Z originalCount)%Q in
  (lengthConsistency, wordConsistency,
   calculateSimilarity original corrected).

Definition rawQualityScore (original corrected : jsstring) : Q :=
  let '(lengthConsistency, wordConsistency, similarity) :=
    qualityFactors original corrected in
  ((lengthConsistency * (3 # 10) + wordConsistency * (3 # 10)
    + similarity * (4 # 10)) * 100)%Q.

Definition calculateQualityScore (original corrected : jsstring)
  : option Z :=
  if len original =? 0 then
    if len corrected =? 0 then None else Some 0
  else
    Some (Z.max 0 (Z.min 100 (round (rawQualityScore original corrected)))).

(** [calculateConfidence].  [scoreText.match(/\d+/)?.[0]] is the first run
    of decimal digits of the answer; [parseInt] reads it in base ten. *)
Definition isDigit (c : char) : bool := ((48 <=? c) && (c <=? 57))%N.

Fixpoint readDigits (acc : Z) (s : jsstring) : Z :=
  match s with
  | c :: rest =>
      if isDigit c then readDigits (10 * acc + (Z.of_N c - 48)) rest
      else acc
  | [] => acc
  end.

Fixpoint firstNumber (s : jsstring) : option Z :=
  match s with
  | c :: rest => if isDigit c then Some (readDigits 0 s) else firstNumber rest
  | [] => None
  end.

Inductive Method := AI_assessment | similarity_based.

Record Confidence := mkConfidence {
  overallConfidence : option Z;
  method : Method
}.

Definition confidencePrompt (original corrected : jsstring) : jsstring :=
  js "Rate the quality and accuracy of this grammar correction on a scale of 0-100. Consider if all errors were fixed correctly without introducing new mistakes."
  ++ [10; 10]%N ++ js "Original: " ++ [34%N] ++ original ++ [34; 10]%N
  ++ js "Corrected: " ++ [34%N] ++ corrected ++ [34; 10; 10]%N
  ++ js "Confidence score (0-100):".

(** The fall-back estimate; [None] is NaN (both texts empty). *)
Definition similarityConfidence (original corrected : jsstring)
  : option Z :=
  if (len original =? 0) && (len corrected =? 0) then None
  else
    let similarity := calculateSimilarity original corrected in
    let lengthRatio :=
      if (len original =? 0) || (len corrected =? 0) then 0%Q
      else Qmin (inject_Z (len corrected) / inject_Z (len original))%Q
                (inject_Z (len original) / inject_Z (len corrected))%Q in
    Some (round ((similarity * (7 # 10) + lengthRatio * (3 # 10)) * 100)%Q).

Definition calculateConfidence (fuel : nat) (up : upstream)
           (original corrected : jsstring) (w : world)
  : option (Confidence * world) :=
  match queryModel fuel up (js "google/flan-t5-large")
                   (confidencePrompt original corrected) w with
  | None => None
  | Some (Returned ({| generated_text := Some scoreText |} :: _), w') =>
      let score :=
        match firstNumber scoreText with
        | Some n => n
        | None => 75
        end in
      Some (mkConfidence (Some (Z.max 0 (Z.min 100 score))) AI_assessment, w')
  | Some (_, w') =>
      Some (mkConfidence (similarityConfidence original corrected)
                         similarity_based, w')
  end.

(** [fallbackCorrection].  The rule table; every key is made of letters and
    spaces, so that [new RegExp(wrong, 'gi')] is the literal with the case
    of ASCII letters ignored, found anywhere in the text. *)
Definition rules : list (jsstring * jsstring) :=
  [ (js "will went", js "will go"); (js "was went", js "went");
    (js "have went", js "have gone"); (js "has went", js "has gone");
    (js "I are", js "I am"); (js "he are", js "he is");
    (js "she are", js "she is"); (js "they is", js "they are");
    (js "me and him", js "he and I");
    (js "between you and I", js "between you and me");
    (js "a university", js "a university");
    (js "an university", js "a university"); (js "a hour", js "an hour");
    (js "recieve", js "receive"); (js "seperate", js "separate");
    (js "definately", js "definitely"); (js "occurance", js "occurrence") ].

Fixpoint matchesLiteral (literal s : jsstring) : bool :=
  match literal with
  | [] => true
  | p :: literal' =>
      match s with
      | c :: s' =>
          char_eqb (upperChar c) (upperChar p) && matchesLiteral literal' s'
      | [] => false
      end
  end.

(** [text.replace(new RegExp(wrong, 'gi'), right)]: every match, left to
    right; [skip] counts the characters of the current match still to be
    dropped. *)
Fixpoint replaceLiteral (literal right_ : jsstring) (skip : nat) (s : jsstring)
  : jsstring :=
  match s with
  | [] => []
  | c :: rest =>
      match skip with
      | S skip' => replaceLiteral literal right_ skip' rest
      | O =>
          if matchesLiteral literal s
          then right_ ++ replaceLiteral literal right_ (List.length literal - 1)
                          rest
          else c :: replaceLiteral literal right_ 0 rest
      end
  end.

Record Correction := mkCorrection {
  correctionOriginal : jsstring;
  correction : jsstring;
  message : jsstring;
  category : jsstring;
  correctionConfidence : Z
}.

Record Analysis := mkAnalysis {
  errorCategories : list jsstring;
  confidenceScore : Z;
  linguisticCoverageGrammar : Z;
  qualityScore : Z
}.

Record Statistics := mkStatistics {
  totalErrors : Z;
  correctedErrors : Z;
  statisticsConfidenceScore : Z;
  processingTime : Z;
  originalLength : Z;
  correctedLength : Z
}.

Record Result := mkResult {
  originalText : jsstring;
  correctedText : jsstring;
  corrections : list Correction;
  analysis : Analysis;
  statistics : Statistics;
  serviceUsed : jsstring;
  models : list jsstring
}.

Definition applyRule (state : jsstring * list Correction)
           (rule : jsstring * jsstring) : jsstring * list Correction :=
  let '(corrected, corrections) := state in
  let '(wrong, right_) := rule in
  if includes corrected wrong then
    (replaceLiteral wrong right_ 0 corrected,
     corrections ++
     [mkCorrection wrong right_
        (js "Grammar rule: " ++ wrong ++ [32; 8594; 32]%N ++ right_)
        (js "Grammar") 85])
  else state.

Definition fallbackCorrection (text : jsstring) : Result :=
  let '(corrected, corrections) := fold_left applyRule rules (text, []) in
  {| originalText := text;
     correctedText := corrected;
     corrections := corrections;
     analysis :=
       {| errorCategories := [js "Grammar"; js "Spelling"];
          confidenceScore := 75;
          linguisticCoverageGrammar := Z.of_nat (List.length corrections);
          qualityScore := 75 |};
     statistics :=
       {| totalErrors := Z.of_nat (List.length corrections);
          correctedErrors := Z.of_nat (List.length corrections);
          statisticsConfidenceScore := 75;
          processingTime := 200;
          originalLength := len text;
          correctedLength := len corrected |};
     serviceUsed := js "Fallback Rules";
     models := [js "rule-based"] |}.

End Advanced.

(** ** UniversalGrammarService (backend/server.js) *)

Module Universal.
Import Hf.

Definition models : list jsstring :=
  [js "grammarly/coedit-large"; js "microsoft/DialoGPT-large";
   js "google/flan-t5-large"; js "facebook/bart-large"; js "t5-base"].

Definition quoted (s : jsstring) : jsstring := [34%N] ++ s ++ [34%N].
Definition nl : jsstring := [10%N].

(** The five prompts of [tryMultipleAIApproaches]. *)
Definition prompts (text : jsstring) : list jsstring :=
  [ js "Please fix all grammar, spelling, and punctuation errors in this text. Return only the corrected version:"
      ++ nl ++ nl ++ quoted text ++ nl ++ nl ++ js "Corrected text:";
    js "As a grammar expert, correct this text and fix any errors:" ++ nl
      ++ js "Text: " ++ text ++ nl ++ js "Corrected:";
    js "Input: " ++ text ++ nl ++ js "Task: Fix grammar and spelling errors"
      ++ nl ++ js "Output:";
    js "Correct all errors in: " ++ quoted text ++ nl ++ js "Fixed version:";
    js "Please proofread and correct this text for grammar, spelling, and clarity:"
      ++ nl ++ nl ++ quoted text ++ nl ++ nl ++ js "Professional version:" ].

(** [queryModel]: one retry, fifteen seconds after a 503. *)
Definition queryModel (up : upstream) (modelName prompt : jsstring)
           (w : world) : completion (list generation) * world :=
  match up (calls w) modelName prompt with
  | Resolved data => (Returned data, sent w)
  | Rejected error =>
      if statusIs error 503 then
        let w1 := slept 15000 (sent w) in
        match up (calls w1) modelName prompt with
        | Resolved data => (Returned data, sent w1)
        | Rejected _ =>
            (Threw (newError (js "Model still loading after retry")), sent w1)
        end
      else if statusIs error 429 then
        (Threw (newError (js "Rate limit exceeded")), sent w)
      else if statusIs error 401 then
        (Threw (newError (js "Invalid API key")), sent w)
      else (Threw error, sent w)
  end.

(** [isValidCorrection] *)
Definition isValidCorrection (original corrected : jsstring) : bool :=
  if len corrected =? 0 then false
  else if len corrected <? 3 then false
  else if eqb corrected original then false
  else if includes corrected original && (len original * 2 <? len corrected)
  then false
  else
    let lengthDiff := Z.abs (len corrected - len original) in
    if len original <? lengthDiff then false else true.

(** [extractCorrectedText] *)
Definition stripPromptLine (corrected line : jsstring) : jsstring :=
  if negb (len (trim line) =? 0) && includes corrected (trim line)
  then trim (removeFirst corrected (trim line))
  else corrected.

Definition prefixes : list jsstring :=
  [js "Corrected text:"; js "Professional version:"; js "Fixed version:";
   js "Output:"; js "Corrected:"; js "Fixed:"; js "Result:"; js "Answer:";
   js "Here is the corrected text:"; js "The corrected version is:";
   js "Corrected sentence:"].

Definition stripPrefix (corrected prefix : jsstring) : jsstring :=
  if startsWith (toLowerCase corrected) (toLowerCase prefix)
  then trim (substringFrom corrected (len prefix))
  else corrected.

Definition stripQuotes (corrected : jsstring) : jsstring :=
  if (startsWith corrected [34%N] && endsWith corrected [34%N])
     || (startsWith corrected [39%N] && endsWith corrected [39%N])
  then slice corrected 1 (-1)
  else corrected.

Definition isNewline (c : char) : bool := (c =? 10)%N.

Definition extractCorrectedText (response originalPrompt : jsstring)
  : jsstring :=
  if len response =? 0 then []
  else
    let corrected := trim response in
    let corrected :=
      fold_left stripPromptLine (splitOn 10%N originalPrompt) corrected in
    let corrected := fold_left stripPrefix prefixes corrected in
    let corrected := stripQuotes corrected in
    trim (collapseRuns isNewline false corrected).

(** One correction record.  [position] is only set by
    [analyzeCorrections]. *)
Record Correction := mkCorrection {
  original : jsstring;
  correction : jsstring;
  category : jsstring;
  message : jsstring;
  confidence : Z;
  position : option Z
}.

(** [analyzeCorrections] *)
Definition improved (o c : jsstring) : jsstring :=
  js "Improved: " ++ quoted o ++ [32; 8594; 32]%N ++ quoted c.

Fixpoint compareWords (originalWords correctedWords : list jsstring) (i : Z)
  : list Correction :=
  match originalWords, correctedWords with
  | o :: originalWords', c :: correctedWords' =>
      (if negb (eqb o c) && negb (len (trim o) =? 0)
          && negb (len (trim c) =? 0)
       then [mkCorrection o c (js "Grammar") (improved o c) 75 (Some i)]
       else [])
      ++ compareWords originalWords' correctedWords' (i + 1)
  | _, _ => []
  end.

Definition lengthDifference (originalWords correctedWords : list jsstring)
  : list Correction :=
  let n := List.length originalWords in
  let m := List.length correctedWords in
  if (n <? m)%nat then
    [mkCorrection (js "missing words") (js "added words") (js "Grammar")
                  (js "Added necessary words for clarity") 70 None]
  else if (m <? n)%nat then
    [mkCorrection (js "extra words") (js "removed words") (js "Style")
                  (js "Removed unnecessary words") 70 None]
  else [].

Definition analyzeCorrections (original corrected : jsstring)
  : list Correction :=
  let originalWords := splitKeepSpaces (toLowerCase original) in
  let correctedWords := splitKeepSpaces (toLowerCase corrected) in
  compareWords originalWords correctedWords 0
  ++ lengthDifference originalWords correctedWords.

(** [calculateSimilarity], the quotient taken exactly
    ([UniversalDoubles.calculateSimilarity] is the quotient as a Number). *)
Definition calculateSimilarity (text1 text2 : jsstring) : Q :=
  let words1 := splitSpaces (toLowerCase text1) in
  let words2 := splitSpaces (toLowerCase text2) in
  let intersection := filter (arrayIncludes words2) words1 in
  let union := setOf (words1 ++ words2) in
  (inject_Z (Z.of_nat (List.length intersection))
   / inject_Z (Z.of_nat (List.length union)))%Q.

(** [calculateQualityScore].  With an empty original and a different
    corrected text the quotient is +Infinity and the clamp yields 60.  The
    arithmetic is exact here, and that of the runtime in
    [UniversalDoubles.calculateQualityScore]. *)
Definition calculateQualityScore (original corrected : jsstring) : Z :=
  if eqb original corrected then 100
  else if len original =? 0 then 60
  else
    let lengthDiff := Z.abs (len corrected - len original) in
    let similarity := calculateSimilarity original corrected in
    Z.max 60
      (Z.min 100
         (round (85 - (inject_Z lengthDiff / inject_Z (len original)) * 10
                 + similarity * 15)%Q)).

(** [analyzeLinguisticCoverage] *)
Record Coverage := mkCoverage {
  verbTenses : Z; pronouns : Z; articles : Z; prepositions : Z;
  spelling : Z; grammar : Z; collocations : Z; idioms : Z; style : Z
}.

Definition countCategory (coverage : Coverage) (c : Correction) : Coverage :=
  let category := toLowerCase (category c) in
  let '(mkCoverage t p a pr s g co i st) := coverage in
  if includes category (js "tense") then mkCoverage (t + 1) p a pr s g co i st
  else if includes category (js "pronoun")
    then mkCoverage t (p + 1) a pr s g co i st
  else if includes category (js "article")
    then mkCoverage t p (a + 1) pr s g co i st
  else if includes category (js "preposition")
    then mkCoverage t p a (pr + 1) s g co i st
  else if includes category (js "spelling")
    then mkCoverage t p a pr (s + 1) g co i st
  else if includes category (js "style")
    then mkCoverage t p a pr s g co i (st + 1)
  else mkCoverage t p a pr s (g + 1) co i st.

Definition analyzeLinguisticCoverage (corrections : list Correction)
  : Coverage :=
  fold_left countCategory corrections (mkCoverage 0 0 0 0 0 0 0 0 0).

(** [buildResult] *)
Record Analysis := mkAnalysis {
  errorCategories : list jsstring;
  confidenceScore : Z;
  qualityScore : Z;
  linguisticCoverage : Coverage
}.

Record Statistics := mkStatistics {
  totalErrors : Z;
  correctedErrors : Z;
  statisticsConfidenceScore : Z;
  processingTime : Z;
  originalLength : Z;
  correctedLength : Z
}.

Record Result := mkResult {
  originalText : jsstring;
  correctedText : jsstring;
  corrections : list Correction;
  analysis : Analysis;
  statistics : Statistics;
  serviceUsed : jsstring;
  usedModels : list jsstring
}.

Definition count (corrections : list Correction) : Z :=
  Z.of_nat (List.length corrections).

(** [corrections.reduce((sum, c) => sum + c.confidence, 0)] *)
Definition sumConfidence (corrections : list Correction) : Z :=
  fold_left (fun sum c => sum + confidence c) corrections 0.

Definition meanConfidence (corrections : list Correction) : Z :=
  if 0 <? count corrections
  then round (inject_Z (sumConfidence corrections)
              / inject_Z (count corrections))%Q
  else 100.

Definition buildResult (original corrected : jsstring)
           (corrections : list Correction) (serviceUsed : jsstring)
  : Result :=
  {| originalText := original;
     correctedText := corrected;
     corrections := corrections;
     analysis :=
       {| errorCategories := setOf (map category corrections);
          confidenceScore := meanConfidence corrections;
          qualityScore := calculateQualityScore original corrected;
          linguisticCoverage := analyzeLinguisticCoverage corrections |};
     statistics :=
       {| totalErrors := count corrections;
          correctedErrors := count corrections;
          statisticsConfidenceScore := meanConfidence corrections;
          processingTime := 1000;
          originalLength := len original;
          correctedLength := len corrected |};
     serviceUsed := serviceUsed;
     usedModels := [serviceUsed] |}.

(** [tryMultipleAIApproaches]: every model with every prompt, the body of
    the loop inside [try]/[catch] so that a failure moves on to the next
    attempt. *)
Definition attempts (text : jsstring) : list (jsstring * jsstring) :=
  flat_map (fun model => map (fun prompt => (model, prompt)) (prompts text))
           models.

Definition attempt (up : upstream) (text model prompt : jsstring) (w : world)
  : option Result * world :=
  match queryModel up model prompt w with
  | (Returned (result :: _), w') =>
      (match truthy (orElse (generated_text result)
                      (orElse (summary_text result) (Hf.text result))) with
       | Some generatedText =>
           let corrected := extractCorrectedText generatedText prompt in
           if isValidCorrection text corrected then
             let corrections := analyzeCorrections text corrected in
             if 0 <? count corrections then
               Some (buildResult text corrected corrections
                       (js "Hugging Face AI (" ++ model ++ js ")"))
             else None
           else None
       | None => None
       end, w')
  | (_, w') => (None, w')
  end.

Fixpoint tryEach (up : upstream) (text : jsstring)
         (todo : list (jsstring * jsstring)) (w : world) : Result * world :=
  match todo with
  | [] => (buildResult text text [] (js "AI Analysis (No errors found)"), w)
  | (model, prompt) :: rest =>
      match attempt up text model prompt w with
      | (Some result, w') => (result, w')
      | (None, w') => tryEach up text rest w'
      end
  end.

Definition tryMultipleAIApproaches (up : upstream) (text : jsstring)
           (w : world) : Result * world :=
  tryEach up text (attempts text) w.

(** *** The pattern passes of [useIntelligentPatterns]

    The regular expressions of the pattern tables (groups, alternatives,
    back-references) are matched by the engine of the JavaScript runtime,
    which the embedding takes as it finds it: the three operations the
    passes use.  An expression with the flag [g] carries a [lastIndex];
    every pattern object is created by the call that uses it, [test] is its
    first use, and [match] and [replace] start again from index 0, so each
    operation is a function of the expression and of the string. *)

Record RegExp := mkRegExp { source : jsstring; flags : jsstring }.

(** The second argument of [replace]: a replacement string, in which [$1]
    stands for the first group of the match, or a function of the match. *)
Inductive Replacement : Type :=
| ByString (template : jsstring)
| ByFunction (replacer : jsstring -> jsstring).

Record RegExpEngine := mkRegExpEngine {
  (** [regexp.test(s)] *)
  test : RegExp -> jsstring -> bool;
  (** [s.match(regexp)] for an expression with the flag [g]: null, or the
      array of all the matches, which is not empty. *)
  matchAll : RegExp -> jsstring -> option (jsstring * list jsstring);
  (** [s.replace(regexp, replacement)] *)
  replace : RegExp -> Replacement -> jsstring -> jsstring
}.

Record Pattern (R : Type) := mkPattern {
  wrong : RegExp;
  right : R;
  rule : jsstring
}.
Arguments mkPattern {R} wrong right rule.
Arguments wrong {R} p.
Arguments right {R} p.
Arguments rule {R} p.

(** [/source/gi] *)
Definition gi (source : string) : RegExp := mkRegExp (js source) (js "gi").

Definition iPatterns : list (Pattern jsstring) :=
  [ mkPattern (gi "\bI\s+are\b") (js "I am")
      (js "I takes " ++ quoted (js "am"));
    mkPattern (gi "\bI\s+is\b") (js "I am")
      (js "I takes " ++ quoted (js "am"));
    mkPattern (gi "\bI\s+were\b") (js "I was")
      (js "I takes " ++ quoted (js "was") ++ js " (past tense)") ].

Definition singularPatterns : list (Pattern jsstring) :=
  [ mkPattern (gi "\b(he|she|it)\s+are\b") (js "$1 is")
      (js "Singular subjects take " ++ quoted (js "is"));
    mkPattern (gi "\b(he|she|it)\s+were\b") (js "$1 was")
      (js "Singular subjects take " ++ quoted (js "was"));
    mkPattern (gi "\b(he|she|it)\s+don't\b") (js "$1 doesn't")
      (js "Singular subjects use " ++ quoted (js "doesn't") ++ js " not "
         ++ quoted (js "don't"));
    mkPattern (gi "\b(he|she|it)\s+haven't\b") (js "$1 hasn't")
      (js "Singular subjects use " ++ quoted (js "hasn't"));
    mkPattern (gi "\b(he|she|it)\s+weren't\b") (js "$1 wasn't")
      (js "Singular subjects use " ++ quoted (js "wasn't")) ].

Definition pluralPatterns : list (Pattern jsstring) :=
  [ mkPattern (gi "\b(they|we)\s+is\b") (js "$1 are")
      (js "Plural subjects take " ++ quoted (js "are"));
    mkPattern (gi "\b(they|we)\s+was\b") (js "$1 were")
      (js "Plural subjects take " ++ quoted (js "were"));
    mkPattern (gi "\b(they|we)\s+doesn't\b") (js "$1 don't")
      (js "Plural subjects use " ++ quoted (js "don't"));
    mkPattern (gi "\b(they|we)\s+hasn't\b") (js "$1 haven't")
      (js "Plural subjects use " ++ quoted (js "haven't"));
    mkPattern (gi "\b(they|we)\s+wasn't\b") (js "$1 weren't")
      (js "Plural subjects use " ++ quoted (js "weren't"));
    mkPattern (gi "\byou\s+is\b") (js "you are")
      (quoted (js "You") ++ js " takes " ++ quoted (js "are"));
    mkPattern (gi "\byou\s+was\b") (js "you were")
      (quoted (js "You") ++ js " takes " ++ quoted (js "were"));
    mkPattern (gi "\byou\s+doesn't\b") (js "you don't")
      (quoted (js "You") ++ js " uses " ++ quoted (js "don't"));
    mkPattern (gi "\byou\s+hasn't\b") (js "you haven't")
      (quoted (js "You") ++ js " uses " ++ quoted (js "haven't")) ].

Definition namePatterns : list (Pattern jsstring) :=
  [ mkPattern (gi "\b([A-Z][a-z]+)\s+don't\b") (js "$1 doesn't")
      (js "Names (singular) use " ++ quoted (js "doesn't"));
    mkPattern (gi "\b([A-Z][a-z]+)\s+haven't\b") (js "$1 hasn't")
      (js "Names (singular) use " ++ quoted (js "hasn't"));
    mkPattern (gi "\b(the\s+\w+)\s+don't\b") (js "$1 doesn't")
      (js "Singular nouns use " ++ quoted (js "doesn't"));
    mkPattern (gi "\b(my\s+\w+)\s+don't\b") (js "$1 doesn't")
      (js "Singular nouns use " ++ quoted (js "doesn't")) ].

Definition tensePatterns : list (Pattern jsstring) :=
  [ mkPattern (gi "\bhave\s+went\b") (js "have gone")
      (js "Past participle of " ++ quoted (js "go") ++ js " is "
         ++ quoted (js "gone"));
    mkPattern (gi "\bhas\s+went\b") (js "has gone")
      (js "Past participle of " ++ quoted (js "go") ++ js " is "
         ++ quoted (js "gone"));
    mkPattern (gi "\bhave\s+came\b") (js "have come")
      (js "Past participle of " ++ quoted (js "come") ++ js " is "
         ++ quoted (js "come"));
    mkPattern (gi "\bhas\s+came\b") (js "has come")
      (js "Past participle of " ++ quoted (js "come") ++ js " is "
         ++ quoted (js "come"));
    mkPattern (gi "\bhave\s+did\b") (js "have done")
      (js "Past participle of " ++ quoted (js "do") ++ js " is "
         ++ quoted (js "done"));
    mkPattern (gi "\bhas\s+did\b") (js "has done")
      (js "Past participle of " ++ quoted (js "do") ++ js " is "
         ++ quoted (js "done"));
    mkPattern (gi "\b(would|could|should|must|might)\s+of\b") (js "$1 have")
      (js "Use " ++ quoted (js "have") ++ js " not " ++ quoted (js "of")
         ++ js " after modals");
    mkPattern (gi "\bif\s+I\s+would\s+have\s+knew\b") (js "if I had known")
      (js "Third conditional uses " ++ quoted (js "had known"));
    mkPattern (gi "\bif\s+I\s+would\s+have\s+(gone|came|did|ran)\b")
      (js "if I had $1")
      (js "Third conditional uses " ++ quoted (js "had + past participle")) ].

Definition articlePatterns : list (Pattern jsstring) :=
  [ mkPattern (gi "\ba\s+(hour|honest|honor)") (js "an $1")
      (js "Use " ++ quoted (js "an") ++ js " before silent "
         ++ quoted (js "h"));
    mkPattern (gi "\ban\s+(university|user|uniform|unique)") (js "a $1")
      (js "Use " ++ quoted (js "a") ++ js " before " ++ quoted (js "u")
         ++ js " sound like " ++ quoted (js "you"));
    mkPattern (gi "\ba\s+([aeiou]\w*)") (js "an $1")
      (js "Use " ++ quoted (js "an") ++ js " before vowel sounds");
    mkPattern (gi "\ban\s+([bcdfghjklmnpqrstvwxyz]\w*)") (js "a $1")
      (js "Use " ++ quoted (js "a") ++ js " before consonant sounds") ].

Definition prepositionPatterns : list (Pattern jsstring) :=
  [ mkPattern (gi "\bdiscuss\s+about\b") (js "discuss")
      (quoted (js "Discuss") ++ js " doesn't need " ++ quoted (js "about"));
    mkPattern (gi "\bmarried\s+with\b") (js "married to")
      (js "Use " ++ quoted (js "married to") ++ js " not "
         ++ quoted (js "married with"));
    mkPattern (gi "\bdifferent\s+than\b") (js "different from")
      (js "Use " ++ quoted (js "different from") ++ js " not "
         ++ quoted (js "different than"));
    mkPattern (gi "\binterested\s+about\b") (js "interested in")
      (js "Use " ++ quoted (js "interested in"));
    mkPattern (gi "\bdepend\s+of\b") (js "depend on")
      (js "Use " ++ quoted (js "depend on"));
    mkPattern (gi "\blisten\s+music\b") (js "listen to music")
      (js "Use " ++ quoted (js "listen to")) ].

Definition spellingPatterns : list (Pattern jsstring) :=
  [ mkPattern (gi "\brecieve\b") (js "receive")
      (quoted (js "I") ++ js " before " ++ quoted (js "E")
         ++ js " except after " ++ quoted (js "C"));
    mkPattern (gi "\bbelive\b") (js "believe")
      (js "Correct spelling is " ++ quoted (js "believe"));
    mkPattern (gi "\bacheive\b") (js "achieve")
      (js "Correct spelling is " ++ quoted (js "achieve"));
    mkPattern (gi "\boccur*ance\b") (js "occurrence")
      (js "Double " ++ quoted (js "r") ++ js " in "
         ++ quoted (js "occurrence"));
    mkPattern (gi "\bbegining\b") (js "beginning")
      (js "Double " ++ quoted (js "n") ++ js " in "
         ++ quoted (js "beginning"));
    mkPattern (gi "\bcomit+ed\b") (js "committed")
      (js "Double " ++ quoted (js "t") ++ js " in "
         ++ quoted (js "committed"));
    mkPattern (gi "\bdefinately\b") (js "definitely")
      (js "Correct spelling is " ++ quoted (js "definitely"));
    mkPattern (gi "\bseperate\b") (js "separate")
      (js "Correct spelling is " ++ quoted (js "separate"));
    mkPattern (gi "\balot\b") (js "a lot")
      (quoted (js "A lot") ++ js " is two words");
    mkPattern (gi "\btommorow\b") (js "tomorrow")
      (js "One " ++ quoted (js "m") ++ js " in " ++ quoted (js "tomorrow"));
    mkPattern (gi "\bcurrent\s+pursuing\b") (js "currently pursuing")
      (js "Use adverb " ++ quoted (js "currently") ++ js " to modify verb");
    mkPattern (gi "\bim\s+(\w+)") (js "I'm $1")
      (js "Capitalize " ++ quoted (js "I")
         ++ js " and use apostrophe in contractions");
    mkPattern (gi "\bin\s+btech\b") (js "in B.Tech")
      (js "B.Tech should be capitalized with periods") ].

Definition structurePatterns : list (Pattern jsstring) :=
  [ mkPattern (gi "\breturn\s+back\b") (js "return")
      (js "Remove redundant " ++ quoted (js "back"));
    mkPattern (gi "\brepeat\s+again\b") (js "repeat")
      (js "Remove redundant " ++ quoted (js "again"));
    mkPattern (gi "\bfree\s+gift\b") (js "gift")
      (js "Gifts are inherently free");
    mkPattern (gi "\b(\w+)\s+\1\b") (js "$1")
      (js "Remove repeated words") ].

(** [right.replace(/\$1/g, '')] *)
Fixpoint withoutGroup (s : jsstring) : jsstring :=
  match s with
  | [] => []
  | c :: rest =>
      match rest with
      | d :: rest' =>
          if char_eqb c 36%N && char_eqb d 49%N then withoutGroup rest'
          else c :: withoutGroup rest
      | [] => [c]
      end
  end.

(** [corrected.match(/[.!?]$/)] is not null. *)
Definition endsSentence (s : jsstring) : bool :=
  match rev s with
  | c :: _ => char_eqb c 46%N || char_eqb c 33%N || char_eqb c 63%N
  | [] => false
  end.

(** A pass works on the text and on the [corrections] array it is handed,
    to which it pushes. *)
Definition PassState : Type := jsstring * list Correction.

Definition push (corrections : list Correction)
           (original correction category message : jsstring) (confidence : Z)
  : list Correction :=
  corrections
  ++ [mkCorrection original correction category message confidence None].

Section Patterns.

Variable engine : RegExpEngine.

(** The body of the [forEach] of [fixSubjectVerbAgreement] *)
Definition agreementPattern (state : PassState) (pattern : Pattern jsstring)
  : PassState :=
  let '(corrected, corrections) := state in
  if test engine (wrong pattern) corrected then
    let matches := matchAll engine (wrong pattern) corrected in
    let before := corrected in
    let corrected :=
      replace engine (wrong pattern) (ByString (right pattern)) corrected in
    match matches with
    | Some (first, _) =>
        if negb (eqb before corrected) then
          (corrected,
           push corrections first
                (replace engine (wrong pattern) (ByString (right pattern))
                         first)
                (js "Subject-Verb Agreement") (rule pattern) 95)
        else (corrected, corrections)
    | None => (corrected, corrections)
    end
  else state.

Definition fixSubjectVerbAgreement (state : PassState) : PassState :=
  fold_left agreementPattern
            (iPatterns ++ singularPatterns ++ pluralPatterns ++ namePatterns)
            state.

(** [fixVerbTenses] *)
Definition tensePattern (state : PassState) (pattern : Pattern jsstring)
  : PassState :=
  let '(corrected, corrections) := state in
  if test engine (wrong pattern) corrected then
    let before := corrected in
    let corrected :=
      replace engine (wrong pattern) (ByString (right pattern)) corrected in
    if negb (eqb before corrected) then
      (corrected,
       push corrections
            (match matchAll engine (wrong pattern) before with
             | Some (c :: first, _) => c :: first
             | _ => js "tense error"
             end)
            (withoutGroup (right pattern))
            (js "Verb Tense") (rule pattern) 90)
    else (corrected, corrections)
  else state.

Definition fixVerbTenses (state : PassState) : PassState :=
  fold_left tensePattern tensePatterns state.

(** [fixPronouns] *)
Definition pronounPatterns : list (Pattern Replacement) :=
  [ mkPattern
      (gi "\b(me\s+and\s+\w+|(\w+\s+and\s+)?me)\s+(are|is|am|were|was)")
      (ByFunction
         (fun matched =>
            replace engine (mkRegExp (js "\bme\b") (js "g"))
                    (ByString (js "I")) matched))
      (js "Use " ++ quoted (js "I") ++ js " as subject, not "
         ++ quoted (js "me"));
    mkPattern (gi "\bbetween\s+you\s+and\s+I\b")
      (ByString (js "between you and me"))
      (js "Use " ++ quoted (js "me") ++ js " after prepositions");
    mkPattern (gi "\bfor\s+you\s+and\s+I\b")
      (ByString (js "for you and me"))
      (js "Use " ++ quoted (js "me") ++ js " after prepositions");
    mkPattern (gi "\b(me\s+and\s+)?myself\s+(am|is|are)\b")
      (ByString (js "I am"))
      (js "Use " ++ quoted (js "I") ++ js " not " ++ quoted (js "myself")
         ++ js " as subject") ].

Definition pronounPattern (state : PassState) (pattern : Pattern Replacement)
  : PassState :=
  let '(corrected, corrections) := state in
  if test engine (wrong pattern) corrected then
    let before := corrected in
    let corrected := replace engine (wrong pattern) (right pattern) corrected in
    if negb (eqb before corrected) then
      (corrected,
       push corrections (js "pronoun error") (js "corrected pronoun")
            (js "Pronoun") (rule pattern) 88)
    else (corrected, corrections)
  else state.

Definition fixPronouns (state : PassState) : PassState :=
  fold_left pronounPattern pronounPatterns state.

(** [fixArticles] and [fixSpellingAndWordForms] have the same body but for
    the category and the confidence. *)
Definition rewritePattern (category : jsstring) (confidence : Z)
           (state : PassState) (pattern : Pattern jsstring) : PassState :=
  let '(corrected, corrections) := state in
  if test engine (wrong pattern) corrected then
    let matches := matchAll engine (wrong pattern) corrected in
    let corrected :=
      replace engine (wrong pattern) (ByString (right pattern)) corrected in
    match matches with
    | Some (first, _) =>
        (corrected,
         push corrections first
              (replace engine (wrong pattern) (ByString (right pattern)) first)
              category (rule pattern) confidence)
    | None => (corrected, corrections)
    end
  else state.

Definition fixArticles (state : PassState) : PassState :=
  fold_left (rewritePattern (js "Article") 92) articlePatterns state.

Definition fixSpellingAndWordForms (state : PassState) : PassState :=
  fold_left (rewritePattern (js "Spelling/Word Form") 90) spellingPatterns
            state.

(** [fixPrepositions] *)
Definition prepositionPattern (state : PassState)
           (pattern : Pattern jsstring) : PassState :=
  let '(corrected, corrections) := state in
  if test engine (wrong pattern) corrected then
    let matches := matchAll engine (wrong pattern) corrected in
    let corrected :=
      replace engine (wrong pattern) (ByString (right pattern)) corrected in
    match matches with
    | Some (first, _) =>
        (corrected,
         push corrections first (right pattern) (js "Preposition")
              (rule pattern) 85)
    | None => (corrected, corrections)
    end
  else state.

Definition fixPrepositions (state : PassState) : PassState :=
  fold_left prepositionPattern prepositionPatterns state.

(** [fixPunctuationAndCapitalization].  Its three expressions are written
    out: [/\.\s+[a-z]/g] is [capitalizeAfterPeriods], [/\s+/g] is
    [collapseRuns] and [/[.!?]$/] is [endsSentence]. *)
Definition fixPunctuationAndCapitalization (state : PassState) : PassState :=
  let '(corrected, corrections) := state in
  let '(corrected, corrections) :=
    match corrected with
    | first :: rest =>
        if negb (eqb [first] (toUpperCaseUnit first)) then
          (toUpperCaseUnit first ++ rest,
           push corrections (js "lowercase start") (js "uppercase start")
                (js "Capitalization")
                (js "Sentences should start with capital letters") 100)
        else (corrected, corrections)
    | [] => (corrected, corrections)
    end in
  let beforeCap := corrected in
  let corrected := capitalizeAfterPeriods 0 corrected in
  let corrections :=
    if negb (eqb corrected beforeCap) then
      push corrections (js "lowercase after period")
           (js "uppercase after period") (js "Capitalization")
           (js "Capitalize after periods") 98
    else corrections in
  let beforeSpaces := corrected in
  let corrected := trim (collapseRuns isSpace false corrected) in
  let corrections :=
    if negb (eqb corrected beforeSpaces) then
      push corrections (js "extra spaces") (js "single spaces")
           (js "Formatting") (js "Use single spaces between words") 100
    else corrections in
  if (5 <? len corrected) && negb (endsSentence corrected) then
    (corrected ++ js ".",
     push corrections (js "no ending punctuation") (js "added period")
          (js "Punctuation") (js "Sentences should end with punctuation") 85)
  else (corrected, corrections).

(** [improveSentenceStructure].  [right.replace('$1', word)] has a string
    for its pattern and replaces its first occurrence; [word], the head of
    a match, holds word characters and whitespace only, so nothing in it is
    read as a replacement pattern. *)
Definition structurePattern (state : PassState) (pattern : Pattern jsstring)
  : PassState :=
  let '(corrected, corrections) := state in
  if test engine (wrong pattern) corrected then
    let matches := matchAll engine (wrong pattern) corrected in
    let corrected :=
      replace engine (wrong pattern) (ByString (right pattern)) corrected in
    match matches with
    | Some (first, _) =>
        (corrected,
         push corrections first
              (replaceFirst (right pattern) (js "$1")
                            (hd [] (splitOn 32%N first)))
              (js "Style") (rule pattern) 80)
    | None => (corrected, corrections)
    end
  else state.

Definition improveSentenceStructure (state : PassState) : PassState :=
  fold_left structurePattern structurePatterns state.

(** The eight passes in the order of [useIntelligentPatterns]. *)
Definition patternPasses (text : jsstring) : PassState :=
  let state := (text, []) in
  let state := fixSubjectVerbAgreement state in
  let state := fixVerbTenses state in
  let state := fixPronouns state in
  let state := fixArticles state in
  let state := fixPrepositions state in
  let state := fixSpellingAndWordForms state in
  let state := fixPunctuationAndCapitalization state in
  improveSentenceStructure state.

(** What [Date.now() - startTime] evaluates to. *)
Variable elapsed : Z.

(** [useIntelligentPatterns] *)
Definition useIntelligentPatterns (text : jsstring) : Result :=
  let '(corrected, corrections) := patternPasses text in
  buildResult text corrected corrections (js "Intelligent Pattern Analysis").

(** [{...aiResult, statistics: {...aiResult.statistics, processingTime}}] *)
Definition withProcessingTime (aiResult : Result) : Result :=
  let s := statistics aiResult in
  {| originalText := originalText aiResult;
     correctedText := correctedText aiResult;
     corrections := corrections aiResult;
     analysis := analysis aiResult;
     statistics :=
       {| totalErrors := totalErrors s;
          correctedErrors := correctedErrors s;
          statisticsConfidenceScore := statisticsConfidenceScore s;
          processingTime := elapsed;
          originalLength := originalLength s;
          correctedLength := correctedLength s |};
     serviceUsed := serviceUsed aiResult;
     usedModels := usedModels aiResult |}.

(** [correctText].  [tryMultipleAIApproaches] and the pattern passes do
    not throw, so the [catch] branch of the source has no run here. *)
Definition correctText (up : upstream) (text : jsstring) (w : world)
  : completion Result * world :=
  if len text =? 0 then (Threw (newError (js "Invalid text input")), w)
  else if len (trim text) =? 0 then
    (Threw (newError (js "Text cannot be empty")), w)
  else if 15000 <? len text then
    (Threw (newError (js "Text too long. Maximum 15,000 characters.")), w)
  else
    let '(aiResult, w') := tryMultipleAIApproaches up text w in
    if count (corrections aiResult) =? 0 then
      let patternResult := useIntelligentPatterns text in
      if 0 <? count (corrections patternResult)
      then (Returned patternResult, w')
      else (Returned (withProcessingTime aiResult), w')
    else (Returned (withProcessingTime aiResult), w').

End Patterns.

End Universal.

(** ** The quality scores in double precision

    [calculateSimilarity] and [calculateQualityScore] of the two services
    with the arithmetic of the runtime: the lengths and counts are integers,
    every quotient, product, sum and difference is rounded to the nearest
    Number, [0.3] and [0.4] are the Numbers nearest to those decimals, and
    [Math.round] (exact on a Number) and the clamp come last. *)

Module AdvancedDoubles.
Import Binary64.

(** [calculateSimilarity] *)
Definition calculateSimilarity (text1 text2 : jsstring) : Q :=
  let words1 := splitSpaces (toLowerCase text1) in
  let words2 := splitSpaces (toLowerCase text2) in
  let intersection := filter (arrayIncludes words2) words1 in
  let union := setOf (words1 ++ words2) in
  div (ofZ (Z.of_nat (List.length intersection)))
      (ofZ (Z.of_nat (List.length union))).

(** [calculateQualityScore].  [None] is NaN: with an empty original the
    length term is 1 - 0/0 when the corrected text is empty too, and
    1 - Infinity otherwise, which the final clamp turns into 0. *)
Definition calculateQualityScore (original corrected : jsstring)
  : option Z :=
  if len original =? 0 then
    if len corrected =? 0 then None else Some 0
  else
    let lengthConsistency :=
      sub (ofZ 1)
          (div (ofZ (Z.abs (len corrected - len original)))
               (ofZ (len original))) in
    let originalCount := Z.of_nat (List.length (splitOn 32%N original)) in
    let correctedCount := Z.of_nat (List.length (splitOn 32%N corrected)) in
    let wordConsistency :=
      sub (ofZ 1)
          (div (ofZ (Z.abs (correctedCount - originalCount)))
               (ofZ originalCount)) in
    let similarity := calculateSimilarity original corrected in
    let score :=
      mul (add (add (mul lengthConsistency (literal (3 # 10)))
                    (mul wordConsistency (literal (3 # 10))))
               (mul similarity (literal (4 # 10))))
          (ofZ 100) in
    Some (Z.max 0 (Z.min 100 (round score))).

End AdvancedDoubles.

Module UniversalDoubles.
Import Binary64.

(** [calculateSimilarity] *)
Definition calculateSimilarity (text1 text2 : jsstring) : Q :=
  let words1 := splitSpaces (toLowerCase text1) in
  let words2 := splitSpaces (toLowerCase text2) in
  let intersection := filter (arrayIncludes words2) words1 in
  let union := setOf (words1 ++ words2) in
  div (ofZ (Z.of_nat (List.length intersection)))
      (ofZ (Z.of_nat (List.length union))).

(** [calculateQualityScore].  With an empty original and a different
    corrected text the quotient is +Infinity and the clamp yields 60. *)
Definition calculateQualityScore (original corrected : jsstring) : Z :=
  if eqb original corrected then 100
  else if len original =? 0 then 60
  else
    let lengthDiff := ofZ (Z.abs (len corrected - len original)) in
    let similarity := calculateSimilarity original corrected in
    Z.max 60
      (Z.min 100
         (round (add (sub (ofZ 85)
                          (mul (div lengthDiff (ofZ (len original)))
                               (ofZ 10)))
                     (mul similarity (ofZ 15))))).

End UniversalDoubles.

(** ** SmartFreeGrammarService (backend/server.js) *)

Module SmartFree.

Record Language := mkLanguage { name : jsstring; code : jsstring }.

Record Correction := mkCorrection {
  original : jsstring;
  correction : jsstring;
  message : jsstring;
  category : jsstring;
  ruleId : option jsstring
}.

Record Statistics := mkStatistics {
  totalMatches : Z;
  appliedCorrections : Z;
  originalLength : Z;
  correctedLength : Z;
  processingTime : Z
}.

(** [serviceUsed] is absent from what an adapter returns; [correctText]
    adds it. *)
Record Result := mkResult {
  originalText : jsstring;
  correctedText : jsstring;
  corrections : list Correction;
  language : Language;
  statistics : Statistics;
  serviceUsed : option jsstring
}.

Definition english : Language := mkLanguage (js "English") (js "en").

Definition count {A} (l : list A) : Z := Z.of_nat (List.length l).

(** [a || b] where [a] is an optional string field. *)
Definition orDefault (a : option jsstring) (b : jsstring) : jsstring :=
  match a with
  | Some (c :: s) => c :: s
  | _ => b
  end.

(** *** The rule table of [useBasicCorrection] *)

Definition basicCorrections : list (jsstring * jsstring) :=
  [ (js "teh", js "the"); (js "adn", js "and"); (js "ot", js "to");
    (js "fo", js "of"); (js "recieve", js "receive");
    (js "seperate", js "separate"); (js "occurance", js "occurrence");
    (js "definately", js "definitely"); (js "untill", js "until");
    (js "begining", js "beginning"); (js "writting", js "writing");
    (js "thier", js "their"); (js "freind", js "friend");
    (js "wich", js "which"); (js "whcih", js "which");
    (js "alot", js "a lot");
    (js "could of", js "could have"); (js "would of", js "would have");
    (js "should of", js "should have"); (js "its a", js "it's a");
    (js "youre", js "you're"); (js "dont", js "don't");
    (js "cant", js "can't");
    (js "hte", js "the"); (js "nad", js "and"); (js "si", js "is");
    (js "ti", js "it") ].

(** The regular expression [\bwrong\b] with the flags [gi], for a
    literal [wrong] of letters and spaces: a word boundary, the literal
    with the case of ASCII letters ignored, a word boundary. *)
Definition isWordAt (c : option char) : bool :=
  match c with
  | Some c => isWord c
  | None => false
  end.

Definition boundary (before after : option char) : bool :=
  xorb (isWordAt before) (isWordAt after).

(** The literal matched at the head of [s]: the last character matched
    and what follows it. *)
Fixpoint matchLiteral (literal s : jsstring) (last : option char)
  : option (option char * jsstring) :=
  match literal with
  | [] => Some (last, s)
  | p :: literal' =>
      match s with
      | c :: s' =>
          if char_eqb (upperChar c) (upperChar p)
          then matchLiteral literal' s' (Some c)
          else None
      | [] => None
      end
  end.

Definition matchesAt (literal : jsstring) (before : option char)
           (s : jsstring) : bool :=
  boundary before (hd_error s) &&
  match matchLiteral literal s before with
  | Some (last, rest) => boundary last (hd_error rest)
  | None => false
  end.

(** [text.match(regex)] is not null. *)
Fixpoint hasMatch (literal : jsstring) (before : option char) (s : jsstring)
  : bool :=
  matchesAt literal before s ||
  match s with
  | c :: rest => hasMatch literal (Some c) rest
  | [] => false
  end.

(** [text.replace(regex, correct)]: every match, left to right; [skip]
    counts the characters of the current match still to be dropped. *)
Fixpoint replaceMatches (literal correct : jsstring) (skip : nat)
         (before : option char) (s : jsstring) : jsstring :=
  match s with
  | [] => []
  | c :: rest =>
      match skip with
      | S skip' => replaceMatches literal correct skip' (Some c) rest
      | O =>
          if matchesAt literal before s
          then correct
               ++ replaceMatches literal correct
                    (List.length literal - 1) (Some c) rest
          else c :: replaceMatches literal correct 0 (Some c) rest
      end
  end.

Definition hasSpace (s : jsstring) : bool := includes s [32%N].

Definition applyRule (state : jsstring * list Correction)
           (rule : jsstring * jsstring) : jsstring * list Correction :=
  let '(correctedText, corrections) := state in
  let '(wrong, correct) := rule in
  if hasMatch wrong None correctedText then
    (replaceMatches wrong correct 0 None correctedText,
     corrections ++
     [mkCorrection wrong correct
        (js "Common " ++ (if hasSpace wrong then js "grammar"
                          else js "spelling") ++ js " mistake")
        (if hasSpace wrong then js "Grammar" else js "Spelling")
        None])
  else state.

(** [useBasicCorrection] *)
Definition useBasicCorrection (text : jsstring) : Result :=
  let '(correctedText, corrections) :=
    fold_left applyRule basicCorrections (text, []) in
  let '(correctedText, corrections) :=
    if includes correctedText [32; 32]%N then
      (collapseRuns isSpace false correctedText,
       corrections ++
       [mkCorrection (js "multiple spaces") (js "single space")
                     (js "Fixed spacing") (js "Formatting") None])
    else (correctedText, corrections) in
  let correctedText := capitalizeAfterPeriods 0 correctedText in
  {| originalText := text;
     correctedText := correctedText;
     corrections := corrections;
     language := english;
     statistics :=
       {| totalMatches := count corrections;
          appliedCorrections := count corrections;
          originalLength := len text;
          correctedLength := len correctedText;
          processingTime := 150 |};
     serviceUsed := None |}.

(** *** The adapters of the structured-edit services *)

(** [array.sort((a, b) => key(b) - key(a))]: a stable sort, larger keys
    first. *)
Fixpoint insertDescending {A} (key : A -> Z) (x : A) (l : list A) : list A :=
  match l with
  | [] => [x]
  | y :: l' =>
      if key x <? key y then y :: insertDescending key x l' else x :: l
  end.

Fixpoint sortDescending {A} (key : A -> Z) (l : list A) : list A :=
  match l with
  | [] => []
  | x :: l' => insertDescending key x (sortDescending key l')
  end.

(** [before + replacement + after] *)
Definition splice (correctedText : jsstring) (from to : Z)
           (replacement : jsstring) : jsstring :=
  substring correctedText 0 from ++ replacement
  ++ substringFrom correctedText to.

(** Sapling *)
Record SaplingEdit := mkSaplingEdit {
  start : Z;
  end_ : Z;
  replacement : jsstring;
  general_error_type : option jsstring;
  error_type : option jsstring
}.

Definition applySapling (originalText : jsstring)
           (state : jsstring * list Correction) (edit : SaplingEdit)
  : jsstring * list Correction :=
  let '(correctedText, appliedCorrections) := state in
  if negb (len (replacement edit) =? 0) then
    (splice correctedText (start edit) (end_ edit) (replacement edit),
     appliedCorrections ++
     [mkCorrection (substring originalText (start edit) (end_ edit))
                   (replacement edit)
                   (orDefault (general_error_type edit)
                              (js "Grammar/Spelling error"))
                   (orDefault (error_type edit) (js "Grammar"))
                   None])
  else state.

Definition processSaplingResponse (originalText : jsstring)
           (edits : list SaplingEdit) : Result :=
  let sortedEdits := sortDescending start edits in
  let '(correctedText, appliedCorrections) :=
    fold_left (applySapling originalText) sortedEdits (originalText, []) in
  {| originalText := originalText;
     correctedText := correctedText;
     corrections := rev appliedCorrections;
     language := english;
     statistics :=
       {| totalMatches := count edits;
          appliedCorrections := count appliedCorrections;
          originalLength := len originalText;
          correctedLength := len correctedText;
          processingTime := 600 |};
     serviceUsed := None |}.

(** TextGears *)
Record TextGearsError := mkTextGearsError {
  tg_offset : Z;
  tg_length : Z;
  better : list jsstring;
  description : option jsstring;
  tg_type : option jsstring
}.

Definition applyTextGears (originalText : jsstring)
           (state : jsstring * list Correction) (error : TextGearsError)
  : jsstring * list Correction :=
  let '(correctedText, appliedCorrections) := state in
  let bestReplacement := orDefault (hd_error (better error)) [] in
  if negb (len bestReplacement =? 0) then
    (splice correctedText (tg_offset error)
            (tg_offset error + tg_length error) bestReplacement,
     appliedCorrections ++
     [mkCorrection (substring originalText (tg_offset error)
                              (tg_offset error + tg_length error))
                   bestReplacement
                   (orDefault (description error)
                              (js "Grammar/Spelling error"))
                   (orDefault (tg_type error) (js "Grammar"))
                   None])
  else state.

Definition processTextGearsResponse (originalText : jsstring)
           (errors : list TextGearsError) : Result :=
  let sortedErrors := sortDescending tg_offset errors in
  let '(correctedText, appliedCorrections) :=
    fold_left (applyTextGears originalText) sortedErrors
              (originalText, []) in
  {| originalText := originalText;
     correctedText := correctedText;
     corrections := rev appliedCorrections;
     language := english;
     statistics :=
       {| totalMatches := count errors;
          appliedCorrections := count appliedCorrections;
          originalLength := len originalText;
          correctedLength := len correctedText;
          processingTime := 400 |};
     serviceUsed := None |}.

(** LanguageTool *)
Record LtMatch := mkLtMatch {
  lt_offset : Z;
  lt_length : Z;
  replacements : list jsstring;
  lt_message : option jsstring;
  rule_category_name : option jsstring;
  rule_id : option jsstring
}.

Record LtResponse := mkLtResponse {
  matches : list LtMatch;
  language_name : option jsstring;
  language_code : option jsstring
}.

Definition applyLanguageTool (originalText : jsstring)
           (state : jsstring * list Correction) (m : LtMatch)
  : jsstring * list Correction :=
  let '(correctedText, appliedCorrections) := state in
  let bestReplacement := orDefault (hd_error (replacements m)) [] in
  if negb (len bestReplacement =? 0) then
    (splice correctedText (lt_offset m) (lt_offset m + lt_length m)
            bestReplacement,
     appliedCorrections ++
     [mkCorrection (substring originalText (lt_offset m)
                              (lt_offset m + lt_length m))
                   bestReplacement
                   (orDefault (lt_message m) (js "Grammar/Spelling error"))
                   (orDefault (rule_category_name m) (js "Grammar"))
                   (Some (orDefault (rule_id m) (js "unknown")))])
  else state.

Definition processLanguageToolResponse (originalText : jsstring)
           (response : LtResponse) : Result :=
  let sortedMatches :=
    sortDescending lt_offset
      (filter (fun m => (0 <? List.length (replacements m))%nat)
              (matches response)) in
  let '(correctedText, appliedCorrections) :=
    fold_left (applyLanguageTool originalText) sortedMatches
              (originalText, []) in
  {| originalText := originalText;
     correctedText := correctedText;
     corrections := rev appliedCorrections;
     language :=
       mkLanguage (orDefault (language_name response) (js "English"))
                  (orDefault (language_code response) (js "en"));
     statistics :=
       {| totalMatches := count (matches response);
          appliedCorrections := count appliedCorrections;
          originalLength := len originalText;
          correctedLength := len correctedText;
          processingTime := 300 |};
     serviceUsed := None |}.

(** *** The orchestrator *)

(** The credentials read from the environment by the constructor. *)
Record Keys := mkKeys {
  textGearsKey : option jsstring;
  saplingKey : option jsstring
}.

Definition configured (key : option jsstring) : bool :=
  match key with
  | Some (_ :: _) => true
  | _ => false
  end.

(** The three remote services, each answering the one request
    [correctText] may send it. *)
Record Remote := mkRemote {
  sapling : jsstring -> http_outcome (list SaplingEdit);
  textGears : jsstring -> jsstring -> http_outcome (list TextGearsError);
  languageTool : jsstring -> jsstring -> http_outcome LtResponse
}.

Definition statusIs (e : Error) (code : Z) : bool :=
  match responseStatus e with
  | Some s => s =? code
  | None => false
  end.

Section Service.

Variable keys : Keys.
Variable remote : Remote.

(** [useSaplingAI] *)
Definition useSaplingAI (text : jsstring) : completion Result :=
  if negb (configured (saplingKey keys)) then
    Threw (newError (js "Sapling API key not available"))
  else
    match sapling remote text with
    | Resolved data => Returned (processSaplingResponse text data)
    | Rejected error =>
        if statusIs error 401 then
          Threw (newError (js "Sapling API key invalid"))
        else if statusIs error 429 then
          Threw (newError (js "Sapling API rate limit exceeded"))
        else
          Threw (newError (js "Sapling API error: " ++ errorMessage error))
    end.

(** [useTextGears] *)
Definition useTextGears (text language : jsstring) : completion Result :=
  if negb (configured (textGearsKey keys)) then
    Threw (newError (js "TextGears API key not available"))
  else
    match textGears remote text
            (if eqb language (js "auto") then js "en-US" else language) with
    | Resolved data => Returned (processTextGearsResponse text data)
    | Rejected error =>
        if statusIs error 401 then
          Threw (newError (js "TextGears API key invalid"))
        else if statusIs error 429 then
          Threw (newError (js "TextGears API rate limit exceeded"))
        else
          Threw (newError (js "TextGears API error: " ++ errorMessage error))
    end.

(** [useLanguageToolFree] *)
Definition useLanguageToolFree (text language : jsstring)
  : completion Result :=
  match languageTool remote text language with
  | Resolved data => Returned (processLanguageToolResponse text data)
  | Rejected error =>
      if statusIs error 429 then
        Threw (newError (js "LanguageTool rate limit exceeded"))
      else
        Threw (newError (js "LanguageTool error: " ++ errorMessage error))
  end.

(** [getServiceName] *)
Definition serviceNames : list jsstring :=
  (if configured (saplingKey keys) then [js "Sapling AI"] else [])
  ++ (if configured (textGearsKey keys) then [js "TextGears"] else [])
  ++ [js "LanguageTool Free"; js "Basic Correction"].

Definition getServiceName (index : nat) : jsstring :=
  orDefault (nth_error serviceNames index) (js "Unknown Service").

(** The array [services] of [correctText]. *)
Definition services (text language : jsstring)
  : list (unit -> completion Result) :=
  (if configured (saplingKey keys)
   then [fun _ => useSaplingAI text] else [])
  ++ (if configured (textGearsKey keys)
      then [fun _ => useTextGears text language] else [])
  ++ [fun _ => useLanguageToolFree text language;
      fun _ => Returned (useBasicCorrection text)].

(** [{...result, serviceUsed: serviceName}] *)
Definition withService (result : Result) (serviceName : jsstring)
  : Result :=
  {| originalText := originalText result;
     correctedText := correctedText result;
     corrections := corrections result;
     language := language result;
     statistics := statistics result;
     serviceUsed := Some serviceName |}.

(** The loop of [correctText] from index [i] on; [total] is
    [services.length]. *)
Fixpoint tryServices (text : jsstring)
         (todo : list (unit -> completion Result)) (i total : nat)
  : completion Result :=
  match todo with
  | [] => Returned (useBasicCorrection text)
  | service :: rest =>
      match service tt with
      | Returned result => Returned (withService result (getServiceName i))
      | Threw error =>
          if Nat.eqb i (total - 1)
          then Returned (useBasicCorrection text)
          else tryServices text rest (S i) total
      end
  end.

(** [correctText] *)
Definition correctText (text language : jsstring) : completion Result :=
  if len text =? 0 then Threw (newError (js "Invalid text input"))
  else if 8000 <? len text then
    Threw (newError (js "Text too long. Maximum 8,000 characters."))
  else
    let services := services text language in
    tryServices text services 0 (List.length services).

End Service.

End SmartFree.

(** ** ProductionGrammarController (backend/src/middleware/errorHandler.js) *)

Module Controller.
Import Hf.

(** The value of [req.body.text]: whatever the JSON body holds there. *)
Inductive jsvalue :=
| JUndefined
| JNull
| JBoolean (b : bool)
| JNumber (n : Q)
| JString (s : jsstring)
| JObject.

(** [!v] *)
Definition falsy (v : jsvalue) : bool :=
  match v with
  | JUndefined | JNull => true
  | JBoolean b => negb b
  | JNumber n => Qeq_bool n 0
  | JString s => len s =? 0
  | JObject => false
  end.

Record ErrorBody := mkErrorBody {
  error : jsstring;
  message : jsstring;
  currentLength : option Z
}.

Record Meta := mkMeta {
  processingTime : Z;
  hasChanges : bool;
  serviceUsed : jsstring;
  modelsUsed : list jsstring
}.

Record Data := mkData {
  original : jsstring;
  corrected : jsstring;
  corrections : list Universal.Correction;
  analysis : Universal.Analysis;
  statistics : Universal.Statistics;
  totalProcessingTime : Z
}.

Inductive Body :=
| Failure (body : ErrorBody)
| Success (data : Data) (meta : Meta).

(** What the handler does with the request: [res.status(s).json(body)], or
    [next(error)]. *)
Inductive Reply :=
| Json (status : Z) (body : Body)
| Next (error : Error).

(** [parseInt(process.env.MAX_TEXT_LENGTH || '15000')], the variable, when
    set, holding a decimal integer. *)
Definition maxLength (MAX_TEXT_LENGTH : option Z) : Z :=
  match MAX_TEXT_LENGTH with
  | Some n => n
  | None => 15000
  end.

Definition decimal (n : Z) : jsstring :=
  js (NilZero.string_of_int (Z.to_int n)).

Section Handler.

(** [huggingFaceService.correctText] *)
Variable service : jsstring -> world -> completion Universal.Result * world.

Variable MAX_TEXT_LENGTH : option Z.

(** What [Date.now() - startTime] evaluates to. *)
Variable totalTime : Z.

(** The [catch] clause of [correctText]. *)
Definition handleError (error : Error) : Reply :=
  if includes (errorMessage error) (js "HUGGINGFACE_API_KEY") then
    Json 401 (Failure (mkErrorBody (js "API Key Required")
                (js "Hugging Face API key is missing or invalid") None))
  else if statusIs error 429
          || includes (errorMessage error) (js "rate limit") then
    Json 429 (Failure (mkErrorBody (js "Rate Limit Exceeded")
                (js "Too many requests to AI service") None))
  else Next error.

(** The comprehensive response, [res.status(200).json({...})]. *)
Definition success (result : Universal.Result) : Reply :=
  Json 200
    (Success
       {| original := Universal.originalText result;
          corrected := Universal.correctedText result;
          corrections := Universal.corrections result;
          analysis := Universal.analysis result;
          statistics := Universal.statistics result;
          totalProcessingTime := totalTime |}
       {| processingTime := totalTime;
          hasChanges :=
            negb (eqb (Universal.originalText result)
                      (Universal.correctedText result));
          serviceUsed := Universal.serviceUsed result;
          modelsUsed := Universal.usedModels result |}).

(** [correctText] *)
Definition correctText (text : jsvalue) (w : world) : Reply * world :=
  if falsy text then
    (Json 400 (Failure (mkErrorBody (js "Missing text field")
                 (js "Text is required in request body") None)), w)
  else
    match text with
    | JString text =>
        if len (trim text) =? 0 then
          (Json 400 (Failure (mkErrorBody (js "Empty text")
                       (js "Text cannot be empty") None)), w)
        else if maxLength MAX_TEXT_LENGTH <? len text then
          (Json 400 (Failure (mkErrorBody (js "Text too long")
                       (js "Maximum " ++ decimal (maxLength MAX_TEXT_LENGTH)
                        ++ js " characters allowed")
                       (Some (len text)))), w)
        else
          match service text w with
          | (Returned result, w') => (success result, w')
          | (Threw error, w') => (handleError error, w')
          end
    | _ =>
        (Json 400 (Failure (mkErrorBody (js "Invalid text format")
                     (js "Text must be a string") None)), w)
    end.

End Handler.

Definition status (r : Reply) : option Z :=
  match r with
  | Json s _ => Some s
  | Next _ => None
  end.

End Controller.


(** ** AdvancedHuggingFaceGrammarService: the correction pipeline
    (backend/src/controllers/huggingFaceGrammarService.js)

    [correctText] and the steps it runs.  The request parameters
    ([max_length], [temperature] and the like) are not part of what the
    upstream is asked here: it answers to the model name and the prompt. *)

Module Pipeline.
Import Hf.

(** A computation that sends requests: it comes back with a value or an
    exception and the world as it then is, or has not come back when the
    fuel of a [queryModel] ran out. *)
Definition run (A : Type) : Type := world -> option (completion A * world).

Definition ret {A : Type} (a : A) : run A := fun w => Some (Returned a, w).

Definition throw {A : Type} (e : Error) : run A := fun w => Some (Threw e, w).

Definition bind {A B : Type} (m : run A) (k : A -> run B) : run B :=
  fun w =>
    match m w with
    | Some (Returned a, w') => k a w'
    | Some (Threw e, w') => Some (Threw e, w')
    | None => None
    end.

(** [try { m } catch (error) { handler }] *)
Definition catch {A : Type} (m : run A) (handler : Error -> run A) : run A :=
  fun w =>
    match m w with
    | Some (Returned a, w') => Some (Returned a, w')
    | Some (Threw e, w') => handler e w'
    | None => None
    end.

Notation "x <- m ;; k" := (bind m (fun x => k))
  (at level 61, m at next level, right associativity).

(** [this.models.textCorrection] *)
Definition textCorrection : list jsstring :=
  [js "t5-large"; js "google/flan-t5-xl"; js "microsoft/DialoGPT-large"].

Definition flan : jsstring := js "google/flan-t5-large".

Definition quoted (s : jsstring) : jsstring := [34%N] ++ s ++ [34%N].
Definition nl : jsstring := [10%N].

(** The prompts of [performComprehensiveCorrection] *)
Definition grammarPrompts (text : jsstring) : list jsstring :=
  [ js "Correct all grammar errors in this text. Fix: verb tenses, subject-verb agreement, pronouns, articles, prepositions, spelling, and punctuation. Keep the same meaning:"
      ++ nl ++ nl ++ quoted text;
    js "Fix grammar mistakes: tenses (past/present/future), pronouns (I/me, he/him), articles (a/an/the), countable/uncountable nouns, collocations, and idioms:"
      ++ nl ++ nl ++ quoted text;
    js "Correct English grammar errors including: verb forms, pronoun usage, subject-verb agreement, preposition usage, article errors, and spelling mistakes:"
      ++ nl ++ nl ++ quoted text;
    js "Please fix all linguistic errors: tense consistency, pronoun agreement, proper articles, correct prepositions, natural collocations, and proper spelling:"
      ++ nl ++ nl ++ quoted text ].

(** [extractCorrectedText] *)
Definition prefixes : list jsstring :=
  [js "Corrected text:"; js "Corrected:"; js "Fixed text:"; js "Result:";
   js "Output:"; js "Answer:"].

Definition stripPrefix (corrected prefix : jsstring) : jsstring :=
  if startsWith (toLowerCase corrected) (toLowerCase prefix)
  then trim (substringFrom corrected (len prefix))
  else corrected.

Definition stripQuotes (corrected : jsstring) : jsstring :=
  if (startsWith corrected [34%N] && endsWith corrected [34%N])
     || (startsWith corrected [39%N] && endsWith corrected [39%N])
  then slice corrected 1 (-1)
  else corrected.

Definition extractCorrectedText (generatedText : option jsstring)
  : jsstring :=
  match truthy generatedText with
  | None => []
  | Some generatedText =>
      let corrected := trim generatedText in
      let corrected := fold_left stripPrefix prefixes corrected in
      let corrected := stripQuotes corrected in
      trim corrected
  end.

(** [scoreCorrection].  [None] is NaN, which only two empty texts give. *)
Definition wordCount (s : jsstring) : Z :=
  Z.of_nat (List.length (splitOn 32%N s)).

Definition scoreCorrection (original corrected : jsstring) : option Q :=
  let similarity := Advanced.calculateSimilarity original corrected in
  let wordCountRatio :=
    (inject_Z (wordCount corrected) / inject_Z (wordCount original))%Q in
  let wordScore :=
    Qmax 0 (Qmin 1 wordCountRatio * Qmin 1 (/ wordCountRatio))%Q in
  if len original =? 0 then
    if len corrected =? 0 then None
    else Some (similarity * (5 # 10) + 0 * (3 # 10) + wordScore * (2 # 10))%Q
  else
    let lengthPenalty :=
      (inject_Z (Z.abs (len corrected - len original))
       / inject_Z (len original))%Q in
    let lengthScore := Qmax 0 (1 - lengthPenalty)%Q in
    Some (similarity * (5 # 10) + lengthScore * (3 # 10)
          + wordScore * (2 # 10))%Q.

(** One element of the [corrections] array of
    [performComprehensiveCorrection]: what a model answered, or what a
    specialised prompt gave. *)
Inductive Attempted : Type :=
| ByModel (model result : jsstring) (score : option Q)
| Specialised (type : jsstring) (result : option jsstring)
              (category : jsstring).

Record CorrectionResult := mkCorrectionResult {
  correctedText : jsstring;
  attempted : list Attempted;
  modelsUsed : list jsstring
}.

(** The variables of the loop of [performComprehensiveCorrection] *)
Record Best := mkBest {
  tried : list Attempted;
  used : list jsstring;
  bestResult : jsstring;
  bestScore : Q
}.

(** [score > bestScore] *)
Definition exceeds (score : option Q) (bestScore : Q) : bool :=
  match score with
  | Some score => negb (Qle_bool score bestScore)
  | None => false
  end.

(** The parse of a model's list of error types *)
Definition categories : list jsstring :=
  [js "Grammar"; js "Spelling"; js "Punctuation"; js "Tense"; js "Pronoun";
   js "Article"; js "Preposition"; js "Collocation"; js "Idiom"; js "Style"].

(** [parseErrorClassification] *)
Definition parseErrorClassification (classification : jsstring)
  : list jsstring :=
  let found :=
    filter (fun category =>
              includes (toLowerCase classification) (toLowerCase category))
           categories in
  match found with
  | [] => [js "Grammar"]
  | _ => found
  end.

(** [calculateSeverity] *)
Definition severityMap : list (jsstring * jsstring) :=
  [ (js "Spelling", js "high"); (js "Grammar", js "high");
    (js "Tense", js "high"); (js "Pronoun", js "medium");
    (js "Article", js "medium"); (js "Preposition", js "medium");
    (js "Punctuation", js "low"); (js "Style", js "low");
    (js "Collocation", js "medium"); (js "Idiom", js "low") ].

Fixpoint lookup (map : list (jsstring * jsstring)) (key : jsstring)
  : option jsstring :=
  match map with
  | [] => None
  | (k, v) :: rest => if eqb k key then Some v else lookup rest key
  end.

Definition calculateSeverity (errorType : jsstring) : jsstring :=
  match lookup severityMap errorType with
  | Some severity => severity
  | None => js "medium"
  end.

(** An element of [errors], as [classifyErrors] builds it. *)
Module Detected.
Record t := mk {
  id : Z;
  original : jsstring;
  correction : jsstring;
  position : Z;
  category : jsstring;
  severity : jsstring;
  confidence : Q
}.
End Detected.

(** What [classifyErrors] returns: [errors] and, as [errorTypesFound], its
    [categories]. *)
Record ErrorAnalysis := mkErrorAnalysis {
  errors : list Detected.t;
  errorTypesFound : list jsstring
}.

Definition classificationPrompt (original corrected : jsstring) : jsstring :=
  js "Compare these two sentences and identify the types of errors that were corrected. Categories: Grammar, Spelling, Punctuation, Tense, Pronoun, Article, Preposition, Collocation, Idiom, Style."
  ++ nl ++ nl ++ js "Original: " ++ quoted original ++ nl
  ++ js "Corrected: " ++ quoted corrected ++ nl ++ nl
  ++ js "List the error types found:".

(** [change.confidence || 0.8] *)
Definition confidenceOr (confidence : Q) : Q :=
  if Qeq_bool confidence 0 then 8 # 10 else confidence.

(** [changes.forEach((change, index) => ...)] of the [try] block *)
Fixpoint classified (errorTypes : list jsstring)
         (changes : list Advanced.Change) (index : nat) : list Detected.t :=
  match changes with
  | [] => []
  | change :: rest =>
      let errorType :=
        match nth_error errorTypes index with
        | Some (c :: s) => c :: s
        | _ => js "Grammar"
        end in
      Detected.mk (Z.of_nat index) (Advanced.original change)
                  (Advanced.corrected change) (Advanced.position change)
                  errorType (calculateSeverity errorType)
                  (confidenceOr (Advanced.confidence change))
      :: classified errorTypes rest (S index)
  end.

(** The same loop in the [catch] block *)
Fixpoint unclassified (changes : list Advanced.Change) (index : nat)
  : list Detected.t :=
  match changes with
  | [] => []
  | change :: rest =>
      Detected.mk (Z.of_nat index) (Advanced.original change)
                  (Advanced.corrected change) (Advanced.position change)
                  (js "Grammar") (js "medium") (7 # 10)
      :: unclassified rest (S index)
  end.

Definition analysed (errors : list Detected.t) : ErrorAnalysis :=
  mkErrorAnalysis errors (setOf (map Detected.category errors)).

(** An element of what [generateExplanations] returns *)
Record Explanation := mkExplanation {
  errorId : Z;
  explanation : option jsstring;
  explanationCategory : jsstring
}.

Definition explanationPrompt (error : Detected.t) : jsstring :=
  js "Explain why " ++ quoted (Detected.original error)
  ++ js " was corrected to " ++ quoted (Detected.correction error)
  ++ js " in simple terms. What grammar rule applies?".

(** What the [catch] block of [generateExplanations] throws: its parameter
    hides the loop variable of the same name, and the exception caught has
    no [category]. *)
Definition typeError : Error :=
  newError (js "Cannot read properties of undefined (reading 'toLowerCase')").

(** An element of [corrections] in the result *)
Module Formatted.
Record t := mk {
  original : jsstring;
  correction : jsstring;
  message : jsstring;
  category : jsstring;
  severity : jsstring;
  confidence : Z;
  position : Z;
  ruleId : jsstring
}.
End Formatted.

Definition decimal (n : Z) : jsstring :=
  js (NilZero.string_of_int (Z.to_int n)).

(** [formatCorrections] *)
Definition formatCorrection (explanations : list Explanation)
           (error : Detected.t) : Formatted.t :=
  let found :=
    find (fun exp => errorId exp =? Detected.id error) explanations in
  Formatted.mk
    (Detected.original error) (Detected.correction error)
    match found with
    | Some {| explanation := Some (c :: s) |} => c :: s
    | _ => Detected.category error ++ js " correction needed"
    end
    (Detected.category error) (Detected.severity error)
    (round (Detected.confidence error * 100)%Q)
    (Detected.position error)
    (toLowerCase (Detected.category error) ++ js "_"
     ++ decimal (Detected.id error)).

Definition formatCorrections (errors : list Detected.t)
           (explanations : list Explanation) : list Formatted.t :=
  map (formatCorrection explanations) errors.

(** [getLinguisticCoverage] *)
Record Coverage := mkCoverage {
  verbTenses : Z; pronouns : Z; articles : Z; prepositions : Z;
  spelling : Z; grammar : Z; collocations : Z; idioms : Z; style : Z
}.

Definition countOf (errors : list Detected.t) (category : string) : Z :=
  Z.of_nat (List.length
              (filter (fun e => eqb (Detected.category e) (js category))
                      errors)).

Definition getLinguisticCoverage (errors : list Detected.t) : Coverage :=
  {| verbTenses := countOf errors "Tense";
     pronouns := countOf errors "Pronoun";
     articles := countOf errors "Article";
     prepositions := countOf errors "Preposition";
     spelling := countOf errors "Spelling";
     grammar := countOf errors "Grammar";
     collocations := countOf errors "Collocation";
     idioms := countOf errors "Idiom";
     style := countOf errors "Style" |}.

(** The result of the main path of [correctText] *)
Record Analysis := mkAnalysis {
  errorCategories : list jsstring;
  confidenceScore : option Z;
  linguisticCoverage : Coverage;
  qualityScore : option Z
}.

Record Statistics := mkStatistics {
  totalErrors : Z;
  correctedErrors : Z;
  statisticsConfidenceScore : option Z;
  processingTime : Z;
  originalLength : Z;
  correctedLength : Z
}.

Record Result := mkResult {
  originalText : jsstring;
  resultText : jsstring;
  corrections : list Formatted.t;
  analysis : Analysis;
  statistics : Statistics;
  serviceUsed : jsstring;
  models : list jsstring
}.

(** What [correctText] returns: the result of its main path, or that of
    [fallbackCorrection], which has another shape. *)
Inductive Outcome : Type :=
| Main (result : Result)
| Fallback (result : Advanced.Result).

(** What [healthCheck] returns *)
Inductive Health : Type :=
| healthy
| unhealthy (error : jsstring).

Section Service.

Variable fuel : nat.
Variable up : upstream.

Definition query (modelName prompt : jsstring) : run (list generation) :=
  Advanced.queryModel fuel up modelName prompt.

(** The body of the loop of [performComprehensiveCorrection] *)
Definition tryModel (text : jsstring) (best : Best)
           (attempt : jsstring * jsstring) : run Best :=
  let '(modelName, prompt) := attempt in
  catch
    (result <- query modelName prompt ;;
     ret match result with
         | first :: _ =>
             let correctedText :=
               extractCorrectedText
                 (orElse (generated_text first) (Hf.text first)) in
             let score := scoreCorrection text correctedText in
             mkBest (tried best ++ [ByModel modelName correctedText score])
                    (used best ++ [modelName])
                    (if exceeds score (bestScore best) then correctedText
                     else bestResult best)
                    (match score with
                     | Some score' =>
                         if exceeds score (bestScore best) then score'
                         else bestScore best
                     | None => bestScore best
                     end)
         | [] => best
         end)
    (fun _ => ret best).

Fixpoint tryModels (text : jsstring) (best : Best)
         (attempts : list (jsstring * jsstring)) : run Best :=
  match attempts with
  | [] => ret best
  | attempt :: rest =>
      best' <- tryModel text best attempt ;; tryModels text best' rest
  end.

(** One request of [performSpecializedCorrections] and the [push] that
    follows it *)
Definition specialised (type category prompt : jsstring)
           (corrections : list Attempted) : run (list Attempted) :=
  result <- query flan prompt ;;
  ret match result with
      | first :: _ =>
          corrections ++ [Specialised type (generated_text first) category]
      | [] => corrections
      end.

(** [performSpecializedCorrections]: the three requests are in one [try]
    block, so the first that fails ends the function with what was pushed
    before it. *)
Definition performSpecializedCorrections (text : jsstring)
  : run (list Attempted) :=
  catch
    (tense <-
       specialised (js "tense_correction") (js "Verb Tenses")
         (js "Fix only verb tense errors in this sentence, maintaining meaning: "
          ++ quoted text) [] ;;
     catch
       (pronoun <-
          specialised (js "pronoun_correction") (js "Pronouns")
            (js "Correct pronoun usage (I/me, he/him, who/whom, possessives) in: "
             ++ quoted text) tense ;;
        catch
          (specialised (js "article_correction") (js "Articles")
             (js "Fix article usage (a, an, the) in this sentence: "
              ++ quoted text) pronoun)
          (fun _ => ret pronoun))
       (fun _ => ret tense))
    (fun _ => ret []).

(** [performComprehensiveCorrection]: the first two prompts, each with the
    model of its index. *)
Definition performComprehensiveCorrection (text : jsstring)
  : run CorrectionResult :=
  best <- tryModels text (mkBest [] [] text 0)
            (firstn 2 (combine textCorrection (grammarPrompts text))) ;;
  specializedCorrections <- performSpecializedCorrections text ;;
  ret (mkCorrectionResult (bestResult best)
         (tried best ++ specializedCorrections) (used best)).

(** [classifyErrors].  An answer without [generated_text] makes
    [parseErrorClassification] throw, which the [catch] block answers like
    a failed request. *)
Definition classifyErrors (original corrected : jsstring)
  : run ErrorAnalysis :=
  catch
    (result <- query flan (classificationPrompt original corrected) ;;
     match result with
     | first :: _ =>
         match generated_text first with
         | Some classification =>
             ret (analysed
                    (classified (parseErrorClassification classification)
                       (Advanced.findTextChanges original corrected) 0))
         | None => throw typeError
         end
     | [] => ret (analysed [])
     end)
    (fun _ =>
       ret (analysed
              (unclassified (Advanced.findTextChanges original corrected) 0))).

(** [calculateConfidence], which catches what its request throws *)
Definition calculateConfidence (original corrected : jsstring)
  : run Advanced.Confidence :=
  fun w =>
    match Advanced.calculateConfidence fuel up original corrected w with
    | Some (confidence, w') => Some (Returned confidence, w')
    | None => None
    end.

(** [generateExplanations]: a request for each of the first five errors.
    A request that fails ends the function with the exception of its
    [catch] block. *)
Fixpoint explain (errors : list Detected.t)
         (explanations : list Explanation) : run (list Explanation) :=
  match errors with
  | [] => ret explanations
  | error :: rest =>
      explanations' <-
        catch
          (result <- query flan (explanationPrompt error) ;;
           ret match result with
               | first :: _ =>
                   explanations
                   ++ [mkExplanation (Detected.id error)
                         (generated_text first) (Detected.category error)]
               | [] => explanations
               end)
          (fun _ => throw typeError) ;;
      explain rest explanations'
  end.

Definition generateExplanations (errors : list Detected.t)
  : run (list Explanation) :=
  explain (firstn 5 errors) [].

(** What [Date.now() - startTime] evaluates to *)
Variable elapsed : Z.

(** [correctText] *)
Definition correctText (text : jsstring) : run Outcome :=
  match Advanced.inputGuard text with
  | Some error => throw error
  | None =>
      catch
        (correctionResult <- performComprehensiveCorrection text ;;
         errorAnalysis <-
           classifyErrors text (correctedText correctionResult) ;;
         confidenceResult <-
           calculateConfidence text (correctedText correctionResult) ;;
         explanations <- generateExplanations (errors errorAnalysis) ;;
         ret (Main
                {| originalText := text;
                   resultText := correctedText correctionResult;
                   corrections :=
                     formatCorrections (errors errorAnalysis) explanations;
                   analysis :=
                     {| errorCategories := errorTypesFound errorAnalysis;
                        confidenceScore :=
                          Advanced.overallConfidence confidenceResult;
                        linguisticCoverage :=
                          getLinguisticCoverage (errors errorAnalysis);
                        qualityScore :=
                          Advanced.calculateQualityScore text
                            (correctedText correctionResult) |};
                   statistics :=
                     {| totalErrors :=
                          Z.of_nat (List.length (errors errorAnalysis));
                        correctedErrors :=
                          Z.of_nat (List.length
                                      (attempted correctionResult));
                        statisticsConfidenceScore :=
                          Advanced.overallConfidence confidenceResult;
                        processingTime := elapsed;
                        originalLength := len text;
                        correctedLength :=
                          len (correctedText correctionResult) |};
                   serviceUsed := js "Hugging Face Advanced AI";
                   models := modelsUsed correctionResult |}))
        (fun _ => ret (Fallback (Advanced.fallbackCorrection text)))
  end.

(** [healthCheck] *)
Definition healthCheck : run Health :=
  catch (_ <- query flan (js "Test: Hello world") ;; ret healthy)
        (fun error => ret (unhealthy (errorMessage error))).

End Service.

End Pipeline.

(** * Health checks: server.js and errorHandler.js *)

Module UniversalHealth.
Import Hf.

(** The instance the module exports: [this.apiKey] is
    [process.env.HUGGINGFACE_API_KEY]. *)
Record Service := mkService { apiKey : option jsstring }.

(** The constructor of UniversalGrammarService. *)
Definition construct (HUGGINGFACE_API_KEY : option jsstring)
  : completion Service :=
  match truthy HUGGINGFACE_API_KEY with
  | None =>
      Threw (newError
               (js "HUGGINGFACE_API_KEY is required in environment variables"))
  | Some _ => Returned (mkService HUGGINGFACE_API_KEY)
  end.

(** What [healthCheck] returns, by its [status]; the constant fields are
    left out. *)
Inductive Health :=
| unhealthy
| healthy
| degraded (error : jsstring).

Definition status (h : Health) : jsstring :=
  match h with
  | unhealthy => js "unhealthy"
  | healthy => js "healthy"
  | degraded _ => js "degraded"
  end.

Section Check.

Variable engine : Universal.RegExpEngine.
Variable elapsed : Z.
Variable up : upstream.

(** [healthCheck] *)
Definition healthCheck (service : Service) (w : world) : Health * world :=
  match truthy (apiKey service) with
  | None => (unhealthy, w)
  | Some _ =>
      match Universal.correctText engine elapsed up (js "test sentence") w with
      | (Returned _, w') => (healthy, w')
      | (Threw error, w') => (degraded (errorMessage error), w')
      end
  end.

End Check.

End UniversalHealth.

Module ControllerHealth.
Import Hf.

(** [res.status(s).json({success, status, data, ...})] *)
Record Reply := mkReply {
  statusCode : Z;
  success : bool;
  status : jsstring;
  data : UniversalHealth.Health
}.

(** [healthCheck] of ProductionGrammarController.  The service's health
    check catches whatever it meets, so the [catch] of the handler has no
    run here. *)
Definition healthCheck
           (service : world -> UniversalHealth.Health * world) (w : world)
  : Reply * world :=
  let '(healthStatus, w') := service w in
  if eqb (UniversalHealth.status healthStatus) (js "healthy")
  then (mkReply 200 true (js "healthy") healthStatus, w')
  else (mkReply 503 false (UniversalHealth.status healthStatus) healthStatus,
        w').

End ControllerHealth.

(** * The error handling middleware: errorHandler.js *)

Module Middleware.

(** [err.code]: a number for a database error, a string for a network
    error. *)
Inductive Code :=
| NoCode
| NumberCode (n : Z)
| StringCode (s : jsstring).

(** The properties of [err] that the handler reads.  [statusCode] is a
    number when present; [errors], when present, holds objects with a
    string [message] each, of which the messages are kept. *)
Record Thrown := mkThrown {
  name : jsstring;
  code : Code;
  statusCode : option Z;
  message : jsstring;
  errors : option (list jsstring);
  stack : jsstring
}.

(** [new Error(message)] *)
Definition thrown (e : Error) (stack : jsstring) : Thrown :=
  mkThrown (js "Error") NoCode None (errorMessage e) None stack.

Definition codeIs (c : Code) (s : string) : bool :=
  match c with
  | StringCode x => eqb x (js s)
  | _ => false
  end.

Definition codeIsNumber (c : Code) (n : Z) : bool :=
  match c with
  | NumberCode x => x =? n
  | _ => false
  end.

(** [values.join(', ')] *)
Fixpoint join (values : list jsstring) : jsstring :=
  match values with
  | [] => []
  | [v] => v
  | v :: rest => v ++ js ", " ++ join rest
  end.

(** [a || b] on a status code. *)
Definition orStatus (a : option Z) (b : Z) : Z :=
  match a with
  | Some 0 | None => b
  | Some s => s
  end.

(** [a || b] on a message. *)
Definition orMessage (a b : jsstring) : jsstring :=
  match a with
  | [] => b
  | _ => a
  end.

(** The local [error]: its message and its status code. *)
Definition Local : Type := jsstring * option Z.

Record Response := mkResponse {
  status : Z;
  success : bool;
  errorMessage : jsstring;
  (** [stack] and [details], in development *)
  debug : option (jsstring * Thrown);
  endpoint : jsstring;
  metaStatusCode : Z
}.

Section Handler.

(** [process.env.NODE_ENV === 'development'] *)
Variable development : bool.

(** [req.method] and [req.originalUrl] *)
Variable method originalUrl : jsstring.

(** The rewriting of [error], one [if] after the other.  The validation
    branch reads [Object.values(err.errors)], which throws a TypeError when
    [err.errors] is missing. *)
Definition classify (err : Thrown) : completion Local :=
  let error : Local := (message err, statusCode err) in
  let error :=
    if eqb (name err) (js "CastError")
    then (js "Resource not found", Some 404) else error in
  let error :=
    if codeIsNumber (code err) 11000
    then (js "Duplicate field value entered", Some 400) else error in
  match
    (if eqb (name err) (js "ValidationError") then
       match errors err with
       | Some values => Returned (join values, Some 400)
       | None =>
           Threw (newError (js "Cannot convert undefined or null to object"))
       end
     else Returned error)
  with
  | Threw e => Threw e
  | Returned error =>
      let error :=
        if eqb (name err) (js "JsonWebTokenError")
        then (js "Invalid token", Some 401) else error in
      let error :=
        if eqb (name err) (js "TokenExpiredError")
        then (js "Token expired", Some 401) else error in
      let error :=
        if codeIs (code err) "ECONNREFUSED" || codeIs (code err) "ENOTFOUND"
        then (js "External service unavailable", Some 503) else error in
      let error :=
        if codeIs (code err) "ECONNABORTED"
        then (js "Request timeout", Some 408) else error in
      Returned error
  end.

(** [errorHandler].  The time stamp of [meta] is left out. *)
Definition errorHandler (err : Thrown) : completion Response :=
  match classify err with
  | Threw e => Threw e
  | Returned (errorMessage, errorStatusCode) =>
      let statusCode :=
        orStatus errorStatusCode (orStatus (statusCode err) 500) in
      let message := orMessage errorMessage (js "Internal server error") in
      Returned
        {| status := statusCode;
           success := false;
           errorMessage := message;
           debug := if development then Some (stack err, err) else None;
           endpoint := method ++ js " " ++ originalUrl;
           metaStatusCode := statusCode |}
  end.

End Handler.

End Middleware.

(** * The front end: TextInput.jsx, api.js and ProductionGrammarChecker *)

Module TextInput.

Definition maxLength : Z := 20000.

Definition isOverLimit (text : jsstring) : bool := maxLength <? len text.

(** [handlePaste]: whether the default action was prevented, and the text
    after the calls of [setText], if any. *)
Definition handlePaste (text pastedText : jsstring) : bool * jsstring :=
  let newText := text ++ pastedText in
  if maxLength <? len newText then
    let remainingChars := maxLength - len text in
    (true,
     if 0 <? remainingChars
     then text ++ slice pastedText 0 remainingChars
     else text)
  else (false, text).

(** [handleTextChange], [newText] being [e.target.value]. *)
Definition handleTextChange (text newText : jsstring) : jsstring :=
  if len newText <=? maxLength then newText else text.

Definition sampleTexts : list jsstring :=
  [js "This are a example sentence with some grammar mistake that need to be fix.";
   js "The quick brown fox jump over the lazy dogs. Its a beautifull day today.";
   js "I have went to the store yesterday and buy some groceries for dinner tonight."].

(** What can happen to the text of the box: the text area reports a new
    value, something is pasted, a sample is loaded, the text is cleared. *)
Inductive Event :=
| Change (value : jsstring)
| Paste (pastedText : jsstring)
| LoadSample (index : nat)
| Clear.

Definition handle (text : jsstring) (e : Event) : jsstring :=
  match e with
  | Change value => handleTextChange text value
  | Paste pastedText => snd (handlePaste text pastedText)
  | LoadSample index =>
      match nth_error sampleTexts index with
      | Some sample => sample
      | None => text
      end
  | Clear => []
  end.

(** The text after a run of events, from the empty text of [useState('')]. *)
Definition after (events : list Event) : jsstring :=
  fold_left handle events [].

End TextInput.

Module Api.

(** The body of an answer of the server: sent by the controller, by the
    error handler, or by the framework itself (a page, not an object). *)
Inductive ServerBody :=
| FromController (body : Controller.Body)
| FromMiddleware (response : Middleware.Response)
| FromFramework.

(** [data?.error?.message]: the controller sends [error] as a string, which
    has no [message]. *)
Definition serverMessage (data : ServerBody) : option jsstring :=
  match data with
  | FromController _ => None
  | FromMiddleware response => Some (Middleware.errorMessage response)
  | FromFramework => None
  end.

(** What the HTTP client makes of a request: a response, no response
    ([error.request], with [error.code]), or a request that could not be
    set up ([error.message]). *)
Inductive Exchange :=
| Responded (status : Z) (data : ServerBody)
| NoResponse (code : option jsstring)
| NotSent (message : jsstring).

(** [a || b] on an optional string. *)
Definition orElse (a : option jsstring) (b : jsstring) : jsstring :=
  match Hf.truthy a with
  | Some s => s
  | None => b
  end.

(** The message of the error that the response interceptor throws. *)
Definition rejection (x : Exchange) : jsstring :=
  match x with
  | Responded status data =>
      if status =? 400 then
        orElse (serverMessage data)
               (js "Invalid request. Please check your input.")
      else if status =? 401 then
        js "Unauthorized. Please check your credentials."
      else if status =? 403 then js "Access forbidden."
      else if status =? 404 then
        js "Service not found. Please try again later."
      else if status =? 408 then js "Request timeout. Please try again."
      else if status =? 413 then
        js "Text too large. Please reduce the text length."
      else if status =? 429 then
        js "Too many requests. Please wait before trying again."
      else if status =? 500 then js "Server error. Please try again later."
      else if status =? 503 then
        js "Service temporarily unavailable. Please try again later."
      else
        orElse (serverMessage data)
               (js "Server error: " ++ Controller.decimal status)
  | NoResponse code =>
      match code with
      | Some c =>
          if eqb c (js "ECONNABORTED") then
            js "Request timeout. Please check your connection and try again."
          else js "Network error. Please check your internet connection."
      | None => js "Network error. Please check your internet connection."
      end
  | NotSent message =>
      orElse (Some message) (js "An unexpected error occurred.")
  end.

(** [timeout: 30000] of the instance: a request that has had no answer
    after that many milliseconds is aborted, and the client is left with
    an error that has a request, no response and the code ECONNABORTED.
    [took] is the time the answer takes to come. *)
Definition timeout : Z := 30000.

Definition within (took : Z) (x : Exchange) : Exchange :=
  if timeout <=? took then NoResponse (Some (js "ECONNABORTED")) else x.

(** A request through the interceptors: the client resolves with the data
    of a response whose status is 2xx and rejects every other exchange. *)
Definition request (x : Exchange) : completion ServerBody :=
  match x with
  | Responded status data =>
      if (200 <=? status) && (status <? 300) then Returned data
      else Threw (newError (rejection x))
  | _ => Threw (newError (rejection x))
  end.

(** [grammarAPI.correctText], [post] being [api.post('/correct', ...)] as a
    function of the text sent. *)
Definition correctText (post : jsstring -> Exchange) (text : jsstring)
  : completion ServerBody :=
  if len text =? 0 then
    Threw (newError (js "Text is required and must be a string."))
  else if len (trim text) =? 0 then
    Threw (newError (js "Text cannot be empty."))
  else if 20000 <? len text then
    Threw (newError
             (js "Text is too long. Maximum 20,000 characters allowed."))
  else request (post (trim text)).

End Api.

Module Checker.

(** The state of ProductionGrammarChecker. *)
Record Page := mkPage {
  text : jsstring;
  result : option Controller.Data;
  loading : bool;
  error : option jsstring;
  successMessage : jsstring
}.

Definition excellent : jsstring :=
  [10024%N] ++ js " Excellent! Your text is already perfect.".

Definition found (correctionCount confidenceScore : Z) : jsstring :=
  [55358%N; 56598%N] ++ js " AI found and corrected "
  ++ Controller.decimal correctionCount ++ js " issue"
  ++ (if 1 <? correctionCount then js "s" else [])
  ++ js " with " ++ Controller.decimal confidenceScore
  ++ js "% confidence.".

Definition failed (page : Page) (message : jsstring) : Page :=
  {| text := text page;
     result := None;
     loading := false;
     error := Some (js "AI Error: " ++ message);
     successMessage := [] |}.

(** [handleCorrection]: the page once the handler has run to its end, before
    the messages are cleared five seconds later. *)
Definition handleCorrection (post : jsstring -> Api.Exchange) (page : Page)
  : Page :=
  if len (trim (text page)) =? 0 then
    {| text := text page;
       result := result page;
       loading := loading page;
       error := Some (js "Please enter some text to check.");
       successMessage := successMessage page |}
  else
    match Api.correctText post (text page) with
    | Returned (Api.FromController (Controller.Success data meta)) =>
        let correctionCount :=
          Universal.correctedErrors (Controller.statistics data) in
        {| text := text page;
           result := Some data;
           loading := false;
           error := None;
           successMessage :=
             if correctionCount =? 0 then excellent
             else found correctionCount
                        (Universal.confidenceScore
                           (Controller.analysis data)) |}
    | Returned _ => failed page (js "Invalid response format")
    | Threw err => failed page (errorMessage err)
    end.

(** [handleClear] *)
Definition handleClear (page : Page) : Page :=
  {| text := [];
     result := None;
     loading := loading page;
     error := None;
     successMessage := [] |}.

End Checker.

Module Display.

(** [improvementScore] of AdvancedResultDisplay. *)
Definition improvementScore (statistics : Universal.Statistics) : Z :=
  let totalErrors := Universal.totalErrors statistics in
  let correctedErrors := Universal.correctedErrors statistics in
  round (inject_Z (totalErrors - (totalErrors - correctedErrors))
         / inject_Z (Z.max totalErrors 1) * 100)%Q.

(** [filteredCorrections] *)
Definition filteredCorrections (selectedCategory : jsstring)
           (corrections : list Universal.Correction)
  : list Universal.Correction :=
  if eqb selectedCategory (js "all") then corrections
  else filter (fun c => eqb (Universal.category c) selectedCategory)
              corrections.

End Display.

(** * The server as the front end meets it *)

Module Server.
Import Hf.

Section Serve.

Variable engine : Universal.RegExpEngine.
Variable elapsed : Z.
Variable up : upstream.
Variable MAX_TEXT_LENGTH : option Z.
Variable totalTime : Z.
Variable development : bool.
Variable originalUrl : jsstring.

(** POST /api/correct with the body [{text, language}]: the route of
    routes/grammar.js to [correctText] of the controller, with
    UniversalGrammarService behind it, and [errorHandler] as the error
    middleware of the application, which is where [next(error)] leads.  The
    errors that reach [next] are made by [new Error(...)]; [stack] stands
    for their stack trace.  An error thrown by the error handler itself is
    answered by the framework, with status 500.  This is the answer of the
    server; how long it takes, and what the client makes of that, is in
    [exchange]. *)
Definition correct (stack : jsstring) (text : jsstring) (w : world)
  : Api.Exchange * world :=
  match Controller.correctText (Universal.correctText engine elapsed up)
                               MAX_TEXT_LENGTH totalTime
                               (Controller.JString text) w with
  | (Controller.Json status body, w') =>
      (Api.Responded status (Api.FromController body), w')
  | (Controller.Next error, w') =>
      match Middleware.errorHandler development (js "POST") originalUrl
                                    (Middleware.thrown error stack) with
      | Returned response =>
          (Api.Responded (Middleware.status response)
                         (Api.FromMiddleware response), w')
      | Threw _ => (Api.Responded 500 Api.FromFramework, w')
      end
  end.

(** The same request as the client sees it.  The answer takes as long as
    the server waits between its requests to the upstream, and [latency]
    milliseconds more for everything else (the network, the upstream's own
    answers, the computation); the client gives up at [Api.timeout], and
    the server goes on to the end all the same. *)
Definition exchange (stack : jsstring) (latency : Z) (text : jsstring)
           (w : world) : Api.Exchange * world :=
  let '(x, w') := correct stack text w in
  (Api.within (latency + (sleptMs w' - sleptMs w)) x, w').

End Serve.

End Server.


(** * The vocabulary of the statements *)

(** ** The quality score as the specification words it *)

Module Spec.

Definition clamp01 (x : Q) : Q := Qmax 0 (Qmin 1 x).

(** 1 - |delta| / originalMeasure, clamped to [0, 1] *)
Definition consistency (originalMeasure correctedMeasure : Z) : Q :=
  clamp01 (1 - inject_Z (Z.abs (correctedMeasure - originalMeasure))
               / inject_Z originalMeasure)%Q.

(** The lower-cased whitespace-tokenized word set of a text. *)
Definition wordSet (s : jsstring) : list jsstring :=
  setOf (splitSpaces (toLowerCase s)).

Definition wordCount (s : jsstring) : Z :=
  Z.of_nat (List.length (splitSpaces s)).

(** Jaccard similarity: the size of the intersection over the size of the
    union. *)
Definition jaccard (a b : jsstring) : Q :=
  (inject_Z (Z.of_nat (List.length
                         (filter (arrayIncludes (wordSet b)) (wordSet a))))
   / inject_Z (Z.of_nat (List.length (setOf (wordSet a ++ wordSet b)))))%Q.

Definition qualityScore (original corrected : jsstring) : Z :=
  round (100 * ((3 # 10) * consistency (len original) (len corrected)
                + (3 # 10) * consistency (wordCount original)
                                         (wordCount corrected)
                + (4 # 10) * jaccard original corrected))%Q.

End Spec.

(** ** Texts *)

(** Every code unit of the text is below U+0100: ASCII and Latin-1, the
    range on which [toLowerCase] is embedded. *)
Definition latin1 (s : jsstring) : Prop :=
  forallb (fun c => (c <? 256)%N) s = true.

(** ** Tokens and offsets *)

(** The character offset of the [i]-th token: the length of what stands
    before it. *)
Definition offsetOf (tokens : list jsstring) (i : nat) : Z :=
  len (List.concat (firstn i tokens)).

Definition startsWithSpace (s : jsstring) : bool :=
  match s with
  | c :: _ => isSpace c
  | [] => false
  end.

Definition hasWhitespace (s : jsstring) : bool := existsb isSpace s.

(** The two summary records of [analyzeCorrections]. *)
Definition missingWords : Universal.Correction :=
  Universal.mkCorrection (js "missing words") (js "added words") (js "Grammar")
    (js "Added necessary words for clarity") 70 None.

Definition extraWords : Universal.Correction :=
  Universal.mkCorrection (js "extra words") (js "removed words") (js "Style")
    (js "Removed unnecessary words") 70 None.

(** ** The structured-edit adapters, edit by edit *)

Definition descending {A : Type} (key : A -> Z) (a b : A) : Prop :=
  key b <= key a.

Definition saplingApplies (e : SmartFree.SaplingEdit) : bool :=
  negb (len (SmartFree.replacement e) =? 0).

Definition saplingCorrection (originalText : jsstring)
           (e : SmartFree.SaplingEdit) : SmartFree.Correction :=
  SmartFree.mkCorrection
    (substring originalText (SmartFree.start e) (SmartFree.end_ e))
    (SmartFree.replacement e)
    (SmartFree.orDefault (SmartFree.general_error_type e)
                         (js "Grammar/Spelling error"))
    (SmartFree.orDefault (SmartFree.error_type e) (js "Grammar"))
    None.

Definition textGearsBest (e : SmartFree.TextGearsError) : jsstring :=
  SmartFree.orDefault (hd_error (SmartFree.better e)) [].

Definition textGearsApplies (e : SmartFree.TextGearsError) : bool :=
  negb (len (textGearsBest e) =? 0).

Definition textGearsCorrection (originalText : jsstring)
           (e : SmartFree.TextGearsError) : SmartFree.Correction :=
  SmartFree.mkCorrection
    (substring originalText (SmartFree.tg_offset e)
               (SmartFree.tg_offset e + SmartFree.tg_length e))
    (textGearsBest e)
    (SmartFree.orDefault (SmartFree.description e)
                         (js "Grammar/Spelling error"))
    (SmartFree.orDefault (SmartFree.tg_type e) (js "Grammar"))
    None.

Definition languageToolBest (m : SmartFree.LtMatch) : jsstring :=
  SmartFree.orDefault (hd_error (SmartFree.replacements m)) [].

(** ** Upstreams *)

(** [result.generated_text || result.summary_text || result.text], when
    truthy. *)
Definition generatedText (g : Hf.generation) : option jsstring :=
  Hf.truthy (Hf.orElse (Hf.generated_text g)
               (Hf.orElse (Hf.summary_text g) (Hf.text g))).

(** Every answer of the upstream, once extracted, is the input text
    itself. *)
Definition answersUnchanged (up : Hf.upstream) (text : jsstring) : Prop :=
  forall n model prompt,
    In (model, prompt) (Universal.attempts text) ->
    exists g rest generated,
      up n model prompt = Resolved (g :: rest) /\
      generatedText g = Some generated /\
      Universal.extractCorrectedText generated prompt = text.

(** The upstream that answers every request with [reply]. *)
Definition answers (reply : jsstring) : Hf.upstream :=
  fun _ _ _ => Resolved [Hf.mkGeneration (Some reply) None None].

Definition modelLoading : Error :=
  mkError (js "Request failed with status code 503") (Some 503).

(** The model never finishes loading. *)
Definition always503 : Hf.upstream := fun _ _ _ => Rejected modelLoading.

(** The model is loading during the first [k] requests. *)
Definition loadingFor (k : nat) (reply : jsstring) : Hf.upstream :=
  fun n _ _ =>
    if (n <? k)%nat then Rejected modelLoading
    else Resolved [Hf.mkGeneration (Some reply) None None].

(** No connection at all. *)
Definition unreachable : Hf.upstream :=
  fun _ _ _ => Rejected (mkError (js "connect ECONNREFUSED") None).

(** The result of [tryMultipleAIApproaches] when no attempt is accepted. *)
Definition noChange (text : jsstring) : Universal.Result :=
  Universal.buildResult text text [] (js "AI Analysis (No errors found)").

(** [n] more requests sent, no back-off. *)
Definition advance (n : nat) (w : Hf.world) : Hf.world :=
  Hf.mkWorld (Hf.calls w + n) (Hf.sleptMs w).

(** ** Confidence *)

Definition totalConfidence (corrections : list Universal.Correction) : Z :=
  fold_right Z.add 0 (map Universal.confidence corrections).

(** A result carries the mean of its own corrections, each of them between
    0 and 100. *)
Definition scored (r : Universal.Result) : Prop :=
  Universal.confidenceScore (Universal.analysis r) =
  Universal.meanConfidence (Universal.corrections r) /\
  Forall (fun c => 0 <= Universal.confidence c <= 100)
         (Universal.corrections r).

(** A pass keeps the confidence of every correction of the array within
    0..100. *)
Definition confident (state : Universal.PassState) : Prop :=
  Forall (fun c => 0 <= Universal.confidence c <= 100) (snd state).

(** The engine on a text in which no expression of the pattern tables has a
    match: [test] is false, [match] is null, [replace] leaves the text. *)
Definition noMatch : Universal.RegExpEngine :=
  Universal.mkRegExpEngine (fun _ _ => false) (fun _ _ => None)
                           (fun _ _ s => s).

(** ** The orchestrator and the request boundary *)

Definition fails {D : Type} (o : http_outcome D) : Prop :=
  match o with
  | Rejected _ => True
  | Resolved _ => False
  end.

Definition allRemoteFail (remote : SmartFree.Remote) : Prop :=
  forall text language,
    fails (SmartFree.sapling remote text) /\
    fails (SmartFree.textGears remote text language) /\
    fails (SmartFree.languageTool remote text language).

Definition noKeys : SmartFree.Keys := SmartFree.mkKeys None None.

Definition bothKeys : SmartFree.Keys :=
  SmartFree.mkKeys (Some (js "tg-key")) (Some (js "sapling-key")).

(** A time-out, an invalid credential and a rate limit. *)
Definition deadRemote : SmartFree.Remote :=
  SmartFree.mkRemote
    (fun _ => Rejected (mkError (js "timeout of 30000ms exceeded") None))
    (fun _ _ => Rejected (mkError (js "Request failed with status code 401")
                                  (Some 401)))
    (fun _ _ => Rejected (mkError (js "Request failed with status code 429")
                                  (Some 429))).

(** LanguageTool finds nothing to correct. *)
Definition nothingFound : SmartFree.LtResponse :=
  SmartFree.mkLtResponse [] None None.

Definition quietRemote : SmartFree.Remote :=
  SmartFree.mkRemote
    (fun _ => Resolved [])
    (fun _ _ => Resolved [])
    (fun _ _ => Resolved nothingFound).

(** A result of the orchestrator for [text]: the original text is kept and
    the statistics agree with the texts and the corrections. *)
Definition wellFormed (text : jsstring) (r : SmartFree.Result) : Prop :=
  SmartFree.originalText r = text /\
  SmartFree.originalLength (SmartFree.statistics r) = len text /\
  SmartFree.correctedLength (SmartFree.statistics r)
  = len (SmartFree.correctedText r) /\
  SmartFree.appliedCorrections (SmartFree.statistics r)
  = SmartFree.count (SmartFree.corrections r).

(** 8001 characters. *)
Definition longText : jsstring := repeat 97%N (Z.to_nat 8001).

(** A request body is invalid: the text is missing, is not a string, or is
    empty once trimmed. *)
Definition invalidText (v : Controller.jsvalue) : Prop :=
  match v with
  | Controller.JString text => len (trim text) = 0
  | _ => True
  end.

(** What the controller answers once the service has come back. *)
Definition replyTo (totalTime : Z)
           (outcome : completion Universal.Result * Hf.world)
  : Controller.Reply * Hf.world :=
  match outcome with
  | (Returned result, w') => (Controller.success totalTime result, w')
  | (Threw error, w') => (Controller.handleError error, w')
  end.

(** A service that sends one request and finds nothing. *)
Definition fixedService (text : jsstring) (w : Hf.world)
  : completion Universal.Result * Hf.world :=
  (Returned (noChange text), Hf.sent w).


(** ** Results of UniversalGrammarService *)

(** The sum of the counters of a coverage record. *)
Definition coverageTotal (c : Universal.Coverage) : Z :=
  Universal.verbTenses c + Universal.pronouns c + Universal.articles c
  + Universal.prepositions c + Universal.spelling c + Universal.grammar c
  + Universal.collocations c + Universal.idioms c + Universal.style c.

(** A result for [text] hangs together: the text is kept, the categories
    are those of the corrections, each once, and the analysis and the
    statistics are computed from the texts and the corrections. *)
Definition wellBuilt (text : jsstring) (r : Universal.Result) : Prop :=
  Universal.originalText r = text /\
  NoDup (Universal.errorCategories (Universal.analysis r)) /\
  (forall category,
      In category (Universal.errorCategories (Universal.analysis r)) <->
      exists c, In c (Universal.corrections r) /\
                Universal.category c = category) /\
  Universal.totalErrors (Universal.statistics r)
  = Universal.count (Universal.corrections r) /\
  Universal.correctedErrors (Universal.statistics r)
  = Universal.count (Universal.corrections r) /\
  Universal.statisticsConfidenceScore (Universal.statistics r)
  = Universal.confidenceScore (Universal.analysis r) /\
  Universal.originalLength (Universal.statistics r) = len text /\
  Universal.correctedLength (Universal.statistics r)
  = len (Universal.correctedText r) /\
  Universal.qualityScore (Universal.analysis r)
  = Universal.calculateQualityScore text (Universal.correctedText r) /\
  coverageTotal (Universal.linguisticCoverage (Universal.analysis r))
  = Universal.count (Universal.corrections r) /\
  Universal.usedModels r = [Universal.serviceUsed r].

(** Every whitespace character of a text is a plain space, and no two
    stand side by side. *)
Fixpoint singleSpaced (s : jsstring) : bool :=
  match s with
  | [] => true
  | c :: rest =>
      (negb (isSpace c) || (char_eqb c 32%N && negb (startsWithSpace rest)))
      && singleSpaced rest
  end.

(** What [capitalizeAfterPeriods] may do to one character: leave it, or
    put a lower-case letter of [a-z] in upper case. *)
Definition capitalised (a b : char) : Prop :=
  b = a \/ (isLowerAZ a = true /\ b = upperChar a).

(** The language [useTextGears] asks for. *)
Definition textGearsLanguage (language : jsstring) : jsstring :=
  if eqb language (js "auto") then js "en-US" else language.

(** A backend does not answer: it has no key, or its request fails. *)
Definition unavailable {D : Type} (key : option jsstring)
           (outcome : http_outcome D) : Prop :=
  SmartFree.configured key = false \/ fails outcome.

(** Sapling finds one misspelling; the other two services are down. *)
Definition saplingOnly : SmartFree.Remote :=
  SmartFree.mkRemote
    (fun _ => Resolved [SmartFree.mkSaplingEdit 6 9 (js "the") None None])
    (fun _ _ => Rejected (mkError (js "timeout of 30000ms exceeded") None))
    (fun _ _ => Rejected (mkError (js "timeout of 30000ms exceeded") None)).

(** ** Structured edits as spans *)

(** An edit as the adapters use it: the span [from, to) and what replaces
    it. *)
Definition Span : Type := Z * Z * jsstring.

Definition saplingSpan (e : SmartFree.SaplingEdit) : Span :=
  (SmartFree.start e, SmartFree.end_ e, SmartFree.replacement e).

Definition textGearsSpan (e : SmartFree.TextGearsError) : Span :=
  (SmartFree.tg_offset e, SmartFree.tg_offset e + SmartFree.tg_length e,
   textGearsBest e).

Definition languageToolSpan (m : SmartFree.LtMatch) : Span :=
  (SmartFree.lt_offset m, SmartFree.lt_offset m + SmartFree.lt_length m,
   languageToolBest m).

(** The text from [cursor] up to [upto] with every span, taken from left to
    right, replaced at once; a span with an empty replacement is left as it
    is. *)
Fixpoint replaced (text : jsstring) (cursor upto : Z) (spans : list Span)
  : jsstring :=
  match spans with
  | [] => substring text cursor upto
  | (from, to, replacement) :: rest =>
      substring text cursor from
      ++ (if len replacement =? 0 then substring text from to
          else replacement)
      ++ replaced text to upto rest
  end.

(** The spans lie within the first [upto] characters. *)
Definition within (upto : Z) (span : Span) : Prop :=
  let '(from, to, _) := span in 0 <= from <= to /\ to <= upto.

(** Of two spans the second ends where the first starts, or before. *)
Definition before (first second : Span) : Prop :=
  snd (fst second) <= fst (fst first).

(** The adapters' loop on spans. *)
Definition spliceAll (spans : list Span) (correctedText : jsstring)
  : jsstring :=
  fold_left (fun text '(from, to, replacement) =>
               if negb (len replacement =? 0)
               then SmartFree.splice text from to replacement
               else text)
            spans correctedText.

(** Two misspellings, the later one first. *)
Definition twoEdits : list SmartFree.SaplingEdit :=
  [SmartFree.mkSaplingEdit 2 9 (js "receive") None None;
   SmartFree.mkSaplingEdit 10 14 (js "a lot") None None].

(** ** Runs of the pipeline *)

(** The upstream never answers 503: no model is loading. *)
Definition neverLoading (up : Hf.upstream) : Prop :=
  forall n model prompt e,
    up n model prompt = Rejected e -> Hf.statusIs e 503 = false.

(** The upstream refuses every request, and not with a 503. *)
Definition refusesAll (up : Hf.upstream) : Prop :=
  forall n model prompt,
    exists e, up n model prompt = Rejected e /\ Hf.statusIs e 503 = false.

(** A computation comes back, with a value or an exception, after at least
    [least] and at most [most] requests. *)
Definition settles {A : Type} (m : Pipeline.run A) (least most : nat)
  : Prop :=
  forall w, exists c w',
    m w = Some (c, w') /\
    (Hf.calls w + least <= Hf.calls w' <= Hf.calls w + most)%nat.

(** It comes back with a value. *)
Definition returns {A : Type} (m : Pipeline.run A) (least most : nat)
  : Prop :=
  forall w, exists a w',
    m w = Some (Returned a, w') /\
    (Hf.calls w + least <= Hf.calls w' <= Hf.calls w + most)%nat.

(** The result of the main path when nothing was found. *)
Definition untouched (elapsed : Z) (text : jsstring) : Pipeline.Result :=
  {| Pipeline.originalText := text;
     Pipeline.resultText := text;
     Pipeline.corrections := [];
     Pipeline.analysis :=
       {| Pipeline.errorCategories := [];
          Pipeline.confidenceScore := Advanced.similarityConfidence text text;
          Pipeline.linguisticCoverage :=
            Pipeline.mkCoverage 0 0 0 0 0 0 0 0 0;
          Pipeline.qualityScore := Advanced.calculateQualityScore text text |};
     Pipeline.statistics :=
       {| Pipeline.totalErrors := 0;
          Pipeline.correctedErrors := 0;
          Pipeline.statisticsConfidenceScore :=
            Advanced.similarityConfidence text text;
          Pipeline.processingTime := elapsed;
          Pipeline.originalLength := len text;
          Pipeline.correctedLength := len text |};
     Pipeline.serviceUsed := js "Hugging Face Advanced AI";
     Pipeline.models := [] |}.

(** [n] requests sent one after the other, no back-off. *)
Definition sentTimes (n : nat) (w : Hf.world) : Hf.world :=
  Nat.iter n Hf.sent w.

(** What a change and the correction made of it have in common. *)
Definition changeOf (c : Pipeline.Formatted.t) : jsstring * jsstring * Z :=
  (Pipeline.Formatted.original c, Pipeline.Formatted.correction c,
   Pipeline.Formatted.position c).

Definition changeFound (c : Advanced.Change) : jsstring * jsstring * Z :=
  (Advanced.original c, Advanced.corrected c, Advanced.position c).

(** The answer of a model, as the upstream sends it. *)
Definition generated (reply : jsstring) : list Hf.generation :=
  [Hf.mkGeneration (Some reply) None None].

(** The upstream answers the first [k] requests with [reply] and has gone
    away after them. *)
Definition goneAfter (k : nat) (reply : jsstring) : Hf.upstream :=
  fun n _ _ =>
    if (n <? k)%nat then Resolved (generated reply)
    else Rejected (mkError (js "socket hang up") None).

(** What an element of [errors] and the correction made of it have in
    common. *)
Definition detectedChange (e : Pipeline.Detected.t) : jsstring * jsstring * Z :=
  (Pipeline.Detected.original e, Pipeline.Detected.correction e,
   Pipeline.Detected.position e).

(** A result of the main path for [text] hangs together. *)
Definition consistent (text : jsstring) (r : Pipeline.Result) : Prop :=
  Pipeline.originalText r = text /\
  (Pipeline.corrections r = [] \/
   map changeOf (Pipeline.corrections r)
   = map changeFound (Advanced.findTextChanges text (Pipeline.resultText r))) /\
  (exists confidence,
      (confidence = 80 \/ confidence = 70) /\
      Forall (fun c => Pipeline.Formatted.confidence c = confidence)
             (Pipeline.corrections r)) /\
  NoDup (Pipeline.errorCategories (Pipeline.analysis r)) /\
  (forall category,
      In category (Pipeline.errorCategories (Pipeline.analysis r)) <->
      exists c, In c (Pipeline.corrections r) /\
                Pipeline.Formatted.category c = category) /\
  Pipeline.totalErrors (Pipeline.statistics r)
  = Z.of_nat (List.length (Pipeline.corrections r)) /\
  Pipeline.originalLength (Pipeline.statistics r) = len text /\
  Pipeline.correctedLength (Pipeline.statistics r)
  = len (Pipeline.resultText r) /\
  Pipeline.statisticsConfidenceScore (Pipeline.statistics r)
  = Pipeline.confidenceScore (Pipeline.analysis r) /\
  Pipeline.qualityScore (Pipeline.analysis r)
  = Advanced.calculateQualityScore text (Pipeline.resultText r).

(** ** The front end and the server *)

(** The page after a correction that came back with [data]. *)
Definition corrected (page : Checker.Page) (data : Controller.Data)
  : Checker.Page :=
  let correctionCount :=
    Universal.correctedErrors (Controller.statistics data) in
  {| Checker.text := Checker.text page;
     Checker.result := Some data;
     Checker.loading := false;
     Checker.error := None;
     Checker.successMessage :=
       if correctionCount =? 0 then Checker.excellent
       else Checker.found correctionCount
                          (Universal.confidenceScore
                             (Controller.analysis data)) |}.

(** An error as [new Error(message)] makes it, thrown with [stack]. *)
Definition plainError (message stack : jsstring) : Middleware.Thrown :=
  Middleware.thrown (newError message) stack.

(** A text of 15001 letters, one more than the service takes. *)
Definition tooLong : jsstring := repeat 97%N (Z.to_nat 15001).

(** A text of 15000 letters, and one of 20000. *)
Definition atLimit : jsstring := repeat 97%N (Z.to_nat 15000).
Definition atRaisedLimit : jsstring := repeat 97%N (Z.to_nat 20000).

(** ** The rule-based fallback *)

(** The correction that [fallbackCorrection] pushes for a rule. *)
Definition ruleCorrection (rule : jsstring * jsstring) : Advanced.Correction :=
  Advanced.mkCorrection
    (fst rule) (snd rule)
    (js "Grammar rule: " ++ fst rule ++ [32; 8594; 32]%N ++ snd rule)
    (js "Grammar") 85.

(** [a] is [b] with some elements left out. *)
Fixpoint subsequence {A : Type} (a b : list A) : Prop :=
  match b with
  | [] => a = []
  | y :: b' =>
      match a with
      | [] => True
      | x :: a' => (x = y /\ subsequence a' b') \/ subsequence a b'
      end
  end.

(** * Properties *)

(** ** Strings *)

Lemma jsstring_eqb_eq (a b : jsstring) : eqb a b = true <-> a = b.
Proof.
  revert b; induction a as [|x a IH]; intros [|y b]; simpl; split; intro H;
    try reflexivity; try discriminate.
  - apply andb_true_iff in H as [Hx Hab]. apply N.eqb_eq in Hx.
    apply IH in Hab. now subst.
  - injection H as -> ->. apply andb_true_iff. split.
    + apply N.eqb_refl.
    + now apply IH.
Qed.

Lemma jsstring_eqb_refl (a : jsstring) : eqb a a = true.
Proof. now apply jsstring_eqb_eq. Qed.

Lemma jsstring_eqb_neq (a b : jsstring) : eqb a b = false <-> a <> b.
Proof.
  split.
  - intros H E. apply jsstring_eqb_eq in E. congruence.
  - intro H. destruct (eqb a b) eqn:E; [|reflexivity].
    apply jsstring_eqb_eq in E. contradiction.
Qed.

Lemma len_app (a b : jsstring) : len (a ++ b) = len a + len b.
Proof. unfold len. rewrite length_app. lia. Qed.

Lemma len_nonneg (a : jsstring) : 0 <= len a.
Proof. unfold len. lia. Qed.

Lemma len_zero (a : jsstring) : len a = 0 <-> a = [].
Proof.
  unfold len. destruct a; simpl; split; intro H; try reflexivity;
    try discriminate; lia.
Qed.

Lemma trim_nonempty (text : jsstring) : len (trim text) <> 0 -> len text <> 0.
Proof.
  intros T Z0. apply len_zero in Z0. subst. now compute in T.
Qed.

Lemma substring_middle (pre a post : jsstring) :
  substring (pre ++ a ++ post) (len pre) (len pre + len a) = a.
Proof.
  unfold substring, clamp. rewrite !len_app.
  pose proof (len_nonneg pre). pose proof (len_nonneg a).
  pose proof (len_nonneg post).
  set (n := len pre + (len a + len post)).
  assert (E1 : Z.max 0 (Z.min n (len pre)) = len pre) by lia.
  assert (E2 : Z.max 0 (Z.min n (len pre + len a)) = len pre + len a) by lia.
  rewrite E1, E2.
  replace (Z.min (len pre) (len pre + len a)) with (len pre) by lia.
  replace (Z.max (len pre) (len pre + len a) - len pre) with (len a) by lia.
  unfold len. rewrite !Nat2Z.id.
  rewrite skipn_app, skipn_all, Nat.sub_diag. simpl.
  rewrite firstn_app, firstn_all, Nat.sub_diag. simpl. apply app_nil_r.
Qed.

(** ** Tokens *)

Lemma splitKeepSpaces_cons (s : jsstring) :
  exists w more, splitKeepSpaces s = w :: more.
Proof.
  induction s as [|c s (w & more & IH)]; simpl.
  - now exists [], [].
  - rewrite IH. destruct (isSpace c).
    + destruct w, more; eauto.
    + eauto.
Qed.

(** The tokens, put together again, are the string. *)
Lemma splitKeepSpaces_concat (s : jsstring) :
  List.concat (splitKeepSpaces s) = s.
Proof.
  induction s as [|c s IH]; simpl; [reflexivity|].
  destruct (splitKeepSpaces s) as [|w more] eqn:E.
  - destruct (splitKeepSpaces_cons s) as (? & ? & ?). congruence.
  - destruct (isSpace c).
    + destruct w, more; simpl in *; now rewrite <- IH.
    + simpl in *. now rewrite IH.
Qed.

(** The first token is empty exactly for the empty string and for a string
    that starts with whitespace. *)
Lemma splitKeepSpaces_first (s : jsstring) :
  hd [] (splitKeepSpaces s) = [] <-> (len s =? 0) || startsWithSpace s = true.
Proof.
  destruct s as [|c s]; simpl.
  - tauto.
  - destruct (splitKeepSpaces_cons s) as (w & more & E). rewrite E.
    unfold len; simpl. destruct (isSpace c).
    + destruct w, more; simpl; tauto.
    + simpl. split; intro H; discriminate.
Qed.

Lemma tokenCount_hasWhitespace (s : jsstring) :
  (1 <? List.length (splitKeepSpaces s))%nat = hasWhitespace s.
Proof.
  induction s as [|c s IH]; simpl; [reflexivity|].
  destruct (splitKeepSpaces_cons s) as (w & more & E). rewrite E in *.
  destruct (isSpace c); simpl.
  - destruct w, more; reflexivity.
  - exact IH.
Qed.

Ltac decide_ranges :=
  repeat match goal with
         | |- context [(?a <=? ?b)%N] => destruct (N.leb_spec a b); try lia
         | |- context [(?a =? ?b)%N] => destruct (N.eqb_spec a b); try lia
         end; reflexivity.

Lemma isSpace_lowerChar (c : char) : isSpace (lowerChar c) = isSpace c.
Proof.
  unfold lowerChar.
  destruct ((65 <=? c) && (c <=? 90))%N eqn:E1.
  - apply andb_true_iff in E1 as [H1 H2].
    apply N.leb_le in H1, H2. unfold isSpace. decide_ranges.
  - destruct ((192 <=? c) && (c <=? 222) && negb (c =? 215))%N eqn:E2;
      [|reflexivity].
    apply andb_true_iff in E2 as [E2 _].
    apply andb_true_iff in E2 as [H1 H2].
    apply N.leb_le in H1, H2. unfold isSpace. decide_ranges.
Qed.

Lemma hasWhitespace_toLowerCase (s : jsstring) :
  hasWhitespace (toLowerCase s) = hasWhitespace s.
Proof.
  induction s as [|c s IH]; simpl; [reflexivity|].
  now rewrite isSpace_lowerChar, IH.
Qed.

Lemma offsetOf_0 (tokens : list jsstring) : offsetOf tokens 0 = 0.
Proof. reflexivity. Qed.

Lemma offsetOf_S (t : jsstring) (tokens : list jsstring) (i : nat) :
  offsetOf (t :: tokens) (S i) = len t + offsetOf tokens i.
Proof. unfold offsetOf. simpl. apply len_app. Qed.

Lemma nth_error_concat (l : list jsstring) (i : nat) (a : jsstring) :
  nth_error l i = Some a ->
  exists post, List.concat l = List.concat (firstn i l) ++ a ++ post.
Proof.
  revert i; induction l as [|t l IH]; intros [|i] H; simpl in *;
    try discriminate.
  - injection H as ->. now exists (List.concat l).
  - destruct (IH _ H) as (post & E). exists post.
    now rewrite E, <- app_assoc.
Qed.

(** ** The text diff engine *)

Lemma walk_same (l : list jsstring) (p : Z) : Advanced.walk l l p = [].
Proof.
  revert p; induction l as [|t l IH]; intro p; simpl; [reflexivity|].
  now rewrite jsstring_eqb_refl, IH.
Qed.

(** The walk emits a change exactly where the two token lists differ at the
    same index. *)
Lemma walk_In (ow cw : list jsstring) (p : Z) (ch : Advanced.Change) :
  In ch (Advanced.walk ow cw p) <->
  exists i a b,
    nth_error ow i = Some a /\ nth_error cw i = Some b /\ a <> b /\
    ch = Advanced.mkChange a b (p + offsetOf ow i) (8 # 10).
Proof.
  revert cw p; induction ow as [|o ow IH]; intros cw p.
  - simpl. split; [contradiction|].
    intros (i & a & b & H & _). now rewrite nth_error_nil in H.
  - destruct cw as [|c cw].
    + simpl. split; [contradiction|].
      intros (i & a & b & _ & H & _). now rewrite nth_error_nil in H.
    + simpl. rewrite in_app_iff, IH. split.
      * intros [H | (i & a & b & Ha & Hb & Hab & ->)].
        -- destruct (eqb o c) eqn:E; [contradiction|].
           destruct H as [<- | []]. exists 0%nat, o, c.
           rewrite offsetOf_0, Z.add_0_r. apply jsstring_eqb_neq in E.
           now repeat split.
        -- exists (S i), a, b. rewrite offsetOf_S.
           repeat split; try assumption. f_equal. lia.
      * intros ([|i] & a & b & Ha & Hb & Hab & ->); simpl in Ha, Hb.
        -- injection Ha as ->. injection Hb as ->. left.
           apply jsstring_eqb_neq in Hab. rewrite Hab. left.
           now rewrite offsetOf_0, Z.add_0_r.
        -- right. exists i, a, b. rewrite offsetOf_S.
           repeat split; try assumption. f_equal. lia.
Qed.

Lemma compareWords_same (l : list jsstring) (i : Z) :
  Universal.compareWords l l i = [].
Proof.
  revert i; induction l as [|t l IH]; intro i; simpl; [reflexivity|].
  now rewrite jsstring_eqb_refl, IH.
Qed.

Lemma compareWords_In (ow cw : list jsstring) (k : Z)
      (c : Universal.Correction) :
  In c (Universal.compareWords ow cw k) <->
  exists i a b,
    nth_error ow i = Some a /\ nth_error cw i = Some b /\ a <> b /\
    trim a <> [] /\ trim b <> [] /\
    c = Universal.mkCorrection a b (js "Grammar") (Universal.improved a b) 75
          (Some (k + Z.of_nat i)).
Proof.
  revert cw k; induction ow as [|o ow IH]; intros cw k.
  - simpl. split; [contradiction|].
    intros (i & a & b & H & _). now rewrite nth_error_nil in H.
  - destruct cw as [|w cw].
    + simpl. split; [contradiction|].
      intros (i & a & b & _ & H & _). now rewrite nth_error_nil in H.
    + simpl. rewrite in_app_iff, IH. split.
      * intros [H | (i & a & b & Ha & Hb & Hab & Hta & Htb & ->)].
        -- destruct (eqb o w) eqn:E; [contradiction|].
           destruct (len (trim o) =? 0) eqn:Eo; [contradiction|].
           destruct (len (trim w) =? 0) eqn:Ew; [contradiction|].
           destruct H as [<- | []]. exists 0%nat, o, w.
           apply jsstring_eqb_neq in E. apply Z.eqb_neq in Eo, Ew.
           rewrite Z.add_0_r. repeat split; try assumption;
             intro K; rewrite K in *; now compute in *.
        -- exists (S i), a, b. repeat split; try assumption.
           do 2 f_equal. lia.
      * intros ([|i] & a & b & Ha & Hb & Hab & Hta & Htb & ->);
          simpl in Ha, Hb.
        -- injection Ha as ->. injection Hb as ->. left.
           apply jsstring_eqb_neq in Hab. rewrite Hab.
           destruct (len (trim a) =? 0) eqn:Ea;
             [apply Z.eqb_eq, len_zero in Ea; contradiction|].
           destruct (len (trim b) =? 0) eqn:Eb;
             [apply Z.eqb_eq, len_zero in Eb; contradiction|].
           left. now rewrite Z.add_0_r.
        -- right. exists i, a, b. repeat split; try assumption.
           do 2 f_equal. lia.
Qed.

Lemma compareWords_empty_l (cw : list jsstring) (k : Z) :
  Universal.compareWords [[]] cw k = [].
Proof. destruct cw as [|c [|]]; simpl; now rewrite ?andb_false_r. Qed.

Lemma compareWords_empty_r (ow : list jsstring) (k : Z) :
  Universal.compareWords ow [[]] k = [].
Proof.
  destruct ow as [|o ow]; simpl; [reflexivity|].
  rewrite andb_false_r. now destruct ow.
Qed.

(** C10, as amended.  For every string [s] the diff of [s] with itself is
    the empty edit sequence, in [findTextChanges] and in
    [analyzeCorrections]; both are total functions, so nothing is thrown.
    When one of the two strings is empty, [findTextChanges] returns no edit
    if the other string is empty or starts with whitespace and exactly one
    edit, at position 0, otherwise; [analyzeCorrections] returns one summary
    record if the other string holds whitespace and nothing otherwise. *)
Theorem diff_noop_and_degenerate :
  (forall s,
      Advanced.findTextChanges s s = [] /\
      Universal.analyzeCorrections s s = []) /\
  (forall b,
      Advanced.findTextChanges [] b =
      if (len b =? 0) || startsWithSpace b then []
      else [Advanced.mkChange [] (hd [] (splitKeepSpaces b)) 0 (8 # 10)]) /\
  (forall a,
      Advanced.findTextChanges a [] =
      if (len a =? 0) || startsWithSpace a then []
      else [Advanced.mkChange (hd [] (splitKeepSpaces a)) [] 0 (8 # 10)]) /\
  (forall b,
      Universal.analyzeCorrections [] b =
      if hasWhitespace b then [missingWords] else []) /\
  (forall a,
      Universal.analyzeCorrections a [] =
      if hasWhitespace a then [extraWords] else []).
Proof.
  repeat split.
  - apply walk_same.
  - unfold Universal.analyzeCorrections, Universal.lengthDifference.
    now rewrite compareWords_same, Nat.ltb_irrefl.
  - intro b. unfold Advanced.findTextChanges.
    pose proof (splitKeepSpaces_first b) as F.
    destruct (splitKeepSpaces_cons b) as (w & more & E). rewrite E in *.
    simpl in *. destruct ((len b =? 0) || startsWithSpace b).
    + destruct F as [_ F]. now rewrite F.
    + destruct w as [|c w]; [destruct F as [F _]; now discriminate F|].
      now destruct more.
  - intro a. unfold Advanced.findTextChanges.
    pose proof (splitKeepSpaces_first a) as F.
    destruct (splitKeepSpaces_cons a) as (w & more & E). rewrite E in *.
    simpl in *. destruct ((len a =? 0) || startsWithSpace a).
    + destruct F as [_ F]. rewrite F by reflexivity. now destruct more.
    + destruct w as [|c w]; [destruct F as [F _]; now discriminate F|].
      now destruct more.
  - intro b. unfold Universal.analyzeCorrections. simpl toLowerCase.
    change (splitKeepSpaces []) with [@nil char].
    rewrite compareWords_empty_l. simpl app.
    unfold Universal.lengthDifference. simpl List.length at 1.
    rewrite tokenCount_hasWhitespace, hasWhitespace_toLowerCase.
    destruct (hasWhitespace b) eqn:H; [reflexivity|].
    rewrite <- hasWhitespace_toLowerCase, <- tokenCount_hasWhitespace in H.
    destruct (splitKeepSpaces_cons (toLowerCase b)) as (w & more & E).
    rewrite E in *. now destruct more.
  - intro a. unfold Universal.analyzeCorrections. simpl toLowerCase.
    change (splitKeepSpaces []) with [@nil char].
    rewrite compareWords_empty_r. simpl app.
    unfold Universal.lengthDifference. simpl List.length at 2 3.
    rewrite tokenCount_hasWhitespace, hasWhitespace_toLowerCase.
    destruct (splitKeepSpaces_cons (toLowerCase a)) as (w & more & E).
    rewrite E. simpl List.length. simpl Nat.ltb.
    now destruct (hasWhitespace a).
Qed.

(** C10 as stated fails on degenerate input: the original is empty, the
    corrected text is not, and no edit comes out. *)
Lemma diff_degenerate_counterexample :
  js " a" <> [] /\
  Advanced.findTextChanges [] (js " a") = [] /\
  js "abc" <> [] /\
  Universal.analyzeCorrections [] (js "abc") = [].
Proof. repeat split; try discriminate; reflexivity. Qed.



(** ** The structured-edit adapters *)

Section SortDescending.

Context {A : Type} (key : A -> Z).

Lemma insertDescending_perm (x : A) (l : list A) :
  Permutation (x :: l) (SmartFree.insertDescending key x l).
Proof.
  induction l as [|y l IH]; simpl; [reflexivity|].
  destruct (key x <? key y); [|reflexivity].
  rewrite perm_swap. now apply perm_skip.
Qed.

Lemma sortDescending_perm (l : list A) :
  Permutation l (SmartFree.sortDescending key l).
Proof.
  induction l as [|x l IH]; simpl; [constructor|].
  rewrite <- insertDescending_perm. now apply perm_skip.
Qed.

Lemma insertDescending_sorted (x : A) (l : list A) :
  StronglySorted (descending key) l ->
  StronglySorted (descending key) (SmartFree.insertDescending key x l).
Proof.
  induction 1 as [|y l S IH F]; simpl.
  - repeat constructor.
  - destruct (key x <? key y) eqn:E.
    + apply Z.ltb_lt in E. constructor; [exact IH|].
      rewrite <- insertDescending_perm. constructor; [|exact F].
      unfold descending. lia.
    + apply Z.ltb_ge in E. constructor; [now constructor|].
      constructor; [exact E|].
      eapply Forall_impl; [|exact F]. unfold descending. intros; lia.
Qed.

Lemma sortDescending_sorted (l : list A) :
  StronglySorted (descending key) (SmartFree.sortDescending key l).
Proof.
  induction l as [|x l IH]; simpl; [constructor|].
  now apply insertDescending_sorted.
Qed.

(** Stability: the elements of one key keep the order they came in. *)
Lemma insertDescending_stable (k : Z) (x : A) (l : list A) :
  StronglySorted (descending key) l ->
  filter (fun e => key e =? k) (SmartFree.insertDescending key x l) =
  filter (fun e => key e =? k) (x :: l).
Proof.
  induction 1 as [|y l S IH F]; [reflexivity|].
  simpl SmartFree.insertDescending.
  destruct (key x <? key y) eqn:E; [|reflexivity].
  apply Z.ltb_lt in E. simpl filter at 1. rewrite IH. simpl.
  destruct (key x =? k) eqn:Ex, (key y =? k) eqn:Ey; try reflexivity.
  apply Z.eqb_eq in Ex, Ey. lia.
Qed.

Lemma sortDescending_stable (k : Z) (l : list A) :
  filter (fun e => key e =? k) (SmartFree.sortDescending key l) =
  filter (fun e => key e =? k) l.
Proof.
  induction l as [|x l IH]; [reflexivity|].
  simpl SmartFree.sortDescending.
  rewrite insertDescending_stable by apply sortDescending_sorted.
  simpl. now rewrite IH.
Qed.

Lemma filter_sorted (R : A -> A -> Prop) (f : A -> bool) (l : list A) :
  StronglySorted R l -> StronglySorted R (filter f l).
Proof.
  induction 1 as [|y l S IH F]; simpl; [constructor|].
  destruct (f y); [|exact IH]. constructor; [exact IH|].
  apply Forall_forall. intros z Hz. apply filter_In in Hz as [Hz _].
  rewrite Forall_forall in F. now apply F.
Qed.

Lemma snoc_sorted (R : A -> A -> Prop) (y : A) (l : list A) :
  StronglySorted R l -> Forall (fun a => R a y) l ->
  StronglySorted R (l ++ [y]).
Proof.
  induction 1 as [|z l S IH F]; intro G; simpl.
  - repeat constructor.
  - inversion G; subst. constructor; [now apply IH|].
    apply Forall_app. split; [exact F|]. now repeat constructor.
Qed.

Lemma rev_sorted (R : A -> A -> Prop) (l : list A) :
  StronglySorted R l -> StronglySorted (fun a b => R b a) (rev l).
Proof.
  induction 1 as [|y l S IH F]; simpl; [constructor|].
  apply snoc_sorted; [exact IH|].
  apply Forall_forall. intros z Hz. apply in_rev in Hz.
  rewrite Forall_forall in F. now apply F.
Qed.

End SortDescending.

(** The loop of each adapter pushes one record for every edit that brings a
    replacement, in the order of the sorted list. *)
Lemma fold_applySapling (t : jsstring) (l : list SmartFree.SaplingEdit)
      (s : jsstring) (acc : list SmartFree.Correction) :
  snd (fold_left (SmartFree.applySapling t) l (s, acc)) =
  acc ++ map (saplingCorrection t) (filter saplingApplies l).
Proof.
  revert s acc; induction l as [|e l IH]; intros s acc; simpl.
  - now rewrite app_nil_r.
  - unfold saplingApplies at 1.
    destruct (negb (len (SmartFree.replacement e) =? 0)); simpl.
    + rewrite IH, <- app_assoc. reflexivity.
    + apply IH.
Qed.

Lemma fold_applyTextGears (t : jsstring) (l : list SmartFree.TextGearsError)
      (s : jsstring) (acc : list SmartFree.Correction) :
  snd (fold_left (SmartFree.applyTextGears t) l (s, acc)) =
  acc ++ map (textGearsCorrection t) (filter textGearsApplies l).
Proof.
  revert s acc; induction l as [|e l IH]; intros s acc; simpl.
  - now rewrite app_nil_r.
  - unfold textGearsApplies at 1, textGearsBest at 1.
    destruct (negb (len (SmartFree.orDefault (hd_error (SmartFree.better e)) [])
                    =? 0)); simpl.
    + rewrite IH, <- app_assoc. reflexivity.
    + apply IH.
Qed.

Lemma fold_applyLanguageTool (t : jsstring) (l : list SmartFree.LtMatch)
      (s : jsstring) (acc : list SmartFree.Correction)
      (c : SmartFree.Correction) :
  In c (snd (fold_left (SmartFree.applyLanguageTool t) l (s, acc))) ->
  In c acc \/
  exists m, In m l /\ languageToolBest m <> [] /\
    SmartFree.original c =
    substring t (SmartFree.lt_offset m)
              (SmartFree.lt_offset m + SmartFree.lt_length m).
Proof.
  revert s acc; induction l as [|m l IH]; intros s acc; simpl.
  - now left.
  - destruct (negb (len (SmartFree.orDefault
                           (hd_error (SmartFree.replacements m)) []) =? 0))
      eqn:E; simpl.
    + intro H. apply IH in H as [H | (m' & Hm & Hb & Ho)].
      * apply in_app_or in H as [H | [<- | []]]; [now left|]. right.
        exists m. repeat split; [now left|].
        unfold languageToolBest. intro K. rewrite K in E. discriminate.
      * right. exists m'. repeat split; [now right|assumption|assumption].
    + intro H. apply IH in H as [H | (m' & Hm & Hb & Ho)]; [now left|].
      right. exists m'. repeat split; [now right|assumption|assumption].
Qed.

Lemma sapling_corrections (t : jsstring) (edits : list SmartFree.SaplingEdit) :
  SmartFree.corrections (SmartFree.processSaplingResponse t edits) =
  map (saplingCorrection t)
      (rev (filter saplingApplies
                   (SmartFree.sortDescending SmartFree.start edits))).
Proof.
  unfold SmartFree.processSaplingResponse.
  pose proof (fold_applySapling t
                (SmartFree.sortDescending SmartFree.start edits) t []) as F.
  destruct (fold_left _ _ _) as [correctedText applied]. simpl in *.
  now rewrite F, map_rev.
Qed.

Lemma textGears_corrections (t : jsstring)
      (errors : list SmartFree.TextGearsError) :
  SmartFree.corrections (SmartFree.processTextGearsResponse t errors) =
  map (textGearsCorrection t)
      (rev (filter textGearsApplies
                   (SmartFree.sortDescending SmartFree.tg_offset errors))).
Proof.
  unfold SmartFree.processTextGearsResponse.
  pose proof (fold_applyTextGears t
                (SmartFree.sortDescending SmartFree.tg_offset errors) t [])
    as F.
  destruct (fold_left _ _ _) as [correctedText applied]. simpl in *.
  now rewrite F, map_rev.
Qed.

(** C9, as amended.  For every structured-edit response the Sapling and
    TextGears adapters sort the received edits by descending offset with a
    stable sort: edits of equal offset keep the order the upstream gave
    them, and the length plays no part.  The edits that bring a replacement
    are applied in that order, and the corrections of the returned result
    are these edits in the reverse of the application order, that is by
    ascending offset. *)
Theorem structured_edits_order (originalText : jsstring)
        (edits : list SmartFree.SaplingEdit)
        (errors : list SmartFree.TextGearsError) :
  let sortedEdits := SmartFree.sortDescending SmartFree.start edits in
  let sortedErrors := SmartFree.sortDescending SmartFree.tg_offset errors in
  (Permutation edits sortedEdits /\
   StronglySorted (fun a b => SmartFree.start b <= SmartFree.start a)
                  sortedEdits /\
   (forall k,
       filter (fun e => SmartFree.start e =? k) sortedEdits =
       filter (fun e => SmartFree.start e =? k) edits) /\
   SmartFree.corrections (SmartFree.processSaplingResponse originalText edits) =
   map (saplingCorrection originalText)
       (rev (filter saplingApplies sortedEdits)) /\
   StronglySorted (fun a b => SmartFree.start a <= SmartFree.start b)
                  (rev (filter saplingApplies sortedEdits))) /\
  (Permutation errors sortedErrors /\
   StronglySorted (fun a b => SmartFree.tg_offset b <= SmartFree.tg_offset a)
                  sortedErrors /\
   (forall k,
       filter (fun e => SmartFree.tg_offset e =? k) sortedErrors =
       filter (fun e => SmartFree.tg_offset e =? k) errors) /\
   SmartFree.corrections
     (SmartFree.processTextGearsResponse originalText errors) =
   map (textGearsCorrection originalText)
       (rev (filter textGearsApplies sortedErrors)) /\
   StronglySorted (fun a b => SmartFree.tg_offset a <= SmartFree.tg_offset b)
                  (rev (filter textGearsApplies sortedErrors))).
Proof.
  intros sortedEdits sortedErrors. split; repeat split.
  - apply sortDescending_perm.
  - apply sortDescending_sorted.
  - intro k. apply sortDescending_stable.
  - apply sapling_corrections.
  - apply (rev_sorted (descending SmartFree.start)), filter_sorted,
      sortDescending_sorted.
  - apply sortDescending_perm.
  - apply sortDescending_sorted.
  - intro k. apply sortDescending_stable.
  - apply textGears_corrections.
  - apply (rev_sorted (descending SmartFree.tg_offset)), filter_sorted,
      sortDescending_sorted.
Qed.

(** C9 as stated fails twice: the returned corrections start with the edit
    of the lowest offset, and of two edits at one offset the shorter one
    stays first when the upstream sent it first. *)
Lemma structured_edits_order_counterexample :
  map SmartFree.original
      (SmartFree.corrections
         (SmartFree.processSaplingResponse (js "a bcd e")
            [SmartFree.mkSaplingEdit 6 7 (js "Y") None None;
             SmartFree.mkSaplingEdit 0 1 (js "X") None None])) =
  [js "a"; js "e"] /\
  map SmartFree.end_
      (SmartFree.sortDescending SmartFree.start
         [SmartFree.mkSaplingEdit 0 1 (js "X") None None;
          SmartFree.mkSaplingEdit 0 3 (js "Y") None None]) =
  [1; 3].
Proof. split; reflexivity. Qed.

(** C6, as amended.  Every edit produced by [findTextChanges] has a
    position that is a character offset into the original text: it is not
    negative, position plus the length of the original span does not exceed
    the length of the original text, and the span is the substring of the
    original text at that position.  The LanguageTool adapter records no
    offset; the span it records is the substring of the original text at
    the offset and length the upstream sent. *)
Theorem edit_offsets (originalText : jsstring) :
  (forall corrected ch,
      In ch (Advanced.findTextChanges originalText corrected) ->
      0 <= Advanced.position ch /\
      Advanced.position ch + len (Advanced.original ch) <= len originalText /\
      substring originalText (Advanced.position ch)
                (Advanced.position ch + len (Advanced.original ch)) =
      Advanced.original ch) /\
  (forall response c,
      In c (SmartFree.corrections
              (SmartFree.processLanguageToolResponse originalText response)) ->
      exists m,
        In m (SmartFree.matches response) /\
        SmartFree.original c =
        substring originalText (SmartFree.lt_offset m)
                  (SmartFree.lt_offset m + SmartFree.lt_length m)).
Proof.
  split.
  - intros corrected ch H. unfold Advanced.findTextChanges in H.
    apply walk_In in H as (i & a & b & Ha & _ & _ & ->). simpl.
    destruct (nth_error_concat _ _ _ Ha) as (post & E).
    rewrite splitKeepSpaces_concat in E. unfold offsetOf.
    remember (List.concat (firstn i (splitKeepSpaces originalText))) as pre
      eqn:P.
    clear P Ha. pose proof (len_nonneg pre). pose proof (len_nonneg post).
    subst originalText. rewrite !len_app. repeat split.
    + lia.
    + lia.
    + apply substring_middle.
  - intros response c H. unfold SmartFree.processLanguageToolResponse in H.
    destruct (fold_left _ _ _) as [correctedText applied] eqn:F.
    simpl in H. apply in_rev in H.
    replace applied with (snd (fold_left
      (SmartFree.applyLanguageTool originalText)
      (SmartFree.sortDescending SmartFree.lt_offset
         (filter (fun m => (0 <? List.length (SmartFree.replacements m))%nat)
                 (SmartFree.matches response)))
      (originalText, []))) in H by now rewrite F.
    apply fold_applyLanguageTool in H as [[] | (m & Hm & _ & Ho)].
    exists m. split; [|exact Ho].
    eapply Permutation_in in Hm;
      [|apply Permutation_sym, sortDescending_perm].
    now apply filter_In in Hm.
Qed.

(** C6 as stated fails in [analyzeCorrections]: the position it records is
    the index of the token and the span is lower-cased, so that here
    position plus length passes the end of the original text. *)
Lemma token_index_counterexample :
  Universal.analyzeCorrections (js " b") (js " c") =
  [Universal.mkCorrection (js "b") (js "c") (js "Grammar")
     (Universal.improved (js "b") (js "c")) 75 (Some 2)] /\
  ~ (2 + len (js "b") <= len (js " b")) /\
  substring (js " b") 2 (2 + len (js "b")) <> js "b".
Proof. repeat split; [intro H; now compute in H | discriminate]. Qed.

Lemma edit_offsets_witness :
  In (Advanced.mkChange (js "b") (js "x") 2 (8 # 10))
     (Advanced.findTextChanges (js "a b c") (js "a x c")) /\
  substring (js "a b c") 2 3 = js "b".
Proof.
  assert (H : In (Advanced.mkChange (js "b") (js "x") 2 (8 # 10))
                 (Advanced.findTextChanges (js "a b c") (js "a x c")))
    by (left; reflexivity).
  split; [exact H|].
  exact (proj2 (proj2 (proj1 (edit_offsets (js "a b c")) _ _ H))).
Defined.

(** ** The hosted-model orchestrator *)

Lemma isValidCorrection_same (s : jsstring) :
  Universal.isValidCorrection s s = false.
Proof.
  unfold Universal.isValidCorrection. rewrite jsstring_eqb_refl.
  now destruct (len s =? 0), (len s <? 3).
Qed.

Lemma attempt_unchanged (up : Hf.upstream) (text model prompt : jsstring)
      (w : Hf.world) (g : Hf.generation) (rest : list Hf.generation)
      (generated : jsstring) :
  up (Hf.calls w) model prompt = Resolved (g :: rest) ->
  generatedText g = Some generated ->
  Universal.extractCorrectedText generated prompt = text ->
  Universal.attempt up text model prompt w = (None, Hf.sent w).
Proof.
  intros U G E. unfold Universal.attempt, Universal.queryModel. rewrite U.
  unfold generatedText in G. rewrite G, E.
  now rewrite isValidCorrection_same.
Qed.

Lemma tryEach_unchanged (up : Hf.upstream) (text : jsstring)
      (todo : list (jsstring * jsstring)) (w : Hf.world) :
  answersUnchanged up text ->
  incl todo (Universal.attempts text) ->
  Universal.tryEach up text todo w =
  (noChange text, advance (List.length todo) w).
Proof.
  intros U. revert w; induction todo as [|[model prompt] todo IH];
    intros w I; simpl.
  - unfold advance. rewrite Nat.add_0_r. now destruct w.
  - destruct (U (Hf.calls w) model prompt) as (g & rest & gen & A & B & C).
    { apply I. now left. }
    rewrite (attempt_unchanged _ _ _ _ _ _ _ _ A B C).
    rewrite IH by (intros x Hx; apply I; now right).
    unfold advance, Hf.sent. simpl. f_equal. f_equal. lia.
Qed.

Lemma attempts_length (text : jsstring) :
  List.length (Universal.attempts text) = 25%nat.
Proof. reflexivity. Qed.

Lemma universal_correctText_returns (engine : Universal.RegExpEngine)
      (elapsed : Z) (up : Hf.upstream) (text : jsstring) (w : Hf.world) :
  len (trim text) <> 0 -> len text <= 15000 ->
  exists r w',
    Universal.correctText engine elapsed up text w = (Returned r, w').
Proof.
  intros T L. pose proof (trim_nonempty _ T) as N.
  unfold Universal.correctText.
  destruct (len text =? 0) eqn:E0; [apply Z.eqb_eq in E0; contradiction|].
  destruct (len (trim text) =? 0) eqn:E1;
    [apply Z.eqb_eq in E1; contradiction|].
  destruct (15000 <? len text) eqn:E2; [apply Z.ltb_lt in E2; lia|].
  destruct (Universal.tryMultipleAIApproaches up text w) as [aiResult w'].
  destruct (Universal.count (Universal.corrections aiResult) =? 0);
    [destruct (0 <? Universal.count _)|]; eauto.
Qed.

(** In the free-service orchestrator an answer without edits is a
    success. *)
Lemma languageTool_accepts_unchanged (remote : SmartFree.Remote)
      (text language : jsstring) (response : SmartFree.LtResponse) :
  len text <> 0 -> len text <= 8000 ->
  SmartFree.languageTool remote text language = Resolved response ->
  SmartFree.matches response = [] ->
  exists r,
    SmartFree.correctText noKeys remote text language = Returned r /\
    SmartFree.correctedText r = text /\
    SmartFree.corrections r = [] /\
    SmartFree.serviceUsed r = Some (js "LanguageTool Free").
Proof.
  intros N L R M. unfold SmartFree.correctText.
  destruct (len text =? 0) eqn:E0; [apply Z.eqb_eq in E0; contradiction|].
  destruct (8000 <? len text) eqn:E1; [apply Z.ltb_lt in E1; lia|].
  unfold SmartFree.services. simpl.
  unfold SmartFree.useLanguageToolFree. rewrite R.
  eexists. split; [reflexivity|].
  unfold SmartFree.processLanguageToolResponse. rewrite M. simpl.
  repeat split.
Qed.

Lemma useIntelligentPatterns_corrections (engine : Universal.RegExpEngine)
      (text : jsstring) :
  Universal.corrections (Universal.useIntelligentPatterns engine text) =
  snd (Universal.patternPasses engine text).
Proof.
  unfold Universal.useIntelligentPatterns.
  now destruct (Universal.patternPasses engine text).
Qed.

(** C3, as amended.  In UniversalGrammarService a hosted-model answer that
    is, once extracted, identical to the input text is rejected by
    [isValidCorrection]; the orchestrator goes on to the next model and
    prompt.  When all 25 attempts end that way the outcome has zero edits,
    and [correctText] then runs the pattern pass: it returns the result of
    that pass if it found corrections, and the unchanged text with zero
    edits otherwise.  An answer without changes is accepted at once, with no
    further backend called, only in SmartFreeGrammarService, whose
    structured-edit backends are not validated. *)
Theorem unchanged_answer_is_rejected (engine : Universal.RegExpEngine)
        (elapsed : Z) (up : Hf.upstream) (text : jsstring) (w : Hf.world) :
  answersUnchanged up text ->
  len (trim text) <> 0 ->
  len text <= 15000 ->
  Universal.isValidCorrection text text = false /\
  Universal.tryMultipleAIApproaches up text w = (noChange text, advance 25 w) /\
  Universal.correctText engine elapsed up text w =
  (Returned
     (if 0 <? Universal.count (snd (Universal.patternPasses engine text))
      then Universal.useIntelligentPatterns engine text
      else Universal.withProcessingTime elapsed (noChange text)),
   advance 25 w) /\
  (forall remote language response,
      len text <= 8000 ->
      SmartFree.languageTool remote text language = Resolved response ->
      SmartFree.matches response = [] ->
      exists r,
        SmartFree.correctText noKeys remote text language = Returned r /\
        SmartFree.correctedText r = text /\
        SmartFree.corrections r = [] /\
        SmartFree.serviceUsed r = Some (js "LanguageTool Free")).
Proof.
  intros U T L.
  assert (A : Universal.tryMultipleAIApproaches up text w =
              (noChange text, advance 25 w)).
  { unfold Universal.tryMultipleAIApproaches.
    rewrite tryEach_unchanged by (assumption || apply incl_refl).
    now rewrite attempts_length. }
  pose proof (trim_nonempty _ T) as N.
  split; [apply isValidCorrection_same|]. split; [exact A|]. split.
  - unfold Universal.correctText. rewrite A.
    destruct (len text =? 0) eqn:E0; [apply Z.eqb_eq in E0; contradiction|].
    destruct (len (trim text) =? 0) eqn:E1;
      [apply Z.eqb_eq in E1; contradiction|].
    destruct (15000 <? len text) eqn:E2; [apply Z.ltb_lt in E2; lia|].
    cbv beta iota.
    change (Universal.count (Universal.corrections (noChange text)) =? 0)
      with true. cbv iota.
    rewrite useIntelligentPatterns_corrections.
    now destruct (0 <? Universal.count _).
  - intros remote language response L8 R M.
    now apply (languageTool_accepts_unchanged remote text language response).
Qed.

(** C3 as stated fails: the unchanged answer is not a valid correction, and
    the orchestrator sends all 25 requests instead of stopping at the
    first. *)
Lemma unchanged_answer_counterexample :
  Universal.isValidCorrection (js "I am happy.") (js "I am happy.") = false /\
  Hf.calls (snd (Universal.tryMultipleAIApproaches
                   (answers (js "I am happy.")) (js "I am happy.") Hf.start))
  = 25%nat.
Proof. split; vm_compute; reflexivity. Qed.

Lemma echo_answersUnchanged :
  answersUnchanged (answers (js "I am happy.")) (js "I am happy.").
Proof.
  intros n model prompt H. vm_compute in H.
  exists (Hf.mkGeneration (Some (js "I am happy.")) None None), [],
    (js "I am happy.").
  repeat split.
  repeat (destruct H as [H | H];
          [injection H as <- <-; vm_compute; reflexivity|]).
  contradiction.
Defined.

Lemma unchanged_answer_witness :
  Universal.tryMultipleAIApproaches (answers (js "I am happy."))
    (js "I am happy.") Hf.start =
  (noChange (js "I am happy."), advance 25 Hf.start) /\
  SmartFree.correctText noKeys quietRemote (js "I am happy.") (js "auto") =
  Returned (SmartFree.withService
              (SmartFree.processLanguageToolResponse (js "I am happy.")
                 nothingFound)
              (js "LanguageTool Free")).
Proof.
  destruct (unchanged_answer_is_rejected
              noMatch 0 (answers (js "I am happy."))
              (js "I am happy.") Hf.start echo_answersUnchanged)
    as (_ & A & _ & _).
  - vm_compute. discriminate.
  - vm_compute. discriminate.
  - split; [exact A|]. vm_compute. reflexivity.
Defined.

(** ** Retrying a model that is loading *)

Lemma queryModel_step (fuel : nat) (up : Hf.upstream)
      (modelName prompt : jsstring) (w : Hf.world) :
  Advanced.queryModel (S fuel) up modelName prompt w =
  match up (Hf.calls w) modelName prompt with
  | Resolved data => Some (Returned data, Hf.sent w)
  | Rejected e =>
      if Hf.statusIs e 503
      then Advanced.queryModel fuel up modelName prompt
             (Hf.slept 10000 (Hf.sent w))
      else Some (Threw (newError (js "Model query failed: " ++ errorMessage e)),
                 Hf.sent w)
  end.
Proof. reflexivity. Qed.

(** C8, on the code of AdvancedHuggingFaceGrammarService.  [queryModel]
    calls itself after every 503: against an upstream that always answers
    503 no amount of fuel lets it return, and against an upstream that is
    loading during the first [k] requests it sends [k + 1] requests and
    sleeps [k] times ten seconds.  There is no single retry. *)
Theorem queryModel_retries_without_bound :
  (forall fuel modelName prompt w,
      Advanced.queryModel fuel always503 modelName prompt w = None) /\
  (forall k answer modelName prompt,
      Advanced.queryModel (S k) (loadingFor k answer) modelName prompt
                          Hf.start =
      Some (Returned [Hf.mkGeneration (Some answer) None None],
            Hf.mkWorld (S k) (10000 * Z.of_nat k))).
Proof.
  split.
  - induction fuel as [|fuel IH]; intros; simpl; [reflexivity|apply IH].
  - intros k answer modelName prompt.
    assert (G : forall j i s, (i + j = k)%nat ->
      Advanced.queryModel (S j) (loadingFor k answer) modelName prompt
                          (Hf.mkWorld i s) =
      Some (Returned [Hf.mkGeneration (Some answer) None None],
            Hf.mkWorld (S k) (s + 10000 * Z.of_nat j))).
    { induction j as [|j IH]; intros i s E.
      - simpl. unfold loadingFor.
        assert ((i <? k)%nat = false) as -> by (apply Nat.ltb_ge; lia).
        unfold Hf.sent. simpl. do 3 f_equal; lia.
      - rewrite queryModel_step. unfold loadingFor at 1. cbn [Hf.calls].
        assert ((i <? k)%nat = true) as -> by (apply Nat.ltb_lt; lia).
        unfold modelLoading. cbn [Hf.statusIs responseStatus].
        rewrite Z.eqb_refl.
        unfold Hf.slept, Hf.sent. cbn [Hf.calls Hf.sleptMs].
        rewrite IH by lia. do 3 f_equal. lia. }
    unfold Hf.start. rewrite (G k 0%nat 0) by lia. reflexivity.
Qed.

(** The sibling [queryModel] of UniversalGrammarService sends one request,
    or two with one back-off of fifteen seconds between them. *)
Lemma universal_queryModel_bounded (up : Hf.upstream)
      (modelName prompt : jsstring) (w : Hf.world) :
  let w' := snd (Universal.queryModel up modelName prompt w) in
  (Hf.calls w' = S (Hf.calls w) /\ Hf.sleptMs w' = Hf.sleptMs w) \/
  (Hf.calls w' = S (S (Hf.calls w)) /\ Hf.sleptMs w' = Hf.sleptMs w + 15000).
Proof.
  unfold Universal.queryModel.
  destruct (up (Hf.calls w) modelName prompt) as [data|e]; simpl.
  - now left.
  - destruct (Hf.statusIs e 503).
    + right. simpl. now destruct (up _ _ _).
    + left. now destruct (Hf.statusIs e 429), (Hf.statusIs e 401).
Qed.

(** Against the upstream that always answers 503 it gives up after the
    second request. *)
Lemma universal_queryModel_gives_up (modelName prompt : jsstring)
      (w : Hf.world) :
  Universal.queryModel always503 modelName prompt w =
  (Threw (newError (js "Model still loading after retry")),
   Hf.mkWorld (S (S (Hf.calls w))) (Hf.sleptMs w + 15000)).
Proof. reflexivity. Qed.

(** ** Confidence *)

(** [Math.round] of a quotient of integers, in integer arithmetic. *)
Lemma round_quotient (a n : Z) :
  0 < n -> round (inject_Z a / inject_Z n) = (2 * a + n) / (2 * n).
Proof.
  intro H. destruct n as [|p|p]; try lia.
  cbv [round Qdiv Qinv inject_Z Qmult Qplus Qfloor Qnum Qden].
  f_equal; lia.
Qed.

Lemma sumConfidence_total (corrections : list Universal.Correction) :
  Universal.sumConfidence corrections = totalConfidence corrections.
Proof.
  unfold Universal.sumConfidence, totalConfidence.
  assert (G : forall l a,
             fold_left (fun sum c => sum + Universal.confidence c) l a =
             a + fold_right Z.add 0 (map Universal.confidence l)).
  { induction l as [|c l IH]; intro a; simpl; [lia|]. rewrite IH. lia. }
  now rewrite G.
Qed.

Lemma totalConfidence_bounds (corrections : list Universal.Correction) :
  Forall (fun c => 0 <= Universal.confidence c <= 100) corrections ->
  0 <= totalConfidence corrections <= 100 * Universal.count corrections.
Proof.
  unfold totalConfidence, Universal.count.
  induction 1 as [|c l H F IH]; [simpl; lia|].
  cbn [map fold_right List.length]. rewrite Nat2Z.inj_succ. lia.
Qed.

Lemma meanConfidence_spec (corrections : list Universal.Correction) :
  Forall (fun c => 0 <= Universal.confidence c <= 100) corrections ->
  let score := Universal.meanConfidence corrections in
  let n := Universal.count corrections in
  0 <= score <= 100 /\
  (corrections = [] -> score = 100) /\
  (corrections <> [] ->
   2 * n * score <= 2 * totalConfidence corrections + n < 2 * n * (score + 1)).
Proof.
  intros F score n. subst score. unfold Universal.meanConfidence.
  pose proof (totalConfidence_bounds _ F) as B. fold n in B |- *.
  destruct corrections as [|c l].
  - simpl. split; [lia|]. split; [reflexivity|].
    intro H. now contradiction H.
  - assert (N : 0 < n) by (unfold n, Universal.count; simpl List.length; lia).
    apply Z.ltb_lt in N as N'. rewrite N'.
    rewrite sumConfidence_total, round_quotient by exact N.
    set (t := totalConfidence (c :: l)) in *.
    assert (P : 0 < 2 * n) by lia.
    pose proof (Z.mul_div_le (2 * t + n) (2 * n) P).
    pose proof (Z.mul_succ_div_gt (2 * t + n) (2 * n) P).
    split; [split|split].
    + apply Z.div_pos; lia.
    + apply Z.lt_succ_r, Z.div_lt_upper_bound; lia.
    + intro; discriminate.
    + intros _. lia.
Qed.

Lemma analyzeCorrections_confidence (original corrected : jsstring) :
  Forall (fun c => 0 <= Universal.confidence c <= 100)
         (Universal.analyzeCorrections original corrected).
Proof.
  unfold Universal.analyzeCorrections. apply Forall_app. split.
  - apply Forall_forall. intros c H.
    apply compareWords_In in H as (i & a & b & _ & _ & _ & _ & _ & ->).
    simpl. lia.
  - unfold Universal.lengthDifference.
    destruct (_ <? _)%nat; [repeat constructor; simpl; lia|].
    destruct (_ <? _)%nat; repeat constructor; simpl; lia.
Qed.

Lemma attempt_scored (up : Hf.upstream) (text model prompt : jsstring)
      (w w' : Hf.world) (r : Universal.Result) :
  Universal.attempt up text model prompt w = (Some r, w') -> scored r.
Proof.
  unfold Universal.attempt.
  destruct (Universal.queryModel up model prompt w) as [[[|g rest]|e] w1];
    try discriminate.
  destruct (Hf.truthy _) as [generated|]; try discriminate.
  destruct (Universal.isValidCorrection _ _); try discriminate.
  destruct (0 <? _); try discriminate.
  intro H. injection H as <- _. split; [reflexivity|].
  apply analyzeCorrections_confidence.
Qed.

Lemma tryEach_scored (up : Hf.upstream) (text : jsstring)
      (todo : list (jsstring * jsstring)) (w : Hf.world) :
  scored (fst (Universal.tryEach up text todo w)).
Proof.
  revert w; induction todo as [|[model prompt] todo IH]; intro w; simpl.
  - split; [reflexivity|constructor].
  - destruct (Universal.attempt up text model prompt w) as [[r|] w'] eqn:A.
    + simpl. eapply attempt_scored, A.
    + apply IH.
Qed.

(** Every pass pushes corrections whose confidence is one of the constants
    of the source. *)
Lemma push_confident (corrections : list Universal.Correction)
      (original correction category message : jsstring) (confidence : Z) :
  0 <= confidence <= 100 ->
  Forall (fun c => 0 <= Universal.confidence c <= 100) corrections ->
  Forall (fun c => 0 <= Universal.confidence c <= 100)
         (Universal.push corrections original correction category message
                         confidence).
Proof.
  intros B F. unfold Universal.push. apply Forall_app. split; [exact F|].
  repeat constructor; simpl; lia.
Qed.

Lemma fold_confident {A : Type}
      (step : Universal.PassState -> A -> Universal.PassState) (l : list A) :
  (forall s a, confident s -> confident (step s a)) ->
  forall s, confident s -> confident (fold_left step l s).
Proof.
  intro H. induction l as [|a l IH]; intros s F; simpl; [exact F|].
  apply IH, H, F.
Qed.

Ltac confident_step :=
  intros [corrected corrections] pattern F; unfold confident in *; simpl in *;
  repeat match goal with
         | |- context [if ?b then _ else _] => destruct b
         | |- context [match ?x with _ => _ end] => destruct x
         end;
  simpl; try exact F; apply push_confident; (lia || exact F).

Lemma agreementPattern_confident (engine : Universal.RegExpEngine) :
  forall s p, confident s -> confident (Universal.agreementPattern engine s p).
Proof. unfold Universal.agreementPattern. confident_step. Qed.

Lemma tensePattern_confident (engine : Universal.RegExpEngine) :
  forall s p, confident s -> confident (Universal.tensePattern engine s p).
Proof. unfold Universal.tensePattern. confident_step. Qed.

Lemma pronounPattern_confident (engine : Universal.RegExpEngine) :
  forall s p, confident s -> confident (Universal.pronounPattern engine s p).
Proof. unfold Universal.pronounPattern. confident_step. Qed.

Lemma rewritePattern_confident (engine : Universal.RegExpEngine)
      (category : jsstring) (confidence : Z) :
  0 <= confidence <= 100 ->
  forall s p,
    confident s ->
    confident (Universal.rewritePattern engine category confidence s p).
Proof. intro B. unfold Universal.rewritePattern. confident_step. Qed.

Lemma prepositionPattern_confident (engine : Universal.RegExpEngine) :
  forall s p,
    confident s -> confident (Universal.prepositionPattern engine s p).
Proof. unfold Universal.prepositionPattern. confident_step. Qed.

Lemma structurePattern_confident (engine : Universal.RegExpEngine) :
  forall s p, confident s -> confident (Universal.structurePattern engine s p).
Proof. unfold Universal.structurePattern. confident_step. Qed.

Lemma fixPunctuationAndCapitalization_confident (s : Universal.PassState) :
  confident s -> confident (Universal.fixPunctuationAndCapitalization s).
Proof.
  destruct s as [corrected corrections]. unfold confident. simpl. intro F.
  set (P := fun c => 0 <= Universal.confidence c <= 100) in *.
  assert (S1 : forall cs o c cat m conf,
             0 <= conf <= 100 -> Forall P cs ->
             Forall P (Universal.push cs o c cat m conf))
    by (intros; now apply push_confident).
  destruct corrected as [|first rest];
    [|destruct (negb (eqb [first] (toUpperCaseUnit first)))];
    repeat match goal with
           | |- context [if ?b then _ else _] => destruct b
           end;
    simpl; repeat (apply S1; [lia|]); exact F.
Qed.

Lemma patternPasses_confident (engine : Universal.RegExpEngine)
      (text : jsstring) :
  confident (Universal.patternPasses engine text).
Proof.
  unfold Universal.patternPasses.
  apply fold_confident; [apply structurePattern_confident|].
  apply fixPunctuationAndCapitalization_confident.
  apply fold_confident;
    [apply rewritePattern_confident; lia|].
  apply fold_confident; [apply prepositionPattern_confident|].
  apply fold_confident;
    [apply rewritePattern_confident; lia|].
  apply fold_confident; [apply pronounPattern_confident|].
  apply fold_confident; [apply tensePattern_confident|].
  apply fold_confident; [apply agreementPattern_confident|].
  constructor.
Qed.

Lemma correctText_scored (engine : Universal.RegExpEngine)
      (elapsed : Z) (up : Hf.upstream) (text : jsstring) (w w' : Hf.world)
      (r : Universal.Result) :
  Universal.correctText engine elapsed up text w = (Returned r, w') ->
  scored r.
Proof.
  intros C. unfold Universal.correctText in C.
  destruct (len text =? 0); [discriminate|].
  destruct (len (trim text) =? 0); [discriminate|].
  destruct (15000 <? len text); [discriminate|].
  pose proof (tryEach_scored up text (Universal.attempts text) w) as T.
  unfold Universal.tryMultipleAIApproaches in C.
  destruct (Universal.tryEach _ _ _ _) as [aiResult w1]. simpl in T.
  assert (scored (Universal.withProcessingTime elapsed aiResult))
    by exact T.
  destruct (Universal.count (Universal.corrections aiResult) =? 0).
  - destruct (0 <? _) eqn:E.
    + injection C as <- _. unfold Universal.useIntelligentPatterns.
      pose proof (patternPasses_confident engine text) as P.
      destruct (Universal.patternPasses engine text) as [c cs].
      split; [reflexivity|]. exact P.
    + now injection C as <- _.
  - now injection C as <- _.
Qed.

Lemma assessed_confidence_bounds (fuel : nat) (up : Hf.upstream)
      (original corrected : jsstring) (w w' : Hf.world)
      (c : Advanced.Confidence) :
  Advanced.calculateConfidence fuel up original corrected w = Some (c, w') ->
  Advanced.method c = Advanced.AI_assessment ->
  exists s, Advanced.overallConfidence c = Some s /\ 0 <= s <= 100.
Proof.
  unfold Advanced.calculateConfidence.
  destruct (Advanced.queryModel _ _ _ _ _) as [[[[|[[scoreText|] st t] rest]|e] w1]|];
    intros H M; try discriminate; injection H as <- _;
    try discriminate M.
  eexists. split; [reflexivity|]. lia.
Qed.




(** The similarity-based estimate of AdvancedHuggingFaceGrammarService, used
    when the model cannot be asked, is not clamped: a repeated word makes
    the similarity exceed 1. *)
Lemma similarity_confidence_exceeds_100 :
  Advanced.similarityConfidence (js "a a") (js "a a") = Some 170.
Proof. vm_compute. reflexivity. Qed.

(** ** The quality score *)

Lemma arrayIncludes_In (l : list jsstring) (x : jsstring) :
  arrayIncludes l x = true <-> In x l.
Proof.
  unfold arrayIncludes. rewrite existsb_exists. split.
  - intros (y & H & E). apply jsstring_eqb_eq in E. now subst.
  - intro H. exists x. split; [exact H|apply jsstring_eqb_refl].
Qed.

Lemma arrayIncludes_false (l : list jsstring) (x : jsstring) :
  arrayIncludes l x = false <-> ~ In x l.
Proof.
  rewrite <- arrayIncludes_In. destruct (arrayIncludes l x); split; intro H;
    try discriminate; try reflexivity; try congruence.
Qed.

Lemma dedupe_In (seen l : list jsstring) (x : jsstring) :
  In x (dedupe seen l) <-> In x l /\ ~ In x seen.
Proof.
  revert seen; induction l as [|y l IH]; intro seen; simpl; [tauto|].
  destruct (arrayIncludes seen y) eqn:E.
  - apply arrayIncludes_In in E. rewrite IH. split.
    + intros [H N]. now split; [right|].
    + intros [[<- | H] N]; [contradiction|now split].
  - apply arrayIncludes_false in E. simpl. rewrite IH. simpl. split.
    + intros [<- | [H N]]; [now split; [left|]|].
      split; [now right|]. intro K. apply N. now right.
    + intros [[<- | H] N]; [now left|].
      destruct (list_eq_dec N.eq_dec y x) as [<- | D]; [now left|].
      right. split; [exact H|]. now intros [K | K].
Qed.

Lemma dedupe_NoDup (seen l : list jsstring) : NoDup (dedupe seen l).
Proof.
  revert seen; induction l as [|y l IH]; intro seen; simpl; [constructor|].
  destruct (arrayIncludes seen y); [apply IH|].
  constructor; [|apply IH].
  rewrite dedupe_In. intros [_ N]. apply N. now left.
Qed.

Lemma dedupe_id (seen l : list jsstring) :
  NoDup l -> (forall x, In x l -> ~ In x seen) -> dedupe seen l = l.
Proof.
  intro D. revert seen; induction D as [|y l N D IH]; intros seen H; simpl;
    [reflexivity|].
  assert (arrayIncludes seen y = false) as ->
    by (apply arrayIncludes_false, H; now left).
  f_equal. apply IH. intros x Hx [<- | K]; [contradiction|].
  apply (H x); [now right|exact K].
Qed.

Lemma setOf_In (l : list jsstring) (x : jsstring) : In x (setOf l) <-> In x l.
Proof. unfold setOf. rewrite dedupe_In. simpl. tauto. Qed.

Lemma setOf_id (l : list jsstring) : NoDup l -> setOf l = l.
Proof. intro D. apply dedupe_id; [exact D|]. now intros x _ []. Qed.

Lemma setOf_length_ext (l1 l2 : list jsstring) :
  (forall x, In x l1 <-> In x l2) ->
  List.length (setOf l1) = List.length (setOf l2).
Proof.
  intro H. apply Permutation_length, NoDup_Permutation;
    try apply dedupe_NoDup.
  intro x. now rewrite !setOf_In.
Qed.

Lemma dedupe_length (seen l : list jsstring) :
  (List.length (dedupe seen l) <= List.length l)%nat.
Proof.
  revert seen; induction l as [|x l IH]; intro seen; simpl; [lia|].
  destruct (arrayIncludes seen x); [specialize (IH seen)|
                                    specialize (IH (x :: seen))]; simpl; lia.
Qed.

Lemma splitKeepSpaces_nonempty (s : jsstring) : splitKeepSpaces s <> [].
Proof.
  destruct s as [|c s]; simpl; [discriminate|].
  destruct (splitKeepSpaces s) as [|w more]; [discriminate|].
  destruct (isSpace c); [|discriminate].
  destruct w; [destruct more|]; discriminate.
Qed.

Lemma splitSpaces_nonempty (s : jsstring) : splitSpaces s <> [].
Proof.
  unfold splitSpaces. pose proof (splitKeepSpaces_nonempty s).
  destruct (splitKeepSpaces s) as [|a [|b l]]; simpl; congruence.
Qed.

(** Without a repeated word in the original, the similarity of the code is
    the Jaccard similarity of the two word sets. *)
Lemma similarity_is_jaccard (original corrected : jsstring) :
  NoDup (splitSpaces (toLowerCase original)) ->
  Advanced.calculateSimilarity original corrected =
  Spec.jaccard original corrected.
Proof.
  intro D. unfold Advanced.calculateSimilarity, Spec.jaccard, Spec.wordSet.
  rewrite (setOf_id _ D).
  set (words1 := splitSpaces (toLowerCase original)).
  set (words2 := splitSpaces (toLowerCase corrected)).
  rewrite (filter_ext (arrayIncludes (setOf words2)) (arrayIncludes words2)).
  - rewrite (setOf_length_ext (words1 ++ setOf words2) (words1 ++ words2));
      [reflexivity|].
    intro x. now rewrite !in_app_iff, setOf_In.
  - intro x. destruct (arrayIncludes words2 x) eqn:E.
    + apply arrayIncludes_In. apply setOf_In. now apply arrayIncludes_In.
    + apply arrayIncludes_false. rewrite setOf_In.
      now apply arrayIncludes_false.
Qed.

(** *** Rounding to the nearest Number *)

Lemma nearestEven_near (s : Q) :
  (s - (1 # 2) <= inject_Z (Binary64.nearestEven s) <= s + (1 # 2))%Q.
Proof.
  destruct s as [a b]. unfold Binary64.nearestEven. cbn [Qnum Qden].
  pose proof (Z.div_mod a (Z.pos b) ltac:(discriminate)) as D.
  pose proof (Z.mod_pos_bound a (Z.pos b) ltac:(reflexivity)) as B.
  set (q := a / Z.pos b) in *. set (r := a mod Z.pos b) in *.
  clearbody q r.
  assert (G : forall m, 2 * (Z.pos b * m) - Z.pos b <= 2 * a
                        <= 2 * (Z.pos b * m) + Z.pos b ->
                        ((a # b) - (1 # 2) <= inject_Z m
                         <= (a # b) + (1 # 2))%Q).
  { intros m [L U]. unfold Qle, Qminus, Qplus, Qopp, inject_Z.
    cbn [Qnum Qden]. rewrite ?Pos2Z.inj_mul. clear - L U. split; lia. }
  destruct (Z.compare_spec (2 * r) (Z.pos b)) as [C|C|C].
  - destruct (Z.even q); apply G; lia.
  - apply G. lia.
  - apply G. lia.
Qed.

Lemma nearestEven_comp (s s' : Q) :
  (s == s')%Q -> Binary64.nearestEven s = Binary64.nearestEven s'.
Proof.
  destruct s as [a b], s' as [a' b']. unfold Qeq. cbn [Qnum Qden]. intro E.
  unfold Binary64.nearestEven. cbn [Qnum Qden].
  assert (Q1 : a / Z.pos b = a' / Z.pos b').
  { rewrite <- (Z.div_mul_cancel_r a (Z.pos b) (Z.pos b')) by discriminate.
    rewrite <- (Z.div_mul_cancel_r a' (Z.pos b') (Z.pos b)) by discriminate.
    rewrite E. f_equal. lia. }
  assert (C : (2 * (a mod Z.pos b) ?= Z.pos b)
              = (2 * (a' mod Z.pos b') ?= Z.pos b')).
  { rewrite (Zmult_compare_compat_r _ _ (Z.pos b')) by reflexivity.
    rewrite (Zmult_compare_compat_r (2 * (a' mod Z.pos b')) _ (Z.pos b))
      by reflexivity.
    rewrite !Z.mod_eq by discriminate. rewrite <- Q1.
    f_equal; nia. }
  rewrite C, Q1. reflexivity.
Qed.

Lemma nearestEven_integer (n : Z) : Binary64.nearestEven (inject_Z n) = n.
Proof.
  unfold Binary64.nearestEven, inject_Z. cbn [Qnum Qden].
  rewrite Z.mod_1_r, Z.div_1_r. reflexivity.
Qed.

Lemma pow2_positive (k : Z) : (0 < Binary64.pow2 k)%Q.
Proof. apply Qpower_0_lt. reflexivity. Qed.

Lemma pow2_plus (a b : Z) :
  (Binary64.pow2 (a + b) == Binary64.pow2 a * Binary64.pow2 b)%Q.
Proof. apply Qpower_plus. discriminate. Qed.

Lemma pow2_of_Z (k : Z) : 0 <= k -> (Binary64.pow2 k == inject_Z (2 ^ k))%Q.
Proof.
  intro P. unfold Binary64.pow2. change 2%Q with (inject_Z 2).
  now rewrite Zpower_Qpower.
Qed.

Lemma exponent_le (x : Q) :
  (0 < x)%Q -> (Binary64.pow2 (Binary64.exponent x) <= x)%Q.
Proof.
  intro P. unfold Binary64.exponent.
  set (k := Z.log2 (Qnum x) - Z.log2 (Z.pos (Qden x))).
  destruct (Qle_bool (Binary64.pow2 k) x) eqn:E;
    [now apply Qle_bool_iff|].
  destruct x as [n d]. cbn [Qnum Qden] in k.
  assert (N : 0 < n) by (unfold Qlt in P; simpl in P; lia).
  destruct (Z.log2_spec n N) as [L _].
  destruct (Z.log2_spec (Z.pos d) ltac:(reflexivity)) as [_ U].
  pose proof (Z.log2_nonneg n). pose proof (Z.log2_nonneg (Z.pos d)).
  replace (k - 1) with (Z.log2 n - (Z.log2 (Z.pos d) + 1)) by (subst k; lia).
  unfold Binary64.pow2. rewrite Qpower_minus by discriminate.
  fold (Binary64.pow2 (Z.log2 n)).
  fold (Binary64.pow2 (Z.log2 (Z.pos d) + 1)).
  rewrite !pow2_of_Z by lia.
  set (a := 2 ^ Z.log2 n) in *. set (b := 2 ^ (Z.log2 (Z.pos d) + 1)) in *.
  assert (A : 0 < a) by (subst a; apply Z.pow_pos_nonneg; lia).
  assert (B : 0 < b) by (subst b; apply Z.pow_pos_nonneg; lia).
  apply Qle_shift_div_r; [unfold Qlt; simpl; lia|].
  unfold Qle, Qmult, inject_Z. cbn [Qnum Qden]. nia.
Qed.

Lemma roundPositive_near (x : Q) :
  (0 < x)%Q ->
  (x - Binary64.roundoff * x <= Binary64.roundPositive x
   <= x + Binary64.roundoff * x)%Q.
Proof.
  intro P. unfold Binary64.roundPositive, Binary64.roundoff.
  set (e := Binary64.exponent x).
  pose proof (exponent_le x P) as E. fold e in E.
  set (s := (x * Binary64.pow2 (52 - e))%Q).
  pose proof (nearestEven_near s) as [L U].
  set (m := inject_Z (Binary64.nearestEven s)) in *.
  pose proof (pow2_positive (e - 52)) as P2.
  assert (S : (s * Binary64.pow2 (e - 52) == x)%Q).
  { subst s. rewrite <- Qmult_assoc, <- pow2_plus.
    replace (52 - e + (e - 52)) with 0 by lia.
    unfold Binary64.pow2. simpl. ring. }
  assert (H : ((1 # 2) * Binary64.pow2 (e - 52)
               <= (1 # 9007199254740992) * x)%Q).
  { replace (e - 52) with (e + -52) by lia. rewrite pow2_plus.
    assert (C : (Binary64.pow2 (-52) == 1 # 4503599627370496)%Q)
      by reflexivity.
    rewrite C.
    assert (T : ((1 # 2) * (Binary64.pow2 e * (1 # 4503599627370496))
                 == (1 # 9007199254740992) * Binary64.pow2 e)%Q) by ring.
    rewrite T. apply Qmult_le_l; [reflexivity|exact E]. }
  set (p := Binary64.pow2 (e - 52)) in *.
  assert (A : ((s - (1 # 2)) * p <= m * p)%Q)
    by (apply Qmult_le_compat_r; [exact L|now apply Qlt_le_weak]).
  assert (B : (m * p <= (s + (1 # 2)) * p)%Q)
    by (apply Qmult_le_compat_r; [exact U|now apply Qlt_le_weak]).
  assert (A' : ((s - (1 # 2)) * p == x - (1 # 2) * p)%Q)
    by (rewrite <- S; ring).
  assert (B' : ((s + (1 # 2)) * p == x + (1 # 2) * p)%Q)
    by (rewrite <- S; ring).
  rewrite A' in A. rewrite B' in B. split; lra.
Qed.

(** The unit roundoff of binary64. *)
Lemma nearest_near (x m : Q) :
  (- m <= x <= m)%Q ->
  (x - Binary64.roundoff * m <= Binary64.nearest x
   <= x + Binary64.roundoff * m)%Q.
Proof.
  intros [L U]. unfold Binary64.nearest.
  pose proof roundPositive_near as R. unfold Binary64.roundoff in *.
  destruct x as [n d]. cbn [Qnum]. destruct n as [|n|n].
  - assert (Z0 : (0 # d == 0)%Q) by reflexivity.
    rewrite Z0 in *. split; lra.
  - assert (P : (0 < Z.pos n # d)%Q) by reflexivity.
    pose proof (R _ P) as [A B].
    set (r := Binary64.roundPositive (Z.pos n # d)) in *.
    set (x := (Z.pos n # d)%Q) in *. split; lra.
  - assert (P : (0 < - (Z.neg n # d))%Q) by reflexivity.
    pose proof (R _ P) as [A B].
    set (r := Binary64.roundPositive (- (Z.neg n # d))) in *.
    set (x := (Z.neg n # d)%Q) in *. split; lra.
Qed.

Lemma nearest_integer (n : Z) :
  - 2 ^ 53 < n < 2 ^ 53 ->
  (Binary64.nearest (inject_Z n) == inject_Z n)%Q.
Proof.
  assert (P : forall p, Z.pos p < 2 ^ 53 ->
                        (Binary64.roundPositive (inject_Z (Z.pos p))
                         == inject_Z (Z.pos p))%Q).
  { intros p B. unfold Binary64.roundPositive.
    set (x := inject_Z (Z.pos p)). set (e := Binary64.exponent x).
    assert (E : e <= 52).
    { subst e. unfold Binary64.exponent. subst x. cbn [inject_Z Qnum Qden].
      change (Z.log2 1) with 0. rewrite Z.sub_0_r.
      assert (Z.log2 (Z.pos p) < 53)
        by (apply Z.log2_lt_pow2; [reflexivity|exact B]).
      destruct (Qle_bool _ _); lia. }
    assert (S : (x * Binary64.pow2 (52 - e)
                 == inject_Z (Z.pos p * 2 ^ (52 - e)))%Q).
    { rewrite pow2_of_Z by lia. subst x. now rewrite inject_Z_mult. }
    rewrite (nearestEven_comp _ _ S), nearestEven_integer.
    rewrite inject_Z_mult, <- pow2_of_Z by lia.
    rewrite <- Qmult_assoc, <- pow2_plus.
    replace (52 - e + (e - 52)) with 0 by lia.
    unfold Binary64.pow2. simpl. subst x. ring. }
  intros [L U]. unfold Binary64.nearest. destruct n as [|p|p].
  - reflexivity.
  - cbn [inject_Z Qnum]. now apply P.
  - change (- Binary64.roundPositive (inject_Z (Z.pos p))
            == inject_Z (Z.neg p))%Q.
    rewrite P by lia. reflexivity.
Qed.

(** *** The error of a score computed in double precision *)

(** A quotient of two counts. *)
Lemma ratio_near (a n : Z) :
  0 <= a <= 2 ^ 32 -> 1 <= n <= 2 ^ 32 ->
  let r := (inject_Z a / inject_Z n)%Q in
  (0 <= r <= 4294967296)%Q /\
  (r - Binary64.roundoff * 4294967296
   <= Binary64.div (Binary64.ofZ a) (Binary64.ofZ n)
   <= r + Binary64.roundoff * 4294967296)%Q.
Proof.
  intros A N r.
  assert (P : (0 < inject_Z n)%Q)
    by (change 0%Q with (inject_Z 0); rewrite <- Zlt_Qlt; lia).
  assert (B : (0 <= r <= 4294967296)%Q).
  { subst r. split.
    - apply Qle_shift_div_l; [exact P|].
      rewrite Qmult_0_l. change 0%Q with (inject_Z 0).
      rewrite <- Zle_Qle. lia.
    - apply Qle_shift_div_r; [exact P|].
      change 4294967296%Q with (inject_Z 4294967296).
      rewrite <- inject_Z_mult, <- Zle_Qle. nia. }
  split; [exact B|].
  unfold Binary64.div, Binary64.ofZ.
  set (x := (Binary64.nearest (inject_Z a)
             / Binary64.nearest (inject_Z n))%Q).
  assert (X : (x == r)%Q).
  { subst x. rewrite !nearest_integer by lia. reflexivity. }
  pose proof (nearest_near x 4294967296) as H.
  set (y := Binary64.nearest x) in *. clearbody y x.
  destruct B as [B1 B2]. destruct H as [H1 H2]; [split; lra|].
  split; lra.
Qed.

Lemma product_bound (x y a b : Q) :
  (- a <= x <= a)%Q -> (- b <= y <= b)%Q ->
  (- (a * b) <= x * y <= a * b)%Q.
Proof.
  intros [A1 A2] [B1 B2].
  assert (H1 : (0 <= (a - x) * (b - y))%Q)
    by (apply Qmult_le_0_compat; lra).
  assert (H2 : (0 <= (a + x) * (b + y))%Q)
    by (apply Qmult_le_0_compat; lra).
  assert (H3 : (0 <= (a - x) * (b + y))%Q)
    by (apply Qmult_le_0_compat; lra).
  assert (H4 : (0 <= (a + x) * (b - y))%Q)
    by (apply Qmult_le_0_compat; lra).
  split; lra.
Qed.

Lemma one_exact : (Binary64.ofZ 1 == 1)%Q.
Proof. apply (nearest_integer 1). split; reflexivity. Qed.

(** [1 - t] where [t] is near a quotient [r]. *)
Lemma sub_one_near (t r e : Q) :
  (0 <= r <= 4294967296)%Q -> (0 <= e <= 1)%Q -> (r - e <= t <= r + e)%Q ->
  ((1 - r) - (e + Binary64.roundoff * 4294967298)
   <= Binary64.sub (Binary64.ofZ 1) t
   <= (1 - r) + (e + Binary64.roundoff * 4294967298))%Q.
Proof.
  intros R E T. unfold Binary64.sub.
  pose proof one_exact as O. set (one := Binary64.ofZ 1) in *.
  pose proof (nearest_near (one - t) 4294967298) as H.
  set (y := Binary64.nearest (one - t)) in *. clearbody y one.
  unfold Binary64.roundoff in *.
  destruct H as [H1 H2]; [split; lra|]. split; lra.
Qed.

(** [x * c] where [x] is near [X] and [c] is the Number nearest to the
    constant [C]. *)
Lemma mul_near (x X c C e M : Q) :
  (0 <= C)%Q -> (0 <= e <= 1)%Q -> (0 <= M)%Q ->
  (X - e <= x <= X + e)%Q -> (- M <= X <= M)%Q ->
  (C - Binary64.roundoff * C <= c <= C + Binary64.roundoff * C)%Q ->
  let E := (C * e + (M + 1) * (Binary64.roundoff * C)
            + Binary64.roundoff * ((M + 1) * (C + C)))%Q in
  (X * C - E <= Binary64.mul x c <= X * C + E)%Q.
Proof.
  intros PC PE PM NX BX NC E. unfold Binary64.mul.
  assert (U : (0 <= Binary64.roundoff <= 1)%Q)
    by (unfold Binary64.roundoff; split; lra).
  pose proof (nearest_near (x * c) ((M + 1) * (C + C))) as H.
  set (u := Binary64.roundoff) in *. clearbody u.
  assert (UC : (0 <= u * C <= C)%Q).
  { split; [apply Qmult_le_0_compat; lra|].
    assert (H0 : (0 <= (1 - u) * C)%Q) by (apply Qmult_le_0_compat; lra).
    lra. }
  assert (D : (- (u * C) <= c - C <= u * C)%Q) by (split; lra).
  assert (F : (- e <= x - X <= e)%Q) by (split; lra).
  assert (BX' : (- (M + 1) <= x <= M + 1)%Q) by (split; lra).
  assert (BC : (- (C + C) <= c <= C + C)%Q) by (split; lra).
  pose proof (product_bound x (c - C) (M + 1) (u * C) BX' D) as [P1 P2].
  pose proof (product_bound x c (M + 1) (C + C) BX' BC) as [P3 P4].
  assert (G : (- (C * e) <= C * (x - X) <= C * e)%Q).
  { assert (H1 : (0 <= C * (e - (x - X)))%Q)
      by (apply Qmult_le_0_compat; lra).
    assert (H2 : (0 <= C * (e + (x - X)))%Q)
      by (apply Qmult_le_0_compat; lra).
    split; lra. }
  set (y := Binary64.nearest (x * c)) in *. clearbody y.
  destruct H as [H1 H2]; [split; lra|].
  subst E. split; lra.
Qed.

(** [x + y] where [x] and [y] are near [X] and [Y]. *)
Lemma add_near (x y X Y ex ey Mx My : Q) :
  (0 <= ex <= 1)%Q -> (0 <= ey <= 1)%Q ->
  (X - ex <= x <= X + ex)%Q -> (Y - ey <= y <= Y + ey)%Q ->
  (- Mx <= X <= Mx)%Q -> (- My <= Y <= My)%Q ->
  let E := (ex + ey + Binary64.roundoff * (Mx + My + 2))%Q in
  (X + Y - E <= Binary64.add x y <= X + Y + E)%Q.
Proof.
  intros PX PY NX NY BX BY E. unfold Binary64.add.
  pose proof (nearest_near (x + y) (Mx + My + 2)) as H.
  set (z := Binary64.nearest (x + y)) in *. clearbody z.
  destruct H as [H1 H2]; [split; lra|]. subst E. split; lra.
Qed.

(** [x - y], likewise. *)
Lemma sub_near (x y X Y ex ey Mx My : Q) :
  (0 <= ex <= 1)%Q -> (0 <= ey <= 1)%Q ->
  (X - ex <= x <= X + ex)%Q -> (Y - ey <= y <= Y + ey)%Q ->
  (- Mx <= X <= Mx)%Q -> (- My <= Y <= My)%Q ->
  let E := (ex + ey + Binary64.roundoff * (Mx + My + 2))%Q in
  (X - Y - E <= Binary64.sub x y <= X - Y + E)%Q.
Proof.
  intros PX PY NX NY BX BY E. unfold Binary64.sub.
  pose proof (nearest_near (x - y) (Mx + My + 2)) as H.
  set (z := Binary64.nearest (x - y)) in *. clearbody z.
  destruct H as [H1 H2]; [split; lra|]. subst E. split; lra.
Qed.

Lemma literal_near (C : Q) :
  (0 <= C)%Q ->
  (C - Binary64.roundoff * C <= Binary64.literal C
   <= C + Binary64.roundoff * C)%Q.
Proof.
  intro P. apply nearest_near. split; lra.
Qed.

Lemma constant_near (k : Z) :
  0 <= k < 2 ^ 53 ->
  (inject_Z k - Binary64.roundoff * inject_Z k <= Binary64.ofZ k
   <= inject_Z k + Binary64.roundoff * inject_Z k)%Q.
Proof.
  intro B. unfold Binary64.ofZ. rewrite nearest_integer by lia.
  assert (P : (0 <= inject_Z k)%Q)
    by (change 0%Q with (inject_Z 0); rewrite <- Zle_Qle; lia).
  assert (H : (0 <= Binary64.roundoff * inject_Z k)%Q)
    by (apply Qmult_le_0_compat; [unfold Binary64.roundoff; lra|exact P]).
  split; lra.
Qed.

(** The score of AdvancedHuggingFaceGrammarService before [Math.round], on
    the counts it is computed from. *)
Lemma advanced_score_near (a n b m p q : Z) :
  0 <= a <= 2 ^ 32 -> 1 <= n <= 2 ^ 32 ->
  0 <= b <= 2 ^ 32 -> 1 <= m <= 2 ^ 32 ->
  0 <= p <= 2 ^ 32 -> 1 <= q <= 2 ^ 32 ->
  let exact :=
    (((1 - inject_Z a / inject_Z n) * (3 # 10)
      + (1 - inject_Z b / inject_Z m) * (3 # 10)
      + inject_Z p / inject_Z q * (4 # 10)) * 100)%Q in
  let computed :=
    Binary64.mul
      (Binary64.add
         (Binary64.add
            (Binary64.mul
               (Binary64.sub (Binary64.ofZ 1)
                  (Binary64.div (Binary64.ofZ a) (Binary64.ofZ n)))
               (Binary64.literal (3 # 10)))
            (Binary64.mul
               (Binary64.sub (Binary64.ofZ 1)
                  (Binary64.div (Binary64.ofZ b) (Binary64.ofZ m)))
               (Binary64.literal (3 # 10))))
         (Binary64.mul (Binary64.div (Binary64.ofZ p) (Binary64.ofZ q))
                       (Binary64.literal (4 # 10))))
      (Binary64.ofZ 100) in
  (exact - (1 # 256) <= computed <= exact + (1 # 256))%Q.
Proof.
  intros A N B M P Q exact computed. subst exact computed.
  destruct (ratio_near a n A N) as [R1 T1].
  destruct (ratio_near b m B M) as [R2 T2].
  destruct (ratio_near p q P Q) as [R3 T3].
  cbv zeta in *.
  set (r1 := (inject_Z a / inject_Z n)%Q) in *.
  set (r2 := (inject_Z b / inject_Z m)%Q) in *.
  set (r3 := (inject_Z p / inject_Z q)%Q) in *.
  set (t1 := Binary64.div (Binary64.ofZ a) (Binary64.ofZ n)) in *.
  set (t2 := Binary64.div (Binary64.ofZ b) (Binary64.ofZ m)) in *.
  set (t3 := Binary64.div (Binary64.ofZ p) (Binary64.ofZ q)) in *.
  clearbody r1 r2 r3 t1 t2 t3.
  pose proof (literal_near (3 # 10) ltac:(lra)) as C3.
  pose proof (literal_near (4 # 10) ltac:(lra)) as C4.
  pose proof (constant_near 100 ltac:(split; [lia|reflexivity])) as C100.
  set (c3 := Binary64.literal (3 # 10)) in *.
  set (c4 := Binary64.literal (4 # 10)) in *.
  set (c100 := Binary64.ofZ 100) in *.
  clearbody c3 c4 c100.
  change (inject_Z 100) with 100%Q in C100.
  assert (L1 : ((1 - r1) - (1 # 1000000) <= Binary64.sub (Binary64.ofZ 1) t1
                <= (1 - r1) + (1 # 1000000))%Q).
  { pose proof (sub_one_near t1 r1 (Binary64.roundoff * 4294967296) R1
                  ltac:(unfold Binary64.roundoff; split; lra) T1) as H.
    unfold Binary64.roundoff in H. split; lra. }
  assert (L2 : ((1 - r2) - (1 # 1000000) <= Binary64.sub (Binary64.ofZ 1) t2
                <= (1 - r2) + (1 # 1000000))%Q).
  { pose proof (sub_one_near t2 r2 (Binary64.roundoff * 4294967296) R2
                  ltac:(unfold Binary64.roundoff; split; lra) T2) as H.
    unfold Binary64.roundoff in H. split; lra. }
  set (l1 := Binary64.sub (Binary64.ofZ 1) t1) in *.
  set (l2 := Binary64.sub (Binary64.ofZ 1) t2) in *.
  clearbody l1 l2.
  assert (X1 : ((1 - r1) * (3 # 10) - (1 # 1000000) <= Binary64.mul l1 c3
                <= (1 - r1) * (3 # 10) + (1 # 1000000))%Q).
  { pose proof (mul_near l1 (1 - r1) c3 (3 # 10) (1 # 1000000) 4294967297
                  ltac:(lra) ltac:(split; lra) ltac:(lra) L1
                  ltac:(split; lra) C3) as H.
    cbv zeta in H. unfold Binary64.roundoff in H. split; lra. }
  assert (X2 : ((1 - r2) * (3 # 10) - (1 # 1000000) <= Binary64.mul l2 c3
                <= (1 - r2) * (3 # 10) + (1 # 1000000))%Q).
  { pose proof (mul_near l2 (1 - r2) c3 (3 # 10) (1 # 1000000) 4294967297
                  ltac:(lra) ltac:(split; lra) ltac:(lra) L2
                  ltac:(split; lra) C3) as H.
    cbv zeta in H. unfold Binary64.roundoff in H. split; lra. }
  assert (X3 : (r3 * (4 # 10) - (1 # 1000000) <= Binary64.mul t3 c4
                <= r3 * (4 # 10) + (1 # 1000000))%Q).
  { assert (T3' : (r3 - (1 # 2000000) <= t3 <= r3 + (1 # 2000000))%Q)
      by (unfold Binary64.roundoff in T3; split; lra).
    pose proof (mul_near t3 r3 c4 (4 # 10) (1 # 2000000) 4294967296
                  ltac:(lra) ltac:(split; lra) ltac:(lra) T3'
                  ltac:(split; lra) C4) as H.
    cbv zeta in H. unfold Binary64.roundoff in H. split; lra. }
  set (x1 := Binary64.mul l1 c3) in *.
  set (x2 := Binary64.mul l2 c3) in *.
  set (x3 := Binary64.mul t3 c4) in *.
  clearbody x1 x2 x3.
  assert (Y1 : ((1 - r1) * (3 # 10) + (1 - r2) * (3 # 10) - (3 # 1000000)
                <= Binary64.add x1 x2
                <= (1 - r1) * (3 # 10) + (1 - r2) * (3 # 10)
                   + (3 # 1000000))%Q).
  { pose proof (add_near x1 x2 _ _ (1 # 1000000) (1 # 1000000)
                  4294967297 4294967297
                  ltac:(split; lra) ltac:(split; lra) X1 X2
                  ltac:(split; lra) ltac:(split; lra)) as H.
    cbv zeta in H. unfold Binary64.roundoff in H. split; lra. }
  set (y1 := Binary64.add x1 x2) in *. clearbody y1.
  assert (Y2 : ((1 - r1) * (3 # 10) + (1 - r2) * (3 # 10) + r3 * (4 # 10)
                - (6 # 1000000)
                <= Binary64.add y1 x3
                <= (1 - r1) * (3 # 10) + (1 - r2) * (3 # 10) + r3 * (4 # 10)
                   + (6 # 1000000))%Q).
  { pose proof (add_near y1 x3 _ _ (3 # 1000000) (1 # 1000000)
                  8589934594 4294967296
                  ltac:(split; lra) ltac:(split; lra) Y1 X3
                  ltac:(split; lra) ltac:(split; lra)) as H.
    cbv zeta in H. unfold Binary64.roundoff in H. split; lra. }
  set (y2 := Binary64.add y1 x3) in *. clearbody y2.
  pose proof (mul_near y2 _ c100 100 (6 # 1000000) 12884901890
                ltac:(lra) ltac:(split; lra) ltac:(lra) Y2
                ltac:(split; lra) C100) as H.
  cbv zeta in H. unfold Binary64.roundoff in H. split; lra.
Qed.

(** The score of UniversalGrammarService before [Math.round]. *)
Lemma universal_score_near (a n p q : Z) :
  0 <= a <= 2 ^ 32 -> 1 <= n <= 2 ^ 32 ->
  0 <= p <= 2 ^ 32 -> 1 <= q <= 2 ^ 32 ->
  let exact :=
    (85 - inject_Z a / inject_Z n * 10 + inject_Z p / inject_Z q * 15)%Q in
  let computed :=
    Binary64.add
      (Binary64.sub (Binary64.ofZ 85)
         (Binary64.mul (Binary64.div (Binary64.ofZ a) (Binary64.ofZ n))
                       (Binary64.ofZ 10)))
      (Binary64.mul (Binary64.div (Binary64.ofZ p) (Binary64.ofZ q))
                    (Binary64.ofZ 15)) in
  (exact - (1 # 256) <= computed <= exact + (1 # 256))%Q.
Proof.
  intros A N P Q exact computed. subst exact computed.
  destruct (ratio_near a n A N) as [R1 T1].
  destruct (ratio_near p q P Q) as [R3 T3].
  cbv zeta in *.
  set (r1 := (inject_Z a / inject_Z n)%Q) in *.
  set (r3 := (inject_Z p / inject_Z q)%Q) in *.
  set (t1 := Binary64.div (Binary64.ofZ a) (Binary64.ofZ n)) in *.
  set (t3 := Binary64.div (Binary64.ofZ p) (Binary64.ofZ q)) in *.
  clearbody r1 r3 t1 t3.
  pose proof (constant_near 10 ltac:(split; [lia|reflexivity])) as C10.
  pose proof (constant_near 15 ltac:(split; [lia|reflexivity])) as C15.
  pose proof (constant_near 85 ltac:(split; [lia|reflexivity])) as C85.
  set (c10 := Binary64.ofZ 10) in *.
  set (c15 := Binary64.ofZ 15) in *.
  set (c85 := Binary64.ofZ 85) in *.
  clearbody c10 c15 c85.
  change (inject_Z 10) with 10%Q in C10.
  change (inject_Z 15) with 15%Q in C15.
  change (inject_Z 85) with 85%Q in C85.
  assert (T1' : (r1 - (1 # 2000000) <= t1 <= r1 + (1 # 2000000))%Q)
    by (unfold Binary64.roundoff in T1; split; lra).
  assert (T3' : (r3 - (1 # 2000000) <= t3 <= r3 + (1 # 2000000))%Q)
    by (unfold Binary64.roundoff in T3; split; lra).
  assert (X1 : (r1 * 10 - (2 # 100000) <= Binary64.mul t1 c10
                <= r1 * 10 + (2 # 100000))%Q).
  { pose proof (mul_near t1 r1 c10 10 (1 # 2000000) 4294967296
                  ltac:(lra) ltac:(split; lra) ltac:(lra) T1'
                  ltac:(split; lra) C10) as H.
    cbv zeta in H. unfold Binary64.roundoff in H. split; lra. }
  assert (X3 : (r3 * 15 - (3 # 100000) <= Binary64.mul t3 c15
                <= r3 * 15 + (3 # 100000))%Q).
  { pose proof (mul_near t3 r3 c15 15 (1 # 2000000) 4294967296
                  ltac:(lra) ltac:(split; lra) ltac:(lra) T3'
                  ltac:(split; lra) C15) as H.
    cbv zeta in H. unfold Binary64.roundoff in H. split; lra. }
  set (x1 := Binary64.mul t1 c10) in *.
  set (x3 := Binary64.mul t3 c15) in *.
  clearbody x1 x3.
  assert (Y1 : (85 - r1 * 10 - (3 # 100000) <= Binary64.sub c85 x1
                <= 85 - r1 * 10 + (3 # 100000))%Q).
  { pose proof (sub_near c85 x1 85 _ (1 # 1000000) (2 # 100000)
                  85 42949672960
                  ltac:(split; lra) ltac:(split; lra)
                  ltac:(unfold Binary64.roundoff in C85; split; lra) X1
                  ltac:(split; lra) ltac:(split; lra)) as H.
    cbv zeta in H. unfold Binary64.roundoff in H. split; lra. }
  set (y1 := Binary64.sub c85 x1) in *. clearbody y1.
  pose proof (add_near y1 x3 _ _ (3 # 100000) (3 # 100000)
                42949673045 64424509440
                ltac:(split; lra) ltac:(split; lra) Y1 X3
                ltac:(split; lra) ltac:(split; lra)) as H.
  cbv zeta in H. unfold Binary64.roundoff in H. split; lra.
Qed.

(** [Math.round] of two values that are near each other. *)
Lemma round_near (z exact tolerance : Q) :
  (0 <= tolerance <= 1)%Q ->
  (exact - tolerance <= z <= exact + tolerance)%Q ->
  Z.abs (round z - round exact) <= 1 /\
  (round z <> round exact ->
   exists k : Z,
     (- tolerance <= exact - (inject_Z k + (1 # 2)) <= tolerance)%Q).
Proof.
  intros T N. unfold round.
  pose proof (Qfloor_le (z + (1 # 2))) as A1.
  pose proof (Qlt_floor (z + (1 # 2))) as A2.
  pose proof (Qfloor_le (exact + (1 # 2))) as B1.
  pose proof (Qlt_floor (exact + (1 # 2))) as B2.
  set (a := Qfloor (z + (1 # 2))) in *.
  set (b := Qfloor (exact + (1 # 2))) in *.
  rewrite inject_Z_plus in A2, B2.
  change (inject_Z 1) with 1%Q in A2, B2.
  assert (D : (inject_Z b < inject_Z a + 2)%Q) by lra.
  assert (D' : (inject_Z a < inject_Z b + 2)%Q) by lra.
  change 2%Q with (inject_Z 2) in D, D'.
  rewrite <- inject_Z_plus, <- Zlt_Qlt in D, D'.
  split; [lia|]. intro NE.
  destruct (Z_lt_le_dec a b) as [L | L].
  - exists (b - 1).
    assert (I : (inject_Z a + 1 <= inject_Z b)%Q).
    { change 1%Q with (inject_Z 1).
      rewrite <- inject_Z_plus, <- Zle_Qle. lia. }
    unfold Z.sub. rewrite inject_Z_plus. change (inject_Z (- (1))) with (- (1))%Q.
    split; lra.
  - exists (a - 1).
    assert (I : (inject_Z b + 1 <= inject_Z a)%Q).
    { change 1%Q with (inject_Z 1).
      rewrite <- inject_Z_plus, <- Zle_Qle. lia. }
    unfold Z.sub. rewrite inject_Z_plus. change (inject_Z (- (1))) with (- (1))%Q.
    split; lra.
Qed.

(** *** The counts of a score *)

Lemma splitOn_length (sep : char) (s : jsstring) :
  (1 <= List.length (splitOn sep s) <= List.length s + 1)%nat.
Proof.
  induction s as [|c s IH]; simpl; [lia|].
  destruct (splitOn sep s) as [|w more]; [simpl in *; lia|].
  destruct (char_eqb c sep); simpl in *; lia.
Qed.

Lemma splitKeepSpaces_length (s : jsstring) :
  (List.length (splitKeepSpaces s) <= 2 * List.length s + 1)%nat.
Proof.
  induction s as [|c s IH]; simpl; [lia|].
  destruct (splitKeepSpaces s) as [|w more]; [simpl; lia|].
  destruct (isSpace c); [|simpl in *; lia].
  destruct w; [destruct more|]; simpl in *; lia.
Qed.

Lemma everyOther_length {A : Type} (l : list A) :
  (2 * List.length (everyOther l) <= List.length l + 1)%nat.
Proof.
  assert (G : forall n (l : list A),
             (List.length l <= n)%nat ->
             (2 * List.length (everyOther l) <= List.length l + 1)%nat).
  { induction n as [|n IH]; intros [|x [|y k]] L; simpl in *; try lia.
    assert (H : (List.length k <= n)%nat) by lia.
    specialize (IH k H). lia. }
  now apply (G (List.length l)).
Qed.

Lemma splitSpaces_length (s : jsstring) :
  (1 <= List.length (splitSpaces s) <= List.length s + 1)%nat.
Proof.
  pose proof (splitSpaces_nonempty s) as N.
  unfold splitSpaces in *.
  pose proof (everyOther_length (splitKeepSpaces s)).
  pose proof (splitKeepSpaces_length s).
  destruct (everyOther (splitKeepSpaces s)); [congruence|]. simpl in *. lia.
Qed.

(** The two counts of [calculateSimilarity]. *)
Lemma similarity_counts (text1 text2 : jsstring) :
  len text1 <= 2 ^ 30 -> len text2 <= 2 ^ 30 ->
  let words1 := splitSpaces (toLowerCase text1) in
  let words2 := splitSpaces (toLowerCase text2) in
  0 <= Z.of_nat (List.length (filter (arrayIncludes words2) words1))
  <= 2 ^ 32 /\
  1 <= Z.of_nat (List.length (setOf (words1 ++ words2))) <= 2 ^ 32.
Proof.
  intros L1 L2 words1 words2.
  pose proof (splitSpaces_length (toLowerCase text1)) as S1.
  pose proof (splitSpaces_length (toLowerCase text2)) as S2.
  fold words1 in S1. fold words2 in S2.
  unfold toLowerCase in S1, S2. rewrite length_map in S1, S2.
  unfold len in L1, L2.
  pose proof (filter_length_le (arrayIncludes words2) words1) as F.
  pose proof (dedupe_length [] (words1 ++ words2)) as D.
  fold (setOf (words1 ++ words2)) in D. rewrite length_app in D.
  assert (N : (1 <= List.length (setOf (words1 ++ words2)))%nat).
  { destruct words1 as [|x l]; [simpl in S1; lia|].
    unfold setOf. simpl. lia. }
  change (2 ^ 30) with 1073741824 in *. change (2 ^ 32) with 4294967296.
  split; lia.
Qed.

(** The clamp does not take two scores apart. *)
Lemma clamp_near (lo hi a b : Z) :
  Z.abs (a - b) <= 1 ->
  Z.abs (Z.max lo (Z.min hi a) - Z.max lo (Z.min hi b)) <= 1 /\
  (Z.max lo (Z.min hi a) <> Z.max lo (Z.min hi b) -> a <> b).
Proof. intro H. split; [lia|]. intros N E. subst. now apply N. Qed.

(** C7, as amended.  On texts of ASCII and Latin-1 characters with a
    non-empty original (and of a length a string can have), the quality
    score of AdvancedHuggingFaceGrammarService is
    (lengthConsistency x 0.3 + wordConsistency x 0.3 + similarity x 0.4)
    x 100, computed in double precision, rounded and clamped as a whole to
    0..100, where lengthConsistency is 1 - |length difference| /
    length(original), wordConsistency is the same on the numbers of words
    obtained by splitting at single spaces, neither of the two clamped, and
    similarity is the number of words of the original that occur in the
    corrected text over the number of distinct words of both, which is the
    Jaccard similarity of the lower-cased whitespace-tokenized word sets
    when the original repeats no word.  The score is the formula's value in
    exact arithmetic, rounded and clamped, or next to it: the two differ by
    at most 1, and only where the exact value lies within 1/256 of a half
    integer.  The score of UniversalGrammarService is another formula, with
    the same relation to its exact value: 100 for identical texts, and
    otherwise 85 - |length difference| / length(original) x 10
    + similarity x 15, rounded and clamped to 60..100. *)
Theorem quality_score_formula (original corrected : jsstring) :
  latin1 original -> latin1 corrected ->
  original <> [] -> len original <= 2 ^ 30 -> len corrected <= 2 ^ 30 ->
  let lengthConsistency :=
    (1 - inject_Z (Z.abs (len corrected - len original))
         / inject_Z (len original))%Q in
  let words s := Z.of_nat (List.length (splitOn 32%N s)) in
  let wordConsistency :=
    (1 - inject_Z (Z.abs (words corrected - words original))
         / inject_Z (words original))%Q in
  let similarity := Advanced.calculateSimilarity original corrected in
  let exact :=
    (100 * ((3 # 10) * lengthConsistency + (3 # 10) * wordConsistency
            + (4 # 10) * similarity))%Q in
  let formula := Z.max 0 (Z.min 100 (round exact)) in
  (exists score,
      AdvancedDoubles.calculateQualityScore original corrected = Some score /\
      0 <= score <= 100 /\
      Z.abs (score - formula) <= 1 /\
      (score <> formula ->
       exists k : Z,
         (- (1 # 256) <= exact - (inject_Z k + (1 # 2)) <= 1 # 256)%Q)) /\
  (NoDup (splitSpaces (toLowerCase original)) ->
   similarity = Spec.jaccard original corrected) /\
  UniversalDoubles.calculateQualityScore original original = 100 /\
  (original <> corrected ->
   let exactUniversal :=
     (85 - 10 * (inject_Z (Z.abs (len corrected - len original))
                 / inject_Z (len original))
      + 15 * Universal.calculateSimilarity original corrected)%Q in
   let formulaUniversal := Z.max 60 (Z.min 100 (round exactUniversal)) in
   let score := UniversalDoubles.calculateQualityScore original corrected in
   60 <= score <= 100 /\
   Z.abs (score - formulaUniversal) <= 1 /\
   (score <> formulaUniversal ->
    exists k : Z,
      (- (1 # 256) <= exactUniversal - (inject_Z k + (1 # 2))
       <= 1 # 256)%Q)).
Proof.
  intros _ _ N L1 L2 lengthConsistency words wordConsistency similarity
         exact formula.
  assert (N0 : len original <> 0) by (rewrite len_zero; exact N).
  pose proof (len_nonneg original) as P1.
  pose proof (len_nonneg corrected) as P2.
  destruct (similarity_counts original corrected L1 L2) as [CP CQ].
  cbv zeta in CP, CQ.
  assert (CA : 0 <= Z.abs (len corrected - len original) <= 2 ^ 32)
    by (change (2 ^ 30) with 1073741824 in *;
        change (2 ^ 32) with 4294967296; lia).
  assert (CN : 1 <= len original <= 2 ^ 32)
    by (change (2 ^ 30) with 1073741824 in *;
        change (2 ^ 32) with 4294967296; lia).
  split; [|split; [|split]].
  - pose proof (splitOn_length 32%N original) as W1.
    pose proof (splitOn_length 32%N corrected) as W2.
    assert (CB : 0 <= Z.abs (words corrected - words original) <= 2 ^ 32).
    { subst words. cbv beta. unfold len in L1, L2.
      change (2 ^ 30) with 1073741824 in *.
      change (2 ^ 32) with 4294967296. lia. }
    assert (CM : 1 <= words original <= 2 ^ 32).
    { subst words. cbv beta. unfold len in L1.
      change (2 ^ 30) with 1073741824 in *.
      change (2 ^ 32) with 4294967296. lia. }
    pose proof (advanced_score_near _ _ _ _ _ _ CA CN CB CM CP CQ) as E.
    cbv zeta in E.
    unfold AdvancedDoubles.calculateQualityScore.
    destruct (len original =? 0) eqn:E0;
      [apply Z.eqb_eq in E0; contradiction|].
    unfold AdvancedDoubles.calculateSimilarity. fold (words original).
    fold (words corrected).
    match type of E with
    | (_ <= ?c <= _)%Q => set (computed := c) in *
    end.
    assert (E' : (exact - (1 # 256) <= computed <= exact + (1 # 256))%Q).
    { subst exact lengthConsistency wordConsistency similarity.
      unfold Advanced.calculateSimilarity.
      clearbody computed. destruct E as [E1 E2].
      split; [eapply Qle_trans; [|exact E1]|eapply Qle_trans; [exact E2|]];
        apply Qle_lteq; right; ring. }
    clearbody computed.
    destruct (round_near computed exact (1 # 256) ltac:(split; lra) E')
      as [R1 R2].
    destruct (clamp_near 0 100 _ _ R1) as [C1 C2].
    eexists. split; [reflexivity|]. split; [lia|]. split; [exact C1|].
    intro D. apply R2, C2, D.
  - apply similarity_is_jaccard.
  - unfold UniversalDoubles.calculateQualityScore.
    now rewrite jsstring_eqb_refl.
  - intros D exactUniversal formulaUniversal score.
    pose proof (universal_score_near _ _ _ _ CA CN CP CQ) as E.
    cbv zeta in E.
    subst score. unfold UniversalDoubles.calculateQualityScore.
    apply jsstring_eqb_neq in D. rewrite D.
    destruct (len original =? 0) eqn:E0;
      [apply Z.eqb_eq in E0; contradiction|].
    unfold UniversalDoubles.calculateSimilarity.
    match type of E with
    | (_ <= ?c <= _)%Q => set (computed := c) in *
    end.
    assert (E' : (exactUniversal - (1 # 256) <= computed
                  <= exactUniversal + (1 # 256))%Q).
    { subst exactUniversal. unfold Universal.calculateSimilarity.
      clearbody computed. destruct E as [E1 E2].
      split; [eapply Qle_trans; [|exact E1]|eapply Qle_trans; [exact E2|]];
        apply Qle_lteq; right; ring. }
    clearbody computed.
    destruct (round_near computed exactUniversal (1 # 256)
                ltac:(split; lra) E') as [R1 R2].
    destruct (clamp_near 60 100 _ _ R1) as [C1 C2].
    split; [lia|]. split; [exact C1|].
    intro D'. apply R2, C2, D'.
Qed.

(** C7 as stated fails: with a repeated word the code counts the
    intersection with repetitions, and the two services disagree with the
    worded formula and with each other. *)
Lemma quality_score_counterexample :
  Advanced.calculateQualityScore (js "a a") (js "a a b") = Some 65 /\
  Universal.calculateQualityScore (js "a a") (js "a a b") = 93 /\
  Spec.qualityScore (js "a a") (js "a a b") = 45 /\
  AdvancedDoubles.calculateQualityScore (js "a a") (js "a a b") = Some 65 /\
  UniversalDoubles.calculateQualityScore (js "a a") (js "a a b") = 93.
Proof. repeat split; vm_compute; reflexivity. Qed.

(** The two values do differ: for 'he go in' and 'he goes in' the factors
    are 0.75, 1 and 0.5, the exact value is 72.5, which rounds to 73, and
    the value in double precision is 72.49999999999999, which rounds
    to 72. *)
Lemma quality_score_witness :
  latin1 (js "he go in") /\ latin1 (js "he goes in") /\
  AdvancedDoubles.calculateQualityScore (js "he go in") (js "he goes in")
  = Some 72 /\
  exists score,
    AdvancedDoubles.calculateQualityScore (js "he go in") (js "he goes in")
    = Some score /\
    Z.abs (score - 73) <= 1.
Proof.
  split; [reflexivity|]. split; [reflexivity|].
  split; [vm_compute; reflexivity|].
  destruct (quality_score_formula (js "he go in") (js "he goes in")
              ltac:(reflexivity) ltac:(reflexivity) ltac:(discriminate)
              ltac:(vm_compute; discriminate)
              ltac:(vm_compute; discriminate))
    as [(score & E & _ & D & _) _].
  exists score. split; [exact E|].
  assert (F : Z.max 0 (Z.min 100 (round
     (100 * ((3 # 10) * (1 - inject_Z (Z.abs (len (js "he goes in") - len (js "he go in"))) / inject_Z (len (js "he go in")))
      + (3 # 10) * (1 - inject_Z (Z.abs (Z.of_nat (List.length (splitOn 32%N (js "he goes in"))) - Z.of_nat (List.length (splitOn 32%N (js "he go in"))))) / inject_Z (Z.of_nat (List.length (splitOn 32%N (js "he go in")))))
      + (4 # 10) * Advanced.calculateSimilarity (js "he go in") (js "he goes in"))))) = 73)
    by (vm_compute; reflexivity).
  rewrite F in D. exact D.
Defined.

(** ** The request boundary *)

Section Boundary.

Variable service :
  jsstring -> Hf.world -> completion Universal.Result * Hf.world.
Variable MAX_TEXT_LENGTH : option Z.
Variable totalTime : Z.

Lemma controller_accepts (text : jsstring) (w : Hf.world) :
  len (trim text) <> 0 ->
  len text <= Controller.maxLength MAX_TEXT_LENGTH ->
  Controller.correctText service MAX_TEXT_LENGTH totalTime
    (Controller.JString text) w =
  replyTo totalTime (service text w).
Proof.
  intros T L. pose proof (trim_nonempty _ T) as N.
  unfold Controller.correctText, replyTo. simpl Controller.falsy.
  destruct (len text =? 0) eqn:E0; [apply Z.eqb_eq in E0; contradiction|].
  destruct (len (trim text) =? 0) eqn:E1;
    [apply Z.eqb_eq in E1; contradiction|].
  destruct (Controller.maxLength MAX_TEXT_LENGTH <? len text) eqn:E2;
    [apply Z.ltb_lt in E2; lia|].
  now destruct (service text w) as [[r|e] w'].
Qed.

Lemma controller_rejects_invalid (v : Controller.jsvalue) (w : Hf.world) :
  invalidText v ->
  Controller.status
    (fst (Controller.correctText service MAX_TEXT_LENGTH totalTime v w))
  = Some 400 /\
  snd (Controller.correctText service MAX_TEXT_LENGTH totalTime v w) = w.
Proof.
  intro I. unfold Controller.correctText.
  destruct v as [| |b|n|text|]; simpl in *;
    try (destruct b); try (destruct (Qeq_bool n 0)); try (now split).
  destruct (len text =? 0); [now split|].
  rewrite I. now split.
Qed.

End Boundary.

Lemma inputGuard_accepts (text : jsstring) :
  Advanced.inputGuard text = None <->
  len (trim text) <> 0 /\ len text <= 15000.
Proof.
  unfold Advanced.inputGuard. split.
  - destruct (len text =? 0) eqn:E0; [discriminate|].
    destruct (len (trim text) =? 0) eqn:E1; [discriminate|].
    destruct (15000 <? len text) eqn:E2; [discriminate|].
    intros _. apply Z.eqb_neq in E1. apply Z.ltb_ge in E2. now split.
  - intros [T L]. pose proof (trim_nonempty _ T) as N.
    destruct (len text =? 0) eqn:E0; [apply Z.eqb_eq in E0; contradiction|].
    destruct (len (trim text) =? 0) eqn:E1;
      [apply Z.eqb_eq in E1; contradiction|].
    destruct (15000 <? len text) eqn:E2; [apply Z.ltb_lt in E2; lia|].
    reflexivity.
Qed.

(** ** The free-service orchestrator *)

Lemma useBasicCorrection_wellFormed (text : jsstring) :
  wellFormed text (SmartFree.useBasicCorrection text).
Proof.
  unfold SmartFree.useBasicCorrection.
  destruct (fold_left _ _ _) as [c cs].
  destruct (includes c _); repeat split.
Qed.

Lemma sapling_wellFormed (text : jsstring) (edits : list SmartFree.SaplingEdit) :
  wellFormed text (SmartFree.processSaplingResponse text edits).
Proof.
  unfold SmartFree.processSaplingResponse.
  destruct (fold_left _ _ _) as [c cs]. repeat split. simpl.
  unfold SmartFree.count. now rewrite length_rev.
Qed.

Lemma textGears_wellFormed (text : jsstring)
      (errors : list SmartFree.TextGearsError) :
  wellFormed text (SmartFree.processTextGearsResponse text errors).
Proof.
  unfold SmartFree.processTextGearsResponse.
  destruct (fold_left _ _ _) as [c cs]. repeat split. simpl.
  unfold SmartFree.count. now rewrite length_rev.
Qed.

Lemma languageTool_wellFormed (text : jsstring)
      (response : SmartFree.LtResponse) :
  wellFormed text (SmartFree.processLanguageToolResponse text response).
Proof.
  unfold SmartFree.processLanguageToolResponse.
  destruct (fold_left _ _ _) as [c cs]. repeat split. simpl.
  unfold SmartFree.count. now rewrite length_rev.
Qed.

Lemma withService_wellFormed (text : jsstring) (r : SmartFree.Result)
      (serviceName : jsstring) :
  wellFormed text r -> wellFormed text (SmartFree.withService r serviceName).
Proof. intro H. exact H. Qed.

Section Orchestrator.

Variable keys : SmartFree.Keys.
Variable remote : SmartFree.Remote.
Variables text language : jsstring.

Lemma useSaplingAI_wellFormed (r : SmartFree.Result) :
  SmartFree.useSaplingAI keys remote text = Returned r -> wellFormed text r.
Proof.
  unfold SmartFree.useSaplingAI.
  destruct (negb _); [discriminate|].
  destruct (SmartFree.sapling remote text) as [data|e].
  - intro H. injection H as <-. apply sapling_wellFormed.
  - destruct (SmartFree.statusIs e 401); [discriminate|].
    destruct (SmartFree.statusIs e 429); discriminate.
Qed.

Lemma useTextGears_wellFormed (r : SmartFree.Result) :
  SmartFree.useTextGears keys remote text language = Returned r ->
  wellFormed text r.
Proof.
  unfold SmartFree.useTextGears.
  destruct (negb _); [discriminate|].
  destruct (SmartFree.textGears remote text _) as [data|e].
  - intro H. injection H as <-. apply textGears_wellFormed.
  - destruct (SmartFree.statusIs e 401); [discriminate|].
    destruct (SmartFree.statusIs e 429); discriminate.
Qed.

Lemma useLanguageToolFree_wellFormed (r : SmartFree.Result) :
  SmartFree.useLanguageToolFree remote text language = Returned r ->
  wellFormed text r.
Proof.
  unfold SmartFree.useLanguageToolFree.
  destruct (SmartFree.languageTool remote text language) as [data|e].
  - intro H. injection H as <-. apply languageTool_wellFormed.
  - destruct (SmartFree.statusIs e 429); discriminate.
Qed.

(** A remote service that fails makes its adapter throw. *)
Lemma useSaplingAI_fails :
  allRemoteFail remote ->
  exists e, SmartFree.useSaplingAI keys remote text = Threw e.
Proof.
  intro F. destruct (F text language) as (S & _ & _).
  unfold SmartFree.useSaplingAI.
  destruct (negb _); [eauto|].
  destruct (SmartFree.sapling remote text) as [data|e]; [contradiction|].
  destruct (SmartFree.statusIs e 401); [eauto|].
  destruct (SmartFree.statusIs e 429); eauto.
Qed.

Lemma useTextGears_fails :
  allRemoteFail remote ->
  exists e, SmartFree.useTextGears keys remote text language = Threw e.
Proof.
  intro F. unfold SmartFree.useTextGears.
  destruct (negb _); [eauto|].
  destruct (F text (if eqb language (js "auto") then js "en-US" else language))
    as (_ & T & _).
  destruct (SmartFree.textGears remote text _) as [data|e]; [contradiction|].
  destruct (SmartFree.statusIs e 401); [eauto|].
  destruct (SmartFree.statusIs e 429); eauto.
Qed.

Lemma useLanguageToolFree_fails :
  allRemoteFail remote ->
  exists e, SmartFree.useLanguageToolFree remote text language = Threw e.
Proof.
  intro F. destruct (F text language) as (_ & _ & L).
  unfold SmartFree.useLanguageToolFree.
  destruct (SmartFree.languageTool remote text language) as [data|e];
    [contradiction|].
  destruct (SmartFree.statusIs e 429); eauto.
Qed.

Ltac returned_by H :=
  eexists; split; [reflexivity|];
  split; [apply withService_wellFormed; now apply H|eexists; reflexivity].

(** Whatever the remote services do, the orchestrator returns. *)
Lemma correctText_returns :
  len text <> 0 -> len text <= 8000 ->
  exists r,
    SmartFree.correctText keys remote text language = Returned r /\
    wellFormed text r /\
    exists serviceName, SmartFree.serviceUsed r = Some serviceName.
Proof.
  intros N L. unfold SmartFree.correctText.
  destruct (len text =? 0) eqn:E0; [apply Z.eqb_eq in E0; contradiction|].
  destruct (8000 <? len text) eqn:E1; [apply Z.ltb_lt in E1; lia|].
  pose proof useSaplingAI_wellFormed as S.
  pose proof useTextGears_wellFormed as T.
  pose proof useLanguageToolFree_wellFormed as G.
  unfold SmartFree.services.
  destruct (SmartFree.configured (SmartFree.saplingKey keys)),
           (SmartFree.configured (SmartFree.textGearsKey keys));
    cbn [app List.length SmartFree.tryServices Nat.eqb Nat.sub];
    repeat match goal with
           | |- context [SmartFree.useSaplingAI ?k ?r ?t] =>
               let E := fresh "E" in
               destruct (SmartFree.useSaplingAI k r t) eqn:E;
               [returned_by S|]
           | |- context [SmartFree.useTextGears ?k ?r ?t ?l] =>
               let E := fresh "E" in
               destruct (SmartFree.useTextGears k r t l) eqn:E;
               [returned_by T|]
           | |- context [SmartFree.useLanguageToolFree ?r ?t ?l] =>
               let E := fresh "E" in
               destruct (SmartFree.useLanguageToolFree r t l) eqn:E;
               [returned_by G|]
           end;
    (eexists; split; [reflexivity|];
     split; [apply withService_wellFormed, useBasicCorrection_wellFormed
            |eexists; reflexivity]).
Qed.

(** When every remote service fails, the rule table answers. *)
Lemma correctText_falls_back :
  len text <> 0 -> len text <= 8000 -> allRemoteFail remote ->
  SmartFree.correctText keys remote text language =
  Returned (SmartFree.withService (SmartFree.useBasicCorrection text)
              (js "Basic Correction")).
Proof.
  intros N L F. unfold SmartFree.correctText.
  destruct (len text =? 0) eqn:E0; [apply Z.eqb_eq in E0; contradiction|].
  destruct (8000 <? len text) eqn:E1; [apply Z.ltb_lt in E1; lia|].
  destruct (useSaplingAI_fails F) as (e1 & S).
  destruct (useTextGears_fails F) as (e2 & T).
  destruct (useLanguageToolFree_fails F) as (e3 & G).
  unfold SmartFree.services.
  destruct (SmartFree.configured (SmartFree.saplingKey keys)) eqn:K1,
           (SmartFree.configured (SmartFree.textGearsKey keys)) eqn:K2;
    cbn [app List.length SmartFree.tryServices Nat.eqb Nat.sub];
    rewrite ?S, ?T, ?G; cbn [Nat.eqb]; rewrite ?S, ?T, ?G;
    unfold SmartFree.getServiceName, SmartFree.serviceNames;
    rewrite K1, K2; reflexivity.
Qed.

End Orchestrator.

(** C1, as amended.  For every valid input text (not empty once trimmed, at
    most as long as the configured maximum and at most 15000 characters),
    the controller with UniversalGrammarService behind it answers 200
    whatever the upstream does: no backend failure reaches the caller as
    another status.  SmartFreeGrammarService.correctText has a limit of its
    own: for a text of at most 8000 characters it returns a well-formed
    result that names the service used, whatever the remote services do,
    and when every remote service fails that result is the rule-table
    correction with serviceUsed Basic Correction; for a longer text it
    throws, whatever the remote services do. *)
Theorem correction_completes
        (keys : SmartFree.Keys) (remote : SmartFree.Remote)
        (engine : Universal.RegExpEngine)
        (elapsed : Z) (up : Hf.upstream) (MAX_TEXT_LENGTH : option Z)
        (totalTime : Z) (w : Hf.world) (text language : jsstring) :
  len (trim text) <> 0 ->
  len text <= Controller.maxLength MAX_TEXT_LENGTH ->
  len text <= 15000 ->
  Controller.status
    (fst (Controller.correctText
            (Universal.correctText engine elapsed up)
            MAX_TEXT_LENGTH totalTime (Controller.JString text) w))
  = Some 200 /\
  (len text <= 8000 ->
   (exists r,
       SmartFree.correctText keys remote text language = Returned r /\
       wellFormed text r /\
       exists serviceName, SmartFree.serviceUsed r = Some serviceName) /\
   (allRemoteFail remote ->
    SmartFree.correctText keys remote text language =
    Returned (SmartFree.withService (SmartFree.useBasicCorrection text)
                (js "Basic Correction")))) /\
  (8000 < len text ->
   SmartFree.correctText keys remote text language =
   Threw (newError (js "Text too long. Maximum 8,000 characters."))).
Proof.
  intros T M L. pose proof (trim_nonempty _ T) as N. split; [|split].
  - rewrite controller_accepts by assumption.
    destruct (universal_correctText_returns engine elapsed up text w T L)
      as (r & w' & E).
    rewrite E. reflexivity.
  - intro L8. split.
    + now apply correctText_returns.
    + now apply correctText_falls_back.
  - intro G. unfold SmartFree.correctText.
    destruct (len text =? 0) eqn:E0; [apply Z.eqb_eq in E0; contradiction|].
    apply Z.ltb_lt in G. now rewrite G.
Qed.

(** C1 as stated fails: a text of 8001 characters is valid at the request
    boundary, and the orchestrator throws instead of falling back, whatever
    the remote services do. *)
Lemma long_text_counterexample :
  len (trim longText) <> 0 /\
  len longText <= Controller.maxLength None /\
  allRemoteFail deadRemote /\
  SmartFree.correctText bothKeys deadRemote longText (js "auto") =
  Threw (newError (js "Text too long. Maximum 8,000 characters.")).
Proof.
  split; [vm_compute; discriminate|].
  split; [vm_compute; discriminate|].
  split; [intros t l; simpl; tauto|].
  vm_compute. reflexivity.
Qed.

Lemma deadRemote_fails : allRemoteFail deadRemote.
Proof. intros t l. simpl. tauto. Defined.

Lemma correction_completes_witness :
  Controller.status
    (fst (Controller.correctText
            (Universal.correctText noMatch 7 unreachable)
            None 9 (Controller.JString (js "I saw teh cat.")) Hf.start))
  = Some 200 /\
  SmartFree.correctText bothKeys deadRemote (js "I saw teh cat.") (js "auto") =
  Returned (SmartFree.withService
              (SmartFree.useBasicCorrection (js "I saw teh cat."))
              (js "Basic Correction")) /\
  SmartFree.correctedText (SmartFree.useBasicCorrection (js "I saw teh cat."))
  = js "I saw the cat.".
Proof.
  destruct (correction_completes bothKeys deadRemote noMatch 7 unreachable
              None 9 Hf.start (js "I saw teh cat.") (js "auto"))
    as (Ok & Free & _).
  - vm_compute. discriminate.
  - vm_compute. discriminate.
  - vm_compute. discriminate.
  - split; [exact Ok|]. split.
    + apply Free; [vm_compute; discriminate|exact deadRemote_fails].
    + vm_compute. reflexivity.
Defined.

(** * Further properties of the code *)

(** ** Trimming and extraction *)

Lemma trimStart_head (s : jsstring) (c : char) (r : jsstring) :
  trimStart s = c :: r -> isSpace c = false.
Proof.
  induction s as [|x s IH]; simpl; [discriminate|].
  destruct (isSpace x) eqn:E; [exact IH|].
  intro H. injection H as <- _. exact E.
Qed.

Lemma trimStart_fixed (s : jsstring) :
  startsWithSpace s = false -> trimStart s = s.
Proof. destruct s as [|c s]; simpl; [reflexivity|]. now intros ->. Qed.

Lemma trimStart_startsWithSpace (s : jsstring) :
  startsWithSpace (trimStart s) = false.
Proof.
  destruct (trimStart s) as [|c r] eqn:E; [reflexivity|].
  simpl. eapply trimStart_head, E.
Qed.

Lemma trimStart_idempotent (s : jsstring) :
  trimStart (trimStart s) = trimStart s.
Proof. apply trimStart_fixed, trimStart_startsWithSpace. Qed.

Lemma trimStart_app (s m : jsstring) :
  trimStart s <> [] -> trimStart (s ++ m) = trimStart s ++ m.
Proof.
  induction s as [|x s IH]; simpl; [congruence|].
  destruct (isSpace x); [exact IH|reflexivity].
Qed.

Lemma trimStart_app_blank (s m : jsstring) :
  trimStart s = [] -> trimStart (s ++ m) = trimStart m.
Proof.
  induction s as [|x s IH]; simpl; [reflexivity|].
  destruct (isSpace x); [exact IH|discriminate].
Qed.

Lemma trimEnd_idempotent (s : jsstring) : trimEnd (trimEnd s) = trimEnd s.
Proof.
  unfold trimEnd. now rewrite rev_involutive, trimStart_idempotent.
Qed.

(** Trimming the end leaves a first character that is not whitespace where
    it is. *)
Lemma trimEnd_startsWithSpace (s : jsstring) :
  startsWithSpace s = false -> startsWithSpace (trimEnd s) = false.
Proof.
  destruct s as [|c r]; [reflexivity|]. simpl. intro E.
  unfold trimEnd. simpl rev.
  destruct (trimStart (rev r)) as [|x l] eqn:T.
  - rewrite trimStart_app_blank by exact T. simpl. rewrite E. simpl. exact E.
  - rewrite trimStart_app by (rewrite T; discriminate).
    rewrite T, rev_app_distr. simpl. exact E.
Qed.

Lemma trim_idempotent (s : jsstring) : trim (trim s) = trim s.
Proof.
  unfold trim at 1.
  rewrite (trimStart_fixed (trim s)).
  - unfold trim. apply trimEnd_idempotent.
  - unfold trim. apply trimEnd_startsWithSpace, trimStart_startsWithSpace.
Qed.

Lemma trimStart_In (s : jsstring) (c : char) : In c (trimStart s) -> In c s.
Proof.
  induction s as [|x s IH]; simpl; [tauto|].
  destruct (isSpace x); [intro H; right; now apply IH|tauto].
Qed.

Lemma trim_In (s : jsstring) (c : char) : In c (trim s) -> In c s.
Proof.
  unfold trim, trimEnd. intro H. apply in_rev, trimStart_In, in_rev in H.
  now apply trimStart_In.
Qed.

Lemma collapseRuns_In (cls : char -> bool) (inRun : bool) (s : jsstring)
      (c : char) :
  In c (collapseRuns cls inRun s) -> c = 32%N \/ (In c s /\ cls c = false).
Proof.
  revert inRun; induction s as [|x s IH]; intro inRun; simpl; [tauto|].
  destruct (cls x) eqn:E.
  - destruct inRun; simpl.
    + intro H. destruct (IH _ H) as [-> | [I F]]; [now left|right; tauto].
    + intros [<- | H]; [now left|].
      destruct (IH _ H) as [-> | [I F]]; [now left|right; tauto].
  - simpl. intros [<- | H]; [right; tauto|].
    destruct (IH _ H) as [-> | [I F]]; [now left|right; tauto].
Qed.

(** X1.  What [extractCorrectedText] of UniversalGrammarService returns,
    for every model response and every prompt, holds no line feed and has no
    whitespace at either end: trimming it again changes nothing. *)
Theorem extracted_text_is_one_trimmed_line (response prompt : jsstring) :
  let corrected := Universal.extractCorrectedText response prompt in
  ~ In 10%N corrected /\ trim corrected = corrected.
Proof.
  unfold Universal.extractCorrectedText.
  destruct (len response =? 0); [split; [intros []|reflexivity]|].
  cbv zeta. split.
  - intro H. apply trim_In, collapseRuns_In in H.
    destruct H as [H | [_ H]]; discriminate.
  - apply trim_idempotent.
Qed.

(** ** Accepting a model answer *)

(** X2.  [isValidCorrection] accepts a candidate exactly when it has at
    least three characters, differs from the original and is at most twice
    as long: the test for a repeated prompt ([includes] and more than twice
    the length) never decides, the length-difference test refusing those
    candidates anyway. *)
Theorem isValidCorrection_characterised (original corrected : jsstring) :
  Universal.isValidCorrection original corrected = true <->
  3 <= len corrected /\ corrected <> original /\
  len corrected <= 2 * len original.
Proof.
  unfold Universal.isValidCorrection.
  pose proof (len_nonneg original). pose proof (len_nonneg corrected).
  destruct (len corrected =? 0) eqn:E0.
  { apply Z.eqb_eq in E0. split; [discriminate|lia]. }
  destruct (len corrected <? 3) eqn:E3.
  { apply Z.ltb_lt in E3. split; [discriminate|lia]. }
  apply Z.ltb_ge in E3.
  destruct (eqb corrected original) eqn:Q.
  { apply jsstring_eqb_eq in Q. split; [discriminate|tauto]. }
  apply jsstring_eqb_neq in Q.
  destruct (includes corrected original && (len original * 2 <? len corrected))
           eqn:I.
  { apply andb_prop in I as [_ I]. apply Z.ltb_lt in I.
    split; [discriminate|lia]. }
  destruct (len original <? Z.abs (len corrected - len original)) eqn:D.
  - apply Z.ltb_lt in D. split; [discriminate|lia].
  - apply Z.ltb_ge in D. split; [intros _; repeat split; (assumption || lia)|].
    reflexivity.
Qed.

(** ** What a correction costs *)

Lemma attempt_world (up : Hf.upstream) (text model prompt : jsstring)
      (w : Hf.world) :
  snd (Universal.attempt up text model prompt w) =
  snd (Universal.queryModel up model prompt w).
Proof.
  unfold Universal.attempt.
  destruct (Universal.queryModel up model prompt w) as [[[|g rest]|e] w'];
    reflexivity.
Qed.

Lemma tryEach_cost (up : Hf.upstream) (text : jsstring)
      (todo : list (jsstring * jsstring)) (w : Hf.world) :
  let w' := snd (Universal.tryEach up text todo w) in
  exists attempts retries : nat,
    (retries <= attempts <= List.length todo)%nat /\
    (todo <> [] -> (1 <= attempts)%nat) /\
    Hf.calls w' = (Hf.calls w + attempts + retries)%nat /\
    Hf.sleptMs w' = Hf.sleptMs w + 15000 * Z.of_nat retries.
Proof.
  revert w; induction todo as [|[model prompt] todo IH]; intro w;
    cbv zeta; cbn [Universal.tryEach snd List.length].
  - exists 0%nat, 0%nat. repeat split; try lia. intro H. now contradiction H.
  - pose proof (attempt_world up text model prompt w) as A.
    pose proof (universal_queryModel_bounded up model prompt w) as B.
    cbv zeta in B. rewrite <- A in B.
    destruct (Universal.attempt up text model prompt w) as [[r|] w1];
      cbn [snd] in B |- *.
    + destruct B as [[C Z] | [C Z]].
      * exists 1%nat, 0%nat. repeat split; lia.
      * exists 1%nat, 1%nat. repeat split; lia.
    + destruct (IH w1) as (a & r & L & _ & C1 & Z1). cbv zeta in C1, Z1.
      destruct B as [[C Z] | [C Z]].
      * exists (S a), r. repeat split; lia.
      * exists (S a), (S r). repeat split; lia.
Qed.

Lemma universal_correctText_cost (engine : Universal.RegExpEngine) (elapsed : Z)
        (up : Hf.upstream) (text : jsstring) (w : Hf.world) :
  let w' := snd (Universal.correctText engine elapsed up text w) in
  exists attempts retries : nat,
    (retries <= attempts <= 25)%nat /\
    Hf.calls w' = (Hf.calls w + attempts + retries)%nat /\
    Hf.sleptMs w' = Hf.sleptMs w + 15000 * Z.of_nat retries /\
    (Hf.calls w' <= Hf.calls w + 50)%nat /\
    Hf.sleptMs w' <= Hf.sleptMs w + 375000 /\
    (len (trim text) <> 0 -> len text <= 15000 -> (1 <= attempts)%nat).
Proof.
  unfold Universal.correctText.
  destruct (len text =? 0) eqn:E0.
  { apply Z.eqb_eq, len_zero in E0. subst text.
    exists 0%nat, 0%nat. cbn [snd]. repeat split; try lia.
    intro D. now contradiction D. }
  destruct (len (trim text) =? 0) eqn:E1.
  { apply Z.eqb_eq in E1.
    exists 0%nat, 0%nat. cbn [snd]. repeat split; lia. }
  destruct (15000 <? len text) eqn:E2.
  { apply Z.ltb_lt in E2.
    exists 0%nat, 0%nat. cbn [snd]. repeat split; lia. }
  pose proof (tryEach_cost up text (Universal.attempts text) w) as T.
  cbv zeta in T. rewrite attempts_length in T.
  unfold Universal.tryMultipleAIApproaches.
  destruct (Universal.tryEach up text (Universal.attempts text) w)
    as [aiResult w1].
  cbn [snd] in T. destruct T as (a & r & L & P & C & Z).
  assert (W : forall x y z : Universal.Result,
             snd (if Universal.count (Universal.corrections aiResult) =? 0
                  then if 0 <? Universal.count (Universal.corrections x)
                       then (Returned x, w1) else (Returned y, w1)
                  else (@Returned Universal.Result z, w1)) = w1).
  { intros x y z.
    destruct (Universal.count (Universal.corrections aiResult) =? 0);
      [destruct (0 <? Universal.count (Universal.corrections x))|];
      reflexivity. }
  cbv zeta. rewrite W.
  exists a, r. repeat split; try lia.
  intros _ _. apply P. discriminate.
Qed.


(** ** Results of UniversalGrammarService *)

Lemma countCategory_total (coverage : Universal.Coverage)
      (c : Universal.Correction) :
  coverageTotal (Universal.countCategory coverage c)
  = coverageTotal coverage + 1 /\
  Universal.collocations (Universal.countCategory coverage c)
  = Universal.collocations coverage /\
  Universal.idioms (Universal.countCategory coverage c)
  = Universal.idioms coverage.
Proof.
  unfold Universal.countCategory. destruct coverage.
  repeat match goal with
         | |- context [if ?b then _ else _] => destruct b
         end;
    unfold coverageTotal; simpl; repeat split; lia.
Qed.

Lemma coverage_fold (corrections : list Universal.Correction)
      (coverage : Universal.Coverage) :
  let final := fold_left Universal.countCategory corrections coverage in
  coverageTotal final
  = coverageTotal coverage + Universal.count corrections /\
  Universal.collocations final = Universal.collocations coverage /\
  Universal.idioms final = Universal.idioms coverage.
Proof.
  revert coverage. unfold Universal.count.
  induction corrections as [|c l IH]; intro coverage; cbv zeta.
  - simpl. repeat split; lia.
  - cbn [fold_left List.length].
    destruct (IH (Universal.countCategory coverage c)) as (T & C & I).
    destruct (countCategory_total coverage c) as (T1 & C1 & I1).
    cbv zeta in T, C, I. rewrite T, C, I, T1, C1, I1, Nat2Z.inj_succ.
    repeat split; lia.
Qed.

(** X4.  [analyzeLinguisticCoverage] counts every correction exactly once:
    the nine counters add up to the number of corrections, whatever their
    categories are, and the counters for collocations and idioms are never
    raised. *)
Theorem coverage_counts_every_correction
        (corrections : list Universal.Correction) :
  let coverage := Universal.analyzeLinguisticCoverage corrections in
  coverageTotal coverage = Universal.count corrections /\
  Universal.collocations coverage = 0 /\
  Universal.idioms coverage = 0.
Proof.
  unfold Universal.analyzeLinguisticCoverage.
  destruct (coverage_fold corrections
              (Universal.mkCoverage 0 0 0 0 0 0 0 0 0)) as (T & C & I).
  cbv zeta in *. rewrite T, C, I. repeat split.
Qed.

Lemma buildResult_wellBuilt (text corrected : jsstring)
      (corrections : list Universal.Correction) (serviceUsed : jsstring) :
  wellBuilt text (Universal.buildResult text corrected corrections serviceUsed).
Proof.
  unfold wellBuilt, Universal.buildResult. cbn.
  split; [reflexivity|]. split; [apply dedupe_NoDup|]. split.
  { intro category. rewrite setOf_In, in_map_iff.
    split; intros (c & A & B); exists c; tauto. }
  repeat split.
  destruct (coverage_fold corrections
              (Universal.mkCoverage 0 0 0 0 0 0 0 0 0)) as (T & _).
  exact T.
Qed.

Lemma withProcessingTime_wellBuilt (elapsed : Z) (text : jsstring)
      (r : Universal.Result) :
  wellBuilt text r -> wellBuilt text (Universal.withProcessingTime elapsed r).
Proof. unfold wellBuilt. cbn. tauto. Qed.

Lemma attempt_wellBuilt (up : Hf.upstream) (text model prompt : jsstring)
      (w w' : Hf.world) (r : Universal.Result) :
  Universal.attempt up text model prompt w = (Some r, w') -> wellBuilt text r.
Proof.
  unfold Universal.attempt.
  destruct (Universal.queryModel up model prompt w) as [[[|g rest]|e] w1];
    try discriminate.
  destruct (Hf.truthy _) as [generated|]; try discriminate.
  destruct (Universal.isValidCorrection _ _); try discriminate.
  destruct (0 <? _); try discriminate.
  intro H. injection H as <- _. apply buildResult_wellBuilt.
Qed.

Lemma tryEach_wellBuilt (up : Hf.upstream) (text : jsstring)
      (todo : list (jsstring * jsstring)) (w : Hf.world) :
  wellBuilt text (fst (Universal.tryEach up text todo w)).
Proof.
  revert w; induction todo as [|[model prompt] todo IH]; intro w;
    cbn [Universal.tryEach].
  - apply buildResult_wellBuilt.
  - destruct (Universal.attempt up text model prompt w) as [[r|] w'] eqn:A.
    + eapply attempt_wellBuilt, A.
    + apply IH.
Qed.

Lemma universal_result_wellBuilt
        (engine : Universal.RegExpEngine) (elapsed : Z) (up : Hf.upstream)
        (text : jsstring) (w w' : Hf.world) (r : Universal.Result) :
  Universal.correctText engine elapsed up text w = (Returned r, w') ->
  wellBuilt text r.
Proof.
  unfold Universal.correctText.
  destruct (len text =? 0); [discriminate|].
  destruct (len (trim text) =? 0); [discriminate|].
  destruct (15000 <? len text); [discriminate|].
  pose proof (tryEach_wellBuilt up text (Universal.attempts text) w) as T.
  unfold Universal.tryMultipleAIApproaches.
  destruct (Universal.tryEach up text (Universal.attempts text) w)
    as [aiResult w1].
  cbn [fst] in T.
  pose proof (withProcessingTime_wellBuilt elapsed text aiResult T) as P.
  destruct (Universal.count (Universal.corrections aiResult) =? 0).
  - destruct (0 <? _).
    + intro H. injection H as <- _. unfold Universal.useIntelligentPatterns.
      destruct (Universal.patternPasses engine text) as [c cs].
      apply buildResult_wellBuilt.
    + intro H. now injection H as <- _.
  - intro H. now injection H as <- _.
Qed.



(** ** The similarity of a text with itself *)

Lemma filter_arrayIncludes_self (l : list jsstring) :
  filter (arrayIncludes l) l = l.
Proof.
  apply forallb_filter_id, forallb_forall. intros x H.
  now apply arrayIncludes_In.
Qed.

Lemma dedupe_full (seen l : list jsstring) :
  List.length (dedupe seen l) = List.length l -> dedupe seen l = l.
Proof.
  revert seen; induction l as [|x l IH]; intro seen; simpl; [reflexivity|].
  destruct (arrayIncludes seen x).
  - pose proof (dedupe_length seen l). lia.
  - simpl. intro H. f_equal. apply IH. lia.
Qed.

Lemma quotient_of_counts (n m : nat) :
  (0 < m)%nat ->
  ((m <= n)%nat ->
   (1 <= inject_Z (Z.of_nat n) / inject_Z (Z.of_nat m))%Q) /\
  ((inject_Z (Z.of_nat n) / inject_Z (Z.of_nat m) == 1)%Q <-> n = m).
Proof.
  intro M. destruct m as [|m]; [lia|].
  unfold Qdiv, Qinv, Qmult, Qle, Qeq, inject_Z. cbn [Qnum Qden].
  rewrite Nat2Z.inj_succ. unfold Z.succ.
  destruct (Z.of_nat m + 1) as [|p|p] eqn:E; try lia.
  cbn [Qnum Qden]. split; [intro L|split; intro H]; lia.
Qed.

Lemma similarity_with_itself (text : jsstring) :
  let words := splitSpaces (toLowerCase text) in
  Universal.calculateSimilarity text text
  = Advanced.calculateSimilarity text text /\
  Universal.calculateSimilarity text text
  = (inject_Z (Z.of_nat (List.length words))
     / inject_Z (Z.of_nat (List.length (setOf words))))%Q /\
  (1 <= Universal.calculateSimilarity text text)%Q /\
  ((Universal.calculateSimilarity text text == 1)%Q <-> NoDup words).
Proof.
  intro words.
  assert (E : Universal.calculateSimilarity text text
              = (inject_Z (Z.of_nat (List.length words))
                 / inject_Z (Z.of_nat (List.length (setOf words))))%Q).
  { unfold Universal.calculateSimilarity. fold words.
    rewrite filter_arrayIncludes_self.
    rewrite (setOf_length_ext (words ++ words) words); [reflexivity|].
    intro x. rewrite in_app_iff. tauto. }
  assert (P : (0 < List.length (setOf words))%nat).
  { pose proof (splitSpaces_nonempty (toLowerCase text)) as N. fold words in N.
    destruct words as [|x l]; [congruence|]. unfold setOf. simpl. lia. }
  destruct (quotient_of_counts (List.length words) (List.length (setOf words)) P)
    as [L Q].
  split; [reflexivity|]. split; [exact E|]. rewrite E. split.
  - apply L, dedupe_length.
  - rewrite Q. split.
    + intro H. symmetry in H. apply dedupe_full in H.
      fold (setOf words) in H. rewrite <- H. apply dedupe_NoDup.
    + intro D. now rewrite setOf_id.
Qed.

(** *** Numbers that are computed without error *)

Lemma pow2_le (a b : Z) :
  a <= b -> (Binary64.pow2 a <= Binary64.pow2 b)%Q.
Proof.
  intro L. replace b with (a + (b - a)) by lia. rewrite pow2_plus.
  pose proof (pow2_positive a) as P.
  assert (O : (1 <= Binary64.pow2 (b - a))%Q).
  { rewrite pow2_of_Z by lia. change 1%Q with (inject_Z 1).
    rewrite <- Zle_Qle.
    pose proof (Z.pow_pos_nonneg 2 (b - a) ltac:(lia) ltac:(lia)). lia. }
  set (p := Binary64.pow2 a) in *. set (q := Binary64.pow2 (b - a)) in *.
  clearbody p q. nra.
Qed.

Lemma roundPositive_exact (x : Q) (p : positive) :
  (x == inject_Z (Z.pos p))%Q -> Z.pos p < 2 ^ 53 ->
  (Binary64.roundPositive x == inject_Z (Z.pos p))%Q.
Proof.
  intros X B. unfold Binary64.roundPositive.
  set (e := Binary64.exponent x).
  assert (P : (0 < x)%Q) by (rewrite X; reflexivity).
  assert (E : e <= 52).
  { pose proof (exponent_le x P) as L. fold e in L.
    destruct (Z_le_gt_dec e 52) as [H|H]; [exact H|exfalso].
    pose proof (pow2_le 53 e ltac:(lia)) as M.
    rewrite (pow2_of_Z 53) in M by lia.
    assert (U : (x < inject_Z (2 ^ 53))%Q)
      by (rewrite X; rewrite <- Zlt_Qlt; exact B).
    set (q := Binary64.pow2 e) in *. clearbody q. lra. }
  assert (S : (x * Binary64.pow2 (52 - e)
               == inject_Z (Z.pos p * 2 ^ (52 - e)))%Q).
  { rewrite pow2_of_Z by lia. rewrite X. now rewrite inject_Z_mult. }
  rewrite (nearestEven_comp _ _ S), nearestEven_integer.
  rewrite inject_Z_mult, <- pow2_of_Z by lia.
  rewrite <- Qmult_assoc, <- pow2_plus.
  replace (52 - e + (e - 52)) with 0 by lia.
  unfold Binary64.pow2. simpl. ring.
Qed.

(** A result that is an integer below 2^53 in magnitude is not rounded. *)
Lemma nearest_exact (x : Q) (n : Z) :
  (x == inject_Z n)%Q -> - 2 ^ 53 < n < 2 ^ 53 ->
  (Binary64.nearest x == inject_Z n)%Q.
Proof.
  intros X [L U]. unfold Binary64.nearest.
  destruct x as [a d]. cbn [Qnum]. destruct a as [|a|a].
  - rewrite <- X. reflexivity.
  - destruct n as [|p|p]; try (unfold Qeq in X; simpl in X; lia).
    now apply roundPositive_exact.
  - destruct n as [|p|p]; try (unfold Qeq in X; simpl in X; lia).
    assert (X' : (- (Z.neg a # d) == inject_Z (Z.pos p))%Q).
    { rewrite X. reflexivity. }
    rewrite (roundPositive_exact _ p X') by lia. reflexivity.
Qed.

(** The quotient of a count by a smaller one is 1 only when they are
    equal. *)
Lemma ratio_at_least_one (n m : Z) :
  1 <= m <= n -> n <= 2 ^ 32 ->
  let quotient := (inject_Z n / inject_Z m)%Q in
  let computed := Binary64.div (Binary64.ofZ n) (Binary64.ofZ m) in
  (quotient * (1 - Binary64.roundoff) <= computed
   <= quotient * (1 + Binary64.roundoff))%Q /\
  (1 <= computed)%Q /\
  ((computed == 1)%Q <-> n = m).
Proof.
  intros [M1 M2] N quotient computed.
  change (2 ^ 32) with 4294967296 in N.
  assert (P : (0 < inject_Z m)%Q)
    by (change 0%Q with (inject_Z 0); rewrite <- Zlt_Qlt; lia).
  subst computed. unfold Binary64.div, Binary64.ofZ.
  set (x := (Binary64.nearest (inject_Z n)
             / Binary64.nearest (inject_Z m))%Q).
  assert (X : (x == quotient)%Q).
  { subst x quotient.
    rewrite !nearest_integer by (change (2 ^ 53) with 9007199254740992; lia).
    reflexivity. }
  assert (Q1 : (1 <= quotient)%Q).
  { subst quotient. apply Qle_shift_div_l; [exact P|].
    rewrite Qmult_1_l. rewrite <- Zle_Qle. exact M2. }
  pose proof (nearest_near x x) as H. unfold Binary64.roundoff in *.
  assert (A : (quotient * (1 - (1 # 9007199254740992))
               <= Binary64.nearest x
               <= quotient * (1 + (1 # 9007199254740992)))%Q).
  { set (y := Binary64.nearest x) in *. clearbody y x quotient.
    destruct H as [H1 H2]; [split; lra|]. split; lra. }
  split; [exact A|].
  destruct (Z.eq_dec n m) as [E|D].
  - subst m.
    assert (O : (x == inject_Z 1)%Q).
    { rewrite X. subst quotient. field.
      intro Z0. rewrite Z0 in P. discriminate. }
    pose proof (nearest_exact x 1 O ltac:(split; reflexivity)) as R.
    change (inject_Z 1) with 1%Q in R. rewrite R.
    split; [apply Qle_refl|]. split; [reflexivity|reflexivity].
  - assert (G : (1 + (1 # 4294967296) <= quotient)%Q).
    { subst quotient. apply Qle_shift_div_l; [exact P|].
      assert (S : (inject_Z (m + 1) <= inject_Z n)%Q)
        by (rewrite <- Zle_Qle; lia).
      assert (T : (inject_Z m <= inject_Z 4294967296)%Q)
        by (rewrite <- Zle_Qle; lia).
      rewrite inject_Z_plus in S.
      change (inject_Z 1) with 1%Q in S.
      change (inject_Z 4294967296) with 4294967296%Q in T.
      set (a := inject_Z n) in *. set (b := inject_Z m) in *.
      clearbody a b. lra. }
    set (y := Binary64.nearest x) in *. clearbody y x quotient.
    destruct A as [A1 A2].
    assert (Y : (1 < y)%Q) by lra.
    split; [lra|]. split; [intro E; rewrite E in Y; discriminate|].
    intro E. contradiction.
Qed.

(** X6.  On a text of ASCII and Latin-1 characters (of a length a string
    can have), the similarity of the text with itself, which both services
    compute the same way, is the number of its words divided by the number
    of its distinct words, in double precision, hence within a relative
    2^-53 of the exact quotient: it is at least 1, and it is 1 exactly when
    no word occurs twice (letter case apart).  [calculateSimilarity] is not
    bounded by 1. *)
Theorem self_similarity (text : jsstring) :
  latin1 text -> len text <= 2 ^ 30 ->
  let words := splitSpaces (toLowerCase text) in
  let count := Z.of_nat (List.length words) in
  let distinct := Z.of_nat (List.length (setOf words)) in
  let similarity := UniversalDoubles.calculateSimilarity text text in
  similarity = AdvancedDoubles.calculateSimilarity text text /\
  similarity = Binary64.div (Binary64.ofZ count) (Binary64.ofZ distinct) /\
  (inject_Z count / inject_Z distinct * (1 - Binary64.roundoff)
   <= similarity
   <= inject_Z count / inject_Z distinct * (1 + Binary64.roundoff))%Q /\
  (1 <= similarity)%Q /\
  ((similarity == 1)%Q <-> NoDup words).
Proof.
  intros _ L words count distinct similarity.
  assert (E : similarity
              = Binary64.div (Binary64.ofZ count) (Binary64.ofZ distinct)).
  { subst similarity count distinct.
    unfold UniversalDoubles.calculateSimilarity. fold words.
    rewrite filter_arrayIncludes_self.
    rewrite (setOf_length_ext (words ++ words) words); [reflexivity|].
    intro x. rewrite in_app_iff. tauto. }
  assert (P : 1 <= distinct <= count /\ count <= 2 ^ 32).
  { subst count distinct.
    pose proof (splitSpaces_length (toLowerCase text)) as S.
    fold words in S. unfold toLowerCase in S. rewrite length_map in S.
    pose proof (dedupe_length [] words) as D. fold (setOf words) in D.
    assert (N : (1 <= List.length (setOf words))%nat).
    { destruct words as [|x l]; [simpl in S; lia|].
      unfold setOf. simpl. lia. }
    unfold len in L. change (2 ^ 30) with 1073741824 in L.
    change (2 ^ 32) with 4294967296. lia. }
  destruct P as [P1 P2].
  destruct (ratio_at_least_one count distinct P1 P2) as (A & B & C).
  cbv zeta in A, B, C.
  split; [reflexivity|]. split; [exact E|]. rewrite E.
  split; [exact A|]. split; [exact B|]. rewrite C.
  subst count distinct. split.
  - intro H. apply Nat2Z.inj in H. symmetry in H. apply dedupe_full in H.
    fold (setOf words) in H. rewrite <- H. apply dedupe_NoDup.
  - intro D. now rewrite setOf_id.
Qed.

(** 'a b a' has three words, two of them distinct: its similarity with
    itself is 1.5. *)
Lemma self_similarity_witness :
  latin1 (js "a b a") /\
  (UniversalDoubles.calculateSimilarity (js "a b a") (js "a b a") == 3 # 2)%Q
  /\ (1 <= UniversalDoubles.calculateSimilarity (js "a b a") (js "a b a"))%Q.
Proof.
  split; [reflexivity|]. split; [vm_compute; reflexivity|].
  exact (proj1 (proj2 (proj2 (proj2
           (self_similarity (js "a b a") ltac:(reflexivity)
              ltac:(vm_compute; discriminate)))))).
Defined.

(** ** Whitespace and capitals *)

Lemma singleSpaced_tail (c : char) (s : jsstring) :
  singleSpaced (c :: s) = true -> singleSpaced s = true.
Proof. simpl. intro H. now apply andb_prop in H. Qed.

Lemma singleSpaced_trimStart (s : jsstring) :
  singleSpaced s = true -> singleSpaced (trimStart s) = true.
Proof.
  induction s as [|c s IH]; [reflexivity|]. intro H. simpl trimStart.
  destruct (isSpace c); [apply IH, (singleSpaced_tail _ _ H)|exact H].
Qed.

Lemma startsWithSpace_prefix (a b : jsstring) :
  startsWithSpace (a ++ b) = false -> startsWithSpace a = false.
Proof. now destruct a. Qed.

Lemma singleSpaced_prefix (a b : jsstring) :
  singleSpaced (a ++ b) = true -> singleSpaced a = true.
Proof.
  induction a as [|c a IH]; [reflexivity|]. simpl. intro H.
  apply andb_prop in H as [H1 H2]. rewrite (IH H2), andb_true_r.
  destruct (isSpace c); [|reflexivity]. simpl in *.
  apply andb_prop in H1 as [H1 H3]. rewrite H1. simpl.
  apply negb_true_iff in H3. now rewrite (startsWithSpace_prefix _ _ H3).
Qed.

Lemma trimStart_suffix (s : jsstring) : exists a, s = a ++ trimStart s.
Proof.
  induction s as [|c s [a IH]]; [now exists []|]. simpl.
  destruct (isSpace c); [exists (c :: a); simpl; now f_equal|now exists []].
Qed.

Lemma trimEnd_prefix (s : jsstring) : exists b, s = trimEnd s ++ b.
Proof.
  unfold trimEnd. destruct (trimStart_suffix (rev s)) as [a H].
  exists (rev a). rewrite <- rev_app_distr, <- H. now rewrite rev_involutive.
Qed.

Lemma singleSpaced_trim (s : jsstring) :
  singleSpaced s = true -> singleSpaced (trim s) = true.
Proof.
  intro H. apply singleSpaced_trimStart in H. unfold trim.
  destruct (trimEnd_prefix (trimStart s)) as [b E].
  rewrite E in H. now apply singleSpaced_prefix in H.
Qed.

Lemma collapseRuns_singleSpaced (inRun : bool) (s : jsstring) :
  singleSpaced (collapseRuns isSpace inRun s) = true /\
  (inRun = true -> startsWithSpace (collapseRuns isSpace inRun s) = false).
Proof.
  revert inRun; induction s as [|c s IH]; intro inRun; simpl; [tauto|].
  destruct (isSpace c) eqn:E.
  - destruct (IH true) as [S1 S2]. destruct inRun.
    + split; [exact S1|intros _; now apply S2].
    + split; [|discriminate]. simpl. now rewrite S1, S2.
  - destruct (IH false) as [S1 _]. simpl. rewrite E, S1. tauto.
Qed.

Lemma singleSpaced_full_stop (s : jsstring) :
  singleSpaced s = true -> singleSpaced (s ++ js ".") = true.
Proof.
  induction s as [|c s IH]; [reflexivity|]. simpl. intro H.
  apply andb_prop in H as [H1 H2]. rewrite (IH H2), andb_true_r.
  destruct (isSpace c); [|reflexivity]. simpl in *.
  apply andb_prop in H1 as [H1 H3]. rewrite H1. simpl.
  destruct s; [reflexivity|exact H3].
Qed.

Lemma trim_full_stop (s : jsstring) :
  s <> [] -> trim s = s -> trim (s ++ js ".") = s ++ js ".".
Proof.
  intros N T.
  assert (H : startsWithSpace s = false).
  { rewrite <- T. unfold trim.
    apply trimEnd_startsWithSpace, trimStart_startsWithSpace. }
  unfold trim. rewrite trimStart_fixed by (destruct s; [congruence|exact H]).
  unfold trimEnd. rewrite rev_app_distr. simpl. now rewrite rev_involutive.
Qed.

Lemma endsSentence_full_stop (s : jsstring) :
  Universal.endsSentence (s ++ js ".") = true.
Proof. unfold Universal.endsSentence. now rewrite rev_app_distr. Qed.

(** X7.  [fixPunctuationAndCapitalization] normalises the text it is given,
    whatever that text is: the text it returns has no whitespace at either
    end, every whitespace character left in it is a single plain space, and
    if it is longer than five characters it ends with a full stop, an
    exclamation mark or a question mark.  The pass keeps the corrections it
    was handed and pushes at most four. *)
Theorem punctuation_pass_normalises (text : jsstring)
        (corrections : list Universal.Correction) :
  let result := Universal.fixPunctuationAndCapitalization (text, corrections) in
  trim (fst result) = fst result /\
  singleSpaced (fst result) = true /\
  (5 < len (fst result) -> Universal.endsSentence (fst result) = true) /\
  exists pushed,
    snd result = corrections ++ pushed /\ (List.length pushed <= 4)%nat.
Proof.
  unfold Universal.fixPunctuationAndCapitalization.
  set (first :=
         match text with
         | [] => (text, corrections)
         | c :: rest =>
             if negb (eqb [c] (toUpperCaseUnit c))
             then (toUpperCaseUnit c ++ rest,
                   Universal.push corrections (js "lowercase start")
                     (js "uppercase start") (js "Capitalization")
                     (js "Sentences should start with capital letters") 100)
             else (text, corrections)
         end).
  assert (F : exists pushed, snd first = corrections ++ pushed /\
                             (List.length pushed <= 1)%nat).
  { subst first. destruct text as [|c rest];
      [exists []; rewrite app_nil_r; split; [reflexivity|simpl; lia]|].
    destruct (negb _);
      [|exists []; rewrite app_nil_r; split; [reflexivity|simpl; lia]].
    eexists. split; [reflexivity|]. simpl. lia. }
  destruct first as [t0 cs0]. cbn [snd] in F.
  destruct F as (p0 & -> & L0). cbv zeta.
  set (t1 := capitalizeAfterPeriods 0 t0).
  set (t2 := trim (collapseRuns isSpace false t1)).
  assert (T2 : trim t2 = t2) by apply trim_idempotent.
  assert (S2 : singleSpaced t2 = true)
    by apply singleSpaced_trim, collapseRuns_singleSpaced.
  set (cs1 := if negb (eqb t1 t0) then _ else _).
  set (cs2 := if negb (eqb t2 t1) then _ else _).
  assert (C2 : exists pushed, cs2 = corrections ++ pushed /\
                              (List.length pushed <= 3)%nat).
  { subst cs2 cs1. unfold Universal.push.
    destruct (negb (eqb t2 t1)), (negb (eqb t1 t0));
      rewrite <- ?app_assoc; eexists; (split; [reflexivity|]);
      rewrite ?length_app; simpl; lia. }
  destruct C2 as (p2 & -> & L2).
  destruct ((5 <? len t2) && negb (Universal.endsSentence t2)) eqn:E;
    cbn [fst snd].
  - apply andb_prop in E as [E _]. apply Z.ltb_lt in E.
    assert (N : t2 <> []) by (intros ->; discriminate).
    split; [now apply trim_full_stop|].
    split; [now apply singleSpaced_full_stop|].
    split; [intros _; apply endsSentence_full_stop|].
    unfold Universal.push. rewrite <- app_assoc. eexists.
    split; [reflexivity|]. rewrite length_app. simpl. lia.
  - split; [exact T2|]. split; [exact S2|]. split.
    + intro G. apply Z.ltb_lt in G. rewrite G in E. simpl in E.
      now apply negb_false_iff in E.
    + exists p2. split; [reflexivity|lia].
Qed.

(** X8.  [correctText] of UniversalGrammarService refuses a text exactly
    when it is empty once trimmed or longer than 15000 characters; it then
    throws one of its three errors before any request is sent, and it
    throws nothing else: for every other text it returns a result, whatever
    the upstream does. *)
Theorem universal_refuses_only_invalid_text
        (engine : Universal.RegExpEngine) (elapsed : Z) (up : Hf.upstream)
        (text : jsstring) (w : Hf.world) :
  (len (trim text) = 0 \/ 15000 < len text <->
   exists e, Universal.correctText engine elapsed up text w = (Threw e, w)) /\
  (forall e w',
      Universal.correctText engine elapsed up text w = (Threw e, w') ->
      w' = w /\
      In e [newError (js "Invalid text input");
            newError (js "Text cannot be empty");
            newError (js "Text too long. Maximum 15,000 characters.")]) /\
  (len (trim text) <> 0 -> len text <= 15000 ->
   exists r w', Universal.correctText engine elapsed up text w
                = (Returned r, w')).
Proof.
  assert (G : forall e w',
             Universal.correctText engine elapsed up text w = (Threw e, w') ->
             w' = w /\
             (len (trim text) = 0 \/ 15000 < len text) /\
             In e [newError (js "Invalid text input");
                   newError (js "Text cannot be empty");
                   newError (js "Text too long. Maximum 15,000 characters.")]).
  { intros e w'. unfold Universal.correctText.
    destruct (len text =? 0) eqn:E0.
    { intro H. injection H as <- <-. apply Z.eqb_eq, len_zero in E0.
      subst text. simpl. tauto. }
    destruct (len (trim text) =? 0) eqn:E1.
    { intro H. injection H as <- <-. apply Z.eqb_eq in E1. simpl. tauto. }
    destruct (15000 <? len text) eqn:E2.
    { intro H. injection H as <- <-. apply Z.ltb_lt in E2. simpl. tauto. }
    destruct (Universal.tryMultipleAIApproaches up text w) as [aiResult w1].
    destruct (Universal.count (Universal.corrections aiResult) =? 0);
      [destruct (0 <? _)|]; discriminate. }
  split; [split|split].
  - intro I.
    destruct (Universal.correctText engine elapsed up text w) as [[r|e] w']
      eqn:C.
    + exfalso.
      unfold Universal.correctText in C.
      destruct (len text =? 0); [discriminate|].
      destruct (len (trim text) =? 0) eqn:E1; [discriminate|].
      destruct (15000 <? len text) eqn:E2; [discriminate|].
      apply Z.eqb_neq in E1. apply Z.ltb_ge in E2. lia.
    + destruct (G e w' eq_refl) as (-> & _). now exists e.
  - intros [e C]. now destruct (G e w C) as (_ & I & _).
  - intros e w' C. destruct (G e w' C) as (W & _ & L). now split.
  - intros T L. now apply universal_correctText_returns.
Qed.

(** ** Capitals after a full stop *)

Lemma upperChar_of_lower (c : char) :
  isLowerAZ c = true ->
  isLowerAZ (upperChar c) = false /\ char_eqb (upperChar c) 46%N = false /\
  isSpace (upperChar c) = false /\ char_eqb (upperChar c) 32%N = false.
Proof.
  unfold isLowerAZ, upperChar, char_eqb. intro H. rewrite H.
  apply andb_true_iff in H as [H1 H2]. apply N.leb_le in H1, H2.
  unfold isSpace. repeat split; decide_ranges.
Qed.

Lemma capitalizeAfterPeriods_idempotent (state : nat) (s : jsstring) :
  capitalizeAfterPeriods state (capitalizeAfterPeriods state s)
  = capitalizeAfterPeriods state s.
Proof.
  revert state; induction s as [|c s IH]; intro state; [reflexivity|].
  cbn [capitalizeAfterPeriods].
  destruct ((state =? 2)%nat && isLowerAZ c) eqn:E.
  - apply andb_prop in E as [E1 E2].
    destruct (upperChar_of_lower c E2) as (L & P & W & _).
    cbn [capitalizeAfterPeriods]. rewrite L, P, W, andb_false_r. simpl.
    now rewrite IH.
  - destruct (char_eqb c 46%N) eqn:P.
    + cbn [capitalizeAfterPeriods]. rewrite E, P. now rewrite IH.
    + destruct (isSpace c && negb (state =? 0)%nat) eqn:W;
        cbn [capitalizeAfterPeriods]; rewrite E, P, W; now rewrite IH.
Qed.

Lemma capitalizeAfterPeriods_pointwise (state : nat) (s : jsstring) :
  Forall2 capitalised s (capitalizeAfterPeriods state s).
Proof.
  revert state; induction s as [|c s IH]; intro state; [constructor|].
  cbn [capitalizeAfterPeriods].
  destruct ((state =? 2)%nat && isLowerAZ c) eqn:E.
  - apply andb_prop in E as [_ E]. constructor; [right; now split|apply IH].
  - destruct (char_eqb c 46%N);
      [|destruct (isSpace c && negb (state =? 0)%nat)];
      (constructor; [now left|apply IH]).
Qed.

(** X9.  Capitalising after full stops (the replacement of
    [/\.\s+[a-z]/g] in both services) changes nothing but lower-case
    letters of [a-z], which it puts in upper case; so the length of the text
    is kept; and doing it twice is doing it once. *)
Theorem capitalizing_after_periods (s : jsstring) :
  Forall2 capitalised s (capitalizeAfterPeriods 0 s) /\
  len (capitalizeAfterPeriods 0 s) = len s /\
  capitalizeAfterPeriods 0 (capitalizeAfterPeriods 0 s)
  = capitalizeAfterPeriods 0 s.
Proof.
  pose proof (capitalizeAfterPeriods_pointwise 0 s) as P.
  split; [exact P|]. split; [|apply capitalizeAfterPeriods_idempotent].
  unfold len. now rewrite (Forall2_length P).
Qed.

(** ** The rule-table correction *)

Lemma capitalised_space (a b : char) :
  capitalised a b -> char_eqb 32%N b = char_eqb 32%N a.
Proof.
  intros [-> | [L ->]]; [reflexivity|].
  destruct (upperChar_of_lower a L) as (_ & _ & _ & U).
  unfold char_eqb in *. rewrite N.eqb_sym, U.
  unfold isLowerAZ in L. apply andb_true_iff in L as [H1 H2].
  apply N.leb_le in H1, H2. symmetry. apply N.eqb_neq. lia.
Qed.

Lemma capitalised_includes_spaces (s t : jsstring) :
  Forall2 capitalised s t ->
  includes t [32; 32]%N = includes s [32; 32]%N.
Proof.
  induction 1 as [|a b s t R F IH]; [reflexivity|].
  cbn [includes]. rewrite IH. f_equal. cbn [startsWith].
  rewrite (capitalised_space a b R). f_equal.
  destruct F as [|a' b' s' t' R' F']; [reflexivity|].
  cbn [startsWith]. rewrite (capitalised_space a' b' R').
  assert (N : forall x : jsstring, startsWith x [] = true)
    by (intros [|? ?]; reflexivity).
  now rewrite !N.
Qed.

Lemma singleSpaced_includes_spaces (s : jsstring) :
  singleSpaced s = true -> includes s [32; 32]%N = false.
Proof.
  induction s as [|c s IH]; [reflexivity|]. intro H.
  cbn [includes]. rewrite (IH (singleSpaced_tail _ _ H)), orb_false_r.
  cbn [startsWith]. destruct (char_eqb 32%N c) eqn:E; [|reflexivity].
  apply N.eqb_eq in E. subst c.
  cbn [singleSpaced] in H. apply andb_prop in H as [H _].
  change (isSpace 32%N) with true in H. cbn [negb orb] in H.
  apply andb_prop in H as [_ H]. apply negb_true_iff in H.
  destruct s as [|d s]; [reflexivity|]. cbn [startsWith startsWithSpace] in *.
  destruct (char_eqb 32%N d) eqn:D; [|reflexivity].
  apply N.eqb_eq in D. subst d. discriminate H.
Qed.

(** X10.  The text [useBasicCorrection] returns never holds two spaces
    side by side, whatever text it is given and whatever its rules have
    replaced; and it keeps the original text beside it. *)
Theorem basic_correction_leaves_no_double_space (text : jsstring) :
  includes (SmartFree.correctedText (SmartFree.useBasicCorrection text))
           [32; 32]%N = false /\
  SmartFree.originalText (SmartFree.useBasicCorrection text) = text.
Proof.
  unfold SmartFree.useBasicCorrection.
  destruct (fold_left SmartFree.applyRule SmartFree.basicCorrections (text, []))
    as [t1 cs1].
  destruct (includes t1 [32; 32]%N) eqn:I; cbn; (split; [|reflexivity]);
    rewrite (capitalised_includes_spaces _ _
               (capitalizeAfterPeriods_pointwise 0 _)).
  - apply singleSpaced_includes_spaces, collapseRuns_singleSpaced.
  - exact I.
Qed.

(** ** Which backend answers *)

Section Priority.

Variable keys : SmartFree.Keys.
Variable remote : SmartFree.Remote.
Variables text language : jsstring.

Lemma adapter_unavailable_sapling :
  unavailable (SmartFree.saplingKey keys) (SmartFree.sapling remote text) ->
  SmartFree.configured (SmartFree.saplingKey keys) = false \/
  exists e, SmartFree.useSaplingAI keys remote text = Threw e.
Proof.
  intros [U | F]; [now left|right]. unfold SmartFree.useSaplingAI.
  destruct (negb _); [eauto|].
  destruct (SmartFree.sapling remote text) as [data|e]; [contradiction|].
  destruct (SmartFree.statusIs e 401); [eauto|].
  destruct (SmartFree.statusIs e 429); eauto.
Qed.

Lemma adapter_unavailable_textGears :
  unavailable (SmartFree.textGearsKey keys)
              (SmartFree.textGears remote text (textGearsLanguage language)) ->
  SmartFree.configured (SmartFree.textGearsKey keys) = false \/
  exists e, SmartFree.useTextGears keys remote text language = Threw e.
Proof.
  intros [U | F]; [now left|right]. unfold SmartFree.useTextGears.
  destruct (negb _); [eauto|]. fold (textGearsLanguage language).
  destruct (SmartFree.textGears remote text _) as [data|e]; [contradiction|].
  destruct (SmartFree.statusIs e 401); [eauto|].
  destruct (SmartFree.statusIs e 429); eauto.
Qed.

Ltac first_services :=
  unfold SmartFree.correctText;
  match goal with
  | N : len text <> 0, L : len text <= 8000 |- _ =>
      destruct (len text =? 0) eqn:?E0;
      [apply Z.eqb_eq in E0; contradiction|];
      destruct (8000 <? len text) eqn:?E1; [apply Z.ltb_lt in E1; lia|]
  end;
  unfold SmartFree.services.

Lemma sapling_first (data : list SmartFree.SaplingEdit) :
  len text <> 0 -> len text <= 8000 ->
  SmartFree.configured (SmartFree.saplingKey keys) = true ->
  SmartFree.sapling remote text = Resolved data ->
  SmartFree.correctText keys remote text language =
  Returned (SmartFree.withService
              (SmartFree.processSaplingResponse text data) (js "Sapling AI")).
Proof.
  intros N L K R. first_services. rewrite K.
  cbn [app SmartFree.tryServices].
  unfold SmartFree.useSaplingAI. rewrite K, R. cbn [negb].
  unfold SmartFree.getServiceName, SmartFree.serviceNames. now rewrite K.
Qed.

Lemma textGears_second (data : list SmartFree.TextGearsError) :
  len text <> 0 -> len text <= 8000 ->
  unavailable (SmartFree.saplingKey keys) (SmartFree.sapling remote text) ->
  SmartFree.configured (SmartFree.textGearsKey keys) = true ->
  SmartFree.textGears remote text (textGearsLanguage language)
  = Resolved data ->
  SmartFree.correctText keys remote text language =
  Returned (SmartFree.withService
              (SmartFree.processTextGearsResponse text data)
              (js "TextGears")).
Proof.
  intros N L U K R. first_services. rewrite K.
  assert (T : SmartFree.useTextGears keys remote text language
              = Returned (SmartFree.processTextGearsResponse text data)).
  { unfold SmartFree.useTextGears. rewrite K. cbn [negb].
    fold (textGearsLanguage language). now rewrite R. }
  destruct (adapter_unavailable_sapling U) as [K1 | [e S]].
  - rewrite K1. cbn [app SmartFree.tryServices]. rewrite T.
    unfold SmartFree.getServiceName, SmartFree.serviceNames.
    now rewrite K1, K.
  - destruct (SmartFree.configured (SmartFree.saplingKey keys)) eqn:K1;
      cbn [app SmartFree.tryServices List.length Nat.sub Nat.eqb];
      rewrite ?S, T; cbn [Nat.eqb];
      unfold SmartFree.getServiceName, SmartFree.serviceNames;
      now rewrite K1, K.
Qed.

Lemma languageTool_third (data : SmartFree.LtResponse) :
  len text <> 0 -> len text <= 8000 ->
  unavailable (SmartFree.saplingKey keys) (SmartFree.sapling remote text) ->
  unavailable (SmartFree.textGearsKey keys)
              (SmartFree.textGears remote text (textGearsLanguage language)) ->
  SmartFree.languageTool remote text language = Resolved data ->
  SmartFree.correctText keys remote text language =
  Returned (SmartFree.withService
              (SmartFree.processLanguageToolResponse text data)
              (js "LanguageTool Free")).
Proof.
  intros N L U V R. first_services.
  assert (T : SmartFree.useLanguageToolFree remote text language
              = Returned (SmartFree.processLanguageToolResponse text data))
    by (unfold SmartFree.useLanguageToolFree; now rewrite R).
  destruct (adapter_unavailable_sapling U) as [K1 | [e1 S]];
    destruct (adapter_unavailable_textGears V) as [K2 | [e2 G]];
    destruct (SmartFree.configured (SmartFree.saplingKey keys)) eqn:C1;
    destruct (SmartFree.configured (SmartFree.textGearsKey keys)) eqn:C2;
    try discriminate;
    cbn [app SmartFree.tryServices List.length Nat.sub Nat.eqb];
    rewrite ?S, ?G; cbn [Nat.eqb]; rewrite ?S, ?G, T;
    unfold SmartFree.getServiceName, SmartFree.serviceNames;
    now rewrite C1, C2.
Qed.

End Priority.

(** X11.  The orchestrator of SmartFreeGrammarService takes the answer of
    the first backend that has one, in the order Sapling, TextGears,
    LanguageTool, and names that backend in [serviceUsed]: for a text of 1
    to 8000 characters, the Sapling answer when Sapling has a key and
    answers; the TextGears answer when Sapling has no key or fails and
    TextGears has a key and answers; the LanguageTool answer when both have
    no key or fail and LanguageTool answers.  What a later backend would
    have answered plays no part. *)
Theorem first_available_backend_answers
        (keys : SmartFree.Keys) (remote : SmartFree.Remote)
        (text language : jsstring) :
  len text <> 0 -> len text <= 8000 ->
  (forall data,
      SmartFree.configured (SmartFree.saplingKey keys) = true ->
      SmartFree.sapling remote text = Resolved data ->
      SmartFree.correctText keys remote text language =
      Returned (SmartFree.withService
                  (SmartFree.processSaplingResponse text data)
                  (js "Sapling AI"))) /\
  (forall data,
      unavailable (SmartFree.saplingKey keys)
                  (SmartFree.sapling remote text) ->
      SmartFree.configured (SmartFree.textGearsKey keys) = true ->
      SmartFree.textGears remote text (textGearsLanguage language)
      = Resolved data ->
      SmartFree.correctText keys remote text language =
      Returned (SmartFree.withService
                  (SmartFree.processTextGearsResponse text data)
                  (js "TextGears"))) /\
  (forall data,
      unavailable (SmartFree.saplingKey keys)
                  (SmartFree.sapling remote text) ->
      unavailable (SmartFree.textGearsKey keys)
                  (SmartFree.textGears remote text
                     (textGearsLanguage language)) ->
      SmartFree.languageTool remote text language = Resolved data ->
      SmartFree.correctText keys remote text language =
      Returned (SmartFree.withService
                  (SmartFree.processLanguageToolResponse text data)
                  (js "LanguageTool Free"))).
Proof.
  intros N L. split; [|split]; intros data.
  - now apply sapling_first.
  - now apply textGears_second.
  - now apply languageTool_third.
Qed.

Lemma first_available_backend_answers_witness :
  SmartFree.correctText bothKeys saplingOnly (js "I saw teh cat.") (js "auto")
  = Returned (SmartFree.withService
                (SmartFree.processSaplingResponse (js "I saw teh cat.")
                   [SmartFree.mkSaplingEdit 6 9 (js "the") None None])
                (js "Sapling AI")) /\
  SmartFree.correctedText
    (SmartFree.processSaplingResponse (js "I saw teh cat.")
       [SmartFree.mkSaplingEdit 6 9 (js "the") None None])
  = js "I saw the cat.".
Proof.
  split; [|vm_compute; reflexivity].
  apply (first_available_backend_answers bothKeys saplingOnly
           (js "I saw teh cat.") (js "auto")); try reflexivity.
  - vm_compute. discriminate.
  - vm_compute. discriminate.
Defined.

(** X12.  A backend without a key is never asked: what
    [correctText] of SmartFreeGrammarService does depends on the Sapling
    service only if the Sapling key is set, and on the TextGears service
    only if the TextGears key is set. *)
Theorem backend_without_key_is_not_called
        (keys : SmartFree.Keys) (remote remote' : SmartFree.Remote)
        (text language : jsstring) :
  (SmartFree.configured (SmartFree.saplingKey keys) = true ->
   SmartFree.sapling remote' text = SmartFree.sapling remote text) ->
  (SmartFree.configured (SmartFree.textGearsKey keys) = true ->
   SmartFree.textGears remote' text (textGearsLanguage language)
   = SmartFree.textGears remote text (textGearsLanguage language)) ->
  SmartFree.languageTool remote' text language
  = SmartFree.languageTool remote text language ->
  SmartFree.correctText keys remote' text language
  = SmartFree.correctText keys remote text language.
Proof.
  intros S T G. unfold SmartFree.correctText.
  destruct (len text =? 0); [reflexivity|].
  destruct (8000 <? len text); [reflexivity|].
  assert (A : SmartFree.useLanguageToolFree remote' text language
              = SmartFree.useLanguageToolFree remote text language)
    by (unfold SmartFree.useLanguageToolFree; now rewrite G).
  unfold SmartFree.services.
  destruct (SmartFree.configured (SmartFree.saplingKey keys)) eqn:K1;
    destruct (SmartFree.configured (SmartFree.textGearsKey keys)) eqn:K2;
    cbn [app SmartFree.tryServices List.length Nat.sub Nat.eqb];
    unfold SmartFree.useSaplingAI, SmartFree.useTextGears;
    fold (textGearsLanguage language);
    rewrite ?K1, ?K2, ?(S eq_refl), ?(T eq_refl), A; reflexivity.
Qed.

Lemma backend_without_key_is_not_called_witness :
  SmartFree.correctText noKeys
    (SmartFree.mkRemote (SmartFree.sapling saplingOnly)
                        (SmartFree.textGears quietRemote)
                        (SmartFree.languageTool deadRemote))
    (js "I saw teh cat.") (js "auto")
  = SmartFree.correctText noKeys deadRemote (js "I saw teh cat.") (js "auto").
Proof.
  apply (backend_without_key_is_not_called noKeys deadRemote
           (SmartFree.mkRemote (SmartFree.sapling saplingOnly)
                               (SmartFree.textGears quietRemote)
                               (SmartFree.languageTool deadRemote))
           (js "I saw teh cat.") (js "auto")).
  - discriminate.
  - discriminate.
  - reflexivity.
Defined.

(** ** Applying structured edits from the end of the text *)

Lemma substring_in_range (s : jsstring) (a b : Z) :
  0 <= a <= b -> b <= len s ->
  substring s a b = firstn (Z.to_nat (b - a)) (skipn (Z.to_nat a) s).
Proof.
  intros A B. unfold substring, clamp.
  replace (Z.max 0 (Z.min (len s) a)) with a by lia.
  replace (Z.max 0 (Z.min (len s) b)) with b by lia.
  replace (Z.min a b) with a by lia. replace (Z.max a b) with b by lia.
  reflexivity.
Qed.

Lemma substring_head (s : jsstring) (b : Z) :
  0 <= b <= len s ->
  substring s 0 b = firstn (Z.to_nat b) s /\
  len (firstn (Z.to_nat b) s) = b.
Proof.
  intro B. rewrite substring_in_range by lia. split.
  - rewrite Z.sub_0_r. reflexivity.
  - unfold len in *. rewrite length_firstn. lia.
Qed.

Lemma substring_prefix (text tail : jsstring) (upto from : Z) :
  0 <= from <= upto -> upto <= len text ->
  substring (substring text 0 upto ++ tail) 0 from = substring text 0 from.
Proof.
  intros A B.
  destruct (substring_head text upto) as [-> L]; [lia|].
  destruct (substring_head text from) as [-> _]; [lia|].
  pose proof (len_nonneg tail) as T.
  destruct (substring_head (firstn (Z.to_nat upto) text ++ tail) from)
    as [-> _]; [rewrite len_app; lia|].
  rewrite firstn_app, firstn_firstn.
  replace (Z.to_nat from - _)%nat with 0%nat by (unfold len in L; lia).
  simpl. rewrite app_nil_r. f_equal. lia.
Qed.

Lemma substring_suffix (text tail : jsstring) (upto to : Z) :
  0 <= to <= upto -> upto <= len text ->
  substringFrom (substring text 0 upto ++ tail) to
  = substring text to upto ++ tail.
Proof.
  intros A B. unfold substringFrom.
  destruct (substring_head text upto) as [-> L]; [lia|].
  pose proof (len_nonneg tail) as T.
  rewrite (substring_in_range text to upto) by lia.
  rewrite substring_in_range by (rewrite ?len_app; lia).
  rewrite firstn_all2
    by (rewrite length_skipn; unfold len; lia).
  rewrite skipn_app.
  replace (Z.to_nat to - _)%nat with 0%nat by (unfold len in L; lia).
  simpl skipn. f_equal. rewrite skipn_firstn_comm. f_equal. lia.
Qed.

Lemma firstn_plus {A : Type} (n m : nat) (l : list A) :
  firstn (n + m) l = firstn n l ++ firstn m (skipn n l).
Proof.
  revert l; induction n as [|n IH]; intro l; [reflexivity|].
  destruct l as [|x l]; simpl; [now rewrite firstn_nil|].
  now rewrite IH.
Qed.

Lemma substring_split (text : jsstring) (a b c : Z) :
  0 <= a <= b -> b <= c -> c <= len text ->
  substring text a c = substring text a b ++ substring text b c.
Proof.
  intros A B C. rewrite !substring_in_range by lia.
  replace (Z.to_nat (c - a)) with (Z.to_nat (b - a) + Z.to_nat (c - b))%nat
    by lia.
  rewrite firstn_plus. f_equal. rewrite skipn_skipn. do 2 f_equal. lia.
Qed.

Lemma replaced_snoc (text : jsstring) (cursor upto : Z) (spans : list Span)
      (from to : Z) (replacement : jsstring) :
  replaced text cursor upto (spans ++ [(from, to, replacement)]) =
  replaced text cursor from spans
  ++ (if len replacement =? 0 then substring text from to else replacement)
  ++ substring text to upto.
Proof.
  revert cursor; induction spans as [|[[f t] r] spans IH]; intro cursor.
  - reflexivity.
  - cbn [app replaced]. rewrite IH, <- !app_assoc. reflexivity.
Qed.

Lemma spliceAll_from_the_end (text : jsstring) (spans : list Span) :
  forall (upto : Z) (tail : jsstring),
    0 <= upto <= len text ->
    Forall (within upto) spans ->
    StronglySorted before spans ->
    spliceAll spans (substring text 0 upto ++ tail)
    = replaced text 0 upto (rev spans) ++ tail.
Proof.
  induction spans as [|[[from to] replacement] spans IH];
    intros upto tail U W S.
  - reflexivity.
  - inversion W as [|x l R W']; subst. cbn [within] in R.
    destruct R as [R1 R2].
    inversion S as [|x l S' B]; subst.
    assert (W2 : Forall (within from) spans).
    { apply Forall_forall. intros [[f t] r] I.
      rewrite Forall_forall in W', B.
      specialize (W' _ I). specialize (B _ I).
      unfold before in B. cbn [within fst snd] in *. lia. }
    unfold spliceAll in *. cbn [fold_left rev]. rewrite replaced_snoc.
    destruct (len replacement =? 0) eqn:E; cbn [negb].
    + rewrite (substring_split text 0 from upto),
              (substring_split text from to upto) by lia.
      rewrite <- ?app_assoc. rewrite IH by (assumption || lia).
      now rewrite <- ?app_assoc.
    + unfold SmartFree.splice.
      rewrite substring_prefix, substring_suffix by lia.
      rewrite IH by (assumption || lia).
      now rewrite <- ?app_assoc.
Qed.

Lemma substring_whole (text : jsstring) : substring text 0 (len text) = text.
Proof.
  rewrite substring_in_range by (pose proof (len_nonneg text); lia).
  simpl skipn. apply firstn_all2. unfold len. lia.
Qed.

Lemma fold_applySapling_text (t : jsstring) (l : list SmartFree.SaplingEdit)
      (s : jsstring) (acc : list SmartFree.Correction) :
  fst (fold_left (SmartFree.applySapling t) l (s, acc))
  = spliceAll (map saplingSpan l) s.
Proof.
  revert s acc; induction l as [|e l IH]; intros s acc; [reflexivity|].
  unfold spliceAll in *. cbn [fold_left map].
  unfold SmartFree.applySapling at 2, saplingSpan at 2.
  destruct (negb _); apply IH.
Qed.

Lemma fold_applyTextGears_text (t : jsstring)
      (l : list SmartFree.TextGearsError)
      (s : jsstring) (acc : list SmartFree.Correction) :
  fst (fold_left (SmartFree.applyTextGears t) l (s, acc))
  = spliceAll (map textGearsSpan l) s.
Proof.
  revert s acc; induction l as [|e l IH]; intros s acc; [reflexivity|].
  unfold spliceAll in *. cbn [fold_left map].
  unfold SmartFree.applyTextGears at 2, textGearsSpan at 2, textGearsBest.
  destruct (negb _); apply IH.
Qed.

Lemma fold_applyLanguageTool_text (t : jsstring)
      (l : list SmartFree.LtMatch)
      (s : jsstring) (acc : list SmartFree.Correction) :
  fst (fold_left (SmartFree.applyLanguageTool t) l (s, acc))
  = spliceAll (map languageToolSpan l) s.
Proof.
  revert s acc; induction l as [|e l IH]; intros s acc; [reflexivity|].
  unfold spliceAll in *. cbn [fold_left map].
  unfold SmartFree.applyLanguageTool at 2, languageToolSpan at 2,
    languageToolBest.
  destruct (negb _); apply IH.
Qed.

Lemma spliceAll_replaces_at_once (text : jsstring) (spans : list Span) :
  Forall (within (len text)) spans ->
  StronglySorted before spans ->
  spliceAll spans text = replaced text 0 (len text) (rev spans).
Proof.
  intros W S.
  pose proof (spliceAll_from_the_end text spans (len text) []) as H.
  rewrite substring_whole, !app_nil_r in H. apply H; try assumption.
  pose proof (len_nonneg text). lia.
Qed.

(** X13.  Why the adapters apply the edits from the end of the text: when
    the edits a backend sends lie within the text and, taken by descending
    offset as the adapter sorts them, each ends where the one applied
    before it starts or earlier, the corrected text is the original text
    with every span replaced at once, each offset meaning a position of the
    original text; an edit with no replacement leaves its span as it is.
    This holds for the Sapling, TextGears and LanguageTool adapters. *)
Theorem edits_are_replaced_at_once (text : jsstring) :
  (forall edits,
      let spans :=
        map saplingSpan (SmartFree.sortDescending SmartFree.start edits) in
      Forall (within (len text)) spans -> StronglySorted before spans ->
      SmartFree.correctedText (SmartFree.processSaplingResponse text edits)
      = replaced text 0 (len text) (rev spans)) /\
  (forall errors,
      let spans :=
        map textGearsSpan
            (SmartFree.sortDescending SmartFree.tg_offset errors) in
      Forall (within (len text)) spans -> StronglySorted before spans ->
      SmartFree.correctedText (SmartFree.processTextGearsResponse text errors)
      = replaced text 0 (len text) (rev spans)) /\
  (forall response,
      let spans :=
        map languageToolSpan
            (SmartFree.sortDescending SmartFree.lt_offset
               (filter (fun m =>
                          (0 <? List.length (SmartFree.replacements m))%nat)
                       (SmartFree.matches response))) in
      Forall (within (len text)) spans -> StronglySorted before spans ->
      SmartFree.correctedText
        (SmartFree.processLanguageToolResponse text response)
      = replaced text 0 (len text) (rev spans)).
Proof.
  split; [|split].
  - intros edits spans W S. unfold SmartFree.processSaplingResponse.
    pose proof (fold_applySapling_text text
                  (SmartFree.sortDescending SmartFree.start edits) text [])
      as F.
    destruct (fold_left _ _ _) as [corrected applied]. cbn in F |- *.
    rewrite F. now apply spliceAll_replaces_at_once.
  - intros errors spans W S. unfold SmartFree.processTextGearsResponse.
    pose proof (fold_applyTextGears_text text
                  (SmartFree.sortDescending SmartFree.tg_offset errors)
                  text []) as F.
    destruct (fold_left _ _ _) as [corrected applied]. cbn in F |- *.
    rewrite F. now apply spliceAll_replaces_at_once.
  - intros response spans W S. unfold SmartFree.processLanguageToolResponse.
    pose proof (fold_applyLanguageTool_text text
                  (SmartFree.sortDescending SmartFree.lt_offset
                     (filter (fun m =>
                                (0 <? List.length (SmartFree.replacements m))%nat)
                             (SmartFree.matches response)))
                  text []) as F.
    destruct (fold_left _ _ _) as [corrected applied]. cbn in F |- *.
    rewrite F. now apply spliceAll_replaces_at_once.
Qed.

Lemma edits_are_replaced_at_once_witness :
  SmartFree.correctedText
    (SmartFree.processSaplingResponse (js "I recieve alot of emails") twoEdits)
  = js "I receive a lot of emails".
Proof.
  rewrite (proj1 (edits_are_replaced_at_once (js "I recieve alot of emails"))
                 twoEdits).
  - vm_compute. reflexivity.
  - vm_compute. repeat constructor; discriminate.
  - vm_compute. repeat constructor; discriminate.
Defined.

(** ** AdvancedHuggingFaceGrammarService: the steps of the pipeline *)

Lemma categories_NoDup : NoDup Pipeline.categories.
Proof.
  unfold Pipeline.categories.
  repeat (constructor; [simpl; intuition discriminate|]). constructor.
Qed.

(** X14.  [parseErrorClassification] always names at least one error type:
    what it returns is never empty, holds only types of its list of ten,
    none of them twice, and is [Grammar] alone when the model's answer
    names none; so every error type has a severity in the table of
    [calculateSeverity]. *)
Theorem classification_is_never_empty (classification : jsstring) :
  let found := Pipeline.parseErrorClassification classification in
  found <> [] /\ NoDup found /\ incl found Pipeline.categories /\
  (forall category,
      In category found ->
      In (Pipeline.calculateSeverity category)
         [js "high"; js "medium"; js "low"] /\
      Pipeline.lookup Pipeline.severityMap category <> None) /\
  ((forall category,
       In category Pipeline.categories ->
       includes (toLowerCase classification) (toLowerCase category) = false) ->
   found = [js "Grammar"]).
Proof.
  unfold Pipeline.parseErrorClassification.
  set (found := filter _ Pipeline.categories).
  assert (I : incl found Pipeline.categories)
    by (intros x H; apply filter_In in H; tauto).
  assert (D : NoDup found) by apply NoDup_filter, categories_NoDup.
  assert (G : In (js "Grammar") Pipeline.categories) by (now left).
  assert (S : forall category,
             In category Pipeline.categories ->
             In (Pipeline.calculateSeverity category)
                [js "high"; js "medium"; js "low"] /\
             Pipeline.lookup Pipeline.severityMap category <> None).
  { intros category H. unfold Pipeline.categories in H. simpl in H.
    repeat (destruct H as [<- | H];
            [split; [vm_compute; tauto|vm_compute; discriminate]|]).
    contradiction. }
  cbv zeta. split; [|split; [|split; [|split]]].
  - destruct found; discriminate.
  - destruct found; [repeat constructor; intros []|exact D].
  - destruct found; [intros x [<- | []]; exact G|exact I].
  - intros category H. apply S.
    destruct found; [destruct H as [<- | []]; exact G|now apply I].
  - intro N. destruct found as [|x l] eqn:E; [reflexivity|].
    assert (H : In x found) by (rewrite E; now left).
    apply filter_In in H as [H1 H2]. now rewrite (N x H1) in H2.
Qed.

Lemma wordCount_positive (s : jsstring) : 0 < Pipeline.wordCount s.
Proof.
  unfold Pipeline.wordCount.
  assert (splitOn 32%N s <> []).
  { destruct s as [|c s]; simpl; [discriminate|].
    destruct (splitOn 32%N s); [discriminate|].
    destruct (char_eqb c 32%N); discriminate. }
  destruct (splitOn 32%N s); [congruence|]. simpl List.length. lia.
Qed.

Lemma similarity_nonneg (a b : jsstring) :
  (0 <= Advanced.calculateSimilarity a b)%Q.
Proof.
  unfold Advanced.calculateSimilarity.
  set (n := Z.of_nat _). set (m := Z.of_nat _).
  assert (0 <= n) by (unfold n; lia). assert (0 <= m) by (unfold m; lia).
  unfold Qdiv. apply Qmult_le_0_compat.
  - unfold Qle, inject_Z. simpl. lia.
  - apply Qinv_le_0_compat. unfold Qle, inject_Z. simpl. lia.
Qed.

Lemma wordScore_positive (r : Q) :
  (0 < r)%Q -> (0 < Qmax 0 (Qmin 1 r * Qmin 1 (/ r)))%Q.
Proof.
  intro R.
  assert (A : (0 < Qmin 1 r)%Q) by (apply Q.min_glb_lt; [reflexivity|exact R]).
  assert (B : (0 < Qmin 1 (/ r))%Q)
    by (apply Q.min_glb_lt; [reflexivity|now apply Qinv_lt_0_compat]).
  eapply Qlt_le_trans; [|apply Q.le_max_r].
  apply Qmult_lt_0_compat; assumption.
Qed.

Lemma scoreCorrection_positive (original corrected : jsstring) :
  len original <> 0 ->
  exists score,
    Pipeline.scoreCorrection original corrected = Some score /\
    (0 < score)%Q.
Proof.
  intro N. unfold Pipeline.scoreCorrection.
  destruct (len original =? 0) eqn:E; [apply Z.eqb_eq in E; contradiction|].
  eexists. split; [reflexivity|].
  pose proof (similarity_nonneg original corrected) as S.
  set (r := (inject_Z (Pipeline.wordCount corrected)
             / inject_Z (Pipeline.wordCount original))%Q).
  assert (R : (0 < r)%Q).
  { unfold r, Qdiv. apply Qmult_lt_0_compat.
    - pose proof (wordCount_positive corrected).
      unfold Qlt, inject_Z. simpl. lia.
    - apply Qinv_lt_0_compat. pose proof (wordCount_positive original).
      unfold Qlt, inject_Z. simpl. lia. }
  pose proof (wordScore_positive r R) as W.
  set (w := Qmax 0 (Qmin 1 r * Qmin 1 (/ r))%Q) in *.
  set (l := Qmax 0 _).
  assert (L : (0 <= l)%Q) by apply Q.le_max_l.
  set (s := Advanced.calculateSimilarity original corrected) in *.
  assert (A : (0 <= s * (5 # 10))%Q)
    by (apply Qmult_le_0_compat; [exact S|discriminate]).
  assert (B : (0 <= l * (3 # 10))%Q)
    by (apply Qmult_le_0_compat; [exact L|discriminate]).
  assert (C : (0 < w * (2 # 10))%Q)
    by (apply Qmult_lt_0_compat; [exact W|reflexivity]).
  apply Qlt_le_trans with (y := (0 + 0 + w * (2 # 10))%Q).
  - now rewrite !Qplus_0_l.
  - apply Qplus_le_compat; [|apply Qle_refl].
    apply Qplus_le_compat; assumption.
Qed.

(** ** Runs of the pipeline *)

Lemma returns_settles {A : Type} (m : Pipeline.run A) (least most : nat) :
  returns m least most -> settles m least most.
Proof. intros R w. destruct (R w) as (a & w' & E & B). eauto. Qed.

Lemma ret_returns {A : Type} (a : A) : returns (Pipeline.ret a) 0 0.
Proof. intro w. exists a, w. split; [reflexivity|lia]. Qed.

Lemma throw_settles {A : Type} (e : Error) :
  settles (@Pipeline.throw A e) 0 0.
Proof. intro w. exists (Threw e), w. split; [reflexivity|lia]. Qed.

Lemma bind_settles {A B : Type} (m : Pipeline.run A) (k : A -> Pipeline.run B)
      (l1 h1 l2 h2 : nat) :
  settles m l1 h1 -> (forall a, settles (k a) l2 h2) ->
  settles (Pipeline.bind m k) l1 (h1 + h2).
Proof.
  intros M K w. unfold Pipeline.bind.
  destruct (M w) as ([a|e] & w1 & -> & B1).
  - destruct (K a w1) as (c & w2 & -> & B2). exists c, w2.
    split; [reflexivity|lia].
  - exists (Threw e), w1. split; [reflexivity|lia].
Qed.

Lemma bind_returns {A B : Type} (m : Pipeline.run A) (k : A -> Pipeline.run B)
      (l1 h1 l2 h2 : nat) :
  returns m l1 h1 -> (forall a, returns (k a) l2 h2) ->
  returns (Pipeline.bind m k) (l1 + l2) (h1 + h2).
Proof.
  intros M K w. unfold Pipeline.bind.
  destruct (M w) as (a & w1 & -> & B1).
  destruct (K a w1) as (b & w2 & -> & B2). exists b, w2.
  split; [reflexivity|lia].
Qed.

Lemma bind_returns_settles {A B : Type} (m : Pipeline.run A)
      (k : A -> Pipeline.run B) (l1 h1 l2 h2 : nat) :
  returns m l1 h1 -> (forall a, settles (k a) l2 h2) ->
  settles (Pipeline.bind m k) (l1 + l2) (h1 + h2).
Proof.
  intros M K w. unfold Pipeline.bind.
  destruct (M w) as (a & w1 & -> & B1).
  destruct (K a w1) as (b & w2 & -> & B2). exists b, w2.
  split; [reflexivity|lia].
Qed.

Lemma catch_returns {A : Type} (m : Pipeline.run A)
      (handler : Error -> Pipeline.run A) (least most : nat) :
  settles m least most -> (forall e, returns (handler e) 0 0) ->
  returns (Pipeline.catch m handler) least most.
Proof.
  intros M H w. unfold Pipeline.catch.
  destruct (M w) as ([a|e] & w1 & -> & B1).
  - exists a, w1. split; [reflexivity|lia].
  - destruct (H e w1) as (a & w2 & -> & B2). exists a, w2.
    split; [reflexivity|lia].
Qed.

Lemma catch_settles {A : Type} (m : Pipeline.run A)
      (handler : Error -> Pipeline.run A) (least most : nat) :
  settles m least most -> (forall e, settles (handler e) 0 0) ->
  settles (Pipeline.catch m handler) least most.
Proof.
  intros M H w. unfold Pipeline.catch.
  destruct (M w) as ([a|e] & w1 & -> & B1).
  - exists (Returned a), w1. split; [reflexivity|lia].
  - destruct (H e w1) as (c & w2 & -> & B2). exists c, w2.
    split; [reflexivity|lia].
Qed.

Lemma settles_weaken {A : Type} (m : Pipeline.run A) (l h l' h' : nat) :
  settles m l h -> (l' <= l)%nat -> (h <= h')%nat -> settles m l' h'.
Proof.
  intros M L H w. destruct (M w) as (c & w' & E & B). exists c, w'.
  split; [exact E|lia].
Qed.

Lemma returns_weaken {A : Type} (m : Pipeline.run A) (l h l' h' : nat) :
  returns m l h -> (l' <= l)%nat -> (h <= h')%nat -> returns m l' h'.
Proof.
  intros M L H w. destruct (M w) as (c & w' & E & B). exists c, w'.
  split; [exact E|lia].
Qed.

Section NoModelLoading.

Variable fuel : nat.
Variable up : Hf.upstream.
Hypothesis some_fuel : fuel <> 0%nat.
Hypothesis no_503 : neverLoading up.

(** Without a 503 a query is one request. *)
Lemma query_once (modelName prompt : jsstring) (w : Hf.world) :
  Pipeline.query fuel up modelName prompt w =
  match up (Hf.calls w) modelName prompt with
  | Resolved data => Some (Returned data, Hf.sent w)
  | Rejected e =>
      Some (Threw (newError (js "Model query failed: " ++ errorMessage e)),
            Hf.sent w)
  end.
Proof.
  unfold Pipeline.query. destruct fuel as [|f]; [contradiction|].
  cbn [Advanced.queryModel].
  destruct (up (Hf.calls w) modelName prompt) as [data|e] eqn:E;
    [reflexivity|].
  now rewrite (no_503 _ _ _ _ E).
Qed.

Lemma query_settles (modelName prompt : jsstring) :
  settles (Pipeline.query fuel up modelName prompt) 1 1.
Proof.
  intro w. rewrite query_once.
  destruct (up (Hf.calls w) modelName prompt); eexists; eexists;
    (split; [reflexivity|simpl; lia]).
Qed.

Lemma tryModel_returns (text : jsstring) (best : Pipeline.Best)
      (attempt : jsstring * jsstring) :
  returns (Pipeline.tryModel fuel up text best attempt) 1 1.
Proof.
  destruct attempt as [modelName prompt]. unfold Pipeline.tryModel.
  apply catch_returns; [|intro; apply ret_returns].
  apply (bind_settles _ _ 1 1 0 0); [apply query_settles|].
  intro a. apply returns_settles, ret_returns.
Qed.

Lemma tryModels_returns (text : jsstring)
      (attempts : list (jsstring * jsstring)) (best : Pipeline.Best) :
  returns (Pipeline.tryModels fuel up text best attempts)
          (List.length attempts) (List.length attempts).
Proof.
  revert best; induction attempts as [|a l IH]; intro best;
    cbn [Pipeline.tryModels List.length]; [apply ret_returns|].
  apply (bind_returns _ _ 1 1); [apply tryModel_returns|]. intro b. apply IH.
Qed.

Lemma specialised_settles (type category prompt : jsstring)
      (corrections : list Pipeline.Attempted) :
  settles (Pipeline.specialised fuel up type category prompt corrections) 1 1.
Proof.
  unfold Pipeline.specialised.
  apply (bind_settles _ _ 1 1 0 0); [apply query_settles|].
  intro a. apply returns_settles, ret_returns.
Qed.

Lemma performSpecializedCorrections_returns (text : jsstring) :
  returns (Pipeline.performSpecializedCorrections fuel up text) 1 3.
Proof.
  unfold Pipeline.performSpecializedCorrections.
  apply catch_returns; [|intro; apply ret_returns].
  apply (bind_settles _ _ 1 1 0 2); [apply specialised_settles|]. intro a.
  apply returns_settles, catch_returns; [|intro; apply ret_returns].
  apply (settles_weaken _ 1 2); [|lia|lia].
  apply (bind_settles _ _ 1 1 0 1); [apply specialised_settles|]. intro b.
  apply returns_settles, catch_returns; [|intro; apply ret_returns].
  apply (settles_weaken _ 1 1); [|lia|lia]. apply specialised_settles.
Qed.

Lemma performComprehensiveCorrection_returns (text : jsstring) :
  returns (Pipeline.performComprehensiveCorrection fuel up text) 3 5.
Proof.
  unfold Pipeline.performComprehensiveCorrection.
  apply (bind_returns _ _ 2 2 1 3);
    [exact (tryModels_returns text
              (firstn 2 (combine Pipeline.textCorrection
                                 (Pipeline.grammarPrompts text)))
              (Pipeline.mkBest [] [] text 0))|].
  intro best.
  apply (bind_returns _ _ 1 3 0 0);
    [apply performSpecializedCorrections_returns|].
  intro s. apply ret_returns.
Qed.

Lemma classifyErrors_returns (original corrected : jsstring) :
  returns (Pipeline.classifyErrors fuel up original corrected) 1 1.
Proof.
  unfold Pipeline.classifyErrors.
  apply catch_returns; [|intro; apply ret_returns].
  apply (bind_settles _ _ 1 1 0 0); [apply query_settles|].
  intros [|first rest]; [apply returns_settles, ret_returns|].
  destruct (Hf.generated_text first);
    [apply returns_settles, ret_returns|apply throw_settles].
Qed.

Lemma calculateConfidence_returns (original corrected : jsstring) :
  returns (Pipeline.calculateConfidence fuel up original corrected) 1 1.
Proof.
  intro w. unfold Pipeline.calculateConfidence, Advanced.calculateConfidence.
  pose proof (query_once (js "google/flan-t5-large")
                (Advanced.confidencePrompt original corrected) w) as Q.
  unfold Pipeline.query in Q. rewrite Q.
  destruct (up (Hf.calls w) _ _) as [[|[[scoreText|] s t] rest]|e];
    eexists; eexists; (split; [reflexivity|simpl; lia]).
Qed.

Lemma explain_settles (errors : list Pipeline.Detected.t)
      (explanations : list Pipeline.Explanation) :
  settles (Pipeline.explain fuel up errors explanations)
          0 (List.length errors).
Proof.
  revert explanations; induction errors as [|error rest IH];
    intro explanations; cbn [Pipeline.explain List.length].
  - apply returns_settles, ret_returns.
  - apply (settles_weaken _ 1 (1 + List.length rest)); [|lia|lia].
    apply (bind_settles _ _ 1 1 0); [|intro; apply IH].
    apply catch_settles; [|intro; apply throw_settles].
    apply (bind_settles _ _ 1 1 0 0); [apply query_settles|].
    intro a. apply returns_settles, ret_returns.
Qed.

Lemma generateExplanations_settles (errors : list Pipeline.Detected.t) :
  settles (Pipeline.generateExplanations fuel up errors) 0 5.
Proof.
  unfold Pipeline.generateExplanations.
  apply (settles_weaken _ 0 (List.length (firstn 5 errors)));
    [apply explain_settles|lia|].
  rewrite length_firstn. lia.
Qed.

Lemma correctText_returns_within (elapsed : Z) (text : jsstring) :
  Advanced.inputGuard text = None ->
  returns (Pipeline.correctText fuel up elapsed text) 5 12.
Proof.
  intro G. unfold Pipeline.correctText. rewrite G.
  apply catch_returns; [|intro; apply ret_returns].
  apply (bind_returns_settles _ _ 3 5 2 7);
    [apply performComprehensiveCorrection_returns|].
  intro c.
  apply (bind_returns_settles _ _ 1 1 1 6); [apply classifyErrors_returns|].
  intro a.
  apply (bind_returns_settles _ _ 1 1 0 5);
    [apply calculateConfidence_returns|].
  intro f.
  apply (bind_settles _ _ 0 5 0 0); [apply generateExplanations_settles|].
  intro x. apply returns_settles, ret_returns.
Qed.

End NoModelLoading.

Lemma catch_never_throws {A : Type} (m : Pipeline.run A) (a : A)
      (w w' : Hf.world) (e : Error) :
  Pipeline.catch m (fun _ => Pipeline.ret a) w <> Some (Threw e, w').
Proof.
  unfold Pipeline.catch, Pipeline.ret.
  destruct (m w) as [[[x|x] w1]|]; discriminate.
Qed.

(** X15.  [correctText] of AdvancedHuggingFaceGrammarService never throws
    for a text that passes its guards, whatever the upstream does: every
    failure inside ends in the rule-based fallback.  When no model is
    loading (the upstream never answers 503) it returns after at least 5 and
    at most 12 requests: two for the correction, one to three for the
    specialised prompts, one to classify, one for the confidence and at most
    five for the explanations. *)
Theorem advanced_correctText_returns
        (fuel : nat) (up : Hf.upstream) (elapsed : Z) (text : jsstring)
        (w : Hf.world) :
  Advanced.inputGuard text = None ->
  (forall e w',
      Pipeline.correctText fuel up elapsed text w <> Some (Threw e, w')) /\
  (fuel <> 0%nat -> neverLoading up ->
   exists outcome w',
     Pipeline.correctText fuel up elapsed text w
     = Some (Returned outcome, w') /\
     (Hf.calls w + 5 <= Hf.calls w' <= Hf.calls w + 12)%nat).
Proof.
  intro G. split.
  - intros e w'. unfold Pipeline.correctText. rewrite G.
    apply catch_never_throws.
  - intros F N. now apply correctText_returns_within.
Qed.

(** ** When the upstream cannot be reached *)

Section RefusingUpstream.

Variable fuel : nat.
Variable up : Hf.upstream.
Hypothesis some_fuel : fuel <> 0%nat.
Hypothesis refused : refusesAll up.

Lemma query_refused (modelName prompt : jsstring) (w : Hf.world) :
  exists e,
    Pipeline.query fuel up modelName prompt w = Some (Threw e, Hf.sent w).
Proof.
  unfold Pipeline.query. destruct fuel as [|f]; [contradiction|].
  cbn [Advanced.queryModel].
  destruct (refused (Hf.calls w) modelName prompt) as (e & -> & ->). eauto.
Qed.

Lemma tryModel_refused (text : jsstring) (best : Pipeline.Best)
      (attempt : jsstring * jsstring) (w : Hf.world) :
  Pipeline.tryModel fuel up text best attempt w
  = Some (Returned best, Hf.sent w).
Proof.
  destruct attempt as [modelName prompt].
  unfold Pipeline.tryModel, Pipeline.catch, Pipeline.bind.
  now destruct (query_refused modelName prompt w) as (e & ->).
Qed.

Lemma performComprehensiveCorrection_refused (text : jsstring)
      (w : Hf.world) :
  Pipeline.performComprehensiveCorrection fuel up text w
  = Some (Returned (Pipeline.mkCorrectionResult text [] []), sentTimes 3 w).
Proof.
  unfold Pipeline.performComprehensiveCorrection.
  cbn [firstn combine Pipeline.textCorrection Pipeline.grammarPrompts
       Pipeline.tryModels].
  unfold Pipeline.bind at 1. unfold Pipeline.bind at 1.
  rewrite tryModel_refused.
  unfold Pipeline.bind at 1. rewrite tryModel_refused.
  unfold Pipeline.ret at 1. unfold Pipeline.bind at 1.
  unfold Pipeline.performSpecializedCorrections.
  unfold Pipeline.catch at 1. unfold Pipeline.bind at 1.
  unfold Pipeline.specialised at 1. unfold Pipeline.bind at 1.
  destruct (query_refused Pipeline.flan
              (js "Fix only verb tense errors in this sentence, maintaining meaning: "
               ++ Pipeline.quoted text) (Hf.sent (Hf.sent w))) as (e & ->).
  reflexivity.
Qed.

Lemma classifyErrors_refused (text : jsstring) (w : Hf.world) :
  Pipeline.classifyErrors fuel up text text w
  = Some (Returned (Pipeline.mkErrorAnalysis [] []), Hf.sent w).
Proof.
  unfold Pipeline.classifyErrors, Pipeline.catch, Pipeline.bind.
  destruct (query_refused Pipeline.flan
              (Pipeline.classificationPrompt text text) w) as (e & ->).
  unfold Advanced.findTextChanges. now rewrite walk_same.
Qed.

Lemma calculateConfidence_refused (text : jsstring) (w : Hf.world) :
  Pipeline.calculateConfidence fuel up text text w
  = Some (Returned (Advanced.mkConfidence
                      (Advanced.similarityConfidence text text)
                      Advanced.similarity_based), Hf.sent w).
Proof.
  unfold Pipeline.calculateConfidence, Advanced.calculateConfidence.
  destruct (query_refused (js "google/flan-t5-large")
              (Advanced.confidencePrompt text text) w) as (e & Q).
  unfold Pipeline.query in Q. now rewrite Q.
Qed.

Lemma correctText_refused (elapsed : Z) (text : jsstring) (w : Hf.world) :
  Advanced.inputGuard text = None ->
  Pipeline.correctText fuel up elapsed text w
  = Some (Returned (Pipeline.Main (untouched elapsed text)), sentTimes 5 w).
Proof.
  intro G. unfold Pipeline.correctText. rewrite G.
  unfold Pipeline.catch. unfold Pipeline.bind at 1.
  rewrite performComprehensiveCorrection_refused.
  cbn [Pipeline.correctedText Pipeline.attempted Pipeline.modelsUsed].
  unfold Pipeline.bind at 1. rewrite classifyErrors_refused.
  unfold Pipeline.bind at 1. rewrite calculateConfidence_refused.
  reflexivity.
Qed.

End RefusingUpstream.

Lemma similarityConfidence_self (text : jsstring) :
  len text <> 0 ->
  exists score,
    Advanced.similarityConfidence text text = Some score /\ 100 <= score.
Proof.
  intro N. unfold Advanced.similarityConfidence.
  destruct (len text =? 0) eqn:E; [apply Z.eqb_eq in E; contradiction|].
  cbn [andb orb]. eexists. split; [reflexivity|].
  destruct (similarity_with_itself text) as (A & _ & S & _). cbv zeta in A, S.
  rewrite A in S.
  set (s := Advanced.calculateSimilarity text text) in *.
  assert (R : (Qmin (inject_Z (len text) / inject_Z (len text))
                    (inject_Z (len text) / inject_Z (len text)) == 1)%Q).
  { rewrite Q.min_id. apply Qmult_inv_r.
    unfold Qeq, inject_Z. simpl. lia. }
  unfold round. apply (Qfloor_resp_le (100 + (1 # 2))).
  rewrite R.
  setoid_replace ((s * (7 # 10) + 1 * (3 # 10)) * 100 + (1 # 2))%Q
    with (100 + (1 # 2) + (s - 1) * 70)%Q by ring.
  rewrite <- (Qplus_0_r (100 + (1 # 2))) at 1.
  apply Qplus_le_r. apply Qmult_le_0_compat; [|discriminate].
  now apply (Qplus_le_l _ _ 1); ring_simplify.
Qed.

Lemma qualityScore_self (text : jsstring) :
  len text <> 0 -> Advanced.calculateQualityScore text text = Some 100.
Proof.
  intro N. unfold Advanced.calculateQualityScore.
  destruct (len text =? 0) eqn:E; [apply Z.eqb_eq in E; contradiction|].
  f_equal.
  assert (R : 100 <= round (Advanced.rawQualityScore text text)).
  { unfold Advanced.rawQualityScore, Advanced.qualityFactors.
    rewrite !Z.sub_diag. cbn [Z.abs].
    destruct (similarity_with_itself text) as (A & _ & S & _). cbv zeta in A, S.
    rewrite A in S.
    set (s := Advanced.calculateSimilarity text text) in *.
    set (n := inject_Z (len text)).
    set (m := inject_Z (Z.of_nat (List.length (splitOn 32%N text)))).
    unfold round. apply (Qfloor_resp_le (100 + (1 # 2))).
    assert (Z1 : (inject_Z 0 / n == 0)%Q) by (unfold Qdiv; ring).
    assert (Z2 : (inject_Z 0 / m == 0)%Q) by (unfold Qdiv; ring).
    rewrite Z1, Z2.
    setoid_replace (((1 - 0) * (3 # 10) + (1 - 0) * (3 # 10) + s * (4 # 10))
                    * 100 + (1 # 2))%Q
      with (100 + (1 # 2) + (s - 1) * 40)%Q by ring.
    rewrite <- (Qplus_0_r (100 + (1 # 2))) at 1.
    apply Qplus_le_r. apply Qmult_le_0_compat; [|discriminate].
    now apply (Qplus_le_l _ _ 1); ring_simplify. }
  lia.
Qed.


Lemma unreachable_refusesAll : refusesAll unreachable.
Proof. intros n model prompt. eexists. split; reflexivity. Defined.


Lemma unreachable_neverLoading : neverLoading unreachable.
Proof. intros n model prompt e H. injection H as <-. reflexivity. Defined.

Lemma advanced_correctText_returns_witness :
  exists outcome w',
    Pipeline.correctText 1 unreachable 7 (js "I am happy.") Hf.start
    = Some (Returned outcome, w') /\
    (Hf.calls Hf.start + 5 <= Hf.calls w' <= Hf.calls Hf.start + 12)%nat.
Proof.
  apply (advanced_correctText_returns 1 unreachable 7 (js "I am happy.")
           Hf.start).
  - reflexivity.
  - discriminate.
  - exact unreachable_neverLoading.
Defined.

(** ** When a model answers *)

Lemma bind_returned {A B : Type} (m : Pipeline.run A)
      (k : A -> Pipeline.run B) (w w1 : Hf.world) (a : A) :
  m w = Some (Returned a, w1) -> Pipeline.bind m k w = k a w1.
Proof. unfold Pipeline.bind. now intros ->. Qed.

Lemma bind_threw {A B : Type} (m : Pipeline.run A)
      (k : A -> Pipeline.run B) (w w1 : Hf.world) (e : Error) :
  m w = Some (Threw e, w1) -> Pipeline.bind m k w = Some (Threw e, w1).
Proof. unfold Pipeline.bind. now intros ->. Qed.

Lemma catch_returned {A : Type} (m : Pipeline.run A)
      (handler : Error -> Pipeline.run A) (w w1 : Hf.world) (a : A) :
  m w = Some (Returned a, w1) ->
  Pipeline.catch m handler w = Some (Returned a, w1).
Proof. unfold Pipeline.catch. now intros ->. Qed.

Lemma catch_threw {A : Type} (m : Pipeline.run A)
      (handler : Error -> Pipeline.run A) (w w1 : Hf.world) (e : Error) :
  m w = Some (Threw e, w1) -> Pipeline.catch m handler w = handler e w1.
Proof. unfold Pipeline.catch. now intros ->. Qed.

Lemma exceeds_zero (score : Q) :
  (0 < score)%Q -> Pipeline.exceeds (Some score) 0 = true.
Proof.
  intro P. unfold Pipeline.exceeds. apply negb_true_iff.
  destruct (Qle_bool score 0) eqn:E; [|reflexivity].
  apply Qle_bool_iff in E. exfalso. apply (Qlt_not_le _ _ P E).
Qed.

Lemma exceeds_itself (score : Q) :
  Pipeline.exceeds (Some score) score = false.
Proof.
  unfold Pipeline.exceeds. apply negb_false_iff, Qle_bool_iff, Qle_refl.
Qed.

Lemma query_resolved (fuel : nat) (up : Hf.upstream)
      (modelName prompt : jsstring) (w : Hf.world)
      (data : list Hf.generation) :
  fuel <> 0%nat -> up (Hf.calls w) modelName prompt = Resolved data ->
  Pipeline.query fuel up modelName prompt w
  = Some (Returned data, Hf.sent w).
Proof.
  intros F R. unfold Pipeline.query. destruct fuel as [|f]; [contradiction|].
  cbn [Advanced.queryModel]. now rewrite R.
Qed.

Lemma query_rejected (fuel : nat) (up : Hf.upstream)
      (modelName prompt : jsstring) (w : Hf.world) (e : Error) :
  fuel <> 0%nat -> up (Hf.calls w) modelName prompt = Rejected e ->
  Hf.statusIs e 503 = false ->
  Pipeline.query fuel up modelName prompt w
  = Some (Threw (newError (js "Model query failed: " ++ errorMessage e)),
          Hf.sent w).
Proof.
  intros F R S. unfold Pipeline.query. destruct fuel as [|f]; [contradiction|].
  cbn [Advanced.queryModel]. now rewrite R, S.
Qed.

(** X17.  In [performComprehensiveCorrection] the first answer of a model
    always replaces the text: the score of an answer to a non-empty text is
    greater than 0, the score the text starts with, whatever the answer is.
    An answer that carries no text is extracted as the empty string and
    replaces the text like any other. *)
Theorem first_answer_replaces_the_text
        (fuel : nat) (up : Hf.upstream) (text modelName prompt : jsstring)
        (w : Hf.world) (first : Hf.generation) (rest : list Hf.generation) :
  len text <> 0 -> fuel <> 0%nat ->
  up (Hf.calls w) modelName prompt = Resolved (first :: rest) ->
  let answer :=
    Pipeline.extractCorrectedText
      (Hf.orElse (Hf.generated_text first) (Hf.text first)) in
  exists score,
    Pipeline.scoreCorrection text answer = Some score /\ (0 < score)%Q /\
    Pipeline.tryModel fuel up text (Pipeline.mkBest [] [] text 0)
                      (modelName, prompt) w
    = Some (Returned
              (Pipeline.mkBest [Pipeline.ByModel modelName answer (Some score)]
                               [modelName] answer score),
            Hf.sent w) /\
    (Hf.generated_text first = None -> Hf.text first = None -> answer = []).
Proof.
  intros N F R answer.
  destruct (scoreCorrection_positive text answer N) as (score & S & P).
  exists score. split; [exact S|]. split; [exact P|]. split.
  - unfold Pipeline.tryModel, Pipeline.catch, Pipeline.bind.
    rewrite (query_resolved _ _ _ _ _ _ F R). unfold Pipeline.ret.
    fold answer. rewrite S. cbn [Pipeline.tried Pipeline.used
                                 Pipeline.bestScore Pipeline.bestResult app].
    now rewrite (exceeds_zero _ P).
  - intros G T. subst answer. now rewrite G, T.
Qed.

Lemma first_answer_replaces_the_text_witness :
  exists score,
    Pipeline.scoreCorrection (js "I am hapy.") [] = Some score /\
    (0 < score)%Q /\
    Pipeline.tryModel 1 (fun _ _ _ => Resolved [Hf.mkGeneration None None None])
      (js "I am hapy.") (Pipeline.mkBest [] [] (js "I am hapy.") 0)
      (js "t5-large", js "Fix: I am hapy.") Hf.start
    = Some (Returned
              (Pipeline.mkBest [Pipeline.ByModel (js "t5-large") [] (Some score)]
                               [js "t5-large"] [] score),
            Hf.sent Hf.start) /\
    (Hf.generated_text (Hf.mkGeneration None None None) = None ->
     Hf.text (Hf.mkGeneration None None None) = None ->
     Pipeline.extractCorrectedText
       (Hf.orElse (Hf.generated_text (Hf.mkGeneration None None None))
                  (Hf.text (Hf.mkGeneration None None None))) = []).
Proof.
  apply (first_answer_replaces_the_text 1
           (fun _ _ _ => Resolved [Hf.mkGeneration None None None])
           (js "I am hapy.") (js "t5-large") (js "Fix: I am hapy.")
           Hf.start (Hf.mkGeneration None None None) []).
  - vm_compute. discriminate.
  - discriminate.
  - reflexivity.
Defined.

(** ** When an explanation cannot be had *)

Section FailingExplanation.

Variable fuel : nat.
Variable up : Hf.upstream.
Variable elapsed : Z.
Variables text reply : jsstring.
Variable w : Hf.world.

Hypothesis some_fuel : fuel <> 0%nat.
Hypothesis valid : Advanced.inputGuard text = None.
Hypothesis answered :
  forall n model prompt,
    (n < Hf.calls w + 7)%nat -> up n model prompt = Resolved (generated reply).
Hypothesis then_refused :
  forall model prompt,
    exists e, up (Hf.calls w + 7)%nat model prompt = Rejected e /\
              Hf.statusIs e 503 = false.
Hypothesis changed :
  Advanced.findTextChanges text (Pipeline.extractCorrectedText (Some reply))
  <> [].

Let answer := Pipeline.extractCorrectedText (Some reply).

Lemma reply_extracted :
  Pipeline.extractCorrectedText
    (Hf.orElse (Hf.generated_text (Hf.mkGeneration (Some reply) None None))
               (Hf.text (Hf.mkGeneration (Some reply) None None)))
  = answer.
Proof.
  unfold answer. cbn [Hf.generated_text Hf.text].
  destruct reply as [|c s]; reflexivity.
Qed.

Lemma query_answered (k : nat) (modelName prompt : jsstring) :
  (k < 7)%nat ->
  Pipeline.query fuel up modelName prompt (sentTimes k w)
  = Some (Returned (generated reply), sentTimes (S k) w).
Proof.
  intro K. apply query_resolved; [exact some_fuel|]. apply answered.
  clear - K. unfold sentTimes.
  assert (E : forall n, Hf.calls (Nat.iter n Hf.sent w) = (n + Hf.calls w)%nat).
  { induction n as [|n IH]; [reflexivity|]. simpl. now rewrite IH. }
  rewrite E. lia.
Qed.

Lemma text_nonempty : len text <> 0.
Proof.
  apply inputGuard_accepts in valid as [T _]. now apply trim_nonempty.
Qed.

Lemma tryModel_answered (k : nat) (best : Pipeline.Best)
      (modelName prompt : jsstring) (score : Q) :
  (k < 7)%nat ->
  Pipeline.scoreCorrection text answer = Some score ->
  Pipeline.tryModel fuel up text best (modelName, prompt) (sentTimes k w)
  = Some (Returned
            (Pipeline.mkBest
               (Pipeline.tried best
                ++ [Pipeline.ByModel modelName answer (Some score)])
               (Pipeline.used best ++ [modelName])
               (if Pipeline.exceeds (Some score) (Pipeline.bestScore best)
                then answer else Pipeline.bestResult best)
               (if Pipeline.exceeds (Some score) (Pipeline.bestScore best)
                then score else Pipeline.bestScore best)),
          sentTimes (S k) w).
Proof.
  intros K S. unfold Pipeline.tryModel. apply catch_returned.
  rewrite (bind_returned _ _ _ _ _ (query_answered k modelName prompt K)).
  unfold generated, Pipeline.ret. now rewrite reply_extracted, S.
Qed.

Lemma specialised_answered (k : nat) (type category prompt : jsstring)
      (corrections : list Pipeline.Attempted) :
  (k < 7)%nat ->
  Pipeline.specialised fuel up type category prompt corrections
                       (sentTimes k w)
  = Some (Returned
            (corrections ++ [Pipeline.Specialised type (Some reply) category]),
          sentTimes (S k) w).
Proof.
  intro K. unfold Pipeline.specialised.
  now rewrite (bind_returned _ _ _ _ _
                 (query_answered k Pipeline.flan prompt K)).
Qed.

Lemma specialized_answered :
  exists specialised,
    Pipeline.performSpecializedCorrections fuel up text (sentTimes 2 w)
    = Some (Returned specialised, sentTimes 5 w).
Proof.
  unfold Pipeline.performSpecializedCorrections. eexists.
  apply catch_returned.
  rewrite (bind_returned _ _ _ _ _ (specialised_answered 2 _ _ _ _ ltac:(lia))).
  apply catch_returned.
  rewrite (bind_returned _ _ _ _ _ (specialised_answered 3 _ _ _ _ ltac:(lia))).
  apply catch_returned.
  apply (specialised_answered 4); lia.
Qed.

Lemma comprehensive_answered :
  exists attempted,
    Pipeline.performComprehensiveCorrection fuel up text w
    = Some (Returned
              (Pipeline.mkCorrectionResult answer attempted
                 [js "t5-large"; js "google/flan-t5-xl"]),
            sentTimes 5 w).
Proof.
  destruct (scoreCorrection_positive text answer text_nonempty)
    as (score & S & P).
  destruct specialized_answered as (specialised & Z).
  unfold Pipeline.performComprehensiveCorrection.
  cbn [firstn combine Pipeline.textCorrection Pipeline.grammarPrompts
       Pipeline.tryModels].
  eexists.
  erewrite bind_returned.
  2:{ erewrite bind_returned
        by (apply (tryModel_answered 0 _ _ _ score); [lia|exact S]).
      erewrite bind_returned
        by (apply (tryModel_answered 1 _ _ _ score); [lia|exact S]).
      reflexivity. }
  cbn [Pipeline.tried Pipeline.used Pipeline.bestScore Pipeline.bestResult
       app].
  rewrite (exceeds_zero _ P), exceeds_itself.
  rewrite (bind_returned _ _ _ _ _ Z). reflexivity.
Qed.

Lemma classify_answered :
  exists error errors categories,
    Pipeline.classifyErrors fuel up text answer (sentTimes 5 w)
    = Some (Returned (Pipeline.mkErrorAnalysis (error :: errors) categories),
            sentTimes 6 w).
Proof.
  unfold Pipeline.classifyErrors.
  fold answer in changed.
  destruct (Advanced.findTextChanges text answer) as [|change changes] eqn:C;
    [congruence|].
  eexists. eexists. eexists. apply catch_returned.
  rewrite (bind_returned _ _ _ _ _
             (query_answered 5 Pipeline.flan
                (Pipeline.classificationPrompt text answer) ltac:(lia))).
  unfold generated. cbn [Hf.generated_text Pipeline.classified].
  reflexivity.
Qed.

Lemma confidence_answered :
  exists confidence,
    Pipeline.calculateConfidence fuel up text answer (sentTimes 6 w)
    = Some (Returned confidence, sentTimes 7 w).
Proof.
  unfold Pipeline.calculateConfidence, Advanced.calculateConfidence.
  pose proof (query_answered 6 (js "google/flan-t5-large")
                (Advanced.confidencePrompt text answer)) as Q.
  unfold Pipeline.query in Q. rewrite Q by lia.
  unfold generated. eexists. reflexivity.
Qed.

Lemma explanations_fail (error : Pipeline.Detected.t)
      (errors : list Pipeline.Detected.t) :
  Pipeline.generateExplanations fuel up (error :: errors) (sentTimes 7 w)
  = Some (Threw Pipeline.typeError, sentTimes 8 w).
Proof.
  unfold Pipeline.generateExplanations.
  cbn [firstn Pipeline.explain].
  destruct (then_refused Pipeline.flan (Pipeline.explanationPrompt error))
    as (e & R & S).
  apply bind_threw.
  erewrite catch_threw; [reflexivity|].
  apply bind_threw. apply query_rejected; [exact some_fuel| |exact S].
  rewrite <- R. f_equal. unfold sentTimes. simpl. lia.
Qed.

Lemma correctText_falls_back_after_explanation :
  Pipeline.correctText fuel up elapsed text w
  = Some (Returned (Pipeline.Fallback (Advanced.fallbackCorrection text)),
          sentTimes 8 w).
Proof.
  unfold Pipeline.correctText. rewrite valid.
  destruct comprehensive_answered as (attempted & A).
  destruct classify_answered as (error & errors & categories & B).
  destruct confidence_answered as (confidence & C).
  erewrite catch_threw; [reflexivity|].
  rewrite (bind_returned _ _ _ _ _ A). cbn [Pipeline.correctedText].
  rewrite (bind_returned _ _ _ _ _ B).
  rewrite (bind_returned _ _ _ _ _ C). cbn [Pipeline.errors].
  apply bind_threw. apply explanations_fail.
Qed.

End FailingExplanation.

(** X18.  One explanation that cannot be had undoes the whole correction:
    [generateExplanations] answers a failed request from a [catch] block
    whose parameter hides the error being explained, so that the block
    itself throws; [correctText] then discards what the models answered
    and returns the rule-based fallback.  Here the upstream answers the
    first seven requests (correction, specialised prompts, classification,
    confidence) with a text that differs from the original, and refuses the
    eighth, the first request for an explanation. *)
Theorem failed_explanation_discards_the_correction
        (fuel : nat) (up : Hf.upstream) (elapsed : Z) (text reply : jsstring)
        (w : Hf.world) :
  fuel <> 0%nat ->
  Advanced.inputGuard text = None ->
  (forall n model prompt,
      (n < Hf.calls w + 7)%nat ->
      up n model prompt = Resolved (generated reply)) ->
  (forall model prompt,
      exists e, up (Hf.calls w + 7)%nat model prompt = Rejected e /\
                Hf.statusIs e 503 = false) ->
  Advanced.findTextChanges text (Pipeline.extractCorrectedText (Some reply))
  <> [] ->
  Pipeline.correctText fuel up elapsed text w
  = Some (Returned (Pipeline.Fallback (Advanced.fallbackCorrection text)),
          sentTimes 8 w).
Proof. apply correctText_falls_back_after_explanation. Qed.

Lemma goneAfter_answers (reply : jsstring) (n : nat)
      (model prompt : jsstring) :
  (n < Hf.calls Hf.start + 7)%nat ->
  goneAfter 7 reply n model prompt = Resolved (generated reply).
Proof.
  intro H. unfold goneAfter.
  destruct (n <? 7)%nat eqn:E; [reflexivity|].
  apply Nat.ltb_ge in E. simpl in H. lia.
Defined.

Lemma goneAfter_refuses (reply model prompt : jsstring) :
  exists e,
    goneAfter 7 reply (Hf.calls Hf.start + 7)%nat model prompt = Rejected e /\
    Hf.statusIs e 503 = false.
Proof. eexists. split; reflexivity. Defined.

Lemma failed_explanation_discards_the_correction_witness :
  Pipeline.correctText 1 (goneAfter 7 (js "I am happy.")) 9 (js "I am hapy.")
                       Hf.start
  = Some (Returned (Pipeline.Fallback
                      (Advanced.fallbackCorrection (js "I am hapy."))),
          sentTimes 8 Hf.start) /\
  Advanced.correctedText (Advanced.fallbackCorrection (js "I am hapy."))
  = js "I am hapy.".
Proof.
  split; [|vm_compute; reflexivity].
  apply (failed_explanation_discards_the_correction 1
           (goneAfter 7 (js "I am happy.")) 9 (js "I am hapy.")
           (js "I am happy.") Hf.start).
  - discriminate.
  - reflexivity.
  - apply goneAfter_answers.
  - apply goneAfter_refuses.
  - vm_compute. discriminate.
Defined.

(** ** Results of the pipeline *)

Lemma bind_inversion {A B : Type} (m : Pipeline.run A)
      (k : A -> Pipeline.run B) (w w' : Hf.world) (b : B) :
  Pipeline.bind m k w = Some (Returned b, w') ->
  exists a w1, m w = Some (Returned a, w1) /\ k a w1 = Some (Returned b, w').
Proof.
  unfold Pipeline.bind. destruct (m w) as [[[a|e] w1]|]; try discriminate.
  intro H. now exists a, w1.
Qed.

Lemma catch_inversion {A : Type} (m : Pipeline.run A)
      (handler : Error -> Pipeline.run A) (w w' : Hf.world) (a : A) :
  Pipeline.catch m handler w = Some (Returned a, w') ->
  m w = Some (Returned a, w') \/
  exists e w1, m w = Some (Threw e, w1) /\
               handler e w1 = Some (Returned a, w').
Proof.
  unfold Pipeline.catch. destruct (m w) as [[[x|e] w1]|]; try discriminate.
  - intro H. now left.
  - intro H. right. now exists e, w1.
Qed.

Lemma classified_changes (errorTypes : list jsstring)
      (changes : list Advanced.Change) (index : nat) :
  map detectedChange (Pipeline.classified errorTypes changes index)
  = map changeFound changes /\
  (Forall (fun c => Advanced.confidence c = 8 # 10) changes ->
   Forall (fun e => Pipeline.Detected.confidence e = 8 # 10)
          (Pipeline.classified errorTypes changes index)).
Proof.
  revert index; induction changes as [|c l IH]; intro index;
    [split; [reflexivity|constructor]|].
  destruct (IH (S index)) as [A B].
  cbn [Pipeline.classified map]. rewrite A. split; [reflexivity|].
  intro F. inversion F as [|x y E F']; subst.
  constructor; [|now apply B].
  cbn [Pipeline.Detected.confidence]. now rewrite E.
Qed.

Lemma unclassified_changes (changes : list Advanced.Change) (index : nat) :
  map detectedChange (Pipeline.unclassified changes index)
  = map changeFound changes /\
  Forall (fun e => Pipeline.Detected.confidence e = 7 # 10)
         (Pipeline.unclassified changes index).
Proof.
  revert index; induction changes as [|c l IH]; intro index;
    [split; [reflexivity|constructor]|].
  destruct (IH (S index)) as [A B].
  cbn [Pipeline.unclassified map]. rewrite A.
  split; [reflexivity|constructor; [reflexivity|exact B]].
Qed.

Lemma findTextChanges_confidence (original corrected : jsstring) :
  Forall (fun c => Advanced.confidence c = 8 # 10)
         (Advanced.findTextChanges original corrected).
Proof.
  apply Forall_forall. intros c H. unfold Advanced.findTextChanges in H.
  apply walk_In in H as (i & a & b & _ & _ & _ & ->). reflexivity.
Qed.

(** What [classifyErrors] can return. *)
Lemma classifyErrors_reports (fuel : nat) (up : Hf.upstream)
      (original corrected : jsstring) (w w' : Hf.world)
      (a : Pipeline.ErrorAnalysis) :
  Pipeline.classifyErrors fuel up original corrected w
  = Some (Returned a, w') ->
  exists errors,
    a = Pipeline.analysed errors /\
    (errors = [] \/
     map detectedChange errors
     = map changeFound (Advanced.findTextChanges original corrected)) /\
    (Forall (fun e => Pipeline.Detected.confidence e = 8 # 10) errors \/
     Forall (fun e => Pipeline.Detected.confidence e = 7 # 10) errors).
Proof.
  unfold Pipeline.classifyErrors. intro H.
  apply catch_inversion in H as [H | (e & w1 & _ & H)].
  - apply bind_inversion in H as ([|first rest] & w1 & _ & H).
    + injection H as <- _. exists []. split; [reflexivity|].
      split; [now left|left; constructor].
    + destruct (Hf.generated_text first) as [classification|];
        [|discriminate].
      injection H as <- _. eexists. split; [reflexivity|].
      destruct (classified_changes
                  (Pipeline.parseErrorClassification classification)
                  (Advanced.findTextChanges original corrected) 0) as [A B].
      split; [now right|left].
      apply B, findTextChanges_confidence.
  - injection H as <- _. eexists. split; [reflexivity|].
    destruct (unclassified_changes
                (Advanced.findTextChanges original corrected) 0) as [A B].
    split; [now right|now right].
Qed.

Lemma formatCorrections_changes (errors : list Pipeline.Detected.t)
      (explanations : list Pipeline.Explanation) :
  map changeOf (Pipeline.formatCorrections errors explanations)
  = map detectedChange errors /\
  map Pipeline.Formatted.category
      (Pipeline.formatCorrections errors explanations)
  = map Pipeline.Detected.category errors /\
  map Pipeline.Formatted.confidence
      (Pipeline.formatCorrections errors explanations)
  = map (fun e => round (Pipeline.Detected.confidence e * 100)%Q) errors.
Proof.
  unfold Pipeline.formatCorrections. rewrite !map_map.
  repeat split; apply map_ext; reflexivity.
Qed.

Lemma main_result_consistent (fuel : nat) (up : Hf.upstream) (elapsed : Z)
      (text : jsstring) (w w' : Hf.world) (r : Pipeline.Result) :
  Pipeline.correctText fuel up elapsed text w
  = Some (Returned (Pipeline.Main r), w') ->
  consistent text r.
Proof.
  unfold Pipeline.correctText.
  destruct (Advanced.inputGuard text); [discriminate|]. intro H.
  apply catch_inversion in H as [H | (e & w1 & _ & H)]; [|discriminate].
  apply bind_inversion in H as (correctionResult & w1 & _ & H).
  apply bind_inversion in H as (errorAnalysis & w2 & C & H).
  apply bind_inversion in H as (confidenceResult & w3 & _ & H).
  apply bind_inversion in H as (explanations & w4 & _ & H).
  injection H as <- _.
  apply classifyErrors_reports in C as (errors & -> & E & F).
  destruct (formatCorrections_changes errors explanations) as (A & B & D).
  unfold consistent.
  cbn [Pipeline.originalText Pipeline.resultText Pipeline.corrections
       Pipeline.analysis Pipeline.statistics Pipeline.errorCategories
       Pipeline.totalErrors Pipeline.originalLength Pipeline.correctedLength
       Pipeline.statisticsConfidenceScore Pipeline.confidenceScore
       Pipeline.qualityScore Pipeline.errors Pipeline.errorTypesFound
       Pipeline.analysed].
  split; [reflexivity|]. split.
  { destruct E as [-> | E]; [now left|right]. now rewrite A. }
  split.
  { assert (G : forall q z,
               Forall (fun e => Pipeline.Detected.confidence e = q) errors ->
               round (q * 100)%Q = z ->
               Forall (fun c => Pipeline.Formatted.confidence c = z)
                      (Pipeline.formatCorrections errors explanations)).
    { intros q z Q R. unfold Pipeline.formatCorrections.
      apply Forall_map. revert Q. apply Forall_impl. intros x Q.
      cbn [Pipeline.formatCorrection Pipeline.Formatted.confidence].
      now rewrite Q. }
    destruct F as [F | F].
    - exists 80. split; [now left|]. now apply (G (8 # 10)).
    - exists 70. split; [now right|]. now apply (G (7 # 10)). }
  split; [apply dedupe_NoDup|]. split.
  { intro category. rewrite setOf_In, <- B, in_map_iff.
    split; intros (c & X & Y); exists c; tauto. }
  split.
  { unfold Pipeline.formatCorrections. now rewrite length_map. }
  repeat split.
Qed.



(** ** Health checks *)

Lemma truthy_keeps (o : option jsstring) (s : jsstring) :
  Hf.truthy o = Some s -> o = Some s.
Proof. destruct o as [[|c t]|]; simpl; congruence. Qed.

(** X20.  Once UniversalGrammarService has been constructed (which needs an
    API key), its health check reports healthy, and the controller answers
    the health request with 200, whatever the upstream does, even when no
    request gets through: the check corrects a test sentence, which
    [correctText] never fails to do.  The check costs between 1 and 50
    requests to the upstream. *)
Theorem health_check_does_not_see_the_upstream
        (engine : Universal.RegExpEngine) (elapsed : Z) (up : Hf.upstream)
        (HUGGINGFACE_API_KEY : option jsstring)
        (service : UniversalHealth.Service) (w : Hf.world) :
  UniversalHealth.construct HUGGINGFACE_API_KEY = Returned service ->
  exists w',
    ControllerHealth.healthCheck
      (UniversalHealth.healthCheck engine elapsed up service) w
    = (ControllerHealth.mkReply 200 true (js "healthy")
                                UniversalHealth.healthy, w') /\
    (Hf.calls w < Hf.calls w' <= Hf.calls w + 50)%nat.
Proof.
  unfold UniversalHealth.construct.
  destruct (Hf.truthy HUGGINGFACE_API_KEY) as [key|] eqn:K; [|discriminate].
  intro H. injection H as <-.
  assert (T : len (trim (js "test sentence")) <> 0) by (vm_compute; discriminate).
  assert (L : len (js "test sentence") <= 15000) by (vm_compute; discriminate).
  destruct (universal_correctText_returns engine elapsed up
              (js "test sentence") w T L) as (r & w' & C).
  pose proof (universal_correctText_cost engine elapsed up
                (js "test sentence") w) as Cost.
  cbv zeta in Cost. rewrite C in Cost. cbn [snd] in Cost.
  destruct Cost as (a & b & A & E & _ & B & _ & P).
  specialize (P T L).
  exists w'. split; [|lia].
  unfold ControllerHealth.healthCheck, UniversalHealth.healthCheck.
  cbn [UniversalHealth.apiKey]. rewrite K, C. reflexivity.
Qed.

Lemma health_check_does_not_see_the_upstream_witness :
  exists w',
    ControllerHealth.healthCheck
      (UniversalHealth.healthCheck noMatch 7 unreachable
         (UniversalHealth.mkService (Some (js "hf_key")))) Hf.start
    = (ControllerHealth.mkReply 200 true (js "healthy")
                                UniversalHealth.healthy, w') /\
    (Hf.calls Hf.start < Hf.calls w' <= Hf.calls Hf.start + 50)%nat.
Proof.
  apply (health_check_does_not_see_the_upstream noMatch 7 unreachable
           (Some (js "hf_key"))).
  reflexivity.
Defined.

(** ** The error handler *)

Lemma orStatus_nonzero (a : option Z) (b : Z) :
  b <> 0 -> Middleware.orStatus a b <> 0.
Proof. intro B. destruct a as [[|p|p]|]; simpl; auto; discriminate. Qed.

Lemma orStatus_cases (a : option Z) (b : Z) :
  Middleware.orStatus a b = b \/ a = Some (Middleware.orStatus a b).
Proof. destruct a as [[|p|p]|]; simpl; auto. Qed.

Lemma orMessage_nonempty (a b : jsstring) :
  b <> [] -> Middleware.orMessage a b <> [].
Proof. intro B. destruct a; simpl; [exact B|discriminate]. Qed.

(** What [classify] leaves in the local [error]. *)
Lemma classify_cases (err : Middleware.Thrown) (message : jsstring)
      (statusCode : option Z) :
  Middleware.classify err = Returned (message, statusCode) ->
  statusCode = Middleware.statusCode err \/
  In statusCode [Some 404; Some 400; Some 401; Some 503; Some 408].
Proof.
  unfold Middleware.classify.
  destruct (eqb (Middleware.name err) (js "ValidationError"));
    [destruct (Middleware.errors err); [|discriminate]|];
    destruct (eqb (Middleware.name err) (js "CastError"));
    destruct (Middleware.codeIsNumber (Middleware.code err) 11000);
    destruct (eqb (Middleware.name err) (js "JsonWebTokenError"));
    destruct (eqb (Middleware.name err) (js "TokenExpiredError"));
    destruct (Middleware.codeIs (Middleware.code err) "ECONNREFUSED"
              || Middleware.codeIs (Middleware.code err) "ENOTFOUND");
    destruct (Middleware.codeIs (Middleware.code err) "ECONNABORTED");
    intro H; injection H as <- <-; simpl; tauto.
Qed.

Lemma classify_throws (err : Middleware.Thrown) :
  (exists e, Middleware.classify err = Threw e) <->
  eqb (Middleware.name err) (js "ValidationError") = true /\
  Middleware.errors err = None.
Proof.
  unfold Middleware.classify.
  destruct (eqb (Middleware.name err) (js "ValidationError"));
    [destruct (Middleware.errors err)|]; split.
  all: try (intros [e H]; discriminate).
  all: try (intros [A B]; discriminate).
  - intros _. now split.
  - intros _. eexists. reflexivity.
Qed.

(** X21.  The error handler answers every error, except a ValidationError
    without [errors], on which it throws itself.  Its answer has
    [success: false], the status of the body equal to the status of the
    response, a status that is never 0 and is 404, 400, 401, 503, 408, 500
    or the error's own [statusCode], and a message that is never empty; the
    stack is sent in development only.  A timed-out request (code
    ECONNABORTED) is answered 408 whatever else the error says, and an
    error made by [new Error(message)] is answered 500 with its message. *)
Theorem error_handler_answers
        (development : bool) (method originalUrl : jsstring)
        (err : Middleware.Thrown) :
  let handled :=
    Middleware.errorHandler development method originalUrl err in
  ((exists e, handled = Threw e) <->
   eqb (Middleware.name err) (js "ValidationError") = true /\
   Middleware.errors err = None) /\
  (forall response,
      handled = Returned response ->
      Middleware.success response = false /\
      Middleware.metaStatusCode response = Middleware.status response /\
      Middleware.status response <> 0 /\
      (In (Middleware.status response) [404; 400; 401; 503; 408; 500] \/
       Middleware.statusCode err = Some (Middleware.status response)) /\
      Middleware.errorMessage response <> [] /\
      (Middleware.debug response <> None <-> development = true) /\
      (Middleware.codeIs (Middleware.code err) "ECONNABORTED" = true ->
       Middleware.status response = 408 /\
       Middleware.errorMessage response = js "Request timeout")) /\
  (forall message stack,
      Middleware.errorHandler development method originalUrl
                              (plainError message stack)
      = Returned
          {| Middleware.status := 500;
             Middleware.success := false;
             Middleware.errorMessage :=
               Middleware.orMessage message (js "Internal server error");
             Middleware.debug :=
               if development
               then Some (stack, plainError message stack) else None;
             Middleware.endpoint := method ++ js " " ++ originalUrl;
             Middleware.metaStatusCode := 500 |}).
Proof.
  intro handled. split; [|split].
  - rewrite <- classify_throws. subst handled.
    unfold Middleware.errorHandler.
    destruct (Middleware.classify err) as [[m s]|e]; split;
      intros [x H]; try discriminate; eexists; reflexivity.
  - intros response H. subst handled. unfold Middleware.errorHandler in H.
    destruct (Middleware.classify err) as [[m s]|e] eqn:C; [|discriminate].
    injection H as <-.
    cbn [Middleware.success Middleware.metaStatusCode Middleware.status
         Middleware.errorMessage Middleware.debug].
    split; [reflexivity|]. split; [reflexivity|]. split.
    { apply orStatus_nonzero, orStatus_nonzero. discriminate. }
    split.
    { destruct (orStatus_cases s
                  (Middleware.orStatus (Middleware.statusCode err) 500))
        as [E | E].
      - rewrite E.
        destruct (orStatus_cases (Middleware.statusCode err) 500) as [F | F].
        + rewrite F. left. simpl. tauto.
        + now right.
      - destruct (classify_cases err m s C) as [D | D].
        + right. subst s. exact E.
        + left. set (x := Middleware.orStatus s _) in *. clearbody x.
          simpl in D. simpl.
          destruct D as [D | [D | [D | [D | [D | []]]]]];
            rewrite E in D; injection D as D; auto 7. }
    split; [apply orMessage_nonempty; discriminate|]. split.
    { destruct development; split; intro; congruence. }
    intro A. unfold Middleware.classify in C. rewrite A in C.
    destruct (eqb (Middleware.name err) (js "ValidationError"));
      [destruct (Middleware.errors err); [|discriminate]|];
      injection C as <- <-; split; reflexivity.
  - intros message stack. reflexivity.
Qed.

(** ** The text box *)

Lemma len_firstn_le {A} (n : nat) (l : list A) :
  Z.of_nat (List.length (firstn n l)) = Z.min (Z.of_nat n) (Z.of_nat (List.length l)).
Proof. rewrite length_firstn. lia. Qed.

Lemma slice_prefix (s : jsstring) (n : Z) :
  0 < n <= len s -> slice s 0 n = firstn (Z.to_nat n) s /\ len (slice s 0 n) = n.
Proof.
  intros [P L]. unfold slice, sliceIndex.
  change (0 <? 0) with false. cbv beta iota zeta.
  destruct (n <? 0) eqn:E; [apply Z.ltb_lt in E; lia|].
  pose proof (len_nonneg s) as N.
  rewrite (Z.min_l 0 (len s)) by lia. rewrite (Z.min_l n (len s)) by lia.
  rewrite Z.sub_0_r. change (Z.to_nat 0) with 0%nat. cbn [skipn].
  split; [reflexivity|].
  unfold len in *. rewrite length_firstn. lia.
Qed.

Lemma handlePaste_within (text pastedText : jsstring) :
  len text <= TextInput.maxLength ->
  len (snd (TextInput.handlePaste text pastedText)) <= TextInput.maxLength.
Proof.
  intro L. unfold TextInput.handlePaste. cbv zeta.
  destruct (TextInput.maxLength <? len (text ++ pastedText)) eqn:E;
    [|exact L].
  apply Z.ltb_lt in E. rewrite len_app in E. cbn [snd].
  destruct (0 <? TextInput.maxLength - len text) eqn:R; [|exact L].
  apply Z.ltb_lt in R.
  destruct (slice_prefix pastedText (TextInput.maxLength - len text))
    as [_ S]; [lia|].
  rewrite len_app, S. lia.
Qed.

Lemma handle_within (text : jsstring) (e : TextInput.Event) :
  len text <= TextInput.maxLength ->
  len (TextInput.handle text e) <= TextInput.maxLength.
Proof.
  intro L. destruct e as [value|pastedText|index|]; cbn [TextInput.handle].
  - unfold TextInput.handleTextChange.
    destruct (len value <=? TextInput.maxLength) eqn:E; [|exact L].
    now apply Z.leb_le in E.
  - now apply handlePaste_within.
  - destruct index as [|[|[|index]]]; cbn [nth_error TextInput.sampleTexts];
      try (vm_compute; discriminate).
    destruct index; exact L.
  - vm_compute. discriminate.
Qed.

Lemma after_within (events : list TextInput.Event) :
  len (TextInput.after events) <= TextInput.maxLength.
Proof.
  unfold TextInput.after.
  assert (G : forall text, len text <= TextInput.maxLength ->
                           len (fold_left TextInput.handle events text)
                           <= TextInput.maxLength).
  { induction events as [|e l IH]; intros text L; [exact L|].
    cbn [fold_left]. apply IH. now apply handle_within. }
  apply G. vm_compute. discriminate.
Qed.

(** X22.  Whatever is typed, pasted, loaded or cleared, the text of the box
    never grows beyond 20000 characters, so the box is never shown as over
    the limit and [grammarAPI.correctText] sends every text of the box that
    is not blank.  A paste that would take the text beyond the limit is
    cut: what fits is appended at the end and the text is then exactly
    20000 characters long. *)
Theorem text_box_stays_within_the_limit (events : list TextInput.Event) :
  let text := TextInput.after events in
  len text <= 20000 /\
  TextInput.isOverLimit text = false /\
  (forall post,
      len (trim text) <> 0 ->
      Api.correctText post text = Api.request (post (trim text))) /\
  (forall pastedText,
      20000 < len text + len pastedText ->
      len text < 20000 ->
      exists kept,
        TextInput.handlePaste text pastedText = (true, text ++ kept) /\
        kept = firstn (Z.to_nat (20000 - len text)) pastedText /\
        len (text ++ kept) = 20000).
Proof.
  intro text. pose proof (after_within events) as L. fold text in L.
  change TextInput.maxLength with 20000 in L.
  split; [exact L|]. split.
  { unfold TextInput.isOverLimit. change TextInput.maxLength with 20000.
    apply Z.ltb_ge. exact L. }
  split.
  { intros post T. unfold Api.correctText.
    pose proof (trim_nonempty _ T) as N.
    destruct (len text =? 0) eqn:E0; [apply Z.eqb_eq in E0; contradiction|].
    destruct (len (trim text) =? 0) eqn:E1;
      [apply Z.eqb_eq in E1; contradiction|].
    destruct (20000 <? len text) eqn:E2; [apply Z.ltb_lt in E2; lia|].
    reflexivity. }
  intros pastedText O R. unfold TextInput.handlePaste. cbv zeta.
  change TextInput.maxLength with 20000.
  rewrite len_app.
  destruct (20000 <? len text + len pastedText) eqn:E;
    [|apply Z.ltb_ge in E; lia].
  destruct (0 <? 20000 - len text) eqn:P; [|apply Z.ltb_ge in P; lia].
  destruct (slice_prefix pastedText (20000 - len text)) as [S1 S2]; [lia|].
  exists (slice pastedText 0 (20000 - len text)).
  split; [reflexivity|]. split; [exact S1|].
  rewrite len_app, S2. lia.
Qed.

(** ** From the page to the service and back *)

Lemma apiCorrectText_sends (post : jsstring -> Api.Exchange)
      (text : jsstring) :
  len (trim text) <> 0 -> len text <= 20000 ->
  Api.correctText post text = Api.request (post (trim text)).
Proof.
  intros T L. unfold Api.correctText.
  pose proof (trim_nonempty _ T) as N.
  destruct (len text =? 0) eqn:E0; [apply Z.eqb_eq in E0; contradiction|].
  destruct (len (trim text) =? 0) eqn:E1;
    [apply Z.eqb_eq in E1; contradiction|].
  destruct (20000 <? len text) eqn:E2; [apply Z.ltb_lt in E2; lia|].
  reflexivity.
Qed.

Lemma handleCorrection_sends (post : jsstring -> Api.Exchange)
      (page : Checker.Page) :
  len (trim (Checker.text page)) <> 0 -> len (Checker.text page) <= 20000 ->
  Checker.handleCorrection post page
  = match Api.request (post (trim (Checker.text page))) with
    | Returned (Api.FromController (Controller.Success data meta)) =>
        corrected page data
    | Returned _ => Checker.failed page (js "Invalid response format")
    | Threw err => Checker.failed page (errorMessage err)
    end.
Proof.
  intros T L. unfold Checker.handleCorrection.
  destruct (len (trim (Checker.text page)) =? 0) eqn:E;
    [apply Z.eqb_eq in E; contradiction|].
  now rewrite apiCorrectText_sends.
Qed.

Lemma controller_refuses_long_text
      (service : jsstring -> Hf.world ->
                 completion Universal.Result * Hf.world)
      (MAX_TEXT_LENGTH : option Z) (totalTime : Z) (text : jsstring)
      (w : Hf.world) :
  len (trim text) <> 0 ->
  Controller.maxLength MAX_TEXT_LENGTH < len text ->
  Controller.correctText service MAX_TEXT_LENGTH totalTime
                         (Controller.JString text) w
  = (Controller.Json 400
       (Controller.Failure
          (Controller.mkErrorBody
             (js "Text too long")
             (js "Maximum "
              ++ Controller.decimal (Controller.maxLength MAX_TEXT_LENGTH)
              ++ js " characters allowed")
             (Some (len text)))), w).
Proof.
  intros T L. pose proof (trim_nonempty _ T) as N.
  unfold Controller.correctText. cbn [Controller.falsy].
  destruct (len text =? 0) eqn:E0; [apply Z.eqb_eq in E0; contradiction|].
  destruct (len (trim text) =? 0) eqn:E1;
    [apply Z.eqb_eq in E1; contradiction|].
  destruct (Controller.maxLength MAX_TEXT_LENGTH <? len text) eqn:E2;
    [reflexivity|apply Z.ltb_ge in E2; lia].
Qed.

Lemma universal_refuses_long_text (engine : Universal.RegExpEngine)
      (elapsed : Z) (up : Hf.upstream) (text : jsstring) (w : Hf.world) :
  len (trim text) <> 0 -> 15000 < len text ->
  Universal.correctText engine elapsed up text w
  = (Threw (newError (js "Text too long. Maximum 15,000 characters.")), w).
Proof.
  intros T L. pose proof (trim_nonempty _ T) as N.
  unfold Universal.correctText.
  destruct (len text =? 0) eqn:E0; [apply Z.eqb_eq in E0; contradiction|].
  destruct (len (trim text) =? 0) eqn:E1;
    [apply Z.eqb_eq in E1; contradiction|].
  destruct (15000 <? len text) eqn:E2;
    [reflexivity|apply Z.ltb_ge in E2; lia].
Qed.

Lemma trimmed_nonempty (text : jsstring) :
  len (trim text) <> 0 -> len (trim (trim text)) <> 0.
Proof. now rewrite trim_idempotent. Qed.

(** X23.  A text that the box accepts (at most 20000 characters) but that
    is longer than 15000 characters once trimmed is refused by the server
    under its default limit, before any request to the upstream, with
    status 400 and the reason in the body; the page does not show that
    reason: the body carries [error] as a string, the client looks for
    [error.message], and the page ends with the error
    AI Error: Invalid request. Please check your input. *)
Theorem long_text_is_refused_without_its_reason
        (engine : Universal.RegExpEngine) (elapsed : Z) (up : Hf.upstream)
        (totalTime : Z) (development : bool) (originalUrl stack : jsstring)
        (page : Checker.Page) (w : Hf.world) :
  15000 < len (trim (Checker.text page)) ->
  len (Checker.text page) <= 20000 ->
  let served :=
    Server.correct engine elapsed up None totalTime development originalUrl
                   stack in
  served (trim (Checker.text page)) w
  = (Api.Responded 400
       (Api.FromController
          (Controller.Failure
             (Controller.mkErrorBody
                (js "Text too long")
                (js "Maximum 15000 characters allowed")
                (Some (len (trim (Checker.text page))))))), w) /\
  Checker.handleCorrection (fun text => fst (served text w)) page
  = Checker.failed page (js "Invalid request. Please check your input.").
Proof.
  intros T L served.
  assert (T0 : len (trim (Checker.text page)) <> 0) by lia.
  assert (S : served (trim (Checker.text page)) w
              = (Api.Responded 400
                   (Api.FromController
                      (Controller.Failure
                         (Controller.mkErrorBody
                            (js "Text too long")
                            (js "Maximum 15000 characters allowed")
                            (Some (len (trim (Checker.text page))))))), w)).
  { subst served. unfold Server.correct.
    rewrite controller_refuses_long_text;
      [reflexivity|now apply trimmed_nonempty|exact T]. }
  split; [exact S|].
  rewrite handleCorrection_sends by assumption.
  cbv beta. rewrite S. reflexivity.
Qed.

Lemma trim_letters (n : nat) : trim (repeat 97%N n) = repeat 97%N n.
Proof.
  assert (F : forall k, trimStart (repeat 97%N k) = repeat 97%N k)
    by (intro k; apply trimStart_fixed; now destruct k).
  unfold trim, trimEnd. now rewrite F, rev_repeat, F, rev_repeat.
Qed.

Lemma tooLong_trimmed : len (trim tooLong) = 15001.
Proof.
  unfold tooLong. rewrite trim_letters. unfold len.
  rewrite repeat_length. now rewrite Z2Nat.id.
Qed.

Lemma long_text_is_refused_without_its_reason_witness :
  let page := Checker.mkPage tooLong None false None [] in
  let served :=
    Server.correct noMatch 7 unreachable None 9 false (js "/api/correct")
                   [] in
  served (trim (Checker.text page)) Hf.start
  = (Api.Responded 400
       (Api.FromController
          (Controller.Failure
             (Controller.mkErrorBody
                (js "Text too long")
                (js "Maximum 15000 characters allowed")
                (Some (len (trim (Checker.text page))))))), Hf.start) /\
  Checker.handleCorrection (fun text => fst (served text Hf.start)) page
  = Checker.failed page (js "Invalid request. Please check your input.").
Proof.
  assert (T : 15000 < len (trim tooLong))
    by (rewrite tooLong_trimmed; reflexivity).
  assert (L : len tooLong <= 20000) by (vm_compute; discriminate).
  exact (long_text_is_refused_without_its_reason
           noMatch 7 unreachable 9 false (js "/api/correct") []
           (Checker.mkPage tooLong None false None []) Hf.start T L).
Defined.

(** ** The request boundary, with the service behind it *)

Lemma letters_length (n : Z) :
  0 <= n -> len (repeat 97%N (Z.to_nat n)) = n.
Proof. intro P. unfold len. rewrite repeat_length. now apply Z2Nat.id. Qed.

(** C5, as amended.  Request validation at the boundary, with
    UniversalGrammarService behind the controller, for every state of the
    world and whatever the upstream answers.  When the configured maximum
    is at most 15000 (it is 15000 when none is configured), a text whose
    length is exactly the maximum is accepted and processed: the service
    returns a result for it after at least one request to the upstream
    and at most 50, and the reply is 200 with the texts, the corrections,
    the analysis and the statistics of that result, which count the
    corrections and hold the lengths of the two texts.  When the
    configured maximum is above 15000, a text of exactly that length is not
    processed: the controller lets it through, the guard of the service,
    which is fixed at 15000, throws, and the handler ends in next(error)
    without a request to the upstream.  A text of length maximum + 1 is
    answered 400 and the world is left as it was, whatever service is
    behind the controller; so is a text that is missing, not a string or
    empty once trimmed.  The guard of AdvancedHuggingFaceGrammarService
    accepts exactly the texts that are not empty once trimmed and at most
    15000 characters long. *)
Theorem validation_boundary
        (engine : Universal.RegExpEngine) (elapsed : Z) (up : Hf.upstream)
        (MAX_TEXT_LENGTH : option Z) (totalTime : Z) (w : Hf.world) :
  let maximum := Controller.maxLength MAX_TEXT_LENGTH in
  let handler :=
    Controller.correctText (Universal.correctText engine elapsed up)
                           MAX_TEXT_LENGTH totalTime in
  Controller.maxLength None = 15000 /\
  (forall text,
      len (trim text) <> 0 -> len text = maximum -> maximum <= 15000 ->
      exists result w',
        Universal.correctText engine elapsed up text w
        = (Returned result, w') /\
        handler (Controller.JString text) w
        = (Controller.Json 200
             (Controller.Success
                (Controller.mkData
                   text
                   (Universal.correctedText result)
                   (Universal.corrections result)
                   (Universal.analysis result)
                   (Universal.statistics result)
                   totalTime)
                (Controller.mkMeta
                   totalTime
                   (negb (eqb text (Universal.correctedText result)))
                   (Universal.serviceUsed result)
                   [Universal.serviceUsed result])), w') /\
        Universal.totalErrors (Universal.statistics result)
        = Universal.count (Universal.corrections result) /\
        Universal.correctedErrors (Universal.statistics result)
        = Universal.count (Universal.corrections result) /\
        Universal.originalLength (Universal.statistics result) = len text /\
        Universal.correctedLength (Universal.statistics result)
        = len (Universal.correctedText result) /\
        (Hf.calls w + 1 <= Hf.calls w' <= Hf.calls w + 50)%nat) /\
  (forall text,
      len (trim text) <> 0 -> len text = maximum -> 15000 < maximum ->
      handler (Controller.JString text) w
      = (Controller.Next
           (newError (js "Text too long. Maximum 15,000 characters.")), w)) /\
  (forall service text,
      len (trim text) <> 0 -> len text = maximum + 1 ->
      Controller.correctText service MAX_TEXT_LENGTH totalTime
                             (Controller.JString text) w
      = (Controller.Json 400
           (Controller.Failure
              (Controller.mkErrorBody
                 (js "Text too long")
                 (js "Maximum " ++ Controller.decimal maximum
                  ++ js " characters allowed")
                 (Some (len text)))), w)) /\
  (forall service v,
      invalidText v ->
      Controller.status
        (fst (Controller.correctText service MAX_TEXT_LENGTH totalTime v w))
      = Some 400 /\
      snd (Controller.correctText service MAX_TEXT_LENGTH totalTime v w)
      = w) /\
  (forall text,
      Advanced.inputGuard text = None <->
      len (trim text) <> 0 /\ len text <= 15000).
Proof.
  intros maximum handler.
  split; [reflexivity|]. split; [|split; [|split; [|split]]].
  - intros text T L M.
    destruct (universal_correctText_returns engine elapsed up text w T)
      as (r & w' & E); [lia|].
    pose proof (universal_result_wellBuilt _ _ _ _ _ _ _ E) as B.
    pose proof (universal_correctText_cost engine elapsed up text w) as K.
    cbv zeta in K. rewrite E in K. cbn [snd] in K.
    destruct K as (attempts & retries & [K1 K2] & K3 & _ & K4 & _ & K5).
    destruct B as (O & _ & _ & B1 & B2 & _ & B3 & B4 & _ & _ & U).
    exists r, w'. split; [exact E|]. split.
    { subst handler.
      rewrite controller_accepts by (assumption || (fold maximum; lia)).
      unfold replyTo. rewrite E. unfold Controller.success.
      rewrite O, U. reflexivity. }
    repeat (split; [assumption|]).
    specialize (K5 T ltac:(lia)). lia.
  - intros text T L M. subst handler.
    rewrite controller_accepts by (assumption || (fold maximum; lia)).
    unfold replyTo.
    rewrite universal_refuses_long_text by (assumption || lia).
    reflexivity.
  - intros service text T L. apply controller_refuses_long_text; [exact T|].
    fold maximum. lia.
  - intros service v I. now apply controller_rejects_invalid.
  - apply inputGuard_accepts.
Qed.

(** C5 as stated fails for a maximum configured above 15000: with
    MAX_TEXT_LENGTH=20000 a text of exactly 20000 letters passes the
    controller, is refused by the service and ends in next(error), which
    the error handler answers with 500. *)
Lemma validation_boundary_counterexample :
  len atRaisedLimit = Controller.maxLength (Some 20000) /\
  Controller.correctText (Universal.correctText noMatch 7 always503)
    (Some 20000) 9 (Controller.JString atRaisedLimit) Hf.start
  = (Controller.Next
       (newError (js "Text too long. Maximum 15,000 characters.")),
     Hf.start) /\
  exists response,
    Server.correct noMatch 7 always503 (Some 20000) 9 false
                   (js "/api/correct") [] atRaisedLimit Hf.start
    = (Api.Responded 500 (Api.FromMiddleware response), Hf.start).
Proof.
  assert (L : len atRaisedLimit = 20000) by (now apply letters_length).
  assert (T : len (trim atRaisedLimit) <> 0).
  { unfold atRaisedLimit. rewrite trim_letters.
    fold atRaisedLimit. rewrite L. discriminate. }
  assert (H : Controller.correctText
                (Universal.correctText noMatch 7 always503)
                (Some 20000) 9 (Controller.JString atRaisedLimit) Hf.start
              = (Controller.Next
                   (newError
                      (js "Text too long. Maximum 15,000 characters.")),
                 Hf.start)).
  { rewrite controller_accepts by (assumption || (rewrite L; discriminate)).
    unfold replyTo.
    rewrite universal_refuses_long_text
      by (assumption || (rewrite L; reflexivity)).
    reflexivity. }
  split; [exact L|]. split; [exact H|].
  unfold Server.correct. rewrite H. eexists. reflexivity.
Qed.

Lemma validation_boundary_witness :
  (exists result w',
      Universal.correctText noMatch 7 always503 atLimit Hf.start
      = (Returned result, w') /\
      Controller.status
        (fst (Controller.correctText
                (Universal.correctText noMatch 7 always503) None 9
                (Controller.JString atLimit) Hf.start)) = Some 200 /\
      Universal.originalLength (Universal.statistics result)
      = len atLimit /\
      (1 <= Hf.calls w' <= 50)%nat) /\
  Controller.correctText fixedService (Some 5) 12
    (Controller.JString (js "a b cd")) Hf.start =
  (Controller.Json 400
     (Controller.Failure
        (Controller.mkErrorBody (js "Text too long")
           (js "Maximum 5 characters allowed") (Some 6))), Hf.start) /\
  Controller.status
    (fst (Controller.correctText fixedService (Some 5) 12
            (Controller.JString (js "   ")) Hf.start)) = Some 400.
Proof.
  assert (L : len atLimit = 15000) by (now apply letters_length).
  assert (T : len (trim atLimit) <> 0).
  { unfold atLimit. rewrite trim_letters. fold atLimit. rewrite L.
    discriminate. }
  split; [|split].
  - destruct (validation_boundary noMatch 7 always503 None 9 Hf.start)
      as (_ & Accept & _).
    destruct (Accept atLimit T L ltac:(discriminate))
      as (result & w' & E & R & _ & _ & O & _ & C).
    exists result, w'. split; [exact E|]. rewrite R.
    split; [reflexivity|]. split; [exact O|exact C].
  - destruct (validation_boundary noMatch 7 always503 (Some 5) 12 Hf.start)
      as (_ & _ & _ & Long & _).
    exact (Long fixedService (js "a b cd") ltac:(discriminate)
                ltac:(reflexivity)).
  - destruct (validation_boundary noMatch 7 always503 (Some 5) 12 Hf.start)
      as (_ & _ & _ & _ & Invalid & _).
    exact (proj1 (Invalid fixedService (Controller.JString (js "   "))
                    ltac:(reflexivity))).
Defined.

(** ** What the page shows *)

Lemma found_is_not_excellent (n c : Z) : Checker.found n c <> Checker.excellent.
Proof. unfold Checker.found, Checker.excellent. cbn [app]. discriminate. Qed.



(** X25.  A limit configured above 15000 characters is not honoured: the
    controller lets a longer text through, the service refuses it, the
    error reaches the error handler, which answers 500 with the message of
    the service, and the page ends with the error
    AI Error: Server error. Please try again later.  No request is sent to
    the upstream. *)
Theorem raised_limit_is_not_honoured
        (engine : Universal.RegExpEngine) (elapsed : Z) (up : Hf.upstream)
        (maximum totalTime : Z) (development : bool)
        (originalUrl stack : jsstring) (page : Checker.Page) (w : Hf.world) :
  15000 < len (trim (Checker.text page)) <= maximum ->
  len (Checker.text page) <= 20000 ->
  let served :=
    Server.correct engine elapsed up (Some maximum) totalTime development
                   originalUrl stack in
  exists response,
    served (trim (Checker.text page)) w
    = (Api.Responded 500 (Api.FromMiddleware response), w) /\
    Middleware.errorMessage response
    = js "Text too long. Maximum 15,000 characters." /\
    Checker.handleCorrection (fun text => fst (served text w)) page
    = Checker.failed page (js "Server error. Please try again later.").
Proof.
  intros [T M] L served.
  assert (T0 : len (trim (Checker.text page)) <> 0) by lia.
  pose proof (trimmed_nonempty _ T0) as TT.
  assert (S : exists response,
             served (trim (Checker.text page)) w
             = (Api.Responded 500 (Api.FromMiddleware response), w) /\
             Middleware.errorMessage response
             = js "Text too long. Maximum 15,000 characters.").
  { subst served. unfold Server.correct.
    rewrite controller_accepts by (assumption || (cbn; lia)).
    unfold replyTo. rewrite universal_refuses_long_text by assumption.
    eexists. split; reflexivity. }
  destruct S as (response & S & E). exists response.
  split; [exact S|]. split; [exact E|].
  rewrite handleCorrection_sends by assumption.
  cbv beta. rewrite S. reflexivity.
Qed.

Lemma raised_limit_is_not_honoured_witness :
  let page := Checker.mkPage tooLong None false None [] in
  let served :=
    Server.correct noMatch 7 unreachable (Some 20000) 9 false
                   (js "/api/correct") [] in
  exists response,
    served (trim (Checker.text page)) Hf.start
    = (Api.Responded 500 (Api.FromMiddleware response), Hf.start) /\
    Middleware.errorMessage response
    = js "Text too long. Maximum 15,000 characters." /\
    Checker.handleCorrection (fun text => fst (served text Hf.start)) page
    = Checker.failed page (js "Server error. Please try again later.").
Proof.
  assert (T : 15000 < len (trim tooLong) <= 20000)
    by (rewrite tooLong_trimmed; split; [reflexivity|discriminate]).
  assert (L : len tooLong <= 20000) by (vm_compute; discriminate).
  exact (raised_limit_is_not_honoured
           noMatch 7 unreachable 20000 9 false (js "/api/correct") []
           (Checker.mkPage tooLong None false None []) Hf.start T L).
Defined.

(** ** The improvement score *)

Lemma round_of_integer (x : Q) (z : Z) : (x == inject_Z z)%Q -> round x = z.
Proof.
  intro E. unfold round.
  assert (F : (x + (1 # 2) == inject_Z z + (1 # 2))%Q) by now rewrite E.
  rewrite (Qfloor_comp _ _ F).
  unfold Qfloor, Qplus, inject_Z. cbn [Qnum Qden].
  rewrite Z.mul_1_l. change (Z.pos (1 * 2)) with 2.
  replace (z * 2 + 1) with (1 + z * 2) by lia.
  rewrite Z.div_add by discriminate. reflexivity.
Qed.

(** X26.  For every result that [correctText] of UniversalGrammarService
    returns, the improvement score shown with it is 100 when the result has
    a correction and 0 when it has none: the total and the corrected count
    it is computed from are the same number. *)
Theorem improvement_score_is_all_or_nothing
        (engine : Universal.RegExpEngine) (elapsed : Z) (up : Hf.upstream)
        (text : jsstring) (w w' : Hf.world) (r : Universal.Result) :
  Universal.correctText engine elapsed up text w = (Returned r, w') ->
  Display.improvementScore (Universal.statistics r)
  = match Universal.corrections r with
    | [] => 0
    | _ => 100
    end.
Proof.
  intro C.
  destruct (universal_result_wellBuilt engine elapsed up text w w' r C)
    as (_ & _ & _ & TE & CE & _).
  unfold Display.improvementScore. cbv zeta. rewrite TE, CE.
  unfold Universal.count.
  destruct (Universal.corrections r) as [|c l].
  - reflexivity.
  - set (n := Z.of_nat (List.length (c :: l))).
    assert (P : 0 < n) by (subst n; simpl; lia).
    replace (n - (n - n)) with n by lia.
    rewrite Z.max_l by lia.
    apply round_of_integer.
    assert (N : ~ (inject_Z n == 0)%Q).
    { unfold Qeq, inject_Z. cbn [Qnum Qden]. lia. }
    unfold Qdiv. rewrite Qmult_inv_r by exact N. reflexivity.
Qed.

Lemma improvement_score_is_all_or_nothing_witness :
  Display.improvementScore
    (Universal.statistics
       (Universal.useIntelligentPatterns noMatch (js "i am happy")))
  = match
      Universal.corrections
        (Universal.useIntelligentPatterns noMatch (js "i am happy"))
    with
    | [] => 0
    | _ => 100
    end.
Proof.
  apply (improvement_score_is_all_or_nothing
           noMatch 7 unreachable (js "i am happy") Hf.start
           (advance 25 Hf.start)).
  vm_compute. reflexivity.
Defined.

(** ** The rule-based fallback *)

Lemma subsequence_nil {A : Type} (b : list A) : subsequence [] b.
Proof. destruct b; simpl; auto. Qed.

Lemma subsequence_skip {A : Type} (a b : list A) (y : A) :
  subsequence a b -> subsequence a (y :: b).
Proof. intro H. destruct a; simpl; auto. Qed.

Lemma subsequence_length {A : Type} (a b : list A) :
  subsequence a b -> (List.length a <= List.length b)%nat.
Proof.
  revert a; induction b as [|y b IH]; intros a H.
  - simpl in H. subst. simpl. lia.
  - destruct a as [|x a]; [simpl; lia|].
    simpl in H. destruct H as [[_ H] | H].
    + apply IH in H. simpl. lia.
    + apply IH in H. simpl in *. lia.
Qed.

Lemma fold_applyRule_fired (rules : list (jsstring * jsstring))
      (text : jsstring) (corrections : list Advanced.Correction) :
  exists fired,
    subsequence fired rules /\
    snd (fold_left Advanced.applyRule rules (text, corrections))
    = corrections ++ map ruleCorrection fired /\
    (fired = [] <->
     Forall (fun rule => includes text (fst rule) = false) rules) /\
    (fired = [] ->
     fst (fold_left Advanced.applyRule rules (text, corrections)) = text).
Proof.
  revert text corrections;
    induction rules as [|[wrong right_] rules IH]; intros text corrections.
  - exists []. cbn [fold_left fst snd map]. rewrite app_nil_r.
    repeat split; auto.
  - cbn [fold_left].
    assert (A : Advanced.applyRule (text, corrections) (wrong, right_)
                = if includes text wrong
                  then (Advanced.replaceLiteral wrong right_ 0 text,
                        corrections
                        ++ [Advanced.mkCorrection wrong right_
                              (js "Grammar rule: " ++ wrong
                               ++ [32; 8594; 32]%N ++ right_)
                              (js "Grammar") 85])
                  else (text, corrections)) by reflexivity.
    rewrite A. clear A.
    destruct (includes text wrong) eqn:I.
    + destruct (IH (Advanced.replaceLiteral wrong right_ 0 text)
                   (corrections
                    ++ [Advanced.mkCorrection wrong right_
                          (js "Grammar rule: " ++ wrong ++ [32; 8594; 32]%N
                           ++ right_) (js "Grammar") 85]))
        as (fired & S & C & _).
      exists ((wrong, right_) :: fired). split; [simpl; auto|].
      split; [rewrite C, <- app_assoc; reflexivity|].
      split; [|discriminate].
      split; [discriminate|].
      intro F. inversion F as [|x l H]; subst. cbn [fst] in H. congruence.
    + destruct (IH text corrections) as (fired & S & C & E & T).
      exists fired. split; [now apply subsequence_skip|].
      split; [exact C|]. split; [|exact T].
      rewrite E. split.
      * intro F. constructor; [exact I|exact F].
      * intro F. now inversion F.
Qed.

(** X27.  The rule-based fallback of AdvancedHuggingFaceGrammarService
    reports the rules that fired, in the order of its table and each at
    most once, so at most 17 corrections, every one of category Grammar
    with confidence 85.  It reports none exactly when no rule's phrase
    occurs in the text as written, and then returns the text as it is.
    The converse fails: a correction does not mean a change. *)
Theorem fallback_reports_the_rules_that_fired (text : jsstring) :
  let result := Advanced.fallbackCorrection text in
  (exists fired,
      subsequence fired Advanced.rules /\
      Advanced.corrections result = map ruleCorrection fired) /\
  (List.length (Advanced.corrections result) <= 17)%nat /\
  (Advanced.corrections result = [] <->
   Forall (fun rule => includes text (fst rule) = false) Advanced.rules) /\
  (Advanced.corrections result = [] -> Advanced.correctedText result = text) /\
  Advanced.totalErrors (Advanced.statistics result)
  = Z.of_nat (List.length (Advanced.corrections result)) /\
  exists unchanged,
    Advanced.corrections (Advanced.fallbackCorrection unchanged) <> [] /\
    Advanced.correctedText (Advanced.fallbackCorrection unchanged)
    = unchanged.
Proof.
  intro result. subst result. unfold Advanced.fallbackCorrection.
  destruct (fold_applyRule_fired Advanced.rules text [])
    as (fired & S & C & E & T).
  destruct (fold_left Advanced.applyRule Advanced.rules (text, []))
    as [corrected corrections].
  cbn [fst snd app] in C, T.
  cbn [Advanced.corrections Advanced.correctedText Advanced.statistics
       Advanced.totalErrors].
  subst corrections.
  split; [now exists fired|]. split.
  { rewrite length_map. apply subsequence_length in S.
    exact S. }
  split.
  { rewrite <- E. split; intro H.
    - destruct fired; [reflexivity|discriminate].
    - now subst. }
  split.
  { intro H. apply T. destruct fired; [reflexivity|discriminate]. }
  split; [reflexivity|].
  exists (js "a university"). split; [vm_compute; discriminate|].
  vm_compute. reflexivity.
Qed.
